(** * A shallow embedding of the terminal window manager [wm]

    The development follows the Go sources: the geometry value types
    (Position, Size, Rectangle), the set-property handler lists, the
    per-button mouse state machine, application termination, and the
    window tree with its invalidation and paint engine.

    Go's [int] is a 64-bit two's complement integer; it is modelled as a
    [Z] and every addition and subtraction of the source is written with
    its wrap-around ([iadd], [isub]). *)

From Stdlib Require Import ZArith Lia Bool String.
From stdpp Require Import base option list.

Local Open Scope Z_scope.

(** ** Machine integers *)

Definition int_min : Z := - 2 ^ 63.
Definition int_max : Z := 2 ^ 63 - 1.

Definition wrap (z : Z) : Z := (z + 2 ^ 63) mod 2 ^ 64 - 2 ^ 63.

Definition iadd (a b : Z) : Z := wrap (a + b).
Definition isub (a b : Z) : Z := wrap (a - b).

Definition in_int (z : Z) : Prop := int_min <= z <= int_max.

(** ** Geometry (geometry file of package wm) *)

Record Position := mkPosition { X : Z; Y : Z }.
Record Size := mkSize { Width : Z; Height : Z }.
Record Rectangle := mkRectangle { Pos : Position; Sz : Size }.

Definition Position_eqb (p q : Position) : bool :=
  (X p =? X q) && (Y p =? Y q).
Definition Size_eqb (s t : Size) : bool :=
  (Width s =? Width t) && (Height s =? Height t).
Definition Rectangle_eqb (r s : Rectangle) : bool :=
  Position_eqb (Pos r) (Pos s) && Size_eqb (Sz r) (Sz s).

Definition zeroPosition : Position := mkPosition 0 0.
Definition zeroSize : Size := mkSize 0 0.
Definition zeroRectangle : Rectangle := mkRectangle zeroPosition zeroSize.

(** mathutil.Min and mathutil.Max of github.com/cznic/mathutil. *)
Definition Min (a b : Z) : Z := if a <? b then a else b.
Definition Max (a b : Z) : Z := if a >? b then a else b.

(** [func (s *Size) IsZero() bool] *)
Definition IsZero (s : Size) : bool := (Width s <=? 0) || (Height s <=? 0).

(** [func (r *Rectangle) Has(p Position) bool] *)
Definition Has (r : Rectangle) (p : Position) : bool :=
  (X p >=? X (Pos r)) && (X p <? iadd (X (Pos r)) (Width (Sz r))) &&
  (Y p >=? Y (Pos r)) && (Y p <? iadd (Y (Pos r)) (Height (Sz r))).

(** [func (p Position) In(r Rectangle) bool] *)
Definition In (p : Position) (r : Rectangle) : bool := Has r p.

(** Modelled from the spec: the methods [Position.add] and [Position.sub]
    are called by the window code but their bodies are not among the
    sources; they are the coordinate-wise sum and difference used to
    translate a point between coordinate spaces. *)
Definition add (p q : Position) : Position :=
  mkPosition (iadd (X p) (X q)) (iadd (Y p) (Y q)).
Definition sub (p q : Position) : Position :=
  mkPosition (isub (X p) (X q)) (isub (Y p) (Y q)).

(** [func NewRectangle(x1, y1, x2, y2 int) Rectangle] *)
Definition NewRectangle (x1 y1 x2 y2 : Z) : Rectangle :=
  let '(x1, x2) := if x1 >? x2 then (x2, x1) else (x1, x2) in
  let '(y1, y2) := if y1 >? y2 then (y2, y1) else (y1, y2) in
  mkRectangle (mkPosition x1 y1)
              (mkSize (iadd (isub x2 x1) 1) (iadd (isub y2 y1) 1)).

(** Modelled from the spec: [interval.Intersection] of the package
    github.com/cznic/interval is not among the sources.  The package
    takes a left-closed interval [[a, b)] as proper, [a < b], and does
    not check it.  Two such intervals have an intersection of class
    Empty when one of them ends at or before the start of the other;
    otherwise the intersection runs from the larger left end to the
    smaller right end and stays left-closed.  On proper operands this is
    the intersection of the two sets of integers.  An operand with
    [b <= a] can give an interval without an element that is not of
    class Empty: [[0, 10)] and [[5, 5)] give [[5, 5)].  [None] stands
    for the Empty class. *)
Definition Intersection (a1 b1 a2 b2 : Z) : option (Z * Z) :=
  if (b1 <=? a2) || (b2 <=? a1) then None
  else Some (Max a1 a2, Min b1 b2).

(** [func (r *Rectangle) Clip(s Rectangle) bool]: the receiver after the
    call and the returned boolean.  When the result is [false] the source
    leaves the receiver as it was. *)
Definition Clip (r s : Rectangle) : Rectangle * bool :=
  match Intersection (X (Pos r)) (iadd (X (Pos r)) (Width (Sz r)))
                     (X (Pos s)) (iadd (X (Pos s)) (Width (Sz s))) with
  | None => (r, false)
  | Some (hA, hB) =>
    match Intersection (Y (Pos r)) (iadd (Y (Pos r)) (Height (Sz r)))
                       (Y (Pos s)) (iadd (Y (Pos s)) (Height (Sz s))) with
    | None => (r, false)
    | Some (vA, vB) =>
      (mkRectangle (mkPosition hA vA) (mkSize (isub hB hA) (isub vB vA)), true)
    end
  end.

(** [func (r *Rectangle) join(s Rectangle)]: the receiver after the call.
    The four assignments are sequential, so the second and the fourth
    read the [X] and [Y] already updated by the first and the third. *)
Definition join (r s : Rectangle) : Rectangle :=
  if IsZero (Sz s) then r
  else if IsZero (Sz r) then s
  else
    let x := Min (X (Pos r)) (X (Pos s)) in
    let w := isub (Max (iadd x (Width (Sz r)))
                       (iadd (X (Pos s)) (Width (Sz s)))) x in
    let y := Min (Y (Pos r)) (Y (Pos s)) in
    let h := isub (Max (iadd y (Height (Sz r)))
                       (iadd (Y (Pos s)) (Height (Sz s)))) y in
    mkRectangle (mkPosition x y) (mkSize w h).

Definition rect (x y w h : Z) : Rectangle :=
  mkRectangle (mkPosition x y) (mkSize w h).


(** ** Mouse button state machine (mouseButtonFSM) *)

Module Mouse.

Inductive mbState := mbsIdle | mbsDown | mbsUp | mbsDown2 | mbsDrag.

(** [m.timeout] is a receive-only channel.  [time.After] yields a fresh
    channel that delivers exactly one value ([chanPending] until it is
    received); a nil channel and a channel whose value was already
    received never become ready in a [select]. *)
Inductive timerChan := chanNil | chanPending | chanDrained.

(** The parts of a [tcell.EventMouse] that [run] reads. *)
Record EventMouse := mkEventMouse
  { Buttons : Z; Modifiers : Z; PositionX : Z; PositionY : Z }.

Inductive mouseKind :=
  mouseClick | mouseDoubleClick | mouseDrag | mouseDrop | mouseMove.

(** [eventMouse], as built by [newEventMouse(kind, button, mods, pos)]. *)
Record eventMouse := newEventMouse
  { kind : mouseKind; ebutton : Z; emods : Z; epos : Position }.

Record mouseButtonFSM := mkFSM
  { button : Z; mods : Z; pos : Position;
    state : mbState; timeout : timerChan }.

(** [newMouseButtonFSM(button)], without the goroutine start. *)
Definition newMouseButtonFSM (b : Z) : mouseButtonFSM :=
  mkFSM b 0 zeroPosition mbsIdle chanNil.

(** Which case of the [select] statement fires. *)
Inductive input := InMouse (e : EventMouse) | InTimeout | InQuit.

(** Result of one iteration of the [for] loop of [run]:
    the next machine and the events posted to the screen queue,
    the return on [quit], or no progress because the chosen channel
    is not ready. *)
Inductive outcome :=
| Next (m : mouseButtonFSM) (posted : list eventMouse)
| Returned
| NotReady.

Definition with_state (m : mouseButtonFSM) (s : mbState) (t : timerChan) :=
  mkFSM (button m) (mods m) (pos m) s t.

(** One iteration of the loop of [func (m *mouseButtonFSM) run()].
    [click] and [doubleClick] are [App.ClickDuration()] and
    [App.DoubleClickDuration()]. *)
Definition step (click doubleClick : Z) (m : mouseButtonFSM) (i : input)
  : outcome :=
  match i with
  | InQuit => Returned
  | InTimeout =>
    match timeout m with
    | chanPending =>
      match state m with
      | mbsIdle => Next (with_state m mbsIdle chanNil) []
      | mbsDown =>
        Next (with_state m mbsDrag chanDrained)
             [newEventMouse mouseDrag (button m) (mods m) (pos m)]
      | mbsUp =>
        Next (with_state m mbsIdle chanNil)
             [newEventMouse mouseClick (button m) (mods m) (pos m)]
      | mbsDown2 => Next (with_state m mbsDown2 chanNil) []
      | mbsDrag => Next (with_state m mbsDrag chanNil) []
      end
    | _ => NotReady
    end
  | InMouse e =>
    let up := Z.land (Buttons e) (button m) =? 0 in
    match state m with
    | mbsIdle =>
      if up then Next m []
      else Next (mkFSM (button m) (Modifiers e)
                       (mkPosition (PositionX e) (PositionY e))
                       mbsDown chanPending) []
    | mbsDown =>
      if up then
        if negb (doubleClick =? 0) then Next (with_state m mbsUp chanPending) []
        else Next (with_state m mbsIdle chanNil)
                  [newEventMouse mouseClick (button m) (mods m) (pos m)]
      else Next (with_state m mbsIdle (timeout m)) []
    | mbsUp =>
      if up then Next (with_state m mbsIdle (timeout m)) []
      else Next (with_state m mbsDown2 (timeout m))
                [newEventMouse mouseDoubleClick (button m) (mods m) (pos m)]
    | mbsDown2 => Next (with_state m mbsIdle (timeout m)) []
    | mbsDrag =>
      if up then
        Next (with_state m mbsIdle chanNil)
             [newEventMouse mouseDrop (button m) (Modifiers e)
                            (mkPosition (PositionX e) (PositionY e))]
      else Next (with_state m mbsIdle (timeout m)) []
    end
  end.

(** The loop of [run] over a sequence of select outcomes; the posted
    events are collected in queue order. *)
Fixpoint run (click doubleClick : Z) (m : mouseButtonFSM) (ins : list input)
  : option (mouseButtonFSM * list eventMouse) :=
  match ins with
  | [] => Some (m, [])
  | i :: ins =>
    match step click doubleClick m i with
    | Next m' out =>
      match run click doubleClick m' ins with
      | Some (m'', out') => Some (m'', out ++ out')
      | None => None
      end
    | Returned | NotReady => None
    end
  end.

Definition isPress (m : mouseButtonFSM) (e : EventMouse) : Prop :=
  Z.land (Buttons e) (button m) <> 0.
Definition isRelease (m : mouseButtonFSM) (e : EventMouse) : Prop :=
  Z.land (Buttons e) (button m) = 0.

End Mouse.

(** ** Application termination (Exit, finalize, Wait) *)

Module Term.

(** A Go [error]; [None] is nil. *)
Definition error := option string.

(** The fields of [Application] that termination uses.  [wait] is the
    content of the channel [make(chan error, 1)].  [blocked] says that a
    caller is parked inside [onceWait.Do] on the receive from [wait];
    [parked] counts later callers of [Wait] that sync.Once holds back
    until that first call completes.  [finiCalls], [sends] and [recvs]
    count the executions of [screen.Fini()], of the send [a.wait <- err]
    and of the receive [<-a.wait]; [returned] lists the values that
    calls of [Wait] handed back, in order of return. *)
Record Application := mkApp
  { onceFinalize : bool; onceExit : bool; onceWait : bool;
    wait : list error; exitError : error;
    blocked : bool; parked : nat;
    finiCalls : nat; sends : nat; recvs : nat;
    returned : list error }.

(** State after [newApplication]. *)
Definition newApplication : Application :=
  mkApp false false false [] None false 0 0 0 0 [].

(** [func (a *Application) finalize()] *)
Definition finalize (a : Application) : Application :=
  if onceFinalize a then a
  else mkApp true (onceExit a) (onceWait a) (wait a) (exitError a)
             (blocked a) (parked a) (S (finiCalls a)) (sends a) (recvs a)
             (returned a).

(** [func (a *Application) Exit(err error)].  The send cannot block:
    the channel has capacity one and [onceExit] admits one send. *)
Definition Exit (err : error) (a : Application) : Application :=
  let a := finalize a in
  if onceExit a then a
  else mkApp (onceFinalize a) true (onceWait a) (wait a ++ [err])
             (exitError a) (blocked a) (parked a) (finiCalls a)
             (S (sends a)) (recvs a) (returned a).

(** The receive [err = <-a.wait] inside [onceWait.Do], when a value is
    available: it completes the first call of [Wait] and releases the
    callers that sync.Once held back, which return [a.exitError]. *)
Definition receive (a : Application) : option Application :=
  match wait a with
  | [] => None
  | v :: rest =>
    Some (mkApp (onceFinalize a) (onceExit a) (onceWait a) rest
                (exitError a) false 0 (finiCalls a) (sends a)
                (S (recvs a))
                (returned a ++ v :: replicate (parked a) (exitError a)))
  end.

(** Entering [func (a *Application) Wait() error]. *)
Definition Wait (a : Application) : Application :=
  if onceWait a then
    if blocked a then
      mkApp (onceFinalize a) (onceExit a) (onceWait a) (wait a)
            (exitError a) (blocked a) (S (parked a)) (finiCalls a)
            (sends a) (recvs a) (returned a)
    else
      mkApp (onceFinalize a) (onceExit a) (onceWait a) (wait a)
            (exitError a) (blocked a) (parked a) (finiCalls a)
            (sends a) (recvs a) (returned a ++ [exitError a])
  else
    let a' := mkApp (onceFinalize a) (onceExit a) true (wait a)
                    (exitError a) true (parked a) (finiCalls a)
                    (sends a) (recvs a) (returned a) in
    match receive a' with
    | Some a'' => a''
    | None => a'
    end.

(** What the goroutines of the program do to the application, one
    atomic action at a time. *)
Inductive action :=
| CallExit (err : error)
| CallFinalize
| CallWait
| Wake.   (* the parked receiver is scheduled *)

Definition act (a : Application) (x : action) : Application :=
  match x with
  | CallExit err => Exit err a
  | CallFinalize => finalize a
  | CallWait => Wait a
  | Wake => if blocked a then
              match receive a with Some a' => a' | None => a end
            else a
  end.

Definition exec (xs : list action) (a : Application) : Application :=
  fold_left act xs a.

(** The error of the first [Exit] call of a schedule. *)
Fixpoint firstExit (xs : list action) : option error :=
  match xs with
  | [] => None
  | CallExit e :: _ => Some e
  | _ :: xs => firstExit xs
  end.

End Term.

(** ** Window tree, desktops and the application object

    Go pointers to windows and desktops are indices into the two stores of
    the program state; a nil pointer is [None].  Windows are appended to
    the store when they are created, so a window is always created after
    its parent. *)

Notation "'do' x <- m ; k" :=
  (match m with Some x => k | None => None end)
  (at level 10, x name, m at level 100, k at level 200,
   format "'[v' 'do'  x  <-  m ; '/' k ']'").

Abbreviation WinId := nat.
Abbreviation DeskId := nat.

(** The paint stages of [Window.paint], one handler list each. *)
Inductive PaintStage :=
| StClearBorders | StBorderTop | StTitle | StBorderLeft
| StClearClientArea | StPaintClientArea | StPaintChildren
| StBorderRight | StBorderBottom.

Definition PaintStage_eqb (a b : PaintStage) : bool :=
  match a, b with
  | StClearBorders, StClearBorders | StBorderTop, StBorderTop
  | StTitle, StTitle | StBorderLeft, StBorderLeft
  | StClearClientArea, StClearClientArea
  | StPaintClientArea, StPaintClientArea
  | StPaintChildren, StPaintChildren
  | StBorderRight, StBorderRight | StBorderBottom, StBorderBottom => true
  | _, _ => false
  end.

(** [type PaintContext struct { Rectangle; origin Position; view Position }] *)
Record PaintContext := mkPaintContext
  { ctxRectangle : Rectangle; origin : Position; ctxView : Position }.

(** The paint handlers the model can install in a list.  [Builtin] is the
    handler that [newWindow] installs for the stage (it panics when it is
    given a previous handler).  [Observer tag] is a handler written as the
    package documentation and tests write them: it calls [prev] when
    [prev] is not nil and then records the context it was given. *)
Inductive PaintHandler := Builtin | Observer (tag : nat).

Record Window := mkWindow
  { borderBottom : Z; borderLeft : Z; borderRight : Z; borderTop : Z;
    children : list WinId;          (* in z-order *)
    clientArea : Rectangle;
    closeButton : bool;
    desktop : DeskId;
    paintHandlers : PaintStage -> list PaintHandler;  (* head first *)
    parent : option WinId;
    position : Position;
    selection : Rectangle;          (* root window only *)
    size : Size;
    title : string;
    view : Position }.

Record Desktop := mkDesktop
  { invalidated : Rectangle; root : WinId; updateLevel : Z }.

(** What the program does to the outside, in order: a paint handler ran
    on a window with a context, the selection was toggled on the screen,
    the screen was flushed ([screen.Show()]).  The cells a built-in paint
    handler writes inside its context are not part of the model. *)
Inductive Event :=
| EvPaint (stage : PaintStage) (w : WinId) (ctx : PaintContext)
| EvObserve (tag : nat) (w : WinId) (ctx : PaintContext)
| EvSelection (area : Rectangle)
| EvShow.

Record State := mkState
  { windows : list Window;
    desktops : list Desktop;
    app_desktop : option DeskId;    (* Application.desktop *)
    app_size : Size;                (* Application.size *)
    app_updateLevel : Z;            (* Application.updateLevel, int32 *)
    log : list Event }.

Definition wrap32 (z : Z) : Z := (z + 2 ^ 31) mod 2 ^ 32 - 2 ^ 31.

Definition setWindows (ws : list Window) (st : State) : State :=
  mkState ws (desktops st) (app_desktop st) (app_size st)
          (app_updateLevel st) (log st).
Definition setDesktops (ds : list Desktop) (st : State) : State :=
  mkState (windows st) ds (app_desktop st) (app_size st)
          (app_updateLevel st) (log st).
Definition setAppDesktop (d : option DeskId) (st : State) : State :=
  mkState (windows st) (desktops st) d (app_size st)
          (app_updateLevel st) (log st).
Definition setAppSize (s : Size) (st : State) : State :=
  mkState (windows st) (desktops st) (app_desktop st) s
          (app_updateLevel st) (log st).
Definition setAppUpdateLevel (n : Z) (st : State) : State :=
  mkState (windows st) (desktops st) (app_desktop st) (app_size st)
          n (log st).
Definition logEvent (e : Event) (st : State) : State :=
  mkState (windows st) (desktops st) (app_desktop st) (app_size st)
          (app_updateLevel st) (log st ++ [e]).

(** Assignment to one window of the store. *)
Definition updWindow (w : WinId) (f : Window -> Window) (st : State)
  : option State :=
  do win <- windows st !! w;
  Some (setWindows (<[w := f win]> (windows st)) st).

Definition updDesktop (d : DeskId) (f : Desktop -> Desktop) (st : State)
  : option State :=
  do dsk <- desktops st !! d;
  Some (setDesktops (<[d := f dsk]> (desktops st)) st).

Definition withSize (s : Size) (w : Window) : Window :=
  mkWindow (borderBottom w) (borderLeft w) (borderRight w) (borderTop w)
           (children w) (clientArea w) (closeButton w) (desktop w)
           (paintHandlers w) (parent w) (position w) (selection w)
           s (title w) (view w).
Definition withClientArea (r : Rectangle) (w : Window) : Window :=
  mkWindow (borderBottom w) (borderLeft w) (borderRight w) (borderTop w)
           (children w) r (closeButton w) (desktop w)
           (paintHandlers w) (parent w) (position w) (selection w)
           (size w) (title w) (view w).
Definition withView (p : Position) (w : Window) : Window :=
  mkWindow (borderBottom w) (borderLeft w) (borderRight w) (borderTop w)
           (children w) (clientArea w) (closeButton w) (desktop w)
           (paintHandlers w) (parent w) (position w) (selection w)
           (size w) (title w) p.
Definition withPosition (p : Position) (w : Window) : Window :=
  mkWindow (borderBottom w) (borderLeft w) (borderRight w) (borderTop w)
           (children w) (clientArea w) (closeButton w) (desktop w)
           (paintHandlers w) (parent w) p (selection w)
           (size w) (title w) (view w).
Definition withBorders (b l r t : Z) (w : Window) : Window :=
  mkWindow b l r t
           (children w) (clientArea w) (closeButton w) (desktop w)
           (paintHandlers w) (parent w) (position w) (selection w)
           (size w) (title w) (view w).
Definition withChildren (cs : list WinId) (w : Window) : Window :=
  mkWindow (borderBottom w) (borderLeft w) (borderRight w) (borderTop w)
           cs (clientArea w) (closeButton w) (desktop w)
           (paintHandlers w) (parent w) (position w) (selection w)
           (size w) (title w) (view w).
Definition withTitle (s : string) (w : Window) : Window :=
  mkWindow (borderBottom w) (borderLeft w) (borderRight w) (borderTop w)
           (children w) (clientArea w) (closeButton w) (desktop w)
           (paintHandlers w) (parent w) (position w) (selection w)
           (size w) s (view w).
Definition withCloseButton (b : bool) (w : Window) : Window :=
  mkWindow (borderBottom w) (borderLeft w) (borderRight w) (borderTop w)
           (children w) (clientArea w) b (desktop w)
           (paintHandlers w) (parent w) (position w) (selection w)
           (size w) (title w) (view w).
Definition withPaintHandlers (h : PaintStage -> list PaintHandler)
           (w : Window) : Window :=
  mkWindow (borderBottom w) (borderLeft w) (borderRight w) (borderTop w)
           (children w) (clientArea w) (closeButton w) (desktop w)
           h (parent w) (position w) (selection w)
           (size w) (title w) (view w).

Definition closeButtonOffset : Z := 4.

(** Area accessors of [Window]. *)
Definition Area (w : Window) : Rectangle := mkRectangle zeroPosition (size w).
Definition BorderBottomArea (w : Window) : Rectangle :=
  rect 0 (isub (Height (size w)) (borderBottom w))
       (Width (size w)) (borderBottom w).
Definition BorderLeftArea (w : Window) : Rectangle :=
  rect 0 0 (borderLeft w) (Height (size w)).
Definition BorderRightArea (w : Window) : Rectangle :=
  rect (isub (Width (size w)) (borderRight w)) 0
       (borderRight w) (Height (size w)).
Definition BorderTopArea (w : Window) : Rectangle :=
  rect 0 0 (Width (size w)) (borderTop w).
Definition ClientArea (w : Window) : Rectangle := clientArea w.
Definition ClientPosition (w : Window) : Position := Pos (clientArea w).
Definition ClientSize (w : Window) : Size := Sz (clientArea w).
Definition Origin (w : Window) : Position := view w.

(** *** Paint handler lists *)

(** [AddOnPaintHandler]: push a handler in front of a stage's list. *)
Definition AddOnPaintHandler (stage : PaintStage) (h : PaintHandler)
           (w : WinId) (st : State) : option State :=
  updWindow w
    (fun win =>
       withPaintHandlers
         (fun s => if PaintStage_eqb s stage
                   then h :: paintHandlers win s
                   else paintHandlers win s) win) st.

(** Calling the head of a paint handler list: every node passes the
    handler of the node behind it as [prev]. *)
Fixpoint callPaintChain (builtin : WinId -> PaintContext -> State -> option State)
         (l : list PaintHandler)
         (w : WinId) (ctx : PaintContext) (st : State) : option State :=
  match l with
  | [] => Some st
  | Builtin :: prev =>
    match prev with
    | [] => builtin w ctx st
    | _ :: _ => None                    (* panic("internal error") *)
    end
  | Observer tag :: prev =>
    do st <- callPaintChain builtin prev w ctx st;
    Some (logEvent (EvObserve tag w ctx) st)
  end.

(** The loop of [onPaintChildrenHandler] over the children in z-order. *)
Fixpoint paintChildren (paintf : WinId -> Rectangle -> State -> option State)
         (clPos : Position) (ctx : PaintContext) (cs : list WinId)
         (st : State) : option State :=
  match cs with
  | [] => Some st
  | c :: cs =>
    do cw <- windows st !! c;
    let chPos := add (position cw) clPos in
    let '(area, ok) := Clip (mkRectangle chPos (size cw)) (ctxRectangle ctx) in
    do st <- (if ok
              then paintf c (mkRectangle (sub (Pos area) chPos) (Sz area)) st
              else Some st);
    paintChildren paintf clPos ctx cs st
  end.

(** The handler [newWindow] installs for a stage.  The border, title and
    clear handlers write cells through [Window.SetCell]; the model
    records that they ran and leaves out the cells they write and what
    the updates of [SetCell] do to the invalidated rectangle of the
    desktop while a paint is running.  There is no built-in handler for
    the client area stage. *)
Definition builtinPaint (paintf : WinId -> Rectangle -> State -> option State)
           (stage : PaintStage) (w : WinId) (ctx : PaintContext) (st : State)
  : option State :=
  match stage with
  | StPaintChildren =>
    do win <- windows st !! w;
    paintChildren paintf (ClientPosition win) ctx (children win) st
  | StPaintClientArea => None
  | _ => Some (logEvent (EvPaint stage w ctx) st)
  end.

(** [func (l *OnPaintHandlerList) Handle(w *Window, ctx PaintContext)] for
    the list of [stage] of window [w]. *)
Definition HandlePaint (paintf : WinId -> Rectangle -> State -> option State)
           (stage : PaintStage) (w : WinId) (ctx : PaintContext) (st : State)
  : option State :=
  do win <- windows st !! w;
  match paintHandlers win stage with
  | [] => Some st
  | l => if IsZero (Sz (ctxRectangle ctx)) then Some st
         else callPaintChain (builtinPaint paintf stage) l w ctx st
  end.

(** One border stage of [paint]:
    [if a := a0; a.Clip(area) { list.Handle(w, PaintContext{a, a0.Position, Position{}}) }] *)
Definition paintStage (paintf : WinId -> Rectangle -> State -> option State)
           (stage : PaintStage) (w : WinId) (a0 area : Rectangle) (st : State)
  : option State :=
  let '(a, ok) := Clip a0 area in
  if ok then HandlePaint paintf stage w (mkPaintContext a (Pos a0) zeroPosition) st
  else Some st.

(** The title band of [paint]. *)
Definition titleArea (win : Window) : Rectangle :=
  let a0 := BorderTopArea win in
  let w1 := isub (Width (Sz a0)) 1 in
  let w2 := if closeButton win then isub w1 closeButtonOffset else w1 in
  rect (iadd (X (Pos a0)) 1) (Y (Pos a0)) w2 1.

(** The [for] loop of [paint] that runs while the desktop is inside
    BeginUpdate/EndUpdate: the area is carried up to the root window and
    joined into [d.invalidated]. *)
Fixpoint paintDeferred (fuel : nat) (d : DeskId) (w : WinId) (area : Rectangle)
         (st : State) : option State :=
  match fuel with
  | O => None
  | S fuel =>
    do win <- windows st !! w;
    match parent win with
    | None =>
      updDesktop d (fun dsk => mkDesktop (join (invalidated dsk) area)
                                         (root dsk) (updateLevel dsk)) st
    | Some p =>
      do pw <- windows st !! p;
      let area1 :=
          mkRectangle (add (add (Pos area) (position win))
                           (sub (ClientPosition pw) (Origin pw)))
                      (Sz area) in
      let '(area2, ok) := Clip area1 (ClientArea pw) in
      if ok then paintDeferred fuel d p area2 st else Some st
    end
  end.

(** The stages of [paint] once the area is known to be painted now. *)
Definition paintStages (paintf : WinId -> Rectangle -> State -> option State)
           (w : WinId) (area : Rectangle) (st : State) : option State :=
  do win <- windows st !! w;
  do st <- paintStage paintf StClearBorders w (Area win) area st;
  do win <- windows st !! w;
  do st <- paintStage paintf StBorderTop w (BorderTopArea win) area st;
  do win <- windows st !! w;
  do st <- (if negb (IsZero (Sz (BorderTopArea win)))
               && negb (String.eqb (title win) "")
            then paintStage paintf StTitle w (titleArea win) area st
            else Some st);
  do win <- windows st !! w;
  do st <- paintStage paintf StBorderLeft w (BorderLeftArea win) area st;
  do win <- windows st !! w;
  do st <- paintStage paintf StClearClientArea w (ClientArea win) area st;
  do win <- windows st !! w;
  do st <- (let a0 := ClientArea win in
            let '(a, ok) := Clip a0 area in
            if ok then
              let a := mkRectangle (add (Pos a) (view win)) (Sz a) in
              let ctx := mkPaintContext a (Pos a0) (view win) in
              do st <- HandlePaint paintf StPaintClientArea w ctx st;
              HandlePaint paintf StPaintChildren w ctx st
            else Some st);
  do win <- windows st !! w;
  do st <- paintStage paintf StBorderRight w (BorderRightArea win) area st;
  do win <- windows st !! w;
  paintStage paintf StBorderBottom w (BorderBottomArea win) area st.

(** [func (w *Window) paint(area Rectangle)] *)
Fixpoint paint (fuel : nat) (w : WinId) (area : Rectangle) (st : State)
  : option State :=
  match fuel with
  | O => None
  | S fuel =>
    do win <- windows st !! w;
    if IsZero (Sz area) then Some st else
    let '(area, ok) := Clip area (mkRectangle zeroPosition (size win)) in
    if negb ok then Some st else
    if negb (match app_desktop st with
             | Some d => Nat.eqb d (desktop win)
             | None => false
             end) then Some st else
    do d <- desktops st !! desktop win;
    if negb (updateLevel d =? 0)
    then paintDeferred fuel (desktop win) w area st
    else paintStages (paint fuel) w area st
  end.

(** *** Update nesting and invalidation *)

(** [func (a *Application) paintSelection()]: toggles reverse video over
    the selection of the active desktop. *)
Definition paintSelection (st : State) : option State :=
  match app_desktop st with
  | None => Some st
  | Some d =>
    do dsk <- desktops st !! d;
    do r <- windows st !! root dsk;
    if IsZero (Sz (selection r)) then Some st
    else Some (logEvent (EvSelection (selection r)) st)
  end.

(** [func (a *Application) beginUpdate()] *)
Definition Application_beginUpdate (st : State) : option State :=
  let lvl := wrap32 (app_updateLevel st + 1) in
  let st := setAppUpdateLevel lvl st in
  if lvl =? 1 then paintSelection st else Some st.

(** [func (a *Application) endUpdate()] *)
Definition Application_endUpdate (st : State) : option State :=
  let lvl := wrap32 (app_updateLevel st - 1) in
  let st := setAppUpdateLevel lvl st in
  if lvl =? 0
  then do st <- paintSelection st; Some (logEvent EvShow st)
  else Some st.

(** [func (w *Window) BeginUpdate()]; the receiver may be nil. *)
Definition BeginUpdate (w : option WinId) (st : State) : option State :=
  match w with
  | Some w =>
    do win <- windows st !! w;
    updDesktop (desktop win)
      (fun d => let lvl := iadd (updateLevel d) 1 in
                mkDesktop (if lvl =? 1 then zeroRectangle else invalidated d)
                          (root d) lvl) st
  | None => Application_beginUpdate st
  end.

(** [func (w *Window) EndUpdate()]; the receiver may be nil. *)
Definition EndUpdate (fuel : nat) (w : option WinId) (st : State)
  : option State :=
  match w with
  | Some w =>
    do win <- windows st !! w;
    do st <- updDesktop (desktop win)
               (fun d => mkDesktop (invalidated d) (root d)
                                   (isub (updateLevel d) 1)) st;
    do d <- desktops st !! desktop win;
    if (updateLevel d =? 0) && negb (IsZero (Sz (invalidated d))) then
      do st <- Application_beginUpdate st;
      do st <- paint fuel (root d) (invalidated d) st;
      Application_endUpdate st
    else Some st
  | None => Application_endUpdate st
  end.

(** [func (w *Window) Invalidate(area Rectangle)] *)
Definition Invalidate (fuel : nat) (w : WinId) (area : Rectangle) (st : State)
  : option State :=
  do win <- windows st !! w;
  let '(area, ok) := Clip area (mkRectangle zeroPosition (size win)) in
  if negb ok then Some st else
  do st <- BeginUpdate (Some w) st;
  do st <- paint fuel w area st;
  EndUpdate fuel (Some w) st.

(** [func (w *Window) InvalidateClientArea(area Rectangle)] *)
Definition InvalidateClientArea (fuel : nat) (w : WinId) (area : Rectangle)
           (st : State) : option State :=
  do win <- windows st !! w;
  let area := mkRectangle (sub (add (Pos area) (ClientPosition win)) (Origin win))
                          (Sz area) in
  let '(area, ok) := Clip area (clientArea win) in
  if negb ok then Some st else
  do st <- BeginUpdate (Some w) st;
  do st <- paint fuel w area st;
  EndUpdate fuel (Some w) st.

(** *** Set-property handler lists

    The source has one generated copy of the handler list per value type
    (int, bool, string, Position, Size, ...).  A kind gives the type of
    the values, Go's [==] on them, and the places a [dst] pointer of that
    type can point to. *)

Class SetKind (V L : Type) :=
  { veqb : V -> V -> bool;
    load : L -> State -> option V;            (* *dst *)
    store : L -> V -> State -> option State   (* *dst = src *) }.

(** A handler as user code sees its predecessor: called as
    [prev(w, nil, dst, src)]. *)
Definition PrevHandler (V L : Type) : Type :=
  option WinId -> L -> V -> State -> option State.

(** [type OnSetXHandler func(w *Window, prev OnSetXHandler, dst *X, src X)] *)
Definition Handler (V L : Type) : Type :=
  option WinId -> option (PrevHandler V L) -> L -> V -> State -> option State.

(** The [h] field of the head of a list built by [AddOnSetXHandler], head
    first: the first handler added is stored as it is, every later one is
    wrapped so that it receives the [h] of the node behind it. *)
Fixpoint chainHead {V L : Type} (l : list (Handler V L))
  : option (PrevHandler V L) :=
  match l with
  | [] => None
  | h :: prev => Some (fun w dst src => h w (chainHead prev) dst src)
  end.

(** [func (l *OnSetXHandlerList) Handle(w *Window, dst *X, src X)] *)
Definition Handle {V L : Type} `{SetKind V L} (fuel : nat)
           (l : list (Handler V L)) (w : option WinId) (dst : L) (src : V)
           (st : State) : option State :=
  do cur <- load dst st;
  if veqb cur src then Some st
  else match chainHead l with
       | None => store dst src st
       | Some h =>
         do st <- BeginUpdate w st;
         do st <- h w dst src st;
         EndUpdate fuel w st
       end.

Inductive SizeLoc := LSize (w : WinId) | LClientSize (w : WinId) | LAppSize.
Inductive PositionLoc := LPosition (w : WinId) | LView (w : WinId).
Inductive IntLoc :=
| LBorderBottom (w : WinId) | LBorderLeft (w : WinId)
| LBorderRight (w : WinId) | LBorderTop (w : WinId).
Inductive StringLoc := LTitle (w : WinId).
Inductive BoolLoc := LCloseButton (w : WinId).
Inductive DesktopLoc := LAppDesktop.

#[export] Instance SizeKind : SetKind Size SizeLoc :=
  {| veqb := Size_eqb;
     load l st :=
       match l with
       | LSize w => do win <- windows st !! w; Some (size win)
       | LClientSize w => do win <- windows st !! w; Some (Sz (clientArea win))
       | LAppSize => Some (app_size st)
       end;
     store l v st :=
       match l with
       | LSize w => updWindow w (withSize v) st
       | LClientSize w =>
         updWindow w (fun win =>
                        withClientArea (mkRectangle (Pos (clientArea win)) v) win) st
       | LAppSize => Some (setAppSize v st)
       end |}.

#[export] Instance PositionKind : SetKind Position PositionLoc :=
  {| veqb := Position_eqb;
     load l st :=
       match l with
       | LPosition w => do win <- windows st !! w; Some (position win)
       | LView w => do win <- windows st !! w; Some (view win)
       end;
     store l v st :=
       match l with
       | LPosition w => updWindow w (withPosition v) st
       | LView w => updWindow w (withView v) st
       end |}.

#[export] Instance IntKind : SetKind Z IntLoc :=
  {| veqb := Z.eqb;
     load l st :=
       match l with
       | LBorderBottom w => do win <- windows st !! w; Some (borderBottom win)
       | LBorderLeft w => do win <- windows st !! w; Some (borderLeft win)
       | LBorderRight w => do win <- windows st !! w; Some (borderRight win)
       | LBorderTop w => do win <- windows st !! w; Some (borderTop win)
       end;
     store l v st :=
       match l with
       | LBorderBottom w =>
         updWindow w (fun win => withBorders v (borderLeft win)
                                             (borderRight win) (borderTop win) win) st
       | LBorderLeft w =>
         updWindow w (fun win => withBorders (borderBottom win) v
                                             (borderRight win) (borderTop win) win) st
       | LBorderRight w =>
         updWindow w (fun win => withBorders (borderBottom win) (borderLeft win)
                                             v (borderTop win) win) st
       | LBorderTop w =>
         updWindow w (fun win => withBorders (borderBottom win) (borderLeft win)
                                             (borderRight win) v win) st
       end |}.

#[export] Instance StringKind : SetKind string StringLoc :=
  {| veqb := String.eqb;
     load l st := match l with LTitle w => do win <- windows st !! w; Some (title win) end;
     store l v st := match l with LTitle w => updWindow w (withTitle v) st end |}.

#[export] Instance BoolKind : SetKind bool BoolLoc :=
  {| veqb := Bool.eqb;
     load l st :=
       match l with LCloseButton w => do win <- windows st !! w; Some (closeButton win) end;
     store l v st :=
       match l with LCloseButton w => updWindow w (withCloseButton v) st end |}.

Definition optionNat_eqb (a b : option nat) : bool :=
  match a, b with
  | Some x, Some y => Nat.eqb x y
  | None, None => true
  | _, _ => false
  end.

#[export] Instance DesktopKind : SetKind (option DeskId) DesktopLoc :=
  {| veqb := optionNat_eqb;
     load l st := Some (app_desktop st);
     store l v st := Some (setAppDesktop v st) |}.

(** *** The handlers installed by [newWindow] and the setters

    Model windows carry the set-property handler lists that [newWindow]
    installs: one built-in handler per property. *)

Definition panicIfPrev {A B : Type} (prev : option A) (k : option B) : option B :=
  match prev with
  | Some _ => None                      (* panic("internal error") *)
  | None => k
  end.

(** [func (w *Window) onSetOriginHandler] *)
Definition onSetOriginHandler (fuel : nat) (w : WinId)
  : Handler Position PositionLoc :=
  fun _ prev dst src st =>
    panicIfPrev prev
      (do win <- windows st !! w;
       do st <- Invalidate fuel w (ClientArea win) st;
       store dst src st).

(** [func (w *Window) onSetPositionHandler] *)
Definition onSetPositionHandler (fuel : nat) (w : WinId)
  : Handler Position PositionLoc :=
  fun _ prev dst src st =>
    panicIfPrev prev
      (do win <- windows st !! w;
       do st <- Invalidate fuel w (Area win) st;
       do st <- store dst src st;
       do win <- windows st !! w;
       Invalidate fuel w (Area win) st).

(** [func (w *Window) onSetTitleHandler] *)
Definition onSetTitleHandler (fuel : nat) (w : WinId)
  : Handler string StringLoc :=
  fun _ prev dst src st =>
    panicIfPrev prev
      (do st <- store dst src st;
       do win <- windows st !! w;
       Invalidate fuel w (BorderTopArea win) st).

(** [func (w *Window) onSetCloseButtonHandler] *)
Definition onSetCloseButtonHandler (fuel : nat) (w : WinId)
  : Handler bool BoolLoc :=
  fun _ prev dst src st =>
    panicIfPrev prev
      (do st <- store dst src st;
       do win <- windows st !! w;
       Invalidate fuel w (BorderTopArea win) st).

(** [func (w *Window) onSetSizeHandler]; [SetClientSize] is the method it
    calls back. *)
Definition onSetSizeHandler (fuel : nat)
           (SetClientSize : WinId -> Size -> State -> option State)
           (w : WinId) : Handler Size SizeLoc :=
  fun _ prev dst src st =>
    panicIfPrev prev
      (let src := mkSize (Max 0 (Width src)) (Max 0 (Height src)) in
       do win <- windows st !! w;
       do st <- Invalidate fuel w (Area win) st;
       do st <- store dst src st;
       do win <- windows st !! w;
       let csz :=
           mkSize (Max 0 (isub (Width src)
                               (iadd (borderLeft win) (borderRight win))))
                  (Max 0 (isub (Height src)
                               (iadd (borderTop win) (borderBottom win)))) in
       do st <- SetClientSize w csz st;
       do win <- windows st !! w;
       Invalidate fuel w (Area win) st).

(** [func (w *Window) onSetClientSizeHandler]; [SetSize] is the method it
    calls back. *)
Definition onSetClientSizeHandler (fuel : nat)
           (SetSize : WinId -> Size -> State -> option State)
           (w : WinId) : Handler Size SizeLoc :=
  fun _ prev dst src st =>
    panicIfPrev prev
      (let src := mkSize (Max 0 (Width src)) (Max 0 (Height src)) in
       do win <- windows st !! w;
       do st <- Invalidate fuel w (Area win) st;
       do st <- store dst src st;
       do win <- windows st !! w;
       let wsz :=
           mkSize (iadd (iadd (borderLeft win) (Width src)) (borderRight win))
                  (iadd (iadd (borderTop win) (Height src)) (borderBottom win)) in
       let p := parent win in
       do st <- SetSize w wsz st;
       do win <- windows st !! w;
       match p with
       | Some _ => Invalidate fuel w (Area win) st
       | None => InvalidateClientArea fuel w (ClientArea win) st
       end).

(** The body of the exported [SetSize], [SetPosition] and
    [SetCloseButton]: [if w.parent != nil { ... }]. *)
Definition ifHasParent (w : WinId) (k : State -> option State) (st : State)
  : option State :=
  do win <- windows st !! w;
  match parent win with
  | Some _ => k st
  | None => Some st
  end.

(** [func (w *Window) setSize(s Size)] and
    [func (w *Window) SetClientSize(s Size)], which call each other
    through their handlers. *)
Fixpoint setSize (fuel : nat) (w : WinId) (s : Size) (st : State)
  : option State :=
  match fuel with
  | O => None
  | S fuel =>
    Handle fuel [onSetSizeHandler fuel (SetClientSize fuel) w]
           (Some w) (LSize w) s st
  end
with SetClientSize (fuel : nat) (w : WinId) (s : Size) (st : State)
  : option State :=
  match fuel with
  | O => None
  | S fuel =>
    Handle fuel
           [onSetClientSizeHandler fuel
              (fun w s => ifHasParent w (setSize fuel w s)) w]
           (Some w) (LClientSize w) s st
  end.

(** [func (w *Window) SetSize(s Size)] *)
Definition SetSize (fuel : nat) (w : WinId) (s : Size) (st : State)
  : option State :=
  ifHasParent w (setSize fuel w s) st.

(** [func (w *Window) SetOrigin(p Position)] *)
Definition SetOrigin (fuel : nat) (w : WinId) (p : Position) (st : State)
  : option State :=
  Handle fuel [onSetOriginHandler fuel w] (Some w) (LView w)
         (mkPosition (Max (X p) 0) (Max (Y p) 0)) st.

(** [func (w *Window) SetPosition(p Position)] *)
Definition SetPosition (fuel : nat) (w : WinId) (p : Position) (st : State)
  : option State :=
  ifHasParent w
    (Handle fuel [onSetPositionHandler fuel w] (Some w) (LPosition w) p) st.

(** [func (w *Window) SetTitle(s string)] *)
Definition SetTitle (fuel : nat) (w : WinId) (s : string) (st : State)
  : option State :=
  Handle fuel [onSetTitleHandler fuel w] (Some w) (LTitle w) s st.

(** [func (w *Window) SetCloseButton(v bool)] *)
Definition SetCloseButton (fuel : nat) (w : WinId) (v : bool) (st : State)
  : option State :=
  ifHasParent w
    (Handle fuel [onSetCloseButtonHandler fuel w] (Some w) (LCloseButton w) v) st.

(** The four border handlers: store, move the client area origin for the
    top and left border, recompute the client size. *)
Definition onSetBorderBottomHandler (fuel : nat) (w : WinId)
  : Handler Z IntLoc :=
  fun _ prev dst src st =>
    panicIfPrev prev
      (do st <- store dst src st;
       do win <- windows st !! w;
       SetClientSize fuel w
         (mkSize (Width (Sz (clientArea win)))
                 (Max 0 (isub (Height (size win))
                              (iadd (borderTop win) (borderBottom win))))) st).

Definition onSetBorderLeftHandler (fuel : nat) (w : WinId)
  : Handler Z IntLoc :=
  fun _ prev dst src st =>
    panicIfPrev prev
      (do st <- store dst src st;
       do st <- updWindow w
                 (fun win =>
                    withClientArea
                      (mkRectangle (mkPosition src (Y (Pos (clientArea win))))
                                   (Sz (clientArea win))) win) st;
       do win <- windows st !! w;
       SetClientSize fuel w
         (mkSize (Max 0 (isub (Width (size win))
                              (iadd (borderLeft win) (borderRight win))))
                 (Height (Sz (clientArea win)))) st).

Definition onSetBorderRightHandler (fuel : nat) (w : WinId)
  : Handler Z IntLoc :=
  fun _ prev dst src st =>
    panicIfPrev prev
      (do st <- store dst src st;
       do win <- windows st !! w;
       SetClientSize fuel w
         (mkSize (Max 0 (isub (Width (size win))
                              (iadd (borderLeft win) (borderRight win))))
                 (Height (Sz (clientArea win)))) st).

Definition onSetBorderTopHandler (fuel : nat) (w : WinId)
  : Handler Z IntLoc :=
  fun _ prev dst src st =>
    panicIfPrev prev
      (do st <- store dst src st;
       do st <- updWindow w
                 (fun win =>
                    withClientArea
                      (mkRectangle (mkPosition (X (Pos (clientArea win))) src)
                                   (Sz (clientArea win))) win) st;
       do win <- windows st !! w;
       SetClientSize fuel w
         (mkSize (Width (Sz (clientArea win)))
                 (Max 0 (isub (Height (size win))
                              (iadd (borderTop win) (borderBottom win))))) st).

Definition SetBorderBottom (fuel : nat) (w : WinId) (v : Z) (st : State) :=
  Handle fuel [onSetBorderBottomHandler fuel w] (Some w) (LBorderBottom w) v st.
Definition SetBorderLeft (fuel : nat) (w : WinId) (v : Z) (st : State) :=
  Handle fuel [onSetBorderLeftHandler fuel w] (Some w) (LBorderLeft w) v st.
Definition SetBorderRight (fuel : nat) (w : WinId) (v : Z) (st : State) :=
  Handle fuel [onSetBorderRightHandler fuel w] (Some w) (LBorderRight w) v st.
Definition SetBorderTop (fuel : nat) (w : WinId) (v : Z) (st : State) :=
  Handle fuel [onSetBorderTopHandler fuel w] (Some w) (LBorderTop w) v st.

(** *** Creating windows and desktops *)

(** The window record of [newWindow(desktop, parent, style)]. *)
Definition newWindowRecord (d : DeskId) (p : option WinId) : Window :=
  mkWindow 0 0 0 0 [] zeroRectangle false d
           (fun stage => match stage with
                         | StPaintClientArea => []
                         | _ => [Builtin]
                         end)
           p zeroPosition zeroRectangle zeroSize "" zeroPosition.

(** [func newWindow(desktop *Desktop, parent *Window, style WindowStyle) *Window] *)
Definition newWindow (d : DeskId) (p : option WinId) (st : State)
  : WinId * State :=
  (length (windows st), setWindows (windows st ++ [newWindowRecord d p]) st).

(** [func newDesktop() *Desktop] *)
Definition newDesktop (fuel : nat) (st : State) : option (DeskId * State) :=
  let d := length (desktops st) in
  let st := setDesktops (desktops st ++ [mkDesktop zeroRectangle 0%nat 0]) st in
  let '(w, st) := newWindow d None st in
  do st <- updDesktop d (fun dsk => mkDesktop (invalidated dsk) w
                                              (updateLevel dsk)) st;
  do st <- setSize fuel w (app_size st) st;
  Some (d, st).

(** [func (w *Window) NewChild(area Rectangle) *Window] *)
Definition NewChild (fuel : nat) (w : WinId) (area : Rectangle) (st : State)
  : option (WinId * State) :=
  do st <- BeginUpdate (Some w) st;
  do win <- windows st !! w;
  let '(c, st) := newWindow (desktop win) (Some w) st in
  do st <- updWindow w (fun win => withChildren (children win ++ [c]) win) st;
  do st <- SetBorderTop fuel c 1 st;
  do st <- SetBorderLeft fuel c 1 st;
  do st <- SetBorderRight fuel c 1 st;
  do st <- SetBorderBottom fuel c 1 st;
  do st <- SetPosition fuel c (Pos area) st;
  do st <- SetSize fuel c (Sz area) st;
  do st <- EndUpdate fuel (Some w) st;
  Some (c, st).

(** [func (a *Application) onSetDesktopHandler] *)
Definition Application_onSetDesktopHandler (fuel : nat)
  : Handler (option DeskId) DesktopLoc :=
  fun _ prev dst src st =>
    do st <- match prev with
             | Some prev => prev None dst src st
             | None => store dst src st
             end;
    do d <- app_desktop st;
    do dsk <- desktops st !! d;
    let w := root dsk in
    do st <- setSize fuel w (app_size st) st;
    do win <- windows st !! w;
    Invalidate fuel w (Area win) st.

(** [func (a *Application) SetDesktop(d *Desktop)] for a non-nil [d]. *)
Definition SetDesktop (fuel : nat) (d : DeskId) (st : State) : option State :=
  Handle fuel [Application_onSetDesktopHandler fuel] None LAppDesktop (Some d) st.

(** [func (d *Desktop) Show()] *)
Definition Show (fuel : nat) (d : DeskId) (st : State) : option State :=
  SetDesktop fuel d st.

(** State of the program after [newApplication] on a screen of the given
    size: no desktop yet. *)
Definition newApplication (sz : Size) : State :=
  mkState [] [] None sz 0 [].

(** *** Hit testing *)

(** Which of the two handlers handed to [findEventTarget] it returns. *)
Inductive Target := clientAreaHandler | borderHandler.

(** The inner loop of [findEventTarget], over the children from the
    front-most (last) to the back-most. *)
Fixpoint findChild (st : State) (winPos : Position) (front_first : list WinId)
  : option (option (WinId * Position)) :=
  match front_first with
  | [] => Some None
  | ch :: rest =>
    do cw <- windows st !! ch;
    let chArea := mkRectangle (position cw) (Sz (Area cw)) in
    if In winPos chArea then Some (Some (ch, sub winPos (Pos chArea)))
    else findChild st winPos rest
  end.

(** [func (w *Window) findEventTarget(winPos, clientAreaHandler, borderHandler)] *)
Fixpoint findEventTarget (fuel : nat) (st : State) (w : WinId)
         (winPos : Position) : option (WinId * Position * Target) :=
  match fuel with
  | O => None
  | S fuel =>
    do win <- windows st !! w;
    let winPos2 := add winPos (view win) in
    let clArea := ClientArea win in
    if In winPos clArea then
      let winPos := sub winPos2 (Pos clArea) in
      do found <- findChild st winPos (rev (children win));
      match found with
      | Some (ch, p) => findEventTarget fuel st ch p
      | None => Some (w, winPos, clientAreaHandler)
      end
    else Some (w, winPos, borderHandler)
  end.

(** [func (w *Window) event(winPos, clientAreaHandler, borderHandler, setFocus)].
    The two handlers are the function arguments of the source;
    [focus] stands for the two calls [w.BringToFront(); w.SetFocus(true)]
    on the target, whose bodies are outside this development. *)
Definition event (fuel : nat) (focus : WinId -> State -> option State)
           (w : WinId) (winPos : Position)
           (onClientArea onBorder : WinId -> Position -> State -> option State)
           (setFocus : bool) (st : State) : option State :=
  do r <- findEventTarget fuel st w winPos;
  let '(w, pos, handler) := r in
  do st <- (if setFocus then focus w st else Some st);
  match handler with
  | clientAreaHandler => onClientArea w pos st
  | borderHandler => onBorder w pos st
  end.

(** * Properties *)

(** ** Machine integers *)

Lemma wrap_range z : int_min <= wrap z <= int_max.
Proof.
  unfold wrap, int_min, int_max.
  pose proof (Z.mod_pos_bound (z + 2 ^ 63) (2 ^ 64) ltac:(lia)). lia.
Qed.

Lemma wrap_small z : int_min <= z <= int_max -> wrap z = z.
Proof.
  unfold wrap, int_min, int_max. intros Hz.
  rewrite Z.mod_small by lia. lia.
Qed.

Lemma wrap_wrap z : wrap (wrap z) = wrap z.
Proof. apply wrap_small, wrap_range. Qed.

Lemma wrap_add_r a b : wrap (a + wrap b) = wrap (a + b).
Proof.
  unfold wrap.
  replace (a + ((b + 2 ^ 63) mod 2 ^ 64 - 2 ^ 63) + 2 ^ 63)
    with (a + (b + 2 ^ 63) mod 2 ^ 64) by lia.
  rewrite Zplus_mod_idemp_r. f_equal. f_equal. lia.
Qed.

Lemma iadd_isub_cancel a b : in_int b -> iadd a (isub b a) = b.
Proof.
  intros Hb. unfold iadd, isub. rewrite wrap_add_r.
  replace (a + (b - a)) with b by lia. now apply wrap_small.
Qed.

Lemma iadd_range a b : in_int (iadd a b).
Proof. apply wrap_range. Qed.

Lemma Min_spec a b : Min a b = Z.min a b.
Proof. unfold Min. destruct (Z.ltb_spec a b); lia. Qed.

Lemma Max_spec a b : Max a b = Z.max a b.
Proof. unfold Max. rewrite Z.gtb_ltb. destruct (Z.ltb_spec b a); lia. Qed.

(** ** Geometry *)

Lemma Position_eqb_eq p q : Position_eqb p q = true <-> p = q.
Proof.
  destruct p, q. unfold Position_eqb. simpl.
  rewrite andb_true_iff, !Z.eqb_eq. split; [intros []; congruence|].
  intros [= -> ->]. auto.
Qed.

Lemma Size_eqb_eq s t : Size_eqb s t = true <-> s = t.
Proof.
  destruct s, t. unfold Size_eqb. simpl.
  rewrite andb_true_iff, !Z.eqb_eq. split; [intros []; congruence|].
  intros [= -> ->]. auto.
Qed.

Lemma Position_eqb_refl p : Position_eqb p p = true.
Proof. now apply Position_eqb_eq. Qed.

Lemma Size_eqb_refl s : Size_eqb s s = true.
Proof. now apply Size_eqb_eq. Qed.

Lemma Intersection_comm a1 b1 a2 b2 :
  Intersection a1 b1 a2 b2 = Intersection a2 b2 a1 b1.
Proof.
  unfold Intersection. rewrite !Max_spec, !Min_spec.
  now rewrite (Z.max_comm a1), (Z.min_comm b1), orb_comm.
Qed.

Lemma Intersection_Some a1 b1 a2 b2 a b :
  Intersection a1 b1 a2 b2 = Some (a, b) <->
  a = Z.max a1 a2 /\ b = Z.min b1 b2 /\ a2 < b1 /\ a1 < b2.
Proof.
  unfold Intersection. rewrite Max_spec, Min_spec.
  destruct (Z.leb_spec b1 a2); destruct (Z.leb_spec b2 a1); simpl; split;
    try discriminate; try (intros (_ & _ & ? & ?); lia).
  - intros [= <- <-]. auto.
  - intros (-> & -> & _). reflexivity.
Qed.

Lemma Intersection_None a1 b1 a2 b2 :
  Intersection a1 b1 a2 b2 = None <-> b1 <= a2 \/ b2 <= a1.
Proof.
  unfold Intersection.
  destruct (Z.leb_spec b1 a2); destruct (Z.leb_spec b2 a1); simpl; split;
    intros; try discriminate; try lia; reflexivity.
Qed.

(** On proper operands the two intervals meet exactly when the larger
    left end lies below the smaller right end. *)
Lemma meet_proper a1 b1 a2 b2 :
  a1 < b1 -> a2 < b2 ->
  (a2 < b1 /\ a1 < b2 <-> Z.max a1 a2 < Z.min b1 b2).
Proof. lia. Qed.

(** The half-open interval a rectangle occupies on either axis, as [Has]
    and [Clip] compute it. *)
Definition right (r : Rectangle) : Z := iadd (X (Pos r)) (Width (Sz r)).
Definition bottom (r : Rectangle) : Z := iadd (Y (Pos r)) (Height (Sz r)).

Lemma Has_spec r p :
  Has r p = true <->
  X (Pos r) <= X p < right r /\ Y (Pos r) <= Y p < bottom r.
Proof.
  unfold Has, right, bottom.
  rewrite !andb_true_iff, !Z.geb_le, !Z.ltb_lt. lia.
Qed.

Lemma Clip_true r s r' :
  Clip r s = (r', true) <->
  (X (Pos s) < right r /\ X (Pos r) < right s) /\
  (Y (Pos s) < bottom r /\ Y (Pos r) < bottom s) /\
  r' = rect (Z.max (X (Pos r)) (X (Pos s))) (Z.max (Y (Pos r)) (Y (Pos s)))
            (isub (Z.min (right r) (right s)) (Z.max (X (Pos r)) (X (Pos s))))
            (isub (Z.min (bottom r) (bottom s)) (Z.max (Y (Pos r)) (Y (Pos s)))).
Proof.
  unfold Clip, right, bottom.
  destruct (Intersection (X (Pos r)) _ (X (Pos s)) _) as [[hA hB]|] eqn:Hh.
  - apply Intersection_Some in Hh as (-> & -> & Hlt).
    destruct (Intersection (Y (Pos r)) _ (Y (Pos s)) _) as [[vA vB]|] eqn:Hv.
    + apply Intersection_Some in Hv as (-> & -> & Hlt').
      split.
      * intros [= <-]. auto.
      * intros (_ & _ & ->). reflexivity.
    + apply Intersection_None in Hv. split; [discriminate|]. lia.
  - apply Intersection_None in Hh. split; [discriminate|]. lia.
Qed.

Lemma Clip_false r s r' :
  Clip r s = (r', false) <->
  r' = r /\
  ((right r <= X (Pos s) \/ right s <= X (Pos r)) \/
   (bottom r <= Y (Pos s) \/ bottom s <= Y (Pos r))).
Proof.
  unfold Clip, right, bottom.
  destruct (Intersection (X (Pos r)) _ (X (Pos s)) _) as [[hA hB]|] eqn:Hh.
  - apply Intersection_Some in Hh as (-> & -> & Hlt).
    destruct (Intersection (Y (Pos r)) _ (Y (Pos s)) _) as [[vA vB]|] eqn:Hv.
    + apply Intersection_Some in Hv as (-> & -> & Hlt').
      split; [discriminate|]. lia.
    + apply Intersection_None in Hv. split.
      * intros [= <-]. auto.
      * intros [-> _]. reflexivity.
  - apply Intersection_None in Hh. split.
    + intros [= <-]. auto.
    + intros [-> _]. reflexivity.
Qed.

Lemma right_range r : in_int (right r).
Proof. apply wrap_range. Qed.

Lemma bottom_range r : in_int (bottom r).
Proof. apply wrap_range. Qed.

(** C7: [r.Clip(s)] does not return [false] on every pair of rectangles
    without a common position.  With [r = {0,0,10,10}] and the empty
    [s = {5,5,0,0}] it returns [true] and leaves in [r] the rectangle
    [{5,5,0,0}], which is of zero size and has no position, although the
    documentation of [Clip] says that the boolean tells whether the
    result is of non zero size. *)
Theorem Clip_true_on_empty_operand :
  Clip (rect 0 0 10 10) (rect 5 5 0 0) = (rect 5 5 0 0, true) /\
  IsZero (Sz (rect 5 5 0 0)) = true /\
  (forall p, Has (rect 5 5 0 0) p = false).
Proof.
  split; [reflexivity|]. split; [reflexivity|].
  intros p. destruct (Has (rect 5 5 0 0) p) eqn:Hp; [|reflexivity].
  apply Has_spec in Hp. unfold right, bottom in Hp. simpl in Hp.
  change (iadd 5 0) with 5 in Hp. lia.
Qed.

(** An argument of negative width passes through [Clip] in the same
    way. *)
Example Clip_negative_width_operand :
  Clip (rect 0 0 10 10) (rect 2 2 (-1) 3) = (rect 2 2 (-1) 3, true).
Proof. reflexivity. Qed.

(** The part of the Join contract that the code keeps: an empty operand
    is skipped, and the origin of the result is the coordinate-wise
    minimum of the two origins. *)
Lemma join_empty_and_origin (r s : Rectangle) :
  (IsZero (Sz s) = true -> join r s = r) /\
  (IsZero (Sz s) = false -> IsZero (Sz r) = true -> join r s = s) /\
  (IsZero (Sz s) = false -> IsZero (Sz r) = false ->
   Pos (join r s) = mkPosition (Z.min (X (Pos r)) (X (Pos s)))
                               (Z.min (Y (Pos r)) (Y (Pos s)))).
Proof.
  unfold join. split; [|split].
  - intros Hs. now rewrite Hs.
  - intros Hs Hr. now rewrite Hs, Hr.
  - intros Hs Hr. rewrite Hs, Hr. simpl. now rewrite !Min_spec.
Qed.

(** C1: the receiver of the test of the package, [{46,12,55,27}], joined
    with [{45,12,55,27}] becomes [{45,12,55,27}]: the width is computed
    from the already lowered [X], so the right edge 101 of the receiver is
    lost and the result is not the bounding union [{45,12,56,27}] that the
    test expects.  In the other operand order the union is computed. *)
Theorem join_loses_right_edge :
  join (rect 46 12 55 27) (rect 45 12 55 27) = rect 45 12 55 27 /\
  join (rect 46 12 55 27) (rect 45 12 55 27) <> rect 45 12 56 27 /\
  join (rect 45 12 55 27) (rect 46 12 55 27) = rect 45 12 56 27 /\
  Has (rect 46 12 55 27) (mkPosition 100 12) = true /\
  Has (join (rect 46 12 55 27) (rect 45 12 55 27)) (mkPosition 100 12) = false.
Proof.
  split; [reflexivity|]. split; [discriminate|].
  split; [reflexivity|]. split; reflexivity.
Qed.

(** ** Mouse button state machine *)

Lemma press_not_up (m : Mouse.mouseButtonFSM) (e : Mouse.EventMouse) :
  Mouse.isPress m e -> (Z.land (Mouse.Buttons e) (Mouse.button m) =? 0) = false.
Proof. unfold Mouse.isPress. intros H. now apply Z.eqb_neq. Qed.

Lemma release_up (m : Mouse.mouseButtonFSM) (e : Mouse.EventMouse) :
  Mouse.isRelease m e -> (Z.land (Mouse.Buttons e) (Mouse.button m) =? 0) = true.
Proof. unfold Mouse.isRelease. intros H. now apply Z.eqb_eq. Qed.

(** In state Down2 every button event, release or press, leads to Idle
    and posts nothing. *)
Lemma down2_absorbs click dc (m : Mouse.mouseButtonFSM) (e : Mouse.EventMouse) :
  Mouse.state m = Mouse.mbsDown2 ->
  Mouse.step click dc m (Mouse.InMouse e) =
  Mouse.Next (Mouse.with_state m Mouse.mbsIdle (Mouse.timeout m)) [].
Proof. intros H. unfold Mouse.step. now rewrite H. Qed.

(** C5: from Idle, a press [e1] followed by a release [e2] before the
    click timer fires posts, when the double-click duration is 0, exactly
    one click event carrying the position and modifiers of the press, and
    the machine is Idle again; when the double-click duration is not 0 it
    posts nothing, arms the double-click timer and is in Up.  From there a
    second press [e3] before the timer fires posts exactly one
    double-click event and leads to Down2, and in Down2 any further button
    event [e4], the release as well as a third press, posts nothing and
    leads to Idle, not to Down. *)
Theorem click_and_double_click :
  forall (click dc : Z) (m : Mouse.mouseButtonFSM)
         (e1 e2 e3 e4 : Mouse.EventMouse),
    Mouse.state m = Mouse.mbsIdle ->
    Mouse.isPress m e1 ->
    Mouse.isRelease m e2 ->
    Mouse.isPress m e3 ->
    let p := mkPosition (Mouse.PositionX e1) (Mouse.PositionY e1) in
    let b := Mouse.button m in
    let k := Mouse.Modifiers e1 in
    (dc = 0 ->
     Mouse.run click dc m [Mouse.InMouse e1; Mouse.InMouse e2] =
     Some (Mouse.mkFSM b k p Mouse.mbsIdle Mouse.chanNil,
           [Mouse.newEventMouse Mouse.mouseClick b k p])) /\
    (dc <> 0 ->
     Mouse.run click dc m [Mouse.InMouse e1; Mouse.InMouse e2] =
     Some (Mouse.mkFSM b k p Mouse.mbsUp Mouse.chanPending, []) /\
     Mouse.run click dc m
               [Mouse.InMouse e1; Mouse.InMouse e2; Mouse.InMouse e3] =
     Some (Mouse.mkFSM b k p Mouse.mbsDown2 Mouse.chanPending,
           [Mouse.newEventMouse Mouse.mouseDoubleClick b k p]) /\
     Mouse.run click dc m
               [Mouse.InMouse e1; Mouse.InMouse e2; Mouse.InMouse e3;
                Mouse.InMouse e4] =
     Some (Mouse.mkFSM b k p Mouse.mbsIdle Mouse.chanPending,
           [Mouse.newEventMouse Mouse.mouseDoubleClick b k p])).
Proof.
  intros click dc m e1 e2 e3 e4 Hidle H1 H2 H3 p b k.
  apply press_not_up in H1. apply release_up in H2. apply press_not_up in H3.
  destruct m as [mb mm mp ms mt]. simpl in *. subst ms.
  split.
  - intros ->. unfold Mouse.run, Mouse.step. simpl.
    rewrite H1. simpl. rewrite H2. reflexivity.
  - intros Hdc. apply Z.eqb_neq in Hdc.
    split; [|split]; unfold Mouse.run, Mouse.step; simpl;
      rewrite H1; simpl; rewrite H2, Hdc; simpl; try rewrite H3; reflexivity.
Qed.

Lemma click_and_double_click_witness :
  let m := Mouse.newMouseButtonFSM 1 in
  let e1 := Mouse.mkEventMouse 1 0 10 5 in
  let e2 := Mouse.mkEventMouse 0 0 10 5 in
  Mouse.run 150 0 m [Mouse.InMouse e1; Mouse.InMouse e2] =
  Some (Mouse.mkFSM 1 0 (mkPosition 10 5) Mouse.mbsIdle Mouse.chanNil,
        [Mouse.newEventMouse Mouse.mouseClick 1 0 (mkPosition 10 5)]).
Proof.
  intros m e1 e2.
  refine (proj1 (click_and_double_click 150 0 m e1 e2 e1 e2 _ _ _ _) _).
  - reflexivity.
  - vm_compute. lia.
  - reflexivity.
  - vm_compute. lia.
  - reflexivity.
Defined.

(** ** Application termination *)

Definition b2n (b : bool) : nat := if b then 1%nat else 0%nat.

(** What every reachable application state satisfies, relative to the
    schedule [xs] that led to it. *)
Definition termInv (xs : list Term.action) (a : Term.Application) : Prop :=
  Term.finiCalls a = b2n (Term.onceFinalize a) /\
  Term.sends a = b2n (Term.onceExit a) /\
  (length (Term.wait a) + Term.recvs a = Term.sends a)%nat /\
  (Term.onceWait a = false -> Term.recvs a = 0%nat /\ Term.blocked a = false) /\
  (Term.onceWait a = true -> Term.blocked a = true \/ Term.recvs a <> 0%nat) /\
  (Term.blocked a = true -> Term.recvs a = 0%nat) /\
  (Term.recvs a = 0%nat <-> Term.returned a = []) /\
  (Term.onceExit a = false -> Term.firstExit xs = None) /\
  (forall v, List.In v (Term.wait a) \/ head (Term.returned a) = Some v ->
             Term.firstExit xs = Some v) /\
  Term.exitError a = None.

Lemma firstExit_app_Some xs ys v :
  Term.firstExit xs = Some v -> Term.firstExit (xs ++ ys) = Some v.
Proof.
  induction xs as [|x xs IH]; simpl; [discriminate|].
  destruct x; auto.
Qed.

Lemma firstExit_app_None xs ys :
  Term.firstExit xs = None -> Term.firstExit (xs ++ ys) = Term.firstExit ys.
Proof.
  induction xs as [|x xs IH]; simpl; [reflexivity|].
  destruct x; auto. discriminate.
Qed.

Lemma termInv_init : termInv [] Term.newApplication.
Proof.
  unfold termInv, Term.newApplication. simpl.
  split; [reflexivity|]. split; [reflexivity|]. split; [reflexivity|].
  split; [auto|]. split; [discriminate|]. split; [discriminate|].
  split; [tauto|]. split; [auto|]. split; [|reflexivity].
  intros v [[]|H]; discriminate.
Qed.

Lemma termInv_finalize xs ys a :
  termInv xs a ->
  (forall v, Term.firstExit xs = Some v -> Term.firstExit ys = Some v) ->
  (Term.onceExit a = false -> Term.firstExit ys = None) ->
  termInv ys (Term.finalize a).
Proof.
  intros (Hf & Hs & Hl & Hw & Hw' & Hb & Hr & He & Hv & Hx) Hxy Hn.
  unfold Term.finalize. destruct a as [oF oE oW w eE bl pk fc sd rc rt].
  simpl in *. destruct oF; unfold termInv; simpl in *;
    (split; [lia|]); (split; [lia|]); (split; [lia|]);
    (split; [assumption|]); (split; [assumption|]); (split; [assumption|]);
    (split; [assumption|]); (split; [assumption|]);
    (split; [|assumption]); intros v Hin; auto.
Qed.

Lemma termInv_receive xs a a' :
  termInv xs a -> Term.blocked a = true -> Term.receive a = Some a' ->
  termInv xs a' /\ Term.blocked a' = false /\
  exists v, head (Term.returned a') = Some v /\ Term.firstExit xs = Some v.
Proof.
  intros (Hf & Hs & Hl & Hw & Hw' & Hb & Hr & He & Hv & Hx) Hbl Hrc.
  unfold Term.receive in Hrc.
  destruct a as [oF oE oW w eE bl pk fc sd rc rt]. simpl in *. subst bl.
  destruct w as [|v rest]; [discriminate|]. injection Hrc as <-.
  specialize (Hb eq_refl). subst rc.
  assert (rt = []) by (apply Hr; reflexivity). subst rt.
  destruct oW; [|destruct (Hw eq_refl); discriminate].
  split; [|split; [reflexivity|exists v; split; [reflexivity|]]].
  - unfold termInv; simpl in *.
    split; [assumption|]. split; [assumption|]. split; [lia|].
    split; [discriminate|]. split; [right; lia|]. split; [discriminate|].
    split; [split; discriminate|].
    split; [assumption|]. split; [|assumption].
    intros u [Hin | [= <-]]; apply Hv; left; simpl; auto.
  - apply Hv. left. simpl. auto.
Qed.

Lemma termInv_step xs a x :
  termInv xs a -> termInv (xs ++ [x]) (Term.act a x).
Proof.
  intros HI.
  assert (Hkeep : forall x', (forall e, x' <> Term.CallExit e) ->
                   termInv (xs ++ [x']) a).
  { intros x' Hx'.
    destruct HI as (Hf & Hs & Hl & Hw & Hw' & Hb & Hr & He & Hv & Hx).
    unfold termInv.
    split; [assumption|]. split; [assumption|]. split; [assumption|].
    split; [assumption|]. split; [assumption|]. split; [assumption|].
    split; [assumption|]. split; [|split; [|assumption]].
    - intros H. rewrite firstExit_app_None by auto.
      destruct x'; try reflexivity. now destruct (Hx' err).
    - intros v Hin. apply firstExit_app_Some. auto. }
  destruct x; simpl.
  - (* Exit *)
    unfold Term.Exit.
    assert (HF : termInv xs (Term.finalize a)).
    { apply termInv_finalize with (xs := xs); auto.
      destruct HI as (_ & _ & _ & _ & _ & _ & _ & He & _). exact He. }
    destruct HF as (Hf & Hs & Hl & Hw & Hw' & Hb & Hr & He & Hv & Hx).
    destruct (Term.finalize a) as [oF oE oW w eE bl pk fc sd rc rt].
    simpl in *. destruct oE; unfold termInv; simpl in *.
    + split; [assumption|]. split; [assumption|]. split; [assumption|].
      split; [assumption|]. split; [assumption|]. split; [assumption|].
      split; [assumption|].
      split; [discriminate|]. split; [|assumption].
      intros v Hin. apply firstExit_app_Some. auto.
    + assert (w = []) by (destruct w; simpl in *; [reflexivity|lia]). subst w.
      assert (rc = 0)%nat by (simpl in *; lia). subst rc.
      assert (rt = []) by (apply Hr; reflexivity). subst rt. simpl.
      split; [assumption|]. split; [lia|]. split; [lia|].
      split; [assumption|]. split; [assumption|]. split; [auto|].
      split; [tauto|].
      split; [discriminate|]. split; [|assumption].
      intros v [[<-|[]]|Hd]; [|discriminate].
      rewrite firstExit_app_None by auto. reflexivity.
  - (* finalize *)
    apply termInv_finalize with (xs := xs ++ [Term.CallFinalize]).
    + apply Hkeep. discriminate.
    + auto.
    + destruct (Hkeep Term.CallFinalize ltac:(discriminate))
        as (_ & _ & _ & _ & _ & _ & _ & He & _). exact He.
  - (* Wait *)
    specialize (Hkeep Term.CallWait ltac:(discriminate)).
    revert Hkeep. generalize (xs ++ [Term.CallWait]). clear HI xs. intros xs HI.
    unfold Term.Wait.
    destruct (Term.onceWait a) eqn:HoW.
    + destruct (Term.blocked a) eqn:Hbl.
      * destruct HI as (Hf & Hs & Hl & Hw & Hw' & Hb & Hr & He & Hv & Hx).
        unfold termInv. simpl. intuition congruence.
      * destruct HI as (Hf & Hs & Hl & Hw & Hw' & Hb & Hr & He & Hv & Hx).
        unfold termInv. simpl.
        destruct (Hw' HoW) as [Hc|Hc]; [congruence|].
        destruct (Term.returned a) as [|r0 rt] eqn:Hrt;
          [exfalso; apply Hc, Hr; reflexivity|].
        simpl. intuition (try congruence).
    + (* first call *)
      set (a' := Term.mkApp _ _ _ _ _ _ _ _ _ _ _).
      assert (HI' : termInv xs a').
      { destruct HI as (Hf & Hs & Hl & Hw & Hw' & Hb & Hr & He & Hv & Hx).
        destruct (Hw HoW) as [Hrc Hbl].
        unfold termInv, a'. simpl. intuition (try congruence). }
      destruct (Term.receive a') as [a''|] eqn:Hrcv; [|assumption].
      eapply termInv_receive in Hrcv; [|exact HI'|reflexivity].
      apply Hrcv.
  - (* Wake *)
    specialize (Hkeep Term.Wake ltac:(discriminate)).
    destruct (Term.blocked a) eqn:Hbl; [|assumption].
    destruct (Term.receive a) as [a'|] eqn:Hrcv; [|assumption].
    eapply termInv_receive in Hrcv; [|exact Hkeep|assumption].
    apply Hrcv.
Qed.

Lemma termInv_exec xs : forall pre a,
  termInv pre a -> termInv (pre ++ xs) (Term.exec xs a).
Proof.
  induction xs as [|x xs IH]; intros pre a HI; simpl.
  - now rewrite app_nil_r.
  - replace (pre ++ x :: xs) with ((pre ++ [x]) ++ xs)
      by (now rewrite <- app_assoc).
    apply IH. now apply termInv_step.
Qed.

Lemma Exit_fields e a :
  Term.blocked (Term.Exit e a) = Term.blocked a /\
  Term.onceExit (Term.Exit e a) = true.
Proof.
  unfold Term.Exit, Term.finalize.
  destruct a as [oF oE oW w eE bl pk fc sd rc rt]. simpl.
  destruct oF, oE; simpl; auto.
Qed.

(** C8: whatever calls of Exit, finalize and Wait the goroutines make,
    in whatever order, the screen is released at most once, at most one
    error is sent on the wait channel and at most one is received; the
    value a call of Wait takes from the channel is the error of the first
    call of Exit; and a caller parked in Wait is released by the next
    Exit: it is no longer blocked, the single receive has happened, and it
    returns the error of the first Exit of the schedule. *)
Theorem termination_once :
  forall xs : list Term.action,
    let a := Term.exec xs Term.newApplication in
    (Term.finiCalls a <= 1)%nat /\
    (Term.sends a <= 1)%nat /\
    (Term.recvs a <= 1)%nat /\
    (forall v, head (Term.returned a) = Some v ->
               Term.firstExit xs = Some v) /\
    (Term.blocked a = true ->
     forall e,
       let a' := Term.exec [Term.CallExit e; Term.Wake] a in
       Term.blocked a' = false /\
       Term.recvs a' = 1%nat /\
       exists v, head (Term.returned a') = Some v /\
                 Term.firstExit (xs ++ [Term.CallExit e]) = Some v).
Proof.
  intros xs a.
  pose proof (termInv_exec xs [] _ termInv_init) as HI. simpl in HI.
  fold a in HI.
  assert (Hcount : forall ys b, termInv ys b ->
            (Term.finiCalls b <= 1 /\ Term.sends b <= 1 /\ Term.recvs b <= 1)%nat).
  { intros ys b (Hf & Hs & Hl & _).
    rewrite Hf. rewrite Hs in *. unfold b2n in *.
    destruct (Term.onceFinalize b), (Term.onceExit b); lia. }
  destruct (Hcount _ _ HI) as (H1 & H2 & H3).
  split; [assumption|]. split; [assumption|]. split; [assumption|].
  split.
  - intros v Hv. destruct HI as (_ & _ & _ & _ & _ & _ & _ & _ & Hval & _).
    apply Hval. now right.
  - intros Hbl e a'. unfold a'. simpl.
    pose proof (termInv_step _ _ (Term.CallExit e) HI) as HI1. simpl in HI1.
    destruct (Exit_fields e a) as [Hb1 He1]. rewrite Hb1, Hbl.
    destruct HI1 as (Hf & Hs & Hl & Hw & Hw' & Hb & Hr & He & Hv & Hx).
    rewrite Hbl in Hb1. specialize (Hb Hb1).
    rewrite He1 in Hs. simpl in Hs.
    unfold Term.receive.
    destruct (Term.wait (Term.Exit e a)) as [|v rest] eqn:Hwt;
      [simpl in Hl; lia|].
    simpl. split; [reflexivity|]. split; [lia|].
    assert (Term.returned (Term.Exit e a) = []) as -> by (apply Hr; assumption).
    exists v. split; [reflexivity|]. apply Hv. left. simpl. auto.
Qed.

(** ** Set-property handler lists *)

(** No-op part of [Handle]: when [*dst == src] the state is returned as
    it is, whatever handlers are in the list. *)
Lemma Handle_same {V L : Type} `{SetKind V L} fuel (l : list (Handler V L))
      w dst src st cur :
  load dst st = Some cur -> veqb cur src = true ->
  Handle fuel l w dst src st = Some st.
Proof. intros Hl He. unfold Handle. now rewrite Hl, He. Qed.

Lemma Handle_nil {V L : Type} `{SetKind V L} fuel w dst src st cur :
  load dst st = Some cur -> veqb cur src = false ->
  Handle fuel ([] : list (Handler V L)) w dst src st = store dst src st.
Proof. intros Hl He. unfold Handle. now rewrite Hl, He. Qed.

Lemma Handle_cons {V L : Type} `{SetKind V L} fuel (h : Handler V L) prev
      w dst src st cur :
  load dst st = Some cur -> veqb cur src = false ->
  Handle fuel (h :: prev) w dst src st =
  (do st1 <- BeginUpdate w st;
   do st2 <- h w (chainHead prev) dst src st1;
   EndUpdate fuel w st2).
Proof. intros Hl He. unfold Handle. now rewrite Hl, He. Qed.

Lemma Max_id_nonneg z : 0 <= z -> Max z 0 = z.
Proof. intros. rewrite Max_spec. lia. Qed.

(** C4: for every kind of settable property, [Handle(dst, src)] returns
    the state unchanged (no handler runs, nothing is logged or painted)
    when [*dst == src], for every handler list; with an empty list and
    [*dst != src] it is the assignment [*dst = src]; otherwise it is the
    head handler, given the rest of the chain as [prev], between
    BeginUpdate and EndUpdate.  Hence the setters called with the current
    value of their property return the state unchanged. *)
Theorem Handle_idempotent :
  (forall (V L : Type) (K : SetKind V L) fuel (l : list (Handler V L))
          w dst src st cur,
      load dst st = Some cur -> veqb cur src = true ->
      Handle fuel l w dst src st = Some st) /\
  (forall (V L : Type) (K : SetKind V L) fuel w dst src st cur,
      load dst st = Some cur -> veqb cur src = false ->
      Handle fuel ([] : list (Handler V L)) w dst src st = store dst src st) /\
  (forall (V L : Type) (K : SetKind V L) fuel (h : Handler V L) prev
          w dst src st cur,
      load dst st = Some cur -> veqb cur src = false ->
      Handle fuel (h :: prev) w dst src st =
      (do st1 <- BeginUpdate w st;
       do st2 <- h w (chainHead prev) dst src st1;
       EndUpdate fuel w st2)) /\
  (forall fuel w win st,
      windows st !! w = Some win ->
      SetSize (S fuel) w (size win) st = Some st /\
      SetClientSize (S fuel) w (ClientSize win) st = Some st /\
      SetPosition fuel w (position win) st = Some st /\
      (0 <= X (view win) -> 0 <= Y (view win) ->
       SetOrigin fuel w (view win) st = Some st) /\
      SetTitle fuel w (title win) st = Some st /\
      SetCloseButton fuel w (closeButton win) st = Some st /\
      SetBorderTop fuel w (borderTop win) st = Some st /\
      SetBorderLeft fuel w (borderLeft win) st = Some st /\
      SetBorderRight fuel w (borderRight win) st = Some st /\
      SetBorderBottom fuel w (borderBottom win) st = Some st) /\
  (forall fuel d st,
      app_desktop st = Some d -> SetDesktop fuel d st = Some st).
Proof.
  split; [intros; eapply Handle_same; eauto|].
  split; [intros; eapply Handle_nil; eauto|].
  split; [intros; eapply Handle_cons; eauto|].
  split.
  - intros fuel w win st Hw.
    split; [|split; [|split; [|split; [|split; [|split; [|split; [|split; [|split]]]]]]]].
    + unfold SetSize, ifHasParent. rewrite Hw.
      destruct (parent win); [|reflexivity]. simpl.
      eapply Handle_same; simpl; [now rewrite Hw|apply Size_eqb_refl].
    + simpl. eapply Handle_same; simpl; [now rewrite Hw|apply Size_eqb_refl].
    + unfold SetPosition, ifHasParent. rewrite Hw.
      destruct (parent win); [|reflexivity].
      eapply Handle_same; simpl; [now rewrite Hw|apply Position_eqb_refl].
    + intros Hx Hy. unfold SetOrigin.
      eapply Handle_same; simpl; [now rewrite Hw|].
      rewrite !Max_id_nonneg by assumption.
      destruct (view win); apply Position_eqb_refl.
    + eapply Handle_same; simpl; [now rewrite Hw|apply String.eqb_refl].
    + unfold SetCloseButton, ifHasParent. rewrite Hw.
      destruct (parent win); [|reflexivity].
      eapply Handle_same; simpl; [now rewrite Hw|apply Bool.eqb_reflx].
    + eapply Handle_same; simpl; [now rewrite Hw|apply Z.eqb_refl].
    + eapply Handle_same; simpl; [now rewrite Hw|apply Z.eqb_refl].
    + eapply Handle_same; simpl; [now rewrite Hw|apply Z.eqb_refl].
    + eapply Handle_same; simpl; [now rewrite Hw|apply Z.eqb_refl].
  - intros fuel d st Hd. eapply Handle_same; simpl; [reflexivity|].
    rewrite Hd. simpl. apply Nat.eqb_refl.
Qed.

(** ** The paint context seen by client area handlers (package test
    TestDesktopPaintContext) *)

(** The contexts recorded by the observer [tag], oldest first. *)
Fixpoint observed (tag : nat) (l : list Event) : list PaintContext :=
  match l with
  | [] => []
  | EvObserve t _ ctx :: l =>
    if Nat.eqb t tag then ctx :: observed tag l else observed tag l
  | _ :: l => observed tag l
  end.

(** The first posted function of the test on an 80x25 screen: a new
    desktop is made the active one, observer 0 is put in front of the
    built-in handler of the clear-client-area list and observer 1 in the
    (empty) paint-client-area list of the root window, and the desktop is
    shown.  The result is the state and the root window. *)
Definition desktopShown (fuel : nat) : option (State * WinId) :=
  do r <- newDesktop fuel (newApplication (mkSize 80 25));
  let '(d, st) := r in
  do dsk <- desktops st !! d;
  let r := root dsk in
  do st <- SetDesktop fuel d st;
  do st <- AddOnPaintHandler StClearClientArea (Observer 0) r st;
  do st <- AddOnPaintHandler StPaintClientArea (Observer 1) r st;
  do st <- Show fuel d st;
  Some (st, r).

(** [r.InvalidateClientArea(r.ClientArea())] *)
Definition invalidateWholeClientArea (fuel : nat) (r : WinId) (st : State)
  : option State :=
  do win <- windows st !! r;
  InvalidateClientArea fuel r (ClientArea win) st.

(** The test up to its first check, up to [SetOrigin], and to its end. *)
Definition afterFirstInvalidate (fuel : nat) : option State :=
  do p <- desktopShown fuel;
  let '(st, r) := p in
  invalidateWholeClientArea fuel r st.

Definition afterSetOrigin (fuel : nat) : option State :=
  do p <- desktopShown fuel;
  let '(st, r) := p in
  do st <- invalidateWholeClientArea fuel r st;
  SetOrigin fuel r (mkPosition 2 1) st.

Definition afterSecondInvalidate (fuel : nat) : option State :=
  do p <- desktopShown fuel;
  let '(st, r) := p in
  do st <- invalidateWholeClientArea fuel r st;
  do st <- SetOrigin fuel r (mkPosition 2 1) st;
  invalidateWholeClientArea fuel r st.

Definition ctxOf (x y w h : Z) (o v : Position) : PaintContext :=
  mkPaintContext (rect x y w h) o v.

(** C2, as stated, fails: in the whole run of the test no client area
    handler is ever given the context with rectangle [{0,0,80,25}],
    origin [{0,0}] and viewport [{2,1}]. *)
Lemma claimed_context_never_observed :
  exists st,
    afterSecondInvalidate 10 = Some st /\
    ~ List.In (ctxOf 0 0 80 25 zeroPosition (mkPosition 2 1))
              (observed 0 (log st) ++ observed 1 (log st)).
Proof.
  eexists. split; [vm_compute; reflexivity|].
  simpl. intros H.
  repeat (destruct H as [H|H]; [discriminate H|]). exact H.
Qed.

(** C2, amended: after the 80x25 desktop is created and shown,
    invalidating the client area of the root makes both client area
    handlers see the rectangle [{0,0,80,25}] with origin and viewport
    [{0,0}].  [SetOrigin({2,1})] repaints: the paint-client-area handler
    sees the rectangle moved by the viewport, [{2,1,80,25}], origin
    [{0,0}] and viewport [{2,1}], the clear-client-area handler still
    [{0,0,80,25}] with viewport [{0,0}].  Invalidating [ClientArea()]
    again repaints the part of it that is visible through the viewport:
    [{2,1,78,24}] with viewport [{2,1}] for the paint handler,
    [{0,0,78,24}] with viewport [{0,0}] for the clear handler. *)
Theorem paint_context_end_to_end :
  (exists st, afterFirstInvalidate 10 = Some st /\
     observed 0 (log st) = [ctxOf 0 0 80 25 zeroPosition zeroPosition] /\
     observed 1 (log st) = [ctxOf 0 0 80 25 zeroPosition zeroPosition]) /\
  (exists st, afterSetOrigin 10 = Some st /\
     observed 0 (log st) = [ctxOf 0 0 80 25 zeroPosition zeroPosition;
                            ctxOf 0 0 80 25 zeroPosition zeroPosition] /\
     observed 1 (log st) = [ctxOf 0 0 80 25 zeroPosition zeroPosition;
                            ctxOf 2 1 80 25 zeroPosition (mkPosition 2 1)]) /\
  (exists st, afterSecondInvalidate 10 = Some st /\
     observed 0 (log st) = [ctxOf 0 0 80 25 zeroPosition zeroPosition;
                            ctxOf 0 0 80 25 zeroPosition zeroPosition;
                            ctxOf 0 0 78 24 zeroPosition zeroPosition] /\
     observed 1 (log st) = [ctxOf 0 0 80 25 zeroPosition zeroPosition;
                            ctxOf 2 1 80 25 zeroPosition (mkPosition 2 1);
                            ctxOf 2 1 78 24 zeroPosition (mkPosition 2 1)]).
Proof.
  split; [|split]; eexists; (split; [vm_compute; reflexivity|]);
    split; reflexivity.
Qed.

(** ** Well-formed stores *)

Fixpoint validChain (allowBuiltin : bool) (l : list PaintHandler) : bool :=
  match l with
  | [] => true
  | Builtin :: prev =>
    allowBuiltin && match prev with [] => true | _ :: _ => false end
  | Observer _ :: prev => validChain allowBuiltin prev
  end.

Definition allStages : list PaintStage :=
  [StClearBorders; StBorderTop; StTitle; StBorderLeft; StClearClientArea;
   StPaintClientArea; StPaintChildren; StBorderRight; StBorderBottom].

(** A window of the store at index [w]: its desktop exists, its parent
    was created before it, its children after it, and a built-in paint
    handler is the first handler that was installed in its list. *)
Definition wfWindow (nw nd : nat) (w : nat) (win : Window) : bool :=
  (desktop win <? nd)%nat &&
  match parent win with Some p => (p <? w)%nat | None => true end &&
  forallb (fun c => (w <? c)%nat && (c <? nw)%nat) (children win) &&
  forallb (fun s => validChain (negb (PaintStage_eqb s StPaintClientArea))
                               (paintHandlers win s)) allStages.

Fixpoint wfWindows (nw nd : nat) (i : nat) (ws : list Window) : bool :=
  match ws with
  | [] => true
  | win :: ws => wfWindow nw nd i win && wfWindows nw nd (S i) ws
  end.

Definition wf (st : State) : bool :=
  wfWindows (length (windows st)) (length (desktops st)) 0 (windows st) &&
  forallb (fun d => (root d <? length (windows st))%nat) (desktops st) &&
  match app_desktop st with
  | Some d => (d <? length (desktops st))%nat
  | None => true
  end.

Lemma wfWindows_lookup nw nd ws : forall i w win,
  wfWindows nw nd i ws = true -> ws !! w = Some win ->
  wfWindow nw nd (i + w) win = true.
Proof.
  induction ws as [|x ws IH]; intros i w win Hwf Hl; [discriminate|].
  simpl in Hwf. apply andb_true_iff in Hwf as [Hx Hws].
  destruct w as [|w]; simpl in Hl.
  - injection Hl as <-. now rewrite Nat.add_0_r.
  - replace (i + S w)%nat with (S i + w)%nat by lia. eauto.
Qed.

Lemma wf_window st w win :
  wf st = true -> windows st !! w = Some win ->
  wfWindow (length (windows st)) (length (desktops st)) w win = true.
Proof.
  unfold wf. rewrite !andb_true_iff. intros [[H _] _] Hl.
  exact (wfWindows_lookup _ _ _ 0%nat w win H Hl).
Qed.

Lemma wf_children st w win c :
  wf st = true -> windows st !! w = Some win -> List.In c (children win) ->
  (w < c < length (windows st))%nat.
Proof.
  intros Hwf Hl Hin. pose proof (wf_window _ _ _ Hwf Hl) as H.
  unfold wfWindow in H. rewrite !andb_true_iff in H.
  destruct H as [[[_ _] Hc] _].
  rewrite forallb_forall in Hc. specialize (Hc c Hin).
  rewrite andb_true_iff, !Nat.ltb_lt in Hc. lia.
Qed.

Lemma wf_parent st w win p :
  wf st = true -> windows st !! w = Some win -> parent win = Some p ->
  (p < w)%nat.
Proof.
  intros Hwf Hl Hp. pose proof (wf_window _ _ _ Hwf Hl) as H.
  unfold wfWindow in H. rewrite !andb_true_iff in H.
  destruct H as [[[_ H] _] _]. rewrite Hp in H. now apply Nat.ltb_lt.
Qed.

Lemma wf_desktop st w win :
  wf st = true -> windows st !! w = Some win ->
  (desktop win < length (desktops st))%nat.
Proof.
  intros Hwf Hl. pose proof (wf_window _ _ _ Hwf Hl) as H.
  unfold wfWindow in H. rewrite !andb_true_iff in H.
  destruct H as [[[H _] _] _]. now apply Nat.ltb_lt.
Qed.

Lemma lookup_valid {A} (l : list A) i :
  (i < length l)%nat -> exists x, l !! i = Some x.
Proof. intros H. apply lookup_lt_is_Some_2 in H. destruct H; eauto. Qed.

(** ** Hit testing *)

(** The rectangle of a child in the client coordinates of its parent, as
    [findEventTarget] builds it. *)
Definition childArea (cw : Window) : Rectangle :=
  mkRectangle (position cw) (size cw).

(** What hit testing is meant to compute.  A position [p] in the
    coordinates of window [w] that is not in the client area of [w] stays
    with [w], for the border handler.  Otherwise it is carried into the
    client coordinates of [w]: the viewport origin is added and the
    position of the client area subtracted.  If no child contains that
    point it stays with [w], for the client area handler; else the search
    goes on in the front-most child that contains it, with the point
    relative to the position of that child. *)
Inductive hit (st : State) : WinId -> Position -> WinId * Position * Target -> Prop :=
| hit_border w win p :
    windows st !! w = Some win ->
    In p (ClientArea win) = false ->
    hit st w p (w, p, borderHandler)
| hit_client w win p :
    windows st !! w = Some win ->
    In p (ClientArea win) = true ->
    (forall c cw, List.In c (children win) -> windows st !! c = Some cw ->
                  In (sub (add p (view win)) (Pos (ClientArea win)))
                     (childArea cw) = false) ->
    hit st w p (w, sub (add p (view win)) (Pos (ClientArea win)),
                clientAreaHandler)
| hit_child w win p front ch back cw r :
    windows st !! w = Some win ->
    In p (ClientArea win) = true ->
    rev (children win) = front ++ ch :: back ->
    (forall c cw', List.In c front -> windows st !! c = Some cw' ->
                   In (sub (add p (view win)) (Pos (ClientArea win)))
                      (childArea cw') = false) ->
    windows st !! ch = Some cw ->
    In (sub (add p (view win)) (Pos (ClientArea win))) (childArea cw) = true ->
    hit st ch (sub (sub (add p (view win)) (Pos (ClientArea win))) (position cw)) r ->
    hit st w p r.

Lemma findChild_spec st q : forall l,
  (forall c, List.In c l -> exists cw, windows st !! c = Some cw) ->
  (findChild st q l = Some None /\
   forall c cw, List.In c l -> windows st !! c = Some cw ->
                In q (childArea cw) = false) \/
  (exists front ch back cw,
      l = front ++ ch :: back /\
      (forall c cw', List.In c front -> windows st !! c = Some cw' ->
                     In q (childArea cw') = false) /\
      windows st !! ch = Some cw /\
      In q (childArea cw) = true /\
      findChild st q l = Some (Some (ch, sub q (position cw)))).
Proof.
  induction l as [|c l IH]; intros Hv.
  - left. split; [reflexivity|]. intros c cw [].
  - destruct (Hv c (or_introl eq_refl)) as [cw Hcw].
    simpl. rewrite Hcw. fold (childArea cw).
    destruct (In q (childArea cw)) eqn:Hin.
    + right. exists [], c, l, cw. simpl.
      split; [reflexivity|]. split; [intros ? ? []|]. auto.
    + destruct IH as [[Hn Hall]|(front & ch & back & cw' & -> & Hf & Hch & Hq & Hr)].
      * intros c' Hc'. apply Hv. now right.
      * left. split; [assumption|].
        intros c' cw' [<-|Hc'] Hl; [congruence|eauto].
      * right. exists (c :: front), ch, back, cw'.
        split; [reflexivity|]. split; [|auto].
        intros c' cw'' [<-|Hc'] Hl; [congruence|eauto].
Qed.

Lemma findEventTarget_hit st :
  wf st = true ->
  forall fuel w p,
    (w < length (windows st))%nat ->
    (length (windows st) <= fuel + w)%nat ->
    exists r, findEventTarget fuel st w p = Some r /\ hit st w p r.
Proof.
  intros Hwf. induction fuel as [|fuel IH]; intros w p Hw Hfuel; [lia|].
  destruct (lookup_valid _ _ Hw) as [win Hwin].
  cbn [findEventTarget]. rewrite Hwin. unfold ClientArea.
  destruct (In p (clientArea win)) eqn:Hin.
  - destruct (findChild_spec st (sub (add p (view win)) (Pos (clientArea win)))
                             (rev (children win)))
      as [[Hn Hall]|(front & ch & back & cw & Hsplit & Hf & Hch & Hq & Hr)].
    + intros c Hc. apply in_rev in Hc.
      apply lookup_valid. eapply wf_children; eauto.
    + rewrite Hn. eexists. split; [reflexivity|].
      eapply hit_client; eauto.
      intros c cw Hc Hl. eapply Hall; eauto. now apply -> in_rev.
    + rewrite Hr.
      assert (Hc : List.In ch (children win)).
      { apply in_rev. rewrite Hsplit. apply in_or_app. right. now left. }
      pose proof (wf_children _ _ _ _ Hwf Hwin Hc) as Hrange.
      destruct (IH ch (sub (sub (add p (view win)) (Pos (clientArea win)))
                           (position cw)) ltac:(lia) ltac:(lia))
        as (r & Hr' & Hhit).
      exists r. split; [assumption|].
      eapply hit_child; eauto.
  - eexists. split; [reflexivity|]. eapply hit_border; eauto.
Qed.

Ltac same_lookup :=
  repeat match goal with
         | H1 : ?o = Some ?x, H2 : ?o = Some ?y |- _ =>
           assert (y = x) by congruence; subst y; clear H2
         end.

Lemma split_front_unique {A} (P : A -> Prop) :
  forall (f1 f2 : list A) c1 c2 b1 b2,
    f1 ++ c1 :: b1 = f2 ++ c2 :: b2 ->
    (forall c, List.In c f1 -> ~ P c) -> P c1 ->
    (forall c, List.In c f2 -> ~ P c) -> P c2 ->
    f1 = f2 /\ c1 = c2.
Proof.
  induction f1 as [|a f1 IH]; intros [|b f2] c1 c2 b1 b2 Heq H1 Hc1 H2 Hc2;
    simpl in Heq.
  - injection Heq as -> _. auto.
  - injection Heq as -> _. exfalso. apply (H2 b); simpl; auto.
  - injection Heq as -> _. exfalso. apply (H1 c2); simpl; auto.
  - injection Heq as -> Heq.
    destruct (IH f2 c1 c2 b1 b2 Heq) as [-> ->]; auto.
    + intros c Hc. apply H1. now right.
    + intros c Hc. apply H2. now right.
Qed.

Lemma hit_functional st w p r1 :
  hit st w p r1 -> forall r2, hit st w p r2 -> r1 = r2.
Proof.
  induction 1 as [w win p Hw Hin|w win p Hw Hin Hall
                  |w win p front ch back cw r Hw Hin Hsplit Hfront Hch Hq Hhit IH];
    intros r2 H2; inversion H2; subst; same_lookup; try congruence.
  - exfalso.
    assert (Hc : List.In ch (children win)).
    { apply in_rev. rewrite H1. apply in_or_app. right. now left. }
    match goal with H : windows st !! ch = Some ?cw |- _ =>
      specialize (Hall ch cw Hc H) end. congruence.
  - exfalso.
    assert (Hc : List.In ch (children win)).
    { apply in_rev. rewrite Hsplit. apply in_or_app. right. now left. }
    match goal with H : forall c cw, List.In c (children win) -> _ |- _ =>
      specialize (H ch cw Hc Hch) end. congruence.
  - match goal with H : rev (children win) = ?f ++ ?c :: ?b |- _ =>
      rewrite Hsplit in H;
      assert (Hsame : front = f /\ ch = c)
    end.
    { set (q := sub (add p (view win)) (Pos (ClientArea win))) in *.
      eapply (split_front_unique
                (fun c => exists cw, windows st !! c = Some cw /\
                                     In q (childArea cw) = true)); eauto.
      - intros c Hc (cw' & Hl & Ht). specialize (Hfront c cw' Hc Hl). congruence.
      - intros c Hc (cw' & Hl & Ht).
        match goal with H : forall c cw', List.In c _ -> _ -> In q _ = false |- _ =>
          specialize (H c cw' Hc Hl) end. congruence. }
    destruct Hsame as [<- <-]. same_lookup. apply IH. assumption.
Qed.

Lemma hit_terminal st w p t q tg :
  hit st w p (t, q, tg) ->
  exists twin pt,
    windows st !! t = Some twin /\
    match tg with
    | borderHandler => In pt (ClientArea twin) = false /\ q = pt
    | clientAreaHandler =>
      In pt (ClientArea twin) = true /\
      q = sub (add pt (view twin)) (Pos (ClientArea twin)) /\
      forall c cw, List.In c (children twin) -> windows st !! c = Some cw ->
                   In q (childArea cw) = false
    end.
Proof.
  remember (t, q, tg) as r eqn:Hr.
  induction 1 as [w win p Hw Hin|w win p Hw Hin Hall
                  |w win p front ch back cw r Hw Hin Hsplit Hfront Hch Hq Hhit IH].
  - injection Hr as <- <- <-. exists win, p. auto.
  - injection Hr as <- <- <-. exists win, p. auto.
  - auto.
Qed.

(** C6: hit testing from window [w] at position [p] returns a result
    (the search ends), and the result is the one [hit] describes and no
    other: the search descends into the front-most child whose rectangle
    contains the point, the point being moved at every level by the
    viewport origin and the client area position of the window left and by
    the position of the child entered, until the point is outside the
    client area of the window reached (border handler, point in window
    coordinates) or in its client area but in no child (client area
    handler, point in client coordinates).  [event] then calls the handler
    so chosen on that window and point, after the focus calls when
    [setFocus] is set. *)
Theorem hit_testing :
  forall (st : State) (fuel : nat) (w : WinId) (p : Position),
    wf st = true ->
    (w < length (windows st))%nat ->
    (length (windows st) <= fuel + w)%nat ->
    exists t q tg,
      findEventTarget fuel st w p = Some (t, q, tg) /\
      hit st w p (t, q, tg) /\
      (forall r, hit st w p r -> r = (t, q, tg)) /\
      (exists twin pt,
          windows st !! t = Some twin /\
          match tg with
          | borderHandler => In pt (ClientArea twin) = false /\ q = pt
          | clientAreaHandler =>
            In pt (ClientArea twin) = true /\
            q = sub (add pt (view twin)) (Pos (ClientArea twin)) /\
            forall c cw, List.In c (children twin) ->
                         windows st !! c = Some cw ->
                         In q (childArea cw) = false
          end) /\
      forall focus onClientArea onBorder setFocus,
        event fuel focus w p onClientArea onBorder setFocus st =
        (do st' <- (if setFocus then focus t st else Some st);
         match tg with
         | clientAreaHandler => onClientArea t q st'
         | borderHandler => onBorder t q st'
         end).
Proof.
  intros st fuel w p Hwf Hw Hfuel.
  destruct (findEventTarget_hit st Hwf fuel w p Hw Hfuel) as ([[t q] tg] & Hf & Hh).
  exists t, q, tg.
  split; [assumption|]. split; [assumption|].
  split; [intros r Hr; symmetry; eapply hit_functional; eauto|].
  split; [eapply hit_terminal; eauto|].
  intros focus hc hb setFocus. unfold event. rewrite Hf. reflexivity.
Qed.

(** A desktop of 80x25 whose root has the viewport origin (2,1), with a
    child window at (10,5) of size 20x10 scrolled to (3,0), which has a
    child at (4,2) of size 5x3. *)
Definition nestedWindows : State :=
  Eval vm_compute in
    match
      (do r <- newDesktop 12 (newApplication (mkSize 80 25));
       let '(d, st) := r in
       do st <- SetDesktop 12 d st;
       do r <- NewChild 12 0 (rect 10 5 20 10) st;
       let '(a, st) := r in
       do r <- NewChild 12 a (rect 4 2 5 3) st;
       let '(b, st) := r in
       do st <- SetOrigin 12 0 (mkPosition 2 1) st;
       SetOrigin 12 a (mkPosition 3 0) st)
    with
    | Some st => setAppUpdateLevel 0 (mkState (windows st) (desktops st)
                                               (app_desktop st) (app_size st) 0 [])
    | None => newApplication zeroSize
    end.

Example nestedWindows_shape :
  map (fun w => (parent w, children w, position w, size w, clientArea w, view w))
      (windows nestedWindows) =
  [(None, [1%nat], mkPosition 0 0, mkSize 80 25, rect 0 0 80 25, mkPosition 2 1);
   (Some 0%nat, [2%nat], mkPosition 10 5, mkSize 20 10, rect 1 1 18 8, mkPosition 3 0);
   (Some 1%nat, [], mkPosition 4 2, mkSize 5 3, rect 1 1 3 1, mkPosition 0 0)].
Proof. reflexivity. Qed.

(** The screen position (12,7) reaches the grandchild through both
    viewports: (12,7)+(2,1)-(10,5) = (4,3) in the child, then
    (4,3)+(3,0)-(1,1)-(4,2) = (2,0) in the grandchild, on its top border. *)
Example nestedWindows_hit :
  findEventTarget 3 nestedWindows 0 (mkPosition 12 7) =
  Some (2%nat, mkPosition 2 0, borderHandler) /\
  findEventTarget 3 nestedWindows 0 (mkPosition 13 8) =
  Some (2%nat, mkPosition 2 0, clientAreaHandler) /\
  findEventTarget 3 nestedWindows 0 (mkPosition 40 20) =
  Some (0%nat, mkPosition 42 21, clientAreaHandler).
Proof. split; [|split]; reflexivity. Qed.

Lemma hit_testing_witness :
  exists t q tg,
    findEventTarget 3 nestedWindows 0 (mkPosition 12 7) = Some (t, q, tg) /\
    hit nestedWindows 0 (mkPosition 12 7) (t, q, tg).
Proof.
  destruct (hit_testing nestedWindows 3 0%nat (mkPosition 12 7))
    as (t & q & tg & Hf & Hh & _).
  - reflexivity.
  - simpl. lia.
  - simpl. lia.
  - exists t, q, tg. split; assumption.
Defined.

(** ** What painting and invalidation leave unchanged *)

(** Painting leaves the window tree, the application fields and the
    roots and update levels of the desktops as they are; it can only add
    to the log and to the invalidated rectangles. *)
Definition paintFrame (st st' : State) : Prop :=
  windows st' = windows st /\
  app_desktop st' = app_desktop st /\
  app_size st' = app_size st /\
  app_updateLevel st' = app_updateLevel st /\
  map root (desktops st') = map root (desktops st) /\
  map updateLevel (desktops st') = map updateLevel (desktops st) /\
  exists l, log st' = log st ++ l.

Lemma paintFrame_refl st : paintFrame st st.
Proof.
  unfold paintFrame. repeat (split; [reflexivity|]).
  exists []. now rewrite app_nil_r.
Qed.

Lemma paintFrame_trans a b c : paintFrame a b -> paintFrame b c -> paintFrame a c.
Proof.
  intros (H1 & H2 & H3 & H4 & H5 & H6 & l1 & H7)
         (G1 & G2 & G3 & G4 & G5 & G6 & l2 & G7).
  unfold paintFrame.
  split; [congruence|]. split; [congruence|]. split; [congruence|].
  split; [congruence|]. split; [congruence|]. split; [congruence|].
  exists (l1 ++ l2). rewrite G7, H7. now rewrite app_assoc.
Qed.

Lemma paintFrame_logEvent st e : paintFrame st (logEvent e st).
Proof.
  unfold paintFrame, logEvent. simpl. repeat (split; [reflexivity|]).
  now exists [e].
Qed.

Lemma forallb_map {A B} (f : B -> bool) (g : A -> B) l :
  forallb f (map g l) = forallb (fun x => f (g x)) l.
Proof. induction l; simpl; congruence. Qed.

Lemma wf_shape st st' :
  windows st' = windows st -> app_desktop st' = app_desktop st ->
  map root (desktops st') = map root (desktops st) ->
  wf st' = wf st.
Proof.
  intros Hw Ha Hr. unfold wf. rewrite Hw, Ha.
  assert (Hlen : length (desktops st') = length (desktops st)).
  { rewrite <- (length_map root (desktops st')), Hr. apply length_map. }
  rewrite Hlen.
  rewrite <- (forallb_map (fun r => (r <? length (windows st))%nat) root (desktops st')).
  rewrite Hr. rewrite forallb_map. reflexivity.
Qed.

Lemma paintFrame_wf st st' : paintFrame st st' -> wf st' = wf st.
Proof. intros (H1 & H2 & _ & _ & H5 & _). now apply wf_shape. Qed.

Lemma paintFrame_windows st st' : paintFrame st st' -> windows st' = windows st.
Proof. now intros (H1 & _). Qed.

Lemma map_insert_same {A B} (f : A -> B) (l : list A) i x y :
  l !! i = Some x -> f y = f x -> map f (<[i := y]> l) = map f l.
Proof.
  intros Hl Hf.
  change (map f (<[i:=y]> l)) with (f <$> <[i:=y]> l).
  rewrite list_fmap_insert, Hf.
  apply list_insert_id. rewrite list_lookup_fmap, Hl. reflexivity.
Qed.

(** Assigning a desktop record with the same root and update level. *)
Lemma updDesktop_frame d f st dsk :
  desktops st !! d = Some dsk ->
  root (f dsk) = root dsk -> updateLevel (f dsk) = updateLevel dsk ->
  exists st', updDesktop d f st = Some st' /\ paintFrame st st' /\
              log st' = log st /\
              desktops st' = <[d := f dsk]> (desktops st).
Proof.
  intros Hd Hr Hu. unfold updDesktop. rewrite Hd.
  eexists. split; [reflexivity|]. split; [|split; reflexivity].
  unfold paintFrame, setDesktops. simpl.
  repeat (split; [reflexivity|]).
  split; [eapply map_insert_same; eauto|].
  split; [eapply map_insert_same; eauto|].
  exists []. now rewrite app_nil_r.
Qed.

Lemma paintDeferred_ok st (Hwf : wf st = true) d :
  (d < length (desktops st))%nat ->
  forall fuel w area,
    (w < length (windows st))%nat -> (w < fuel)%nat ->
    exists st', paintDeferred fuel d w area st = Some st' /\
                paintFrame st st' /\ log st' = log st.
Proof.
  intros Hd. induction fuel as [|fuel IH]; intros w area Hw Hf; [lia|].
  destruct (lookup_valid _ _ Hw) as [win Hwin].
  cbn [paintDeferred]. rewrite Hwin.
  destruct (parent win) as [p|] eqn:Hp.
  - pose proof (wf_parent _ _ _ _ Hwf Hwin Hp) as Hpw.
    destruct (lookup_valid (windows st) p ltac:(lia)) as [pw Hpwin].
    rewrite Hpwin.
    destruct (Clip _ (ClientArea pw)) as [area2 ok]. destruct ok.
    + apply IH; lia.
    + eexists. split; [reflexivity|]. split; [apply paintFrame_refl|reflexivity].
  - destruct (lookup_valid _ _ Hd) as [dsk Hdsk].
    destruct (updDesktop_frame d
                (fun dsk => mkDesktop (join (invalidated dsk) area) (root dsk)
                                      (updateLevel dsk)) st dsk Hdsk
                eq_refl eq_refl) as (st' & H1 & H2 & H3 & _).
    eauto.
Qed.

Section PaintStages.

Variable paintf : WinId -> Rectangle -> State -> option State.
Variable w : WinId.
Variable n : nat.

(** The children of [w] can be painted, in a store of [n] windows. *)
Hypothesis paintf_ok :
  forall st c area,
    wf st = true -> length (windows st) = n -> (w < c < n)%nat ->
    exists st', paintf c area st = Some st' /\ paintFrame st st'.

Lemma paintChildren_ok clPos ctx : forall cs st,
  wf st = true -> length (windows st) = n ->
  (forall c, List.In c cs -> (w < c < n)%nat) ->
  exists st', paintChildren paintf clPos ctx cs st = Some st' /\
              paintFrame st st'.
Proof.
  induction cs as [|c cs IH]; intros st Hwf Hn Hcs.
  - eexists. split; [reflexivity|apply paintFrame_refl].
  - pose proof (Hcs c (or_introl eq_refl)) as Hc.
    destruct (lookup_valid (windows st) c ltac:(lia)) as [cw Hcw].
    cbn [paintChildren]. rewrite Hcw.
    destruct (Clip _ (ctxRectangle ctx)) as [area ok].
    assert (exists st1, (if ok then paintf c (mkRectangle (sub (Pos area) (add (position cw) clPos)) (Sz area)) st
                         else Some st) = Some st1 /\ paintFrame st st1)
      as (st1 & -> & Hf1).
    { destruct ok; [apply paintf_ok; auto|].
      eexists. split; [reflexivity|apply paintFrame_refl]. }
    destruct (IH st1) as (st2 & H2 & Hf2).
    + now rewrite (paintFrame_wf _ _ Hf1).
    + now rewrite (paintFrame_windows _ _ Hf1).
    + intros c' Hc'. apply Hcs. now right.
    + exists st2. split; [assumption|]. eapply paintFrame_trans; eauto.
Qed.

Lemma builtinPaint_ok stage ctx st win :
  wf st = true -> length (windows st) = n -> windows st !! w = Some win ->
  stage <> StPaintClientArea ->
  exists st', builtinPaint paintf stage w ctx st = Some st' /\
              paintFrame st st'.
Proof.
  intros Hwf Hn Hwin Hstage.
  destruct stage; try congruence;
    try (eexists; split; [reflexivity|apply paintFrame_logEvent]).
  cbn [builtinPaint]. rewrite Hwin.
  apply paintChildren_ok; [assumption..|].
  intros c Hc. rewrite <- Hn. eapply wf_children; eauto.
Qed.

Lemma callPaintChain_ok stage ctx win : forall l st,
  wf st = true -> length (windows st) = n -> windows st !! w = Some win ->
  validChain (negb (PaintStage_eqb stage StPaintClientArea)) l = true ->
  exists st', callPaintChain (builtinPaint paintf stage) l w ctx st = Some st' /\
              paintFrame st st'.
Proof.
  induction l as [|h l IH]; intros st Hwf Hn Hwin Hv.
  - eexists. split; [reflexivity|apply paintFrame_refl].
  - destruct h as [|tag]; cbn [callPaintChain validChain] in *.
    + apply andb_true_iff in Hv as [Hallow Hnil].
      destruct l; [|discriminate].
      eapply builtinPaint_ok; eauto.
      intros ->. discriminate.
    + destruct (IH st Hwf Hn Hwin Hv) as (st1 & -> & Hf1).
      eexists. split; [reflexivity|].
      eapply paintFrame_trans; [exact Hf1|apply paintFrame_logEvent].
Qed.

Lemma wf_validChain st win stage :
  wf st = true -> windows st !! w = Some win ->
  validChain (negb (PaintStage_eqb stage StPaintClientArea))
             (paintHandlers win stage) = true.
Proof.
  intros Hwf Hwin. pose proof (wf_window _ _ _ Hwf Hwin) as H.
  unfold wfWindow in H. rewrite !andb_true_iff in H.
  destruct H as [_ H]. rewrite forallb_forall in H. apply H.
  unfold allStages. destruct stage; simpl; tauto.
Qed.

Lemma HandlePaint_ok stage ctx st :
  wf st = true -> length (windows st) = n -> (w < n)%nat ->
  exists st', HandlePaint paintf stage w ctx st = Some st' /\
              paintFrame st st'.
Proof.
  intros Hwf Hn Hw. rewrite <- Hn in Hw.
  destruct (lookup_valid _ _ Hw) as [win Hwin].
  unfold HandlePaint. rewrite Hwin.
  pose proof (wf_validChain st win stage Hwf Hwin) as Hv.
  destruct (paintHandlers win stage) as [|h l] eqn:Hl.
  - eexists. split; [reflexivity|apply paintFrame_refl].
  - destruct (IsZero _).
    + eexists. split; [reflexivity|apply paintFrame_refl].
    + eapply callPaintChain_ok; eauto.
Qed.

Lemma paintStage_ok stage a0 area st :
  wf st = true -> length (windows st) = n -> (w < n)%nat ->
  exists st', paintStage paintf stage w a0 area st = Some st' /\
              paintFrame st st'.
Proof.
  intros Hwf Hn Hw. unfold paintStage.
  destruct (Clip a0 area) as [a ok]. destruct ok.
  - now apply HandlePaint_ok.
  - eexists. split; [reflexivity|apply paintFrame_refl].
Qed.

End PaintStages.

Lemma frame_bind st (m : option State) (k : State -> option State) :
  (exists st1, m = Some st1 /\ paintFrame st st1) ->
  (forall st1, paintFrame st st1 ->
               exists st2, k st1 = Some st2 /\ paintFrame st1 st2) ->
  exists st2, (do st1 <- m; k st1) = Some st2 /\ paintFrame st st2.
Proof.
  intros (st1 & -> & Hf1) Hk. destruct (Hk st1 Hf1) as (st2 & H2 & Hf2).
  exists st2. split; [assumption|]. eapply paintFrame_trans; eauto.
Qed.

Lemma win_bind {A} st w (k : Window -> option A) (P : A -> Prop) :
  (w < length (windows st))%nat ->
  (forall win, windows st !! w = Some win -> exists r, k win = Some r /\ P r) ->
  exists r, (do win <- windows st !! w; k win) = Some r /\ P r.
Proof.
  intros Hw Hk. destruct (lookup_valid _ _ Hw) as [win Hwin].
  rewrite Hwin. auto.
Qed.

Lemma paintFrame_good st st' n :
  paintFrame st st' -> wf st = true -> length (windows st) = n ->
  wf st' = true /\ length (windows st') = n.
Proof.
  intros Hf Hwf Hw. rewrite (paintFrame_wf _ _ Hf), (paintFrame_windows _ _ Hf).
  auto.
Qed.

Ltac frame_next n :=
  let st1 := fresh "st" in
  let Hf := fresh "Hf" in
  let Hwf := fresh "Hwf" in
  let Hn := fresh "Hn" in
  intros st1 Hf;
  destruct (paintFrame_good _ _ n Hf) as [Hwf Hn]; [assumption..|];
  clear Hf.

Lemma paintStages_ok paintf w n area st :
  (forall st c area,
      wf st = true -> length (windows st) = n -> (w < c < n)%nat ->
      exists st', paintf c area st = Some st' /\ paintFrame st st') ->
  wf st = true -> length (windows st) = n -> (w < n)%nat ->
  exists st', paintStages paintf w area st = Some st' /\ paintFrame st st'.
Proof.
  intros Hp Hwf Hn Hw. unfold paintStages.
  assert (Hlook : forall st, length (windows st) = n ->
                             (w < length (windows st))%nat)
    by (intros ? ->; assumption).
  apply win_bind; [auto|intros ? _].
  apply frame_bind; [eapply paintStage_ok; eassumption|frame_next n].
  apply win_bind; [auto|intros ? _].
  apply frame_bind; [eapply paintStage_ok; eassumption|frame_next n].
  apply win_bind; [auto|intros ? _].
  apply frame_bind; [|frame_next n].
  { destruct (_ && _).
    - eapply paintStage_ok; eassumption.
    - eexists; split; [reflexivity|apply paintFrame_refl]. }
  apply win_bind; [auto|intros ? _].
  apply frame_bind; [eapply paintStage_ok; eassumption|frame_next n].
  apply win_bind; [auto|intros ? _].
  apply frame_bind; [eapply paintStage_ok; eassumption|frame_next n].
  apply win_bind; [auto|intros ? _].
  apply frame_bind; [|frame_next n].
  { destruct (Clip _ area) as [a ok]. destruct ok.
    - apply frame_bind; [eapply HandlePaint_ok; eassumption|frame_next n].
      eapply HandlePaint_ok; eassumption.
    - eexists; split; [reflexivity|apply paintFrame_refl]. }
  apply win_bind; [auto|intros ? _].
  apply frame_bind; [eapply paintStage_ok; eassumption|frame_next n].
  apply win_bind; [auto|intros ? _].
  eapply paintStage_ok; eassumption.
Qed.

Lemma wf_app_desktop st d :
  wf st = true -> app_desktop st = Some d -> (d < length (desktops st))%nat.
Proof.
  unfold wf. rewrite !andb_true_iff. intros [_ H] Hd. rewrite Hd in H.
  now apply Nat.ltb_lt.
Qed.

Lemma wf_root st d dsk :
  wf st = true -> desktops st !! d = Some dsk ->
  (root dsk < length (windows st))%nat.
Proof.
  unfold wf. rewrite !andb_true_iff. intros [[_ H] _] Hd.
  rewrite forallb_forall in H. apply Nat.ltb_lt, H.
  apply list_elem_of_In. eapply list_elem_of_lookup_2; eauto.
Qed.

(** [paint] returns, given fuel for twice the number of windows, and
    leaves everything but the log and the invalidated rectangles as it
    was. *)
Lemma paint_ok : forall fuel st w area,
  wf st = true -> (w < length (windows st))%nat ->
  (2 * length (windows st) <= fuel + w)%nat ->
  exists st', paint fuel w area st = Some st' /\ paintFrame st st'.
Proof.
  induction fuel as [|fuel IH]; intros st w area Hwf Hw Hfuel; [lia|].
  cbn [paint].
  apply win_bind; [assumption|intros win Hwin].
  destruct (IsZero (Sz area));
    [eexists; split; [reflexivity|apply paintFrame_refl]|].
  destruct (Clip area _) as [area' ok].
  destruct ok; cbn [negb];
    [|eexists; split; [reflexivity|apply paintFrame_refl]].
  destruct (app_desktop st) as [d|] eqn:Hd;
    [|eexists; split; [reflexivity|apply paintFrame_refl]].
  destruct (Nat.eqb_spec d (desktop win)) as [->|Hne]; cbn [negb];
    [|eexists; split; [reflexivity|apply paintFrame_refl]].
  pose proof (wf_desktop _ _ _ Hwf Hwin) as Hdlt.
  destruct (lookup_valid _ _ Hdlt) as [dsk Hdsk]. rewrite Hdsk.
  destruct (updateLevel dsk =? 0); cbn [negb].
  - eapply paintStages_ok; try eassumption; [|reflexivity].
    intros st1 c area1 Hwf1 Hn1 Hc. apply IH; [assumption|lia|lia].
  - destruct (paintDeferred_ok st Hwf (desktop win) Hdlt fuel w area' Hw ltac:(lia))
      as (st' & H1 & H2 & _).
    eauto.
Qed.

(** ** Update nesting *)

(** Desktop [d] with its invalidated rectangle and update level
    replaced. *)
Definition setDesk (d : DeskId) (inv : Rectangle) (lvl : Z) (st : State)
  : State :=
  setDesktops (alter (fun dsk => mkDesktop inv (root dsk) lvl) d (desktops st)) st.

Lemma setDesk_windows d inv lvl st : windows (setDesk d inv lvl st) = windows st.
Proof. reflexivity. Qed.

Lemma setDesk_log d inv lvl st : log (setDesk d inv lvl st) = log st.
Proof. reflexivity. Qed.

Lemma setDesk_lookup d inv lvl st dsk :
  desktops st !! d = Some dsk ->
  desktops (setDesk d inv lvl st) !! d = Some (mkDesktop inv (root dsk) lvl).
Proof.
  intros H. unfold setDesk. simpl.
  rewrite list_lookup_alter, decide_True by reflexivity. now rewrite H.
Qed.

Lemma setDesk_setDesk d i1 l1 i2 l2 st :
  setDesk d i2 l2 (setDesk d i1 l1 st) = setDesk d i2 l2 st.
Proof.
  unfold setDesk, setDesktops. simpl. f_equal.
  apply list_eq. intros i.
  destruct (decide (d = i)) as [<-|Hne].
  - rewrite !list_lookup_alter_eq. destruct (desktops st !! d); reflexivity.
  - now rewrite !list_lookup_alter_ne.
Qed.

Lemma setDesk_id d st dsk :
  desktops st !! d = Some dsk ->
  setDesk d (invalidated dsk) (updateLevel dsk) st = st.
Proof.
  intros H. unfold setDesk, setDesktops. destruct st as [ws ds ad asz al lg].
  simpl in *. f_equal.
  apply list_eq. intros i. rewrite list_lookup_alter.
  destruct (decide (d = i)) as [<-|]; [|reflexivity].
  rewrite H. destruct dsk; reflexivity.
Qed.

Lemma updDesktop_setDesk d f st dsk :
  desktops st !! d = Some dsk -> root (f dsk) = root dsk ->
  updDesktop d f st =
  Some (setDesk d (invalidated (f dsk)) (updateLevel (f dsk)) st).
Proof.
  intros H Hr. unfold updDesktop, setDesk. rewrite H. f_equal. f_equal.
  apply list_eq. intros i. rewrite list_lookup_alter.
  destruct (decide (d = i)) as [<-|Hne].
  - rewrite list_lookup_insert_eq by (eapply lookup_lt_Some; eauto).
    rewrite H. simpl. rewrite <- Hr. destruct (f dsk); reflexivity.
  - now rewrite list_lookup_insert_ne.
Qed.

Lemma setDesk_wf d inv lvl st : wf (setDesk d inv lvl st) = wf st.
Proof.
  apply wf_shape; try reflexivity.
  unfold setDesk. simpl.
  apply list_eq. intros i.
  change (map root ?l) with (root <$> l).
  rewrite !list_lookup_fmap, list_lookup_alter.
  destruct (decide (d = i)) as [<-|]; [|reflexivity].
  destruct (desktops st !! d); reflexivity.
Qed.

(** The [for] loop of [paint] as a function of the window tree: the
    area of window [w] in the coordinates of its root window, or [None]
    when it is clipped away by the client area of an ancestor. *)
Fixpoint toRoot (fuel : nat) (ws : list Window) (w : WinId) (area : Rectangle)
  : option (option Rectangle) :=
  match fuel with
  | O => None
  | S fuel =>
    do win <- ws !! w;
    match parent win with
    | None => Some (Some area)
    | Some p =>
      do pw <- ws !! p;
      let area1 :=
          mkRectangle (add (add (Pos area) (position win))
                           (sub (ClientPosition pw) (Origin pw)))
                      (Sz area) in
      let '(area2, ok) := Clip area1 (ClientArea pw) in
      if ok then toRoot fuel ws p area2 else Some None
    end
  end.




Definition accumulate (r : option Rectangle) (acc : Rectangle) : Rectangle :=
  match r with
  | Some r => join acc r
  | None => acc
  end.


Lemma paintDeferred_toRoot d inv lvl st dsk :
  desktops st !! d = Some dsk ->
  forall fuel w area,
    paintDeferred fuel d w area (setDesk d inv lvl st) =
    match toRoot fuel (windows st) w area with
    | Some r => Some (setDesk d (accumulate r inv) lvl st)
    | None => None
    end.
Proof.
  intros Hd. induction fuel as [|fuel IH]; intros w area; [reflexivity|].
  cbn [paintDeferred toRoot]. rewrite setDesk_windows.
  destruct (windows st !! w) as [win|]; [|reflexivity].
  destruct (parent win) as [p|].
  - destruct (windows st !! p) as [pw|]; [|reflexivity].
    destruct (Clip _ (ClientArea pw)) as [area2 ok]. destruct ok; [apply IH|].
    reflexivity.
  - erewrite updDesktop_setDesk; [|apply setDesk_lookup; eassumption|reflexivity].
    simpl. now rewrite setDesk_setDesk.
Qed.



(** The window tree, the active desktop, the screen size and the root of
    every desktop are the same in both states. *)
Definition shapeFrame (st st' : State) : Prop :=
  windows st' = windows st /\
  app_desktop st' = app_desktop st /\
  app_size st' = app_size st /\
  map root (desktops st') = map root (desktops st).

Lemma shapeFrame_refl st : shapeFrame st st.
Proof. unfold shapeFrame. auto. Qed.

Lemma shapeFrame_trans a b c : shapeFrame a b -> shapeFrame b c -> shapeFrame a c.
Proof.
  intros (H1 & H2 & H3 & H4) (G1 & G2 & G3 & G4). unfold shapeFrame.
  split; [congruence|]. split; [congruence|]. split; congruence.
Qed.

Lemma paintFrame_shape st st' : paintFrame st st' -> shapeFrame st st'.
Proof. intros (H1 & H2 & H3 & _ & H5 & _). unfold shapeFrame. auto. Qed.

Lemma shapeFrame_wf st st' : shapeFrame st st' -> wf st' = wf st.
Proof. intros (H1 & H2 & _ & H4). now apply wf_shape. Qed.

Lemma shapeFrame_windows st st' : shapeFrame st st' -> windows st' = windows st.
Proof. now intros (H1 & _). Qed.

Lemma shape_bind st (m : option State) (k : State -> option State) :
  (exists st1, m = Some st1 /\ shapeFrame st st1) ->
  (forall st1, shapeFrame st st1 ->
               exists st2, k st1 = Some st2 /\ shapeFrame st1 st2) ->
  exists st2, (do st1 <- m; k st1) = Some st2 /\ shapeFrame st st2.
Proof.
  intros (st1 & -> & Hf1) Hk. destruct (Hk st1 Hf1) as (st2 & H2 & Hf2).
  exists st2. split; [assumption|]. eapply shapeFrame_trans; eauto.
Qed.

Lemma shapeFrame_good st st' n :
  shapeFrame st st' -> wf st = true -> length (windows st) = n ->
  wf st' = true /\ length (windows st') = n.
Proof.
  intros Hf Hwf Hw. rewrite (shapeFrame_wf _ _ Hf), (shapeFrame_windows _ _ Hf).
  auto.
Qed.

Ltac shape_next n :=
  let st1 := fresh "st" in
  let Hf := fresh "Hf" in
  let Hwf := fresh "Hwf" in
  let Hn := fresh "Hn" in
  intros st1 Hf;
  destruct (shapeFrame_good _ _ n Hf) as [Hwf Hn];
    [first [assumption|reflexivity]..|];
  clear Hf.

Lemma setDesk_shape d inv lvl st : shapeFrame st (setDesk d inv lvl st).
Proof.
  unfold shapeFrame. repeat (split; [reflexivity|]).
  unfold setDesk. simpl.
  apply list_eq. intros i.
  change (map root ?l) with (root <$> l).
  rewrite !list_lookup_fmap.
  destruct (decide (d = i)) as [<-|Hne].
  - rewrite list_lookup_alter_eq. destruct (desktops st !! d); reflexivity.
  - now rewrite list_lookup_alter_ne.
Qed.

(** [paintSelection] only adds to the log. *)
Lemma paintSelection_ok st :
  wf st = true ->
  exists st' l, paintSelection st = Some st' /\
                st' = mkState (windows st) (desktops st) (app_desktop st)
                              (app_size st) (app_updateLevel st) (log st ++ l) /\
                (l = [] \/ exists area, l = [EvSelection area]).
Proof.
  intros Hwf. unfold paintSelection.
  destruct (app_desktop st) as [d|] eqn:Hd.
  - pose proof (wf_app_desktop _ _ Hwf Hd) as Hdlt.
    destruct (lookup_valid _ _ Hdlt) as [dsk Hdsk]. rewrite Hdsk.
    destruct (lookup_valid _ _ (wf_root _ _ _ Hwf Hdsk)) as [r Hr]. rewrite Hr.
    destruct (IsZero _).
    + exists st, []. split; [reflexivity|]. split; [|auto].
      destruct st; simpl in *. now rewrite app_nil_r, Hd.
    + eexists _, _. split; [reflexivity|]. unfold logEvent.
      rewrite Hd. split; [reflexivity|]. right. eauto.
  - exists st, []. split; [reflexivity|]. split; [|auto].
    destruct st; simpl in *. now rewrite app_nil_r, Hd.
Qed.

Lemma wf_app_fields ws ds ad asz l1 g1 l2 g2 :
  wf (mkState ws ds ad asz l1 g1) = wf (mkState ws ds ad asz l2 g2).
Proof. reflexivity. Qed.

Lemma Application_beginUpdate_ok st :
  wf st = true ->
  exists st' l,
    Application_beginUpdate st = Some st' /\
    st' = mkState (windows st) (desktops st) (app_desktop st) (app_size st)
                  (wrap32 (app_updateLevel st + 1)) (log st ++ l).
Proof.
  intros Hwf. unfold Application_beginUpdate.
  destruct (_ =? 1).
  - destruct (paintSelection_ok (setAppUpdateLevel (wrap32 (app_updateLevel st + 1)) st))
      as (st' & l & H1 & H2 & _); [exact Hwf|].
    exists st', l. split; assumption.
  - eexists _, []. split; [reflexivity|].
    unfold setAppUpdateLevel. now rewrite app_nil_r.
Qed.

Lemma Application_endUpdate_ok st :
  wf st = true ->
  exists st' l,
    Application_endUpdate st = Some st' /\
    st' = mkState (windows st) (desktops st) (app_desktop st) (app_size st)
                  (wrap32 (app_updateLevel st - 1)) (log st ++ l) /\
    (wrap32 (app_updateLevel st - 1) = 0 -> last l = Some EvShow) /\
    (wrap32 (app_updateLevel st - 1) <> 0 -> l = []).
Proof.
  intros Hwf. unfold Application_endUpdate.
  destruct (Z.eqb_spec (wrap32 (app_updateLevel st - 1)) 0) as [Hz|Hz].
  - destruct (paintSelection_ok (setAppUpdateLevel (wrap32 (app_updateLevel st - 1)) st))
      as (st' & l & H1 & H2 & _); [exact Hwf|].
    rewrite H1. exists (logEvent EvShow st'), (l ++ [EvShow]).
    split; [reflexivity|]. split; [|split].
    + subst st'. unfold logEvent. simpl. now rewrite app_assoc.
    + intros _. apply last_snoc.
    + intros Hne. contradiction.
  - eexists _, []. split; [reflexivity|]. split; [|split].
    + unfold setAppUpdateLevel. now rewrite app_nil_r.
    + intros H. contradiction.
    + reflexivity.
Qed.

Lemma app_fields_shape st l g :
  shapeFrame st (mkState (windows st) (desktops st) (app_desktop st)
                         (app_size st) l g).
Proof. unfold shapeFrame. simpl. auto. Qed.

Lemma BeginUpdate_ok st w :
  wf st = true -> (w < length (windows st))%nat ->
  exists st', BeginUpdate (Some w) st = Some st' /\ shapeFrame st st'.
Proof.
  intros Hwf Hw. destruct (lookup_valid _ _ Hw) as [win Hwin].
  unfold BeginUpdate. rewrite Hwin.
  destruct (lookup_valid _ _ (wf_desktop _ _ _ Hwf Hwin)) as [dsk Hdsk].
  erewrite updDesktop_setDesk by (try eassumption; reflexivity).
  eexists. split; [reflexivity|apply setDesk_shape].
Qed.

Lemma EndUpdate_ok fuel st w :
  wf st = true -> (w < length (windows st))%nat ->
  (2 * length (windows st) <= fuel)%nat ->
  exists st', EndUpdate fuel (Some w) st = Some st' /\ shapeFrame st st'.
Proof.
  intros Hwf Hw Hfuel. destruct (lookup_valid _ _ Hw) as [win Hwin].
  unfold EndUpdate. rewrite Hwin.
  destruct (lookup_valid _ _ (wf_desktop _ _ _ Hwf Hwin)) as [dsk Hdsk].
  erewrite updDesktop_setDesk by (try eassumption; reflexivity).
  cbv beta iota.
  erewrite setDesk_lookup by eassumption. cbn [invalidated updateLevel root].
  set (st1 := setDesk _ _ _ st).
  assert (Hf1 : shapeFrame st st1) by apply setDesk_shape.
  assert (Hwf1 : wf st1 = true) by (unfold st1; now rewrite setDesk_wf).
  destruct (_ && _); [|eauto].
  destruct (Application_beginUpdate_ok st1 Hwf1) as (sb & l & -> & Hsb).
  assert (Hfb : shapeFrame st1 sb) by (subst sb; apply app_fields_shape).
  destruct (shapeFrame_good _ _ _ Hfb Hwf1 eq_refl) as [Hwfb Hnb].
  destruct (paint_ok fuel sb (root dsk) (invalidated dsk) Hwfb) as (sp & -> & Hfp).
  { rewrite Hnb. unfold st1. rewrite setDesk_windows. eapply wf_root; eauto. }
  { rewrite Hnb. unfold st1. rewrite setDesk_windows. lia. }
  apply paintFrame_shape in Hfp.
  destruct (shapeFrame_good _ _ _ Hfp Hwfb eq_refl) as [Hwfp Hnp].
  destruct (Application_endUpdate_ok sp Hwfp) as (se & l' & -> & Hse & _).
  exists se. split; [reflexivity|].
  eapply shapeFrame_trans; [exact Hf1|].
  eapply shapeFrame_trans; [exact Hfb|].
  eapply shapeFrame_trans; [exact Hfp|].
  subst se. apply app_fields_shape.
Qed.

(** [BeginUpdate; paint; EndUpdate], the common tail of [Invalidate] and
    [InvalidateClientArea]. *)
Lemma updatePaint_ok fuel st w area :
  wf st = true -> (w < length (windows st))%nat ->
  (2 * length (windows st) <= fuel)%nat ->
  exists st',
    (do st1 <- BeginUpdate (Some w) st;
     do st2 <- paint fuel w area st1;
     EndUpdate fuel (Some w) st2) = Some st' /\ shapeFrame st st'.
Proof.
  intros Hwf Hw Hfuel.
  apply shape_bind; [now apply BeginUpdate_ok|].
  shape_next (length (windows st)).
  apply shape_bind.
  { destruct (paint_ok fuel st0 w area) as (st' & H1 & H2);
      [assumption|lia|lia|].
    exists st'. split; [assumption|now apply paintFrame_shape]. }
  shape_next (length (windows st)).
  apply EndUpdate_ok; [assumption|lia|lia].
Qed.

Lemma Invalidate_ok fuel st w area :
  wf st = true -> (w < length (windows st))%nat ->
  (2 * length (windows st) <= fuel)%nat ->
  exists st', Invalidate fuel w area st = Some st' /\ shapeFrame st st'.
Proof.
  intros Hwf Hw Hfuel. unfold Invalidate.
  destruct (lookup_valid _ _ Hw) as [win ->].
  destruct (Clip area _) as [area' ok]. destruct ok; cbn [negb].
  - now apply updatePaint_ok.
  - eexists. split; [reflexivity|apply shapeFrame_refl].
Qed.

Lemma InvalidateClientArea_ok fuel st w area :
  wf st = true -> (w < length (windows st))%nat ->
  (2 * length (windows st) <= fuel)%nat ->
  exists st', InvalidateClientArea fuel w area st = Some st' /\ shapeFrame st st'.
Proof.
  intros Hwf Hw Hfuel. unfold InvalidateClientArea.
  destruct (lookup_valid _ _ Hw) as [win ->].
  destruct (Clip _ (clientArea win)) as [area' ok]. destruct ok; cbn [negb].
  - now apply updatePaint_ok.
  - eexists. split; [reflexivity|apply shapeFrame_refl].
Qed.

(** ** Setters *)

(** The fields of a window that the paint and update engine follows. *)
Definition treeOf (win : Window) :=
  (desktop win, parent win, children win, paintHandlers win).

Lemma wfWindow_treeOf nw nd i a b :
  treeOf a = treeOf b -> wfWindow nw nd i a = wfWindow nw nd i b.
Proof.
  unfold treeOf. intros [= H1 H2 H3 H4]. unfold wfWindow.
  now rewrite H1, H2, H3, H4.
Qed.

Lemma wfWindows_treeOf nw nd : forall ws ws' i,
  map treeOf ws = map treeOf ws' ->
  wfWindows nw nd i ws = wfWindows nw nd i ws'.
Proof.
  induction ws as [|a ws IH]; intros [|b ws'] i H; try discriminate.
  - reflexivity.
  - simpl in H.
    assert (Hab : treeOf a = treeOf b) by congruence.
    assert (Hrest : map treeOf ws = map treeOf ws') by congruence.
    cbn [wfWindows].
    rewrite (wfWindow_treeOf _ _ _ a b Hab). f_equal. now apply IH.
Qed.

(** The state [st'] has the windows of [st] with window [w] replaced by
    [f] of it, the same active desktop and the same desktop roots. *)
Definition altered (f : Window -> Window) (w : WinId) (st st' : State) : Prop :=
  windows st' = alter f w (windows st) /\
  app_desktop st' = app_desktop st /\
  map root (desktops st') = map root (desktops st).

Lemma map_treeOf_alter f w ws :
  (forall win, treeOf (f win) = treeOf win) ->
  map treeOf (alter f w ws) = map treeOf ws.
Proof.
  intros Hf. apply list_eq. intros i.
  change (map treeOf ?l) with (treeOf <$> l).
  rewrite !list_lookup_fmap.
  destruct (decide (w = i)) as [<-|Hne].
  - rewrite list_lookup_alter_eq. destruct (ws !! w); simpl; [|reflexivity].
    now rewrite Hf.
  - now rewrite list_lookup_alter_ne.
Qed.

Lemma altered_wf f w st st' :
  (forall win, treeOf (f win) = treeOf win) ->
  altered f w st st' -> wf st' = wf st.
Proof.
  intros Hf (Hw & Ha & Hr). unfold wf. rewrite Ha.
  assert (Hlen : length (desktops st') = length (desktops st)).
  { rewrite <- (length_map root (desktops st')), Hr. apply length_map. }
  rewrite Hlen.
  rewrite <- (forallb_map (fun r => (r <? length (windows st'))%nat) root (desktops st')).
  rewrite Hr, forallb_map.
  rewrite Hw, length_alter.
  f_equal. f_equal.
  apply wfWindows_treeOf. now apply map_treeOf_alter.
Qed.

Lemma altered_length f w st st' :
  altered f w st st' -> length (windows st') = length (windows st).
Proof. intros (Hw & _). rewrite Hw. apply length_alter. Qed.

Lemma altered_lookup f w st st' win :
  altered f w st st' -> windows st !! w = Some win ->
  windows st' !! w = Some (f win).
Proof.
  intros (Hw & _) Hl. rewrite Hw, list_lookup_alter_eq, Hl. reflexivity.
Qed.

Lemma altered_id w st : altered (fun x => x) w st st.
Proof.
  unfold altered. split; [|auto].
  apply list_eq. intros i. destruct (decide (w = i)) as [<-|Hne].
  - rewrite list_lookup_alter_eq. now destruct (windows st !! w).
  - now rewrite list_lookup_alter_ne.
Qed.

Lemma altered_shape f w st st1 st2 :
  altered f w st st1 -> shapeFrame st1 st2 -> altered f w st st2.
Proof.
  intros (H1 & H2 & H3) (G1 & G2 & _ & G4). unfold altered.
  split; [congruence|]. split; congruence.
Qed.

Lemma altered_ext f g w st st' :
  (forall x, f x = g x) -> altered f w st st' -> altered g w st st'.
Proof.
  intros Hfg (H1 & H2 & H3). unfold altered. split; [|auto].
  rewrite H1. apply list_eq. intros i.
  destruct (decide (w = i)) as [<-|Hne].
  - rewrite !list_lookup_alter_eq. destruct (windows st !! w); simpl; [|reflexivity].
    now rewrite Hfg.
  - now rewrite !list_lookup_alter_ne.
Qed.

(** Assigning a field of window [w] after [f]. *)
Lemma altered_updWindow f g w st st1 win :
  altered f w st st1 -> windows st !! w = Some win ->
  exists st2, updWindow w g st1 = Some st2 /\
              altered (fun x => g (f x)) w st st2.
Proof.
  intros Ha Hl. pose proof (altered_lookup _ _ _ _ _ Ha Hl) as Hl1.
  unfold updWindow. rewrite Hl1. eexists. split; [reflexivity|].
  destruct Ha as (H1 & H2 & H3). unfold altered, setWindows. simpl.
  split; [|auto]. rewrite H1.
  apply list_eq. intros i. destruct (decide (w = i)) as [<-|Hne].
  - rewrite list_lookup_insert_eq
      by (rewrite length_alter; eapply lookup_lt_Some; eauto).
    rewrite list_lookup_alter_eq, Hl. reflexivity.
  - rewrite list_lookup_insert_ne by assumption.
    now rewrite !list_lookup_alter_ne.
Qed.

Definition keepsTree (f : Window -> Window) : Prop :=
  forall win, treeOf (f win) = treeOf win.

Lemma keepsTree_withView v : keepsTree (withView v).
Proof. intros win. reflexivity. Qed.

(** What a step needs to go on: the state is well formed, has as many
    windows as at the start, and [w] is one of them. *)
Lemma altered_good f w st st' :
  keepsTree f -> altered f w st st' -> wf st = true ->
  wf st' = true /\ length (windows st') = length (windows st).
Proof.
  intros Hf Ha Hwf. split.
  - now rewrite (altered_wf _ _ _ _ Hf Ha).
  - eapply altered_length; eauto.
Qed.

(** [Handle]'s call of a handler between BeginUpdate and EndUpdate. *)
Lemma updateBracket_ok f w fuel st (body : State -> option State) :
  keepsTree f -> wf st = true -> (w < length (windows st))%nat ->
  (2 * length (windows st) <= fuel)%nat ->
  (forall st1, shapeFrame st st1 ->
               exists st2, body st1 = Some st2 /\ altered f w st st2) ->
  exists st',
    (do st1 <- BeginUpdate (Some w) st;
     do st2 <- body st1;
     EndUpdate fuel (Some w) st2) = Some st' /\ altered f w st st'.
Proof.
  intros Hf Hwf Hw Hfuel Hbody.
  destruct (BeginUpdate_ok st w Hwf Hw) as (st1 & -> & Hf1).
  destruct (Hbody st1 Hf1) as (st2 & -> & Ha2).
  destruct (altered_good _ _ _ _ Hf Ha2 Hwf) as [Hwf2 Hn2].
  destruct (EndUpdate_ok fuel st2 w Hwf2) as (st3 & -> & Hf3); [lia|lia|].
  exists st3. split; [reflexivity|]. eapply altered_shape; eauto.
Qed.

Lemma shape_altered_id w st st' : shapeFrame st st' -> altered (fun x => x) w st st'.
Proof. intros H. eapply altered_shape; [apply altered_id|exact H]. Qed.

Lemma altered_same f w st win :
  windows st !! w = Some win -> f win = win -> altered f w st st.
Proof.
  intros Hl Hf. unfold altered. split; [|auto].
  apply list_eq. intros i. destruct (decide (w = i)) as [<-|Hne].
  - rewrite list_lookup_alter_eq, Hl. simpl. now rewrite Hf.
  - now rewrite list_lookup_alter_ne.
Qed.

Lemma alter_insert {A} (f : A -> A) (l : list A) i x :
  l !! i = Some x -> alter f i l = <[i := f x]> l.
Proof.
  intros Hl. apply list_eq. intros j. destruct (decide (i = j)) as [<-|Hne].
  - rewrite list_lookup_alter_eq, Hl.
    rewrite list_lookup_insert_eq by (eapply lookup_lt_Some; eauto).
    reflexivity.
  - rewrite list_lookup_alter_ne, list_lookup_insert_ne by assumption.
    reflexivity.
Qed.

Lemma withView_same win : withView (view win) win = win.
Proof. now destruct win. Qed.

(** C9: [w.SetOrigin(p)] returns, and afterwards the stored viewport
    origin of [w] is the component-wise maximum of [p] and (0,0), so both
    its components are non-negative; nothing else of the window tree
    changes. *)
Theorem SetOrigin_clamps :
  forall (fuel : nat) (st : State) (w : WinId) (p : Position) (win : Window),
    wf st = true ->
    windows st !! w = Some win ->
    (2 * length (windows st) <= fuel)%nat ->
    exists st',
      SetOrigin fuel w p st = Some st' /\
      windows st' =
      <[w := withView (mkPosition (Z.max (X p) 0) (Z.max (Y p) 0)) win]>
        (windows st) /\
      (exists win',
          windows st' !! w = Some win' /\
          view win' = mkPosition (Z.max (X p) 0) (Z.max (Y p) 0) /\
          0 <= X (view win') /\ 0 <= Y (view win')).
Proof.
  intros fuel st w p win Hwf Hwin Hfuel.
  assert (Hw : (w < length (windows st))%nat) by (eapply lookup_lt_Some; eauto).
  set (v := mkPosition (Z.max (X p) 0) (Z.max (Y p) 0)).
  assert (Hres : exists st', SetOrigin fuel w p st = Some st' /\
                             altered (withView v) w st st').
  { unfold SetOrigin, Handle. cbn [load store PositionKind chainHead veqb].
    rewrite Hwin, !Max_spec. fold v.
    destruct (Position_eqb (view win) v) eqn:Heq.
    - apply Position_eqb_eq in Heq. exists st. split; [reflexivity|].
      eapply altered_same; [eassumption|]. rewrite <- Heq. apply withView_same.
    - apply updateBracket_ok; try assumption; [apply keepsTree_withView|].
      intros st1 Hf1. unfold onSetOriginHandler, panicIfPrev.
      pose proof (shapeFrame_good _ _ _ Hf1 Hwf eq_refl) as [Hwf1 Hn1].
      rewrite (shapeFrame_windows _ _ Hf1), Hwin.
      destruct (Invalidate_ok fuel st1 w (ClientArea win) Hwf1) as (st2 & -> & Hf2);
        [lia|lia|].
      cbn [store PositionKind].
      destruct (altered_updWindow (fun x => x) (withView v) w st st2 win)
        as (st3 & -> & Ha3); [|assumption|eauto].
      apply shape_altered_id. eapply shapeFrame_trans; eauto. }
  destruct Hres as (st' & Hst' & Ha).
  exists st'. split; [assumption|].
  pose proof (altered_lookup _ _ _ _ _ Ha Hwin) as Hl'.
  destruct Ha as (Hws & _).
  split; [rewrite Hws; now apply alter_insert|].
  exists (withView v win). split; [assumption|]. simpl.
  split; [reflexivity|]. lia.
Qed.

Lemma SetOrigin_clamps_witness :
  exists st',
    SetOrigin 6 0 (mkPosition (-3) 4) nestedWindows = Some st' /\
    exists win', windows st' !! 0%nat = Some win' /\
                 view win' = mkPosition 0 4.
Proof.
  destruct (lookup_valid (windows nestedWindows) 0 ltac:(simpl; lia)) as [win Hwin].
  destruct (SetOrigin_clamps 6 nestedWindows 0%nat (mkPosition (-3) 4) win)
    as (st' & H1 & _ & win' & H2 & H3 & _).
  - reflexivity.
  - exact Hwin.
  - simpl. lia.
  - exists st'. split; [exact H1|]. exists win'. split; [exact H2|exact H3].
Defined.

(** ** Window size and client size *)

Definition clampSize (s : Size) : Size :=
  mkSize (Max 0 (Width s)) (Max 0 (Height s)).

(** The client size [onSetSizeHandler] derives from a window size, and
    the window size [onSetClientSizeHandler] derives from a client size. *)
Definition clientOf (win : Window) (s : Size) : Size :=
  mkSize (Max 0 (isub (Width s) (iadd (borderLeft win) (borderRight win))))
         (Max 0 (isub (Height s) (iadd (borderTop win) (borderBottom win)))).
Definition windowOf (win : Window) (c : Size) : Size :=
  mkSize (iadd (iadd (borderLeft win) (Width c)) (borderRight win))
         (iadd (iadd (borderTop win) (Height c)) (borderBottom win)).

Definition withSizes (sz cs : Size) (win : Window) : Window :=
  withClientArea (mkRectangle (Pos (clientArea win)) cs) (withSize sz win).

(** The size and client size that [setSize] and [SetClientSize] leave in
    a window whose size and client size are [sz] and [cs]: the two
    handlers stripped of invalidation. *)
Fixpoint sizeAfter (n : nat) (win : Window) (s sz cs : Size)
  : option (Size * Size) :=
  match n with
  | O => None
  | S n =>
    if Size_eqb sz s then Some (sz, cs)
    else clientSizeAfter n win (clientOf win (clampSize s)) (clampSize s) cs
  end
with clientSizeAfter (n : nat) (win : Window) (c sz cs : Size)
  : option (Size * Size) :=
  match n with
  | O => None
  | S n =>
    if Size_eqb cs c then Some (sz, cs)
    else match parent win with
         | Some _ => sizeAfter n win (windowOf win (clampSize c)) sz (clampSize c)
         | None => Some (sz, clampSize c)
         end
  end.

Lemma keepsTree_withSizes sz cs : keepsTree (withSizes sz cs).
Proof. intros win. reflexivity. Qed.

Lemma updateBracket_from g w fuel st0 st (body : State -> option State) :
  keepsTree g -> wf st0 = true -> wf st = true ->
  length (windows st) = length (windows st0) ->
  (w < length (windows st0))%nat ->
  (2 * length (windows st0) <= fuel)%nat ->
  (forall st1, shapeFrame st st1 ->
               exists st2, body st1 = Some st2 /\ altered g w st0 st2) ->
  exists st',
    (do st1 <- BeginUpdate (Some w) st;
     do st2 <- body st1;
     EndUpdate fuel (Some w) st2) = Some st' /\ altered g w st0 st'.
Proof.
  intros Hg Hwf0 Hwf Hlen Hw Hfuel Hbody.
  destruct (BeginUpdate_ok st w Hwf ltac:(lia)) as (st1 & -> & Hf1).
  destruct (Hbody st1 Hf1) as (st2 & -> & Ha2).
  destruct (altered_good _ _ _ _ Hg Ha2 Hwf0) as [Hwf2 Hn2].
  destruct (EndUpdate_ok fuel st2 w Hwf2) as (st3 & -> & Hf3); [lia|lia|].
  exists st3. split; [reflexivity|]. eapply altered_shape; eauto.
Qed.

Section SizeRefinement.

Variable st0 : State.
Variable w : WinId.
Variable win : Window.
Hypothesis Hwf0 : wf st0 = true.
Hypothesis Hwin0 : windows st0 !! w = Some win.

Let m := (2 * length (windows st0))%nat.

Lemma sized_good sz cs st :
  altered (withSizes sz cs) w st0 st ->
  wf st = true /\ length (windows st) = length (windows st0) /\
  windows st !! w = Some (withSizes sz cs win) /\
  (w < length (windows st0))%nat.
Proof.
  intros Ha.
  destruct (altered_good _ _ _ _ (keepsTree_withSizes sz cs) Ha Hwf0) as [H1 H2].
  split; [assumption|]. split; [assumption|].
  split; [eapply altered_lookup; eauto|].
  eapply lookup_lt_Some; eauto.
Qed.

(** [Invalidate] in a state that differs from the start in the sizes
    of [w]. *)
Lemma sized_Invalidate sz cs st fuel area :
  altered (withSizes sz cs) w st0 st -> (m <= fuel)%nat ->
  exists st', Invalidate fuel w area st = Some st' /\
              altered (withSizes sz cs) w st0 st'.
Proof.
  intros Ha Hfuel. destruct (sized_good _ _ _ Ha) as (H1 & H2 & H3 & H4).
  destruct (Invalidate_ok fuel st w area H1) as (st' & Hi & Hf);
    [lia|unfold m in Hfuel; lia|].
  exists st'. split; [assumption|]. eapply altered_shape; eauto.
Qed.

Lemma sized_InvalidateClientArea sz cs st fuel area :
  altered (withSizes sz cs) w st0 st -> (m <= fuel)%nat ->
  exists st', InvalidateClientArea fuel w area st = Some st' /\
              altered (withSizes sz cs) w st0 st'.
Proof.
  intros Ha Hfuel. destruct (sized_good _ _ _ Ha) as (H1 & H2 & H3 & H4).
  destruct (InvalidateClientArea_ok fuel st w area H1) as (st' & Hi & Hf);
    [lia|unfold m in Hfuel; lia|].
  exists st'. split; [assumption|]. eapply altered_shape; eauto.
Qed.

Lemma sized_store_size sz cs s st :
  altered (withSizes sz cs) w st0 st ->
  exists st', store (LSize w) s st = Some st' /\
              altered (withSizes s cs) w st0 st'.
Proof.
  intros Ha. cbn [store SizeKind].
  destruct (altered_updWindow _ (withSize s) w st0 st win Ha Hwin0)
    as (st' & H1 & H2).
  exists st'. split; [assumption|].
  eapply altered_ext; [|exact H2]. intros x. reflexivity.
Qed.

Lemma sized_store_clientSize sz cs c st :
  altered (withSizes sz cs) w st0 st ->
  exists st', store (LClientSize w) c st = Some st' /\
              altered (withSizes sz c) w st0 st'.
Proof.
  intros Ha. cbn [store SizeKind].
  destruct (altered_updWindow _
              (fun win => withClientArea (mkRectangle (Pos (clientArea win)) c) win)
              w st0 st win Ha Hwin0)
    as (st' & H1 & H2).
  exists st'. split; [assumption|].
  eapply altered_ext; [|exact H2]. intros x. reflexivity.
Qed.

(** The two setters compute [sizeAfter] and [clientSizeAfter]. *)
Lemma setSize_refines : forall k st sz cs,
  altered (withSizes sz cs) w st0 st ->
  (forall s sz' cs',
      sizeAfter k win s sz cs = Some (sz', cs') ->
      exists st', setSize (m + k) w s st = Some st' /\
                  altered (withSizes sz' cs') w st0 st') /\
  (forall c sz' cs',
      clientSizeAfter k win c sz cs = Some (sz', cs') ->
      exists st', SetClientSize (m + k) w c st = Some st' /\
                  altered (withSizes sz' cs') w st0 st').
Proof.
  induction k as [|k IH]; intros st sz cs Ha; [split; intros; discriminate|].
  destruct (sized_good _ _ _ Ha) as (Hwf & Hlen & Hl & Hw).
  replace (m + S k)%nat with (S (m + k)) by lia.
  split.
  - intros s sz' cs' Hp. cbn [sizeAfter] in Hp. cbn [setSize].
    unfold Handle. cbn [load SizeKind chainHead veqb]. rewrite Hl.
    change (size (withSizes sz cs win)) with sz.
    destruct (Size_eqb sz s).
    { injection Hp as <- <-. eauto. }
    apply updateBracket_from; try assumption;
      [apply keepsTree_withSizes|unfold m; lia|].
    intros st1 Hf1.
    pose proof (altered_shape _ _ _ _ _ Ha Hf1) as Ha1.
    unfold onSetSizeHandler, panicIfPrev.
    destruct (sized_good _ _ _ Ha1) as (_ & _ & Hl1 & _). rewrite Hl1.
    destruct (sized_Invalidate _ _ _ (m + k)
                (Area (withSizes sz cs win)) Ha1 ltac:(lia))
      as (st2 & -> & Ha2).
    destruct (sized_store_size _ _ (clampSize s) _ Ha2) as (st3 & Hs3 & Ha3).
    unfold clampSize in Hs3. rewrite Hs3.
    destruct (sized_good _ _ _ Ha3) as (_ & _ & Hl3 & _). rewrite Hl3.
    destruct (IH st3 _ _ Ha3) as [_ IHc].
    destruct (IHc _ _ _ Hp) as (st4 & Hs4 & Ha4).
    unfold clientOf, clampSize in Hs4. cbn [Width Height] in Hs4.
    change (borderLeft (withSizes (clampSize s) cs win)) with (borderLeft win).
    change (borderRight (withSizes (clampSize s) cs win)) with (borderRight win).
    change (borderTop (withSizes (clampSize s) cs win)) with (borderTop win).
    change (borderBottom (withSizes (clampSize s) cs win)) with (borderBottom win).
    cbn [Width Height]. rewrite Hs4.
    destruct (sized_good _ _ _ Ha4) as (_ & _ & Hl4 & _). rewrite Hl4.
    apply sized_Invalidate; [assumption|lia].
  - intros c sz' cs' Hp. cbn [clientSizeAfter] in Hp. cbn [SetClientSize].
    unfold Handle. cbn [load SizeKind chainHead veqb]. rewrite Hl.
    change (Sz (clientArea (withSizes sz cs win))) with cs.
    destruct (Size_eqb cs c).
    { injection Hp as <- <-. eauto. }
    apply updateBracket_from; try assumption;
      [apply keepsTree_withSizes|unfold m; lia|].
    intros st1 Hf1.
    pose proof (altered_shape _ _ _ _ _ Ha Hf1) as Ha1.
    unfold onSetClientSizeHandler, panicIfPrev.
    destruct (sized_good _ _ _ Ha1) as (_ & _ & Hl1 & _). rewrite Hl1.
    destruct (sized_Invalidate _ _ _ (m + k)
                (Area (withSizes sz cs win)) Ha1 ltac:(lia))
      as (st2 & -> & Ha2).
    destruct (sized_store_clientSize _ _ (clampSize c) _ Ha2) as (st3 & Hs3 & Ha3).
    unfold clampSize in Hs3. rewrite Hs3.
    destruct (sized_good _ _ _ Ha3) as (_ & _ & Hl3 & _). rewrite Hl3.
    change (parent (withSizes sz (clampSize c) win)) with (parent win).
    unfold ifHasParent. rewrite Hl3.
    change (parent (withSizes sz (clampSize c) win)) with (parent win).
    destruct (parent win) as [p|] eqn:Hpar.
    + destruct (IH st3 _ _ Ha3) as [IHs _].
      destruct (IHs _ _ _ Hp) as (st4 & Hs4 & Ha4).
      unfold windowOf, clampSize in Hs4. cbn [Width Height] in Hs4.
      change (borderLeft (withSizes sz (clampSize c) win)) with (borderLeft win).
      change (borderRight (withSizes sz (clampSize c) win)) with (borderRight win).
      change (borderTop (withSizes sz (clampSize c) win)) with (borderTop win).
      change (borderBottom (withSizes sz (clampSize c) win)) with (borderBottom win).
      cbn [Width Height]. rewrite Hs4.
      destruct (sized_good _ _ _ Ha4) as (_ & _ & Hl4 & _). rewrite Hl4.
      apply sized_Invalidate; [assumption|lia].
    + injection Hp as <- <-. rewrite Hl3.
      apply sized_InvalidateClientArea; [assumption|lia].
Qed.

End SizeRefinement.

Definition small (z : Z) : Prop := - 2 ^ 60 <= z <= 2 ^ 60.
Definition smallSize (s : Size) : Prop := small (Width s) /\ small (Height s).
Definition smallBorders (win : Window) : Prop :=
  small (borderLeft win) /\ small (borderRight win) /\
  small (borderTop win) /\ small (borderBottom win).

(** The relation between the size and the client size of a window. *)
Definition sizeInv (win : Window) (sz cs : Size) : Prop :=
  0 <= Width sz /\ 0 <= Height sz /\ 0 <= Width cs /\ 0 <= Height cs /\
  Width cs = Z.max 0 (Width sz - borderLeft win - borderRight win) /\
  Height cs = Z.max 0 (Height sz - borderTop win - borderBottom win).

Lemma wrap_small' z : - 2 ^ 63 <= z <= 2 ^ 63 - 1 -> wrap z = z.
Proof. apply wrap_small. Qed.

(** Remove every [wrap e] of the goal whose argument is in range,
    innermost first. *)
Ltac unwrap :=
  repeat match goal with
         | |- context [wrap ?e] =>
           lazymatch e with
           | context [wrap _] => fail
           | _ => rewrite (wrap_small' e) by lia
           end
         end.

Ltac size_arith :=
  unfold sizeInv, smallSize, smallBorders, small, clampSize, clientOf,
    windowOf, iadd, isub, int_min, int_max in *;
  cbn [Width Height] in *;
  rewrite ?Max_spec in *;
  unwrap; lia.

(** The client extent computed by [onSetSizeHandler], without overflow. *)
Lemma clientExtent_small bl br w :
  small bl -> small br -> small w ->
  Max 0 (isub (Max 0 w) (iadd bl br)) = Z.max 0 (Z.max 0 w - bl - br).
Proof. intros. size_arith. Qed.

Lemma sizeAfter_mono : forall n win,
  (forall s sz cs r, sizeAfter n win s sz cs = Some r ->
                     sizeAfter (S n) win s sz cs = Some r) /\
  (forall c sz cs r, clientSizeAfter n win c sz cs = Some r ->
                     clientSizeAfter (S n) win c sz cs = Some r).
Proof.
  induction n as [|n IH]; intros win; [split; intros; discriminate|].
  destruct (IH win) as [IHs IHc]. split.
  - intros s sz cs r H. cbn [sizeAfter] in H.
    change (sizeAfter (S (S n)) win s sz cs)
      with (if Size_eqb sz s then Some (sz, cs)
            else clientSizeAfter (S n) win (clientOf win (clampSize s))
                                 (clampSize s) cs).
    destruct (Size_eqb sz s); [assumption|]. now apply IHc.
  - intros c sz cs r H. cbn [clientSizeAfter] in H.
    change (clientSizeAfter (S (S n)) win c sz cs)
      with (if Size_eqb cs c then Some (sz, cs)
            else match parent win with
                 | Some _ => sizeAfter (S n) win (windowOf win (clampSize c))
                                       sz (clampSize c)
                 | None => Some (sz, clampSize c)
                 end).
    destruct (Size_eqb cs c); [assumption|].
    destruct (parent win); [now apply IHs|assumption].
Qed.

Lemma sizeAfter_more win k : forall n s sz cs r,
  sizeAfter n win s sz cs = Some r -> sizeAfter (n + k) win s sz cs = Some r.
Proof.
  induction k as [|k IH]; intros n s sz cs r H.
  - now rewrite Nat.add_0_r.
  - replace (n + S k)%nat with (S (n + k)) by lia.
    apply sizeAfter_mono. now apply IH.
Qed.

Lemma clientSizeAfter_more win k : forall n c sz cs r,
  clientSizeAfter n win c sz cs = Some r ->
  clientSizeAfter (n + k) win c sz cs = Some r.
Proof.
  induction k as [|k IH]; intros n c sz cs r H.
  - now rewrite Nat.add_0_r.
  - replace (n + S k)%nat with (S (n + k)) by lia.
    apply sizeAfter_mono. now apply IH.
Qed.

Lemma Size_eqb_true_intro (a b : Size) :
  Width a = Width b -> Height a = Height b -> Size_eqb a b = true.
Proof. intros H1 H2. apply Size_eqb_eq. destruct a, b; simpl in *; congruence. Qed.

(** Without overflow, four nested calls are enough for [setSize], and the
    sizes it leaves are related. *)
Lemma sizeAfter_inv win s sz cs :
  smallBorders win -> smallSize s -> sizeInv win sz cs ->
  exists sz' cs', sizeAfter 4 win s sz cs = Some (sz', cs') /\
                  sizeInv win sz' cs'.
Proof.
  intros Hb Hs Hi. cbn [sizeAfter clientSizeAfter].
  destruct (Size_eqb sz s) eqn:E1; [eauto|].
  destruct (Size_eqb cs (clientOf win (clampSize s))) eqn:E2.
  { eexists _, _. split; [reflexivity|].
    apply Size_eqb_eq in E2. rewrite E2. clear E1 E2 Hi. size_arith. }
  destruct (parent win).
  2:{ eexists _, _. split; [reflexivity|]. clear E1 E2 Hi. size_arith. }
  destruct (Size_eqb (clampSize s) _) eqn:E3.
  { eexists _, _. split; [reflexivity|]. clear E1 E2 Hi E3. size_arith. }
  rewrite Size_eqb_true_intro.
  - eexists _, _. split; [reflexivity|]. clear E1 E2 Hi E3. size_arith.
  - clear E1 E2 Hi E3. size_arith.
  - clear E1 E2 Hi E3. size_arith.
Qed.

(** The same for [SetClientSize] on a window that has a parent. *)
Lemma clientSizeAfter_inv win c sz cs :
  parent win <> None ->
  smallBorders win -> smallSize c -> sizeInv win sz cs ->
  exists sz' cs', clientSizeAfter 4 win c sz cs = Some (sz', cs') /\
                  sizeInv win sz' cs'.
Proof.
  intros Hp Hb Hc Hi. cbn [sizeAfter clientSizeAfter].
  destruct (Size_eqb cs c) eqn:E1; [eauto|].
  destruct (parent win) as [p|]; [clear Hp|congruence].
  destruct (Size_eqb sz _) eqn:E2.
  { eexists _, _. split; [reflexivity|].
    apply Size_eqb_eq in E2.
    assert (Hw : Width sz = Width (windowOf win (clampSize c))) by congruence.
    assert (Hh : Height sz = Height (windowOf win (clampSize c))) by congruence.
    clear E1 E2. revert Hw Hh. size_arith. }
  destruct (Size_eqb (clampSize c) _) eqn:E3.
  { eexists _, _. split; [reflexivity|].
    apply Size_eqb_eq in E3.
    assert (Hw : Width (clampSize c) =
                 Width (clientOf win (clampSize (windowOf win (clampSize c)))))
      by congruence.
    assert (Hh : Height (clampSize c) =
                 Height (clientOf win (clampSize (windowOf win (clampSize c)))))
      by congruence.
    clear E1 E2 E3 Hi. revert Hw Hh. size_arith. }
  rewrite Size_eqb_true_intro.
  - eexists _, _. split; [reflexivity|]. clear E1 E2 E3 Hi. size_arith.
  - clear E1 E2 E3 Hi. size_arith.
  - clear E1 E2 E3 Hi. size_arith.
Qed.

Lemma sizeInv_withSizes win sz cs :
  sizeInv win sz cs ->
  sizeInv (withSizes sz cs win) (size (withSizes sz cs win))
          (ClientSize (withSizes sz cs win)).
Proof. intros H. exact H. Qed.

(** A window as [newWindow] makes it has related sizes. *)
Lemma sizeInv_newWindow d p :
  sizeInv (newWindowRecord d p) (size (newWindowRecord d p))
          (ClientSize (newWindowRecord d p)).
Proof. unfold sizeInv. simpl. lia. Qed.

(** C10, as stated, fails on a root window: [SetSize] does nothing
    there, so [SetClientSize] changes the client size alone.  On the
    80x25 root of [nestedWindows], [SetClientSize({10,10})] leaves the
    size [{80,25}] with the client size [{10,10}]. *)
Lemma SetClientSize_root_breaks_relation :
  exists st' win',
    SetClientSize 10 0 (mkSize 10 10) nestedWindows = Some st' /\
    windows st' !! 0%nat = Some win' /\
    size win' = mkSize 80 25 /\
    ClientSize win' = mkSize 10 10 /\
    Width (ClientSize win') <>
    Z.max 0 (Width (size win') - borderLeft win' - borderRight win').
Proof.
  eexists _, _. split; [vm_compute; reflexivity|].
  split; [reflexivity|]. split; [reflexivity|]. split; [reflexivity|].
  simpl. lia.
Qed.

(** C10, amended: on a window whose border widths and whose requested
    size are far from the limits of [int], and whose size and client size
    are related before the call (as they are when the window is created),
    [SetSize], [setSize] and, when the window has a parent,
    [SetClientSize] return, the borders stay as they were, and after the
    call the stored size and client size have non-negative components with
    clientWidth = max(0, width - borderLeft - borderRight) and
    clientHeight = max(0, height - borderTop - borderBottom).  On a
    window without a parent [SetSize] returns the state it was given. *)
Theorem sizes_stay_related :
  forall (fuel : nat) (st : State) (w : WinId) (win : Window) (s : Size),
    wf st = true ->
    windows st !! w = Some win ->
    (2 * length (windows st) + 4 <= fuel)%nat ->
    smallBorders win -> smallSize s ->
    sizeInv win (size win) (ClientSize win) ->
    let related st' :=
        exists win',
          windows st' !! w = Some win' /\
          sizeInv win' (size win') (ClientSize win') /\
          (borderLeft win', borderRight win', borderTop win', borderBottom win') =
          (borderLeft win, borderRight win, borderTop win, borderBottom win) in
    (exists st', SetSize fuel w s st = Some st' /\ related st') /\
    (exists st', setSize fuel w s st = Some st' /\ related st') /\
    (parent win <> None ->
     exists st', SetClientSize fuel w s st = Some st' /\ related st') /\
    (parent win = None -> SetSize fuel w s st = Some st).
Proof.
  intros fuel st w win s Hwf Hwin Hfuel Hb Hs Hi related.
  assert (Hstart : altered (withSizes (size win) (ClientSize win)) w st st).
  { eapply altered_same; [eassumption|]. now destruct win as [? ? ? ? ? [? ?]]. }
  set (k := (fuel - 2 * length (windows st))%nat).
  assert (Hk : fuel = (2 * length (windows st) + (4 + (k - 4)))%nat)
    by (unfold k; lia).
  assert (Hrel : forall sz' cs' st',
             altered (withSizes sz' cs') w st st' -> sizeInv win sz' cs' ->
             related st').
  { intros sz' cs' st' Ha Hi'. exists (withSizes sz' cs' win).
    split; [eapply altered_lookup; eauto|]. split; [exact Hi'|reflexivity]. }
  assert (Hset : exists st', setSize fuel w s st = Some st' /\ related st').
  { destruct (sizeAfter_inv win s _ _ Hb Hs Hi) as (sz' & cs' & Hp & Hi').
    apply (sizeAfter_more win (k - 4)) in Hp.
    destruct (setSize_refines st w win Hwf Hwin (4 + (k - 4))%nat st _ _ Hstart) as [Hr _].
    destruct (Hr _ _ _ Hp) as (st' & Hst' & Ha).
    exists st'. rewrite Hk. split; [assumption|eauto]. }
  split; [|split; [exact Hset|split]].
  - unfold SetSize, ifHasParent. rewrite Hwin.
    destruct (parent win); [exact Hset|].
    exists st. split; [reflexivity|]. eapply Hrel; eauto.
  - intros Hpar.
    destruct (clientSizeAfter_inv win s _ _ Hpar Hb Hs Hi) as (sz' & cs' & Hp & Hi').
    apply (clientSizeAfter_more win (k - 4)) in Hp.
    destruct (setSize_refines st w win Hwf Hwin (4 + (k - 4))%nat st _ _ Hstart) as [_ Hr].
    destruct (Hr _ _ _ Hp) as (st' & Hst' & Ha).
    exists st'. rewrite Hk. split; [assumption|eauto].
  - intros Hpar. unfold SetSize, ifHasParent. rewrite Hwin, Hpar. reflexivity.
Qed.

Lemma sizes_stay_related_witness :
  exists st' win',
    SetSize 10 1 (mkSize 3 (-7)) nestedWindows = Some st' /\
    windows st' !! 1%nat = Some win' /\
    sizeInv win' (size win') (ClientSize win').
Proof.
  destruct (lookup_valid (windows nestedWindows) 1 ltac:(simpl; lia)) as [win Hwin].
  assert (Hwin' := Hwin). vm_compute in Hwin'. injection Hwin' as Hwin'.
  destruct (sizes_stay_related 10 nestedWindows 1%nat win (mkSize 3 (-7)))
    as [(st' & H1 & win' & H2 & H3 & _) _].
  - reflexivity.
  - exact Hwin.
  - simpl. lia.
  - subst win. unfold smallBorders, small. simpl. lia.
  - unfold smallSize, small. simpl. lia.
  - subst win. unfold sizeInv. simpl. lia.
  - exists st', win'. split; [exact H1|]. split; [exact H2|exact H3].
Defined.


(** ** Nested updates *)

Fixpoint repeatM (n : nat) (f : State -> option State) (st : State)
  : option State :=
  match n with
  | O => Some st
  | S n => do st <- f st; repeatM n f st
  end.







Section Nested.

Variable st : State.
Variable d : DeskId.
Variable dsk : Desktop.
Hypothesis Hwf : wf st = true.
Hypothesis Hd : desktops st !! d = Some dsk.

Lemma BeginUpdate_setDesk w win inv lvl :
  windows st !! w = Some win -> desktop win = d ->
  BeginUpdate (Some w) (setDesk d inv lvl st) =
  Some (setDesk d (if iadd lvl 1 =? 1 then zeroRectangle else inv)
                (iadd lvl 1) st).
Proof.
  intros Hwin Hdw. unfold BeginUpdate. rewrite setDesk_windows, Hwin, Hdw.
  erewrite updDesktop_setDesk;
    [|apply setDesk_lookup; eassumption|reflexivity].
  cbn [invalidated updateLevel]. now rewrite setDesk_setDesk.
Qed.

Lemma EndUpdate_setDesk w win inv lvl fuel :
  windows st !! w = Some win -> desktop win = d ->
  EndUpdate fuel (Some w) (setDesk d inv lvl st) =
  (if (isub lvl 1 =? 0) && negb (IsZero (Sz inv)) then
     do sb <- Application_beginUpdate (setDesk d inv (isub lvl 1) st);
     do sp <- paint fuel (root dsk) inv sb;
     Application_endUpdate sp
   else Some (setDesk d inv (isub lvl 1) st)).
Proof.
  intros Hwin Hdw. unfold EndUpdate. rewrite setDesk_windows, Hwin, Hdw.
  erewrite updDesktop_setDesk;
    [|apply setDesk_lookup; eassumption|reflexivity].
  cbn [invalidated updateLevel]. rewrite setDesk_setDesk.
  cbv beta iota. erewrite setDesk_lookup by eassumption.
  cbn [invalidated updateLevel root]. reflexivity.
Qed.








End Nested.





(** * Further properties of the geometry *)

(** A rectangle whose coordinates and extents are far from the limits of
    [int]. *)
Definition smallRect (r : Rectangle) : Prop :=
  small (X (Pos r)) /\ small (Y (Pos r)) /\
  small (Width (Sz r)) /\ small (Height (Sz r)).

Lemma Has_small r p :
  smallRect r ->
  Has r p = true <->
  X (Pos r) <= X p < X (Pos r) + Width (Sz r) /\
  Y (Pos r) <= Y p < Y (Pos r) + Height (Sz r).
Proof.
  intros (Hx & Hy & Hw & Hh). rewrite Has_spec. unfold right, bottom, iadd.
  unfold small in *. rewrite !wrap_small' by lia. reflexivity.
Qed.

(** X1: [NewRectangle] takes two opposite corners in any order and both
    corners belong to the rectangle: without overflow, the rectangle
    holds exactly the positions between the corners, corners included, so
    it is never empty. *)
Theorem NewRectangle_corners :
  forall (x1 y1 x2 y2 : Z) (p : Position),
    small x1 -> small y1 -> small x2 -> small y2 ->
    (Has (NewRectangle x1 y1 x2 y2) p = true <->
     Z.min x1 x2 <= X p <= Z.max x1 x2 /\
     Z.min y1 y2 <= Y p <= Z.max y1 y2) /\
    NewRectangle x1 y1 x2 y2 = NewRectangle x2 y2 x1 y1 /\
    NewRectangle x1 y1 x2 y2 = NewRectangle x2 y1 x1 y2 /\
    IsZero (Sz (NewRectangle x1 y1 x2 y2)) = false.
Proof.
  intros x1 y1 x2 y2 p H1 H2 H3 H4. unfold small in *.
  assert (Hn : NewRectangle x1 y1 x2 y2 =
               rect (Z.min x1 x2) (Z.min y1 y2)
                    (Z.max x1 x2 - Z.min x1 x2 + 1)
                    (Z.max y1 y2 - Z.min y1 y2 + 1)).
  { unfold NewRectangle. rewrite !Z.gtb_ltb.
    destruct (Z.ltb_spec x2 x1), (Z.ltb_spec y2 y1); unfold rect, iadd, isub;
      unwrap; repeat f_equal; lia. }
  split; [|split; [|split]].
  - rewrite Hn, Has_spec. unfold right, bottom, rect, iadd. simpl.
    rewrite !wrap_small' by lia. lia.
  - unfold NewRectangle. rewrite !Z.gtb_ltb.
    destruct (Z.ltb_spec x2 x1), (Z.ltb_spec y2 y1),
             (Z.ltb_spec x1 x2), (Z.ltb_spec y1 y2);
      try lia; try reflexivity;
      repeat match goal with
             | |- context [isub ?a ?b] =>
               first [replace a with b by lia | replace b with a by lia]
             end; try reflexivity;
      repeat f_equal; lia.
  - unfold NewRectangle. rewrite !Z.gtb_ltb.
    destruct (Z.ltb_spec x2 x1), (Z.ltb_spec x1 x2),
             (Z.ltb_spec y2 y1); try lia; try reflexivity;
      assert (x1 = x2) by lia; subst; reflexivity.
  - rewrite Hn. unfold IsZero. simpl.
    apply orb_false_iff. rewrite !Z.leb_gt. lia.
Qed.

Lemma NewRectangle_corners_witness :
  Has (NewRectangle 7 2 3 5) (mkPosition 7 5) = true /\
  Has (NewRectangle 7 2 3 5) (mkPosition 8 5) = false.
Proof.
  destruct (NewRectangle_corners 7 2 3 5 (mkPosition 7 5)) as [H _];
    try (unfold small; lia).
  split; [apply H; simpl; lia|reflexivity].
Defined.

(** X2: [join] never loses a position of its argument: without overflow
    every position of [s] is in [r] joined with [s].  The positions of the
    receiver [r] are kept when [r] does not start to the right of or
    below [s]. *)
Theorem join_covers :
  forall (r s : Rectangle) (p : Position),
    smallRect r -> smallRect s ->
    (Has s p = true -> Has (join r s) p = true) /\
    (X (Pos r) <= X (Pos s) -> Y (Pos r) <= Y (Pos s) ->
     Has r p = true -> Has (join r s) p = true).
Proof.
  intros r s p Hr Hs.
  assert (Hcase :
            (IsZero (Sz s) = true /\ join r s = r /\
             (Width (Sz s) <= 0 \/ Height (Sz s) <= 0)) \/
            (IsZero (Sz s) = false /\ IsZero (Sz r) = true /\ join r s = s /\
             (Width (Sz r) <= 0 \/ Height (Sz r) <= 0)) \/
            (0 < Width (Sz s) /\ 0 < Height (Sz s) /\
             0 < Width (Sz r) /\ 0 < Height (Sz r) /\
             join r s =
             rect (Z.min (X (Pos r)) (X (Pos s)))
                  (Z.min (Y (Pos r)) (Y (Pos s)))
                  (Z.max (Z.min (X (Pos r)) (X (Pos s)) + Width (Sz r))
                         (X (Pos s) + Width (Sz s))
                   - Z.min (X (Pos r)) (X (Pos s)))
                  (Z.max (Z.min (Y (Pos r)) (Y (Pos s)) + Height (Sz r))
                         (Y (Pos s) + Height (Sz s))
                   - Z.min (Y (Pos r)) (Y (Pos s))))).
  { unfold join, IsZero.
    destruct Hr as (? & ? & ? & ?), Hs as (? & ? & ? & ?). unfold small in *.
    destruct (Z.leb_spec (Width (Sz s)) 0); [left; simpl; auto|].
    destruct (Z.leb_spec (Height (Sz s)) 0); [left; simpl; auto|].
    right. simpl.
    destruct (Z.leb_spec (Width (Sz r)) 0); [left; simpl; auto|].
    destruct (Z.leb_spec (Height (Sz r)) 0); [left; simpl; auto|].
    right. simpl. repeat (split; [assumption|]).
    rewrite !Min_spec, !Max_spec. unfold rect, iadd, isub.
    unwrap. reflexivity. }
  destruct Hcase as [(_ & -> & Hz)|[(_ & _ & -> & Hz)|(H1 & H2 & H3 & H4 & ->)]].
  - split; [|auto]. rewrite (Has_small s) by assumption. lia.
  - split; [auto|]. rewrite (Has_small r) by assumption. lia.
  - destruct Hr as (? & ? & ? & ?), Hs as (? & ? & ? & ?). unfold small in *.
    rewrite (Has_small r), (Has_small s) by (unfold smallRect, small; auto).
    rewrite Has_spec. unfold right, bottom, rect, iadd. simpl.
    rewrite !wrap_small' by lia. lia.
Qed.

Lemma join_covers_witness :
  Has (join (rect 46 12 55 27) (rect 45 12 55 27)) (mkPosition 45 38) = true.
Proof.
  destruct (join_covers (rect 46 12 55 27) (rect 45 12 55 27) (mkPosition 45 38))
    as [H _]; try (unfold smallRect, small; simpl; lia).
  apply H. reflexivity.
Defined.

(** A rectangle of non-negative size whose right and bottom edges are
    representable. *)
Definition properRect (r : Rectangle) : Prop :=
  in_int (X (Pos r)) /\ in_int (Y (Pos r)) /\
  0 <= Width (Sz r) <= int_max /\ X (Pos r) + Width (Sz r) <= int_max /\
  0 <= Height (Sz r) <= int_max /\ Y (Pos r) + Height (Sz r) <= int_max.

(** A rectangle that holds at least one position: on either axis the
    interval from its origin to its right or bottom edge, as [Has] and
    [Clip] compute them, is proper.  A rectangle of positive width and
    height whose edges do not overflow is one. *)
Definition hasCells (r : Rectangle) : Prop :=
  X (Pos r) < right r /\ Y (Pos r) < bottom r.

Lemma hasCells_Has r : hasCells r <-> exists p, Has r p = true.
Proof.
  split.
  - intros [Hx Hy]. exists (Pos r). apply Has_spec. lia.
  - intros [p Hp]. apply Has_spec in Hp. unfold hasCells. lia.
Qed.

Lemma properRect_hasCells r :
  properRect r -> IsZero (Sz r) = false -> hasCells r.
Proof.
  intros (Hx & Hy & Hw & Hxw & Hh & Hyh) Hz.
  unfold IsZero in Hz. apply orb_false_iff in Hz as [Hz1 Hz2].
  apply Z.leb_gt in Hz1, Hz2.
  unfold hasCells, right, bottom, iadd.
  unfold in_int, int_min, int_max in *.
  rewrite !wrap_small' by lia. lia.
Qed.

(** X3: for a receiver [r] of positive size that does not overflow and
    an argument [s] that holds at least one position, [r.Clip(s)]
    returning [true] means what the documentation says, a result of non
    zero size; the result is no larger than the receiver and is the
    rectangle [s.Clip(r)] leaves in [s]; and clipping such a receiver by
    itself leaves it as it is. *)
Theorem Clip_result :
  forall r s : Rectangle,
    properRect r -> IsZero (Sz r) = false ->
    (hasCells s ->
     snd (Clip r s) = true ->
     fst (Clip r s) = fst (Clip s r) /\
     IsZero (Sz (fst (Clip r s))) = false /\
     Width (Sz (fst (Clip r s))) <= Width (Sz r) /\
     Height (Sz (fst (Clip r s))) <= Height (Sz r)) /\
    Clip r r = (r, true).
Proof.
  intros r s Hp Hz.
  pose proof (properRect_hasCells r Hp Hz) as [Hcx Hcy].
  destruct Hp as (Hx & Hy & Hw & Hxw & Hh & Hyh).
  assert (Hr : right r = X (Pos r) + Width (Sz r)).
  { unfold right, iadd. apply wrap_small. unfold in_int, int_min, int_max in *. lia. }
  assert (Hb : bottom r = Y (Pos r) + Height (Sz r)).
  { unfold bottom, iadd. apply wrap_small. unfold in_int, int_min, int_max in *. lia. }
  split.
  - intros [Hsx Hsy].
    destruct (Clip r s) as [r' b] eqn:Hc. simpl. intros ->.
    apply Clip_true in Hc as (H1 & H2 & ->).
    destruct (Clip s r) as [s' b'] eqn:Hc'.
    assert (b' = true) as ->.
    { destruct b'; [reflexivity|]. apply Clip_false in Hc' as [_ Hd]. lia. }
    apply Clip_true in Hc' as (_ & _ & ->). simpl.
    pose proof (right_range s) as Hrs. pose proof (bottom_range s) as Hbs.
    unfold in_int, int_min, int_max in *.
    split.
    { rewrite (Z.max_comm (X (Pos s))), (Z.max_comm (Y (Pos s))),
        (Z.min_comm (right s)), (Z.min_comm (bottom s)). reflexivity. }
    unfold IsZero, isub. simpl.
    rewrite !wrap_small' by lia.
    split; [apply orb_false_iff; rewrite !Z.leb_gt; lia|lia].
  - apply Clip_true. rewrite !Z.max_id, !Z.min_id, Hr, Hb.
    split; [lia|]. split; [lia|].
    unfold rect, isub. unfold in_int, int_min, int_max in *.
    rewrite !wrap_small' by lia.
    destruct r as [[x y] [w h]]. simpl. repeat f_equal; lia.
Qed.

Lemma Clip_result_witness :
  (fst (Clip (rect 0 0 10 10) (rect 5 5 10 10)) =
   fst (Clip (rect 5 5 10 10) (rect 0 0 10 10)) /\
   IsZero (Sz (fst (Clip (rect 0 0 10 10) (rect 5 5 10 10)))) = false) /\
  Clip (rect 0 0 10 10) (rect 0 0 10 10) = (rect 0 0 10 10, true).
Proof.
  destruct (Clip_result (rect 0 0 10 10) (rect 5 5 10 10)) as [H1 H2].
  { unfold properRect, in_int, int_min, int_max. simpl. lia. }
  { reflexivity. }
  split; [|exact H2].
  destruct H1 as (Ha & Hb & _).
  { unfold hasCells. vm_compute. split; reflexivity. }
  { reflexivity. }
  split; assumption.
Defined.

(** X30: for rectangles [r] and [s] that each hold at least one
    position, [r.Clip(s)] intersects the two rectangles axis by axis as
    half-open intervals.  It returns [true] exactly when some position
    lies in both rectangles and [false] exactly when the two intervals
    are disjoint on one axis; when it returns [true] the receiver
    becomes the rectangle that holds exactly the positions common to
    [r] and [s]; and [r.Clip(s)] and [s.Clip(r)] return the same
    boolean.  Proved with the wrap-around of [int]. *)
Theorem Clip_meets :
  forall r s : Rectangle,
    hasCells r -> hasCells s ->
    (snd (Clip r s) = true <->
     exists p, Has r p = true /\ Has s p = true) /\
    (snd (Clip r s) = true ->
     forall p, Has (fst (Clip r s)) p = true <->
               Has r p = true /\ Has s p = true) /\
    (snd (Clip r s) = false <->
     Z.min (right r) (right s) <= Z.max (X (Pos r)) (X (Pos s)) \/
     Z.min (bottom r) (bottom s) <= Z.max (Y (Pos r)) (Y (Pos s))) /\
    snd (Clip r s) = snd (Clip s r).
Proof.
  intros r s [Hrx Hry] [Hsx Hsy].
  destruct (Clip r s) as [r' b] eqn:Hc. simpl.
  pose proof (right_range r) as Hr. pose proof (right_range s) as Hs.
  pose proof (bottom_range r) as Hbr. pose proof (bottom_range s) as Hbs.
  unfold in_int in *.
  destruct b.
  - apply Clip_true in Hc as (Hx & Hy & ->).
    set (xa := Z.max (X (Pos r)) (X (Pos s))) in *.
    set (ya := Z.max (Y (Pos r)) (Y (Pos s))) in *.
    set (xb := Z.min (right r) (right s)) in *.
    set (yb := Z.min (bottom r) (bottom s)) in *.
    assert (Hrx' : right (rect xa ya (isub xb xa) (isub yb ya)) = xb).
    { unfold right. simpl. apply iadd_isub_cancel. unfold in_int. lia. }
    assert (Hry' : bottom (rect xa ya (isub xb xa) (isub yb ya)) = yb).
    { unfold bottom. simpl. apply iadd_isub_cancel. unfold in_int. lia. }
    split; [|split; [|split]].
    + split; [|reflexivity]. intros _.
      exists (mkPosition xa ya).
      rewrite !Has_spec. simpl. lia.
    + intros _ p. rewrite !Has_spec, Hrx', Hry'. simpl. lia.
    + split; [discriminate|]. lia.
    + destruct (Clip s r) as [s' b'] eqn:Hc'. simpl. destruct b'; [reflexivity|].
      apply Clip_false in Hc' as [_ Hd]. lia.
  - apply Clip_false in Hc as [-> Hd].
    split; [|split; [|split]].
    + split; [discriminate|].
      intros (p & H1 & H2). rewrite Has_spec in H1, H2. lia.
    + discriminate.
    + split; [intros _; lia|reflexivity].
    + destruct (Clip s r) as [s' b'] eqn:Hc'. simpl. destruct b'; [|reflexivity].
      apply Clip_true in Hc' as (Hx & Hy & _). lia.
Qed.

Lemma Clip_meets_witness :
  (snd (Clip (rect 0 0 10 10) (rect 5 5 10 10)) = true <->
   exists p, Has (rect 0 0 10 10) p = true /\ Has (rect 5 5 10 10) p = true) /\
  snd (Clip (rect 0 0 10 10) (rect 20 0 3 3)) =
  snd (Clip (rect 20 0 3 3) (rect 0 0 10 10)).
Proof.
  split.
  - apply (Clip_meets (rect 0 0 10 10) (rect 5 5 10 10));
      unfold hasCells; vm_compute; split; reflexivity.
  - apply (Clip_meets (rect 0 0 10 10) (rect 20 0 3 3));
      unfold hasCells; vm_compute; split; reflexivity.
Defined.

(** * Further properties of the mouse button state machine *)

(** X4: drag and drop.  From Idle, a press [e1], the click timer firing
    while the button is held and then a release [e2] post exactly a drag
    event with the position and modifiers of the press followed by a drop
    event with the position and modifiers of the release, and leave the
    machine Idle with no timer. *)
Theorem drag_then_drop :
  forall (click dc : Z) (m : Mouse.mouseButtonFSM) (e1 e2 : Mouse.EventMouse),
    Mouse.state m = Mouse.mbsIdle ->
    Mouse.isPress m e1 ->
    Mouse.isRelease m e2 ->
    Mouse.run click dc m [Mouse.InMouse e1; Mouse.InTimeout; Mouse.InMouse e2] =
    Some (Mouse.mkFSM (Mouse.button m) (Mouse.Modifiers e1)
                      (mkPosition (Mouse.PositionX e1) (Mouse.PositionY e1))
                      Mouse.mbsIdle Mouse.chanNil,
          [Mouse.newEventMouse Mouse.mouseDrag (Mouse.button m) (Mouse.Modifiers e1)
                               (mkPosition (Mouse.PositionX e1) (Mouse.PositionY e1));
           Mouse.newEventMouse Mouse.mouseDrop (Mouse.button m) (Mouse.Modifiers e2)
                               (mkPosition (Mouse.PositionX e2) (Mouse.PositionY e2))]).
Proof.
  intros click dc m e1 e2 Hs Hp Hr.
  apply press_not_up in Hp. apply release_up in Hr.
  cbn [Mouse.run Mouse.step]. rewrite Hs, Hp. cbn. rewrite Hr. reflexivity.
Qed.

Lemma drag_then_drop_witness :
  exists m' out,
    Mouse.run 200 300 (Mouse.newMouseButtonFSM 1)
              [Mouse.InMouse (Mouse.mkEventMouse 1 0 4 5); Mouse.InTimeout;
               Mouse.InMouse (Mouse.mkEventMouse 0 2 9 9)] = Some (m', out) /\
    map Mouse.kind out = [Mouse.mouseDrag; Mouse.mouseDrop].
Proof.
  eexists _, _. split.
  - apply (drag_then_drop 200 300 (Mouse.newMouseButtonFSM 1)
                          (Mouse.mkEventMouse 1 0 4 5) (Mouse.mkEventMouse 0 2 9 9)).
    + reflexivity.
    + unfold Mouse.isPress. vm_compute. lia.
    + unfold Mouse.isRelease. reflexivity.
  - reflexivity.
Defined.

(** X5: a single click when double clicks are enabled.  With a non-zero
    double-click duration, a press, a release before the click timer
    fires and then the double-click timer firing post exactly one click
    event, at the position of the press; the click is posted by the
    timer, not by the release. *)
Theorem click_after_double_click_timeout :
  forall (click dc : Z) (m : Mouse.mouseButtonFSM) (e1 e2 : Mouse.EventMouse),
    dc <> 0 ->
    Mouse.state m = Mouse.mbsIdle ->
    Mouse.isPress m e1 ->
    Mouse.isRelease m e2 ->
    Mouse.run click dc m [Mouse.InMouse e1; Mouse.InMouse e2] =
    Some (Mouse.mkFSM (Mouse.button m) (Mouse.Modifiers e1)
                      (mkPosition (Mouse.PositionX e1) (Mouse.PositionY e1))
                      Mouse.mbsUp Mouse.chanPending, []) /\
    Mouse.run click dc m [Mouse.InMouse e1; Mouse.InMouse e2; Mouse.InTimeout] =
    Some (Mouse.mkFSM (Mouse.button m) (Mouse.Modifiers e1)
                      (mkPosition (Mouse.PositionX e1) (Mouse.PositionY e1))
                      Mouse.mbsIdle Mouse.chanNil,
          [Mouse.newEventMouse Mouse.mouseClick (Mouse.button m) (Mouse.Modifiers e1)
                               (mkPosition (Mouse.PositionX e1) (Mouse.PositionY e1))]).
Proof.
  intros click dc m e1 e2 Hdc Hs Hp Hr.
  apply press_not_up in Hp. apply release_up in Hr.
  apply Z.eqb_neq in Hdc.
  cbn [Mouse.run Mouse.step]. rewrite Hs, Hp. cbn. rewrite Hr, Hdc. cbn.
  split; reflexivity.
Qed.

Lemma click_after_double_click_timeout_witness :
  exists m' out,
    Mouse.run 200 300 (Mouse.newMouseButtonFSM 1)
              [Mouse.InMouse (Mouse.mkEventMouse 1 0 4 5);
               Mouse.InMouse (Mouse.mkEventMouse 0 0 4 6); Mouse.InTimeout] =
    Some (m', out) /\
    map Mouse.kind out = [Mouse.mouseClick].
Proof.
  eexists _, _. split.
  - apply (click_after_double_click_timeout
             200 300 (Mouse.newMouseButtonFSM 1)
             (Mouse.mkEventMouse 1 0 4 5) (Mouse.mkEventMouse 0 0 4 6)).
    + lia.
    + reflexivity.
    + unfold Mouse.isPress. vm_compute. lia.
    + unfold Mouse.isRelease. reflexivity.
  - reflexivity.
Defined.

(** The posted events carry button [b], and every drop comes right after
    a drag; [prev] is the kind of the event posted last. *)
Fixpoint wellPosted (b : Z) (prev : option Mouse.mouseKind)
         (l : list Mouse.eventMouse) : bool :=
  match l with
  | [] => true
  | e :: l =>
    (Mouse.ebutton e =? b) &&
    match Mouse.kind e, prev with
    | Mouse.mouseDrop, Some Mouse.mouseDrag => true
    | Mouse.mouseDrop, _ => false
    | _, _ => true
    end &&
    wellPosted b (Some (Mouse.kind e)) l
  end.

Definition lastKind (prev : option Mouse.mouseKind) (l : list Mouse.eventMouse)
  : option Mouse.mouseKind :=
  match last l with
  | Some e => Some (Mouse.kind e)
  | None => prev
  end.

Lemma wellPosted_app b : forall l1 l2 prev,
  wellPosted b prev (l1 ++ l2) =
  wellPosted b prev l1 && wellPosted b (lastKind prev l1) l2.
Proof.
  induction l1 as [|e l1 IH]; intros l2 prev; [reflexivity|].
  cbn [wellPosted app]. rewrite IH.
  assert (Hl : lastKind prev (e :: l1) = lastKind (Some (Mouse.kind e)) l1).
  { unfold lastKind. destruct l1 as [|e' l1]; [reflexivity|].
    change (last (e :: e' :: l1)) with (last (e' :: l1)).
    destruct (last (e' :: l1)) eqn:E; [reflexivity|].
    apply last_None in E. discriminate. }
  rewrite Hl, !andb_assoc. reflexivity.
Qed.

Lemma lastKind_app prev l1 l2 :
  lastKind prev (l1 ++ l2) = lastKind (lastKind prev l1) l2.
Proof.
  unfold lastKind. destruct l2 as [|e l2].
  - rewrite app_nil_r. simpl. now destruct (last l1).
  - rewrite last_app. destruct (last (e :: l2)) eqn:E; [reflexivity|].
    apply last_None in E. discriminate.
Qed.

(** One iteration keeps the button, posts well, and is in state Drag only
    right after posting a drag event. *)
Lemma step_wellPosted click dc m i m' out prev :
  (Mouse.state m = Mouse.mbsDrag -> prev = Some Mouse.mouseDrag) ->
  Mouse.step click dc m i = Mouse.Next m' out ->
  Mouse.button m' = Mouse.button m /\
  wellPosted (Mouse.button m) prev out = true /\
  (Mouse.state m' = Mouse.mbsDrag ->
   lastKind prev out = Some Mouse.mouseDrag).
Proof.
  intros Hinv Hstep. unfold Mouse.step in Hstep.
  destruct i as [e| |]; [| |discriminate].
  - destruct (Mouse.state m) eqn:Hs;
      repeat match type of Hstep with
             | context [if ?c then _ else _] => destruct c
             end;
      injection Hstep as <- <-; cbn;
      rewrite ?Z.eqb_refl; try rewrite (Hinv eq_refl);
      (split; [reflexivity|split; [reflexivity|]]);
      try discriminate; auto; intros Hd; congruence.
  - destruct (Mouse.timeout m); try discriminate.
    destruct (Mouse.state m) eqn:Hs; injection Hstep as <- <-; cbn;
      rewrite ?Z.eqb_refl;
      (split; [reflexivity|split; [reflexivity|]]);
      try discriminate; auto; intros Hd; congruence.
Qed.

Lemma run_wellPosted click dc : forall ins m prev m' out,
  (Mouse.state m = Mouse.mbsDrag -> prev = Some Mouse.mouseDrag) ->
  Mouse.run click dc m ins = Some (m', out) ->
  Mouse.button m' = Mouse.button m /\
  wellPosted (Mouse.button m) prev out = true.
Proof.
  induction ins as [|i ins IH]; intros m prev m' out Hinv Hrun.
  - injection Hrun as <- <-. auto.
  - cbn [Mouse.run] in Hrun.
    destruct (Mouse.step click dc m i) as [m1 out1| |] eqn:Hstep; try discriminate.
    destruct (Mouse.run click dc m1 ins) as [[m2 out2]|] eqn:Hrest; [|discriminate].
    injection Hrun as <- <-.
    destruct (step_wellPosted _ _ _ _ _ _ _ Hinv Hstep) as (Hb & Hw & Hd).
    destruct (IH _ _ _ _ Hd Hrest) as (Hb2 & Hw2).
    split; [congruence|].
    rewrite wellPosted_app, Hw. rewrite Hb in Hw2. exact Hw2.
Qed.

(** X6: whatever the machine of button [b] receives, every event it posts
    carries button [b], and a drop event is only ever posted right after
    a drag event: no drop without a drag, and no two drops for one
    drag. *)
Theorem posted_events_well_formed :
  forall (click dc b : Z) (ins : list Mouse.input)
         (m' : Mouse.mouseButtonFSM) (out : list Mouse.eventMouse),
    Mouse.run click dc (Mouse.newMouseButtonFSM b) ins = Some (m', out) ->
    Mouse.button m' = b /\ wellPosted b None out = true.
Proof.
  intros click dc b ins m' out Hrun.
  apply (run_wellPosted click dc ins (Mouse.newMouseButtonFSM b) None m' out);
    [discriminate|exact Hrun].
Qed.

Lemma posted_events_well_formed_witness :
  exists m' out,
    Mouse.run 200 300 (Mouse.newMouseButtonFSM 1)
              [Mouse.InMouse (Mouse.mkEventMouse 1 0 4 5); Mouse.InTimeout;
               Mouse.InMouse (Mouse.mkEventMouse 0 2 9 9);
               Mouse.InMouse (Mouse.mkEventMouse 0 2 9 9)] = Some (m', out) /\
    wellPosted 1 None out = true.
Proof.
  eexists _, _. split; [vm_compute; reflexivity|].
  apply (posted_events_well_formed
           200 300 1
           [Mouse.InMouse (Mouse.mkEventMouse 1 0 4 5); Mouse.InTimeout;
            Mouse.InMouse (Mouse.mkEventMouse 0 2 9 9);
            Mouse.InMouse (Mouse.mkEventMouse 0 2 9 9)]
           (Mouse.mkFSM 1 0 (mkPosition 4 5) Mouse.mbsIdle Mouse.chanNil)).
  reflexivity.
Defined.

(** * Further properties of the setters *)

Lemma altered_compose g h w st st1 st2 :
  altered g w st st1 -> altered h w st1 st2 ->
  altered (fun x => h (g x)) w st st2.
Proof.
  intros (H1 & H2 & H3) (G1 & G2 & G3). unfold altered.
  split; [|split; congruence].
  rewrite G1, H1. apply list_eq. intros i.
  destruct (decide (w = i)) as [<-|Hne].
  - rewrite !list_lookup_alter_eq. now destruct (windows st !! w).
  - now rewrite !list_lookup_alter_ne.
Qed.

Lemma altered_insert f w st st' win :
  altered f w st st' -> windows st !! w = Some win ->
  windows st' = <[w := f win]> (windows st).
Proof. intros (H & _) Hl. rewrite H. now apply alter_insert. Qed.

(** Windows other than [w] are as they were. *)
Lemma altered_others f w st st' x :
  altered f w st st' -> x <> w -> windows st' !! x = windows st !! x.
Proof.
  intros (H & _) Hne. rewrite H. apply list_lookup_alter_ne. congruence.
Qed.

Lemma keepsTree_withPosition p : keepsTree (withPosition p).
Proof. intros win. reflexivity. Qed.

Lemma keepsTree_withTitle s : keepsTree (withTitle s).
Proof. intros win. reflexivity. Qed.

Lemma keepsTree_withCloseButton b : keepsTree (withCloseButton b).
Proof. intros win. reflexivity. Qed.

Lemma keepsTree_id : keepsTree (fun x => x).
Proof. intros win. reflexivity. Qed.

Lemma keepsTree_compose f g :
  keepsTree f -> keepsTree g -> keepsTree (fun x => g (f x)).
Proof. intros Hf Hg win. rewrite Hg. apply Hf. Qed.

(** [Invalidate] after the window [w] has been altered. *)
Lemma altered_Invalidate f w st st1 fuel area :
  keepsTree f -> wf st = true -> (w < length (windows st))%nat ->
  (2 * length (windows st) <= fuel)%nat ->
  altered f w st st1 ->
  exists st2, Invalidate fuel w area st1 = Some st2 /\ altered f w st st2.
Proof.
  intros Hf Hwf Hw Hfuel Ha.
  destruct (altered_good _ _ _ _ Hf Ha Hwf) as [Hwf1 Hn1].
  destruct (Invalidate_ok fuel st1 w area Hwf1) as (st2 & H & Hs); [lia|lia|].
  exists st2. split; [assumption|]. eapply altered_shape; eauto.
Qed.

(** [SetPosition] moves a window that has a parent, with the old and the
    new area invalidated, and leaves a root window alone. *)
Lemma SetPosition_altered fuel st w p win :
  wf st = true -> windows st !! w = Some win ->
  (2 * length (windows st) <= fuel)%nat ->
  exists st', SetPosition fuel w p st = Some st' /\
              altered (match parent win with
                       | Some _ => withPosition p
                       | None => fun x => x
                       end) w st st'.
Proof.
  intros Hwf Hwin Hfuel.
  assert (Hw : (w < length (windows st))%nat) by (eapply lookup_lt_Some; eauto).
  unfold SetPosition, ifHasParent. rewrite Hwin.
  destruct (parent win) as [q|] eqn:Hpar; [|exists st; split; [reflexivity|apply altered_id]].
  unfold Handle. cbn [load store PositionKind chainHead veqb]. rewrite Hwin.
  destruct (Position_eqb (position win) p) eqn:Heq.
  - apply Position_eqb_eq in Heq. exists st. split; [reflexivity|].
    eapply altered_same; [eassumption|]. rewrite <- Heq. now destruct win.
  - apply updateBracket_ok; try assumption; [apply keepsTree_withPosition|].
    intros st1 Hf1. unfold onSetPositionHandler, panicIfPrev.
    rewrite (shapeFrame_windows _ _ Hf1), Hwin.
    destruct (altered_Invalidate (fun x => x) w st st1 fuel (Area win))
      as (st2 & -> & Ha2); try assumption; [apply keepsTree_id|now apply shape_altered_id|].
    cbn [store PositionKind].
    destruct (altered_updWindow (fun x => x) (withPosition p) w st st2 win)
      as (st3 & -> & Ha3); [assumption|assumption|].
    rewrite (altered_lookup _ _ _ _ _ Ha3 Hwin).
    apply altered_Invalidate; try assumption. apply keepsTree_withPosition.
Qed.

(** X7: [w.SetPosition(p)] returns.  On a window that has a parent the
    stored position becomes exactly [p] (negative coordinates included)
    and nothing else in the window tree changes; on a root window the
    call changes nothing at all. *)
Theorem SetPosition_moves :
  forall (fuel : nat) (st : State) (w : WinId) (p : Position) (win : Window),
    wf st = true ->
    windows st !! w = Some win ->
    (2 * length (windows st) <= fuel)%nat ->
    (parent win = None -> SetPosition fuel w p st = Some st) /\
    (parent win <> None ->
     exists st',
       SetPosition fuel w p st = Some st' /\
       windows st' = <[w := withPosition p win]> (windows st) /\
       (exists win', windows st' !! w = Some win' /\ position win' = p) /\
       wf st' = true).
Proof.
  intros fuel st w p win Hwf Hwin Hfuel. split.
  - intros Hpar. unfold SetPosition, ifHasParent. now rewrite Hwin, Hpar.
  - intros Hpar.
    destruct (SetPosition_altered fuel st w p win Hwf Hwin Hfuel) as (st' & H & Ha).
    destruct (parent win) as [q|]; [|congruence].
    exists st'. split; [assumption|].
    split; [eapply altered_insert; eauto|].
    split; [exists (withPosition p win); split;
            [eapply altered_lookup; eauto|reflexivity]|].
    now rewrite (altered_wf _ _ _ _ (keepsTree_withPosition p) Ha).
Qed.

Lemma SetPosition_moves_witness :
  exists st' win',
    SetPosition 6 1 (mkPosition (-2) 30) nestedWindows = Some st' /\
    windows st' !! 1%nat = Some win' /\
    position win' = mkPosition (-2) 30.
Proof.
  destruct (lookup_valid (windows nestedWindows) 1 ltac:(simpl; lia)) as [win Hwin].
  assert (Hwin' := Hwin). vm_compute in Hwin'. injection Hwin' as Hwin'.
  destruct (SetPosition_moves 6 nestedWindows 1%nat (mkPosition (-2) 30) win)
    as [_ H].
  - reflexivity.
  - exact Hwin.
  - simpl. lia.
  - destruct H as (st' & H1 & _ & (win' & H2 & H3) & _).
    + subst win. discriminate.
    + exists st', win'. split; [exact H1|]. split; [exact H2|exact H3].
Defined.

Lemma withTitle_same win : withTitle (title win) win = win.
Proof. now destruct win. Qed.

Lemma withCloseButton_same win : withCloseButton (closeButton win) win = win.
Proof. now destruct win. Qed.

Lemma SetTitle_altered fuel st w s win :
  wf st = true -> windows st !! w = Some win ->
  (2 * length (windows st) <= fuel)%nat ->
  exists st', SetTitle fuel w s st = Some st' /\ altered (withTitle s) w st st'.
Proof.
  intros Hwf Hwin Hfuel.
  assert (Hw : (w < length (windows st))%nat) by (eapply lookup_lt_Some; eauto).
  unfold SetTitle, Handle. cbn [load store StringKind chainHead veqb]. rewrite Hwin.
  destruct (String.eqb_spec (title win) s) as [Heq|Hne].
  - exists st. split; [reflexivity|].
    eapply altered_same; [eassumption|]. rewrite <- Heq. apply withTitle_same.
  - apply updateBracket_ok; try assumption; [apply keepsTree_withTitle|].
    intros st1 Hf1. unfold onSetTitleHandler, panicIfPrev.
    cbn [store StringKind].
    destruct (altered_updWindow (fun x => x) (withTitle s) w st st1 win)
      as (st2 & -> & Ha2); [now apply shape_altered_id|assumption|].
    rewrite (altered_lookup _ _ _ _ _ Ha2 Hwin).
    apply altered_Invalidate; try assumption. apply keepsTree_withTitle.
Qed.

Lemma SetCloseButton_altered fuel st w v win :
  wf st = true -> windows st !! w = Some win ->
  (2 * length (windows st) <= fuel)%nat ->
  exists st', SetCloseButton fuel w v st = Some st' /\
              altered (match parent win with
                       | Some _ => withCloseButton v
                       | None => fun x => x
                       end) w st st'.
Proof.
  intros Hwf Hwin Hfuel.
  assert (Hw : (w < length (windows st))%nat) by (eapply lookup_lt_Some; eauto).
  unfold SetCloseButton, ifHasParent. rewrite Hwin.
  destruct (parent win) as [q|] eqn:Hpar; [|exists st; split; [reflexivity|apply altered_id]].
  unfold Handle. cbn [load store BoolKind chainHead veqb]. rewrite Hwin.
  destruct (Bool.eqb (closeButton win) v) eqn:Heq.
  - apply Bool.eqb_prop in Heq. exists st. split; [reflexivity|].
    eapply altered_same; [eassumption|]. rewrite <- Heq. apply withCloseButton_same.
  - apply updateBracket_ok; try assumption; [apply keepsTree_withCloseButton|].
    intros st1 Hf1. unfold onSetCloseButtonHandler, panicIfPrev.
    cbn [store BoolKind].
    destruct (altered_updWindow (fun x => x) (withCloseButton v) w st st1 win)
      as (st2 & -> & Ha2); [now apply shape_altered_id|assumption|].
    rewrite (altered_lookup _ _ _ _ _ Ha2 Hwin).
    apply altered_Invalidate; try assumption. apply keepsTree_withCloseButton.
Qed.

(** X8: [w.SetTitle(s)] and [w.SetCloseButton(v)] return and store the
    title and the flag, leaving everything else in the window tree as it
    was; a root window takes a title but never a close button. *)
Theorem SetTitle_SetCloseButton_store :
  forall (fuel : nat) (st : State) (w : WinId) (s : string) (v : bool)
         (win : Window),
    wf st = true ->
    windows st !! w = Some win ->
    (2 * length (windows st) <= fuel)%nat ->
    (exists st',
        SetTitle fuel w s st = Some st' /\
        windows st' = <[w := withTitle s win]> (windows st) /\
        wf st' = true) /\
    (parent win = None -> SetCloseButton fuel w v st = Some st) /\
    (parent win <> None ->
     exists st',
       SetCloseButton fuel w v st = Some st' /\
       windows st' = <[w := withCloseButton v win]> (windows st) /\
       wf st' = true).
Proof.
  intros fuel st w s v win Hwf Hwin Hfuel. split; [|split].
  - destruct (SetTitle_altered fuel st w s win Hwf Hwin Hfuel) as (st' & H & Ha).
    exists st'. split; [assumption|].
    split; [eapply altered_insert; eauto|].
    now rewrite (altered_wf _ _ _ _ (keepsTree_withTitle s) Ha).
  - intros Hpar. unfold SetCloseButton, ifHasParent. now rewrite Hwin, Hpar.
  - intros Hpar.
    destruct (SetCloseButton_altered fuel st w v win Hwf Hwin Hfuel) as (st' & H & Ha).
    destruct (parent win) as [q|]; [|congruence].
    exists st'. split; [assumption|].
    split; [eapply altered_insert; eauto|].
    now rewrite (altered_wf _ _ _ _ (keepsTree_withCloseButton v) Ha).
Qed.

Lemma SetTitle_SetCloseButton_store_witness :
  (exists st' win',
      SetTitle 6 0 "log" nestedWindows = Some st' /\
      windows st' !! 0%nat = Some win' /\ title win' = "log"%string) /\
  SetCloseButton 6 0 true nestedWindows = Some nestedWindows.
Proof.
  destruct (lookup_valid (windows nestedWindows) 0 ltac:(simpl; lia)) as [win Hwin].
  assert (Hwin' := Hwin). vm_compute in Hwin'. injection Hwin' as Hwin'.
  destruct (SetTitle_SetCloseButton_store 6 nestedWindows 0%nat "log" true win)
    as ((st' & H1 & H2 & _) & H3 & _).
  - reflexivity.
  - exact Hwin.
  - simpl. lia.
  - split.
    + exists st', (withTitle "log" win). split; [exact H1|].
      split; [|reflexivity]. rewrite H2.
      apply list_lookup_insert_eq. simpl. lia.
    + apply H3. subst win. reflexivity.
Defined.

(** ** Borders *)

Lemma withSizes_same win : withSizes (size win) (ClientSize win) win = win.
Proof. now destruct win as [? ? ? ? ? [? ?]]. Qed.

(** [SetClientSize] and [setSize] on a window that a previous step of an
    operation has altered by [g]. *)
Lemma resize_from st w win g st1 k :
  wf st = true -> windows st !! w = Some win ->
  keepsTree g -> altered g w st st1 ->
  (forall c sz' cs',
      clientSizeAfter k (g win) c (size (g win)) (ClientSize (g win)) = Some (sz', cs') ->
      exists st2,
        SetClientSize (2 * length (windows st) + k) w c st1 = Some st2 /\
        altered (fun x => withSizes sz' cs' (g x)) w st st2) /\
  (forall s sz' cs',
      sizeAfter k (g win) s (size (g win)) (ClientSize (g win)) = Some (sz', cs') ->
      exists st2,
        setSize (2 * length (windows st) + k) w s st1 = Some st2 /\
        altered (fun x => withSizes sz' cs' (g x)) w st st2).
Proof.
  intros Hwf Hwin Hg Ha.
  destruct (altered_good _ _ _ _ Hg Ha Hwf) as [Hwf1 Hn1].
  pose proof (altered_lookup _ _ _ _ _ Ha Hwin) as Hl1.
  assert (Hstart : altered (withSizes (size (g win)) (ClientSize (g win))) w st1 st1)
    by (eapply altered_same; [eassumption|apply withSizes_same]).
  destruct (setSize_refines st1 w (g win) Hwf1 Hl1 k st1 _ _ Hstart) as [Hs Hc].
  rewrite Hn1 in Hs, Hc.
  split.
  - intros c sz' cs' Hp. destruct (Hc _ _ _ Hp) as (st2 & H2 & Ha2).
    exists st2. split; [assumption|]. eapply altered_compose; eauto.
  - intros s sz' cs' Hp. destruct (Hs _ _ _ Hp) as (st2 & H2 & Ha2).
    exists st2. split; [assumption|]. eapply altered_compose; eauto.
Qed.

(** Asking for the client size that fits the window size: the window
    grows when its borders do not fit. *)
Lemma clientSizeAfter_fit win sz cs :
  smallBorders win -> smallSize sz -> 0 <= Width sz -> 0 <= Height sz ->
  exists sz' cs',
    clientSizeAfter 4 win (clientOf win sz) sz cs = Some (sz', cs') /\
    sizeInv win sz' cs' /\
    (borderLeft win + borderRight win <= Width sz ->
     borderTop win + borderBottom win <= Height sz -> sz' = sz).
Proof.
  intros Hb Hs Hw Hh. cbn [sizeAfter clientSizeAfter].
  destruct (Size_eqb cs (clientOf win sz)) eqn:E1.
  { eexists _, _. split; [reflexivity|]. split; [|reflexivity].
    apply Size_eqb_eq in E1. rewrite E1. clear E1. size_arith. }
  destruct (parent win).
  2:{ eexists _, _. split; [reflexivity|]. split; [|reflexivity].
      clear E1. size_arith. }
  destruct (Size_eqb sz _) eqn:E2.
  { eexists _, _. split; [reflexivity|]. split; [|reflexivity].
    apply Size_eqb_eq in E2.
    assert (H1 : Width sz = Width (windowOf win (clampSize (clientOf win sz))))
      by congruence.
    assert (H2 : Height sz = Height (windowOf win (clampSize (clientOf win sz))))
      by congruence.
    clear E1 E2. revert H1 H2. size_arith. }
  rewrite Size_eqb_true_intro.
  - eexists _, _. split; [reflexivity|]. split.
    + clear E1 E2. size_arith.
    + intros H1 H2. exfalso.
      assert (E : Size_eqb sz (windowOf win (clampSize (clientOf win sz))) = true).
      { apply Size_eqb_true_intro; clear E1 E2; size_arith. }
      congruence.
  - clear E1 E2. size_arith.
  - clear E1 E2. size_arith.
Qed.

(** The border setters' common part: the handler has stored the border
    (and moved the client area), which altered [w] by [g]; it then asks
    for the client size [c] that fits the window size. *)
Lemma border_resize st w win g st1 fuel c :
  wf st = true -> windows st !! w = Some win ->
  (2 * length (windows st) + 4 <= fuel)%nat ->
  keepsTree g -> altered g w st st1 ->
  smallBorders (g win) -> smallSize (size win) ->
  0 <= Width (size win) -> 0 <= Height (size win) ->
  size (g win) = size win ->
  c = clientOf (g win) (size win) ->
  exists st2 sz' cs',
    SetClientSize fuel w c st1 = Some st2 /\
    altered (fun x => withSizes sz' cs' (g x)) w st st2 /\
    sizeInv (g win) sz' cs' /\
    (borderLeft (g win) + borderRight (g win) <= Width (size win) ->
     borderTop (g win) + borderBottom (g win) <= Height (size win) ->
     sz' = size win).
Proof.
  intros Hwf Hwin Hfuel Hg Ha Hb Hs Hw Hh Hsz ->.
  destruct (clientSizeAfter_fit (g win) (size win) (ClientSize (g win)) Hb Hs Hw Hh)
    as (sz' & cs' & Hp & Hi & Hfit).
  set (k := (fuel - 2 * length (windows st))%nat).
  assert (Hk : fuel = (2 * length (windows st) + (4 + (k - 4)))%nat)
    by (unfold k; lia).
  apply (clientSizeAfter_more (g win) (k - 4)) in Hp.
  rewrite <- Hsz in Hp at 2.
  destruct (resize_from st w win g st1 (4 + (k - 4)) Hwf Hwin Hg Ha) as [Hc _].
  destruct (Hc _ _ _ Hp) as (st2 & H2 & Ha2).
  exists st2, sz', cs'. rewrite Hk. auto.
Qed.

(** A window with its borders, client area and size replaced. *)
Definition relayout (b l r t : Z) (ca : Rectangle) (sz : Size) (win : Window)
  : Window :=
  withSize sz (withClientArea ca (withBorders b l r t win)).

Lemma keepsTree_relayout b l r t ca sz : keepsTree (relayout b l r t ca sz).
Proof. intros win. reflexivity. Qed.

Lemma relayout_same win :
  relayout (borderBottom win) (borderLeft win) (borderRight win) (borderTop win)
           (clientArea win) (size win) win = win.
Proof. now destruct win. Qed.

Lemma altered_ext_at f g w st st' win :
  windows st !! w = Some win -> f win = g win ->
  altered f w st st' -> altered g w st st'.
Proof.
  intros Hl Hfg (H1 & H2 & H3). unfold altered. split; [|auto].
  rewrite H1. apply list_eq. intros i.
  destruct (decide (w = i)) as [<-|Hne].
  - rewrite !list_lookup_alter_eq, Hl. simpl. now rewrite Hfg.
  - now rewrite !list_lookup_alter_ne.
Qed.

(** What a border setter leaves: the state in which [w] has borders
    [b], [l], [r], [t], its client area at [(x, y)], and a size and a
    client size that are related; the size is the old one when the
    borders fit in it. *)
Definition relaidOut (w : WinId) (win : Window) (st st' : State)
           (b l r t : Z) (x y : Z) : Prop :=
  exists sz' cs',
    altered (relayout b l r t (mkRectangle (mkPosition x y) cs') sz') w st st' /\
    sizeInv (withBorders b l r t win) sz' cs' /\
    (l + r <= Width (size win) -> t + b <= Height (size win) ->
     sz' = size win).

Lemma relaidOut_same w win st :
  windows st !! w = Some win ->
  sizeInv win (size win) (ClientSize win) ->
  relaidOut w win st st (borderBottom win) (borderLeft win) (borderRight win)
            (borderTop win) (X (ClientPosition win)) (Y (ClientPosition win)).
Proof.
  intros Hwin Hi. exists (size win), (ClientSize win).
  split; [|split; [|reflexivity]].
  - eapply altered_same; [eassumption|].
    rewrite <- (relayout_same win) at 8. unfold ClientPosition, ClientSize.
    now destruct win as [? ? ? ? ? [[? ?] ?]].
  - exact Hi.
Qed.

Lemma sizeInv_client_eq win :
  smallBorders win -> smallSize (size win) ->
  sizeInv win (size win) (ClientSize win) ->
  Height (Sz (clientArea win)) =
  Max 0 (isub (Height (size win)) (iadd (borderTop win) (borderBottom win))) /\
  Width (Sz (clientArea win)) =
  Max 0 (isub (Width (size win)) (iadd (borderLeft win) (borderRight win))).
Proof.
  unfold ClientSize. intros Hb Hs Hi. split; size_arith.
Qed.

(** The call of a border handler between BeginUpdate and EndUpdate: the
    handler alters [w] by [g] and then asks for the client size that
    fits. *)
Lemma border_bracket fuel st w win g (body : State -> option State) :
  wf st = true -> windows st !! w = Some win ->
  (2 * length (windows st) + 4 <= fuel)%nat ->
  keepsTree g -> smallBorders (g win) -> smallSize (size win) ->
  0 <= Width (size win) -> 0 <= Height (size win) ->
  size (g win) = size win ->
  (forall st1, shapeFrame st st1 ->
               exists st3, altered g w st st3 /\
                           body st1 =
                           SetClientSize fuel w (clientOf (g win) (size win)) st3) ->
  exists st' sz' cs',
    (do st1 <- BeginUpdate (Some w) st;
     do st2 <- body st1;
     EndUpdate fuel (Some w) st2) = Some st' /\
    altered (fun x => withSizes sz' cs' (g x)) w st st' /\
    sizeInv (g win) sz' cs' /\
    (borderLeft (g win) + borderRight (g win) <= Width (size win) ->
     borderTop (g win) + borderBottom (g win) <= Height (size win) ->
     sz' = size win).
Proof.
  intros Hwf Hwin Hfuel Hg Hbg Hs Hw0 Hh0 Hsz Hbody.
  assert (Hw : (w < length (windows st))%nat) by (eapply lookup_lt_Some; eauto).
  destruct (BeginUpdate_ok st w Hwf Hw) as (st1 & -> & Hf1).
  destruct (Hbody st1 Hf1) as (st3 & Ha3 & ->).
  destruct (border_resize st w win g st3 fuel _ Hwf Hwin Hfuel Hg Ha3 Hbg Hs
                          Hw0 Hh0 Hsz eq_refl)
    as (st4 & sz' & cs' & -> & Ha4 & Hi4 & Hfit).
  assert (Hk : keepsTree (fun x => withSizes sz' cs' (g x)))
    by (intros x; rewrite keepsTree_withSizes; apply Hg).
  destruct (altered_good _ _ _ _ Hk Ha4 Hwf) as [Hwf4 Hn4].
  destruct (EndUpdate_ok fuel st4 w Hwf4) as (st5 & -> & Hf5); [lia|lia|].
  exists st5, sz', cs'. split; [reflexivity|].
  split; [eapply altered_shape; eauto|auto].
Qed.

Section BorderSetters.

Variable fuel : nat.
Variable st : State.
Variable w : WinId.
Variable win : Window.
Variable v : Z.
Hypothesis Hwf : wf st = true.
Hypothesis Hwin : windows st !! w = Some win.
Hypothesis Hfuel : (2 * length (windows st) + 4 <= fuel)%nat.
Hypothesis Hb : smallBorders win.
Hypothesis Hv : small v.
Hypothesis Hs : smallSize (size win).
Hypothesis Hi : sizeInv win (size win) (ClientSize win).

Lemma SetBorderLeft_relaidOut :
  exists st' x,
    SetBorderLeft fuel w v st = Some st' /\
    relaidOut w win st st' (borderBottom win) v (borderRight win) (borderTop win)
              x (Y (ClientPosition win)) /\
    (x = v \/ x = X (ClientPosition win) /\ borderLeft win = v).
Proof.
  destruct (sizeInv_client_eq win Hb Hs Hi) as [Hh Hwd].
  unfold SetBorderLeft, Handle. cbn [load store IntKind chainHead veqb].
  rewrite Hwin.
  destruct (Z.eqb_spec (borderLeft win) v) as [Heq|Hne].
  - exists st, (X (ClientPosition win)). split; [reflexivity|]. split; [|auto].
    subst v. now apply relaidOut_same.
  - set (g := fun x : Window =>
                withClientArea
                  (mkRectangle (mkPosition v (Y (Pos (clientArea x)))) (Sz (clientArea x)))
                  (withBorders (borderBottom x) v (borderRight x) (borderTop x) x)).
    destruct (border_bracket fuel st w win g
                (onSetBorderLeftHandler fuel w (Some w) None (LBorderLeft w) v))
      as (st' & sz' & cs' & H1 & Ha & Hi' & Hfit); try assumption.
    { intros x. reflexivity. }
    { destruct Hb as (? & ? & ? & ?). unfold smallBorders, g. simpl. auto. }
    { destruct Hi; lia. }
    { destruct Hi as (_ & ? & _); lia. }
    { reflexivity. }
    { intros st1 Hf1. unfold onSetBorderLeftHandler, panicIfPrev.
      cbn [store IntKind].
      destruct (altered_updWindow (fun x => x)
                  (fun x => withBorders (borderBottom x) v (borderRight x) (borderTop x) x)
                  w st st1 win) as (st2 & -> & Ha2);
        [now apply shape_altered_id|assumption|].
      destruct (altered_updWindow _
                  (fun x => withClientArea
                              (mkRectangle (mkPosition v (Y (Pos (clientArea x))))
                                           (Sz (clientArea x))) x)
                  w st st2 win Ha2 Hwin) as (st3 & -> & Ha3).
      assert (Ha3' : altered g w st st3)
        by (eapply altered_ext; [|exact Ha3]; intros x; reflexivity).
      exists st3. split; [assumption|].
      rewrite (altered_lookup _ _ _ _ _ Ha3' Hwin).
      unfold clientOf, g. cbn. now rewrite Hh. }
    exists st', v. split; [exact H1|]. split; [|auto].
    exists sz', cs'. split; [|split; assumption].
    eapply altered_ext_at; [eassumption| |exact Ha].
    unfold g, relayout, withSizes, ClientPosition. reflexivity.
Qed.

Lemma SetBorderTop_relaidOut :
  exists st' y,
    SetBorderTop fuel w v st = Some st' /\
    relaidOut w win st st' (borderBottom win) (borderLeft win) (borderRight win) v
              (X (ClientPosition win)) y /\
    (y = v \/ y = Y (ClientPosition win) /\ borderTop win = v).
Proof.
  destruct (sizeInv_client_eq win Hb Hs Hi) as [Hh Hwd].
  unfold SetBorderTop, Handle. cbn [load store IntKind chainHead veqb].
  rewrite Hwin.
  destruct (Z.eqb_spec (borderTop win) v) as [Heq|Hne].
  - exists st, (Y (ClientPosition win)). split; [reflexivity|]. split; [|auto].
    subst v. now apply relaidOut_same.
  - set (g := fun x : Window =>
                withClientArea
                  (mkRectangle (mkPosition (X (Pos (clientArea x))) v) (Sz (clientArea x)))
                  (withBorders (borderBottom x) (borderLeft x) (borderRight x) v x)).
    destruct (border_bracket fuel st w win g
                (onSetBorderTopHandler fuel w (Some w) None (LBorderTop w) v))
      as (st' & sz' & cs' & H1 & Ha & Hi' & Hfit); try assumption.
    { intros x. reflexivity. }
    { destruct Hb as (? & ? & ? & ?). unfold smallBorders, g. simpl. auto. }
    { destruct Hi; lia. }
    { destruct Hi as (_ & ? & _); lia. }
    { reflexivity. }
    { intros st1 Hf1. unfold onSetBorderTopHandler, panicIfPrev.
      cbn [store IntKind].
      destruct (altered_updWindow (fun x => x)
                  (fun x => withBorders (borderBottom x) (borderLeft x) (borderRight x) v x)
                  w st st1 win) as (st2 & -> & Ha2);
        [now apply shape_altered_id|assumption|].
      destruct (altered_updWindow _
                  (fun x => withClientArea
                              (mkRectangle (mkPosition (X (Pos (clientArea x))) v)
                                           (Sz (clientArea x))) x)
                  w st st2 win Ha2 Hwin) as (st3 & -> & Ha3).
      assert (Ha3' : altered g w st st3)
        by (eapply altered_ext; [|exact Ha3]; intros x; reflexivity).
      exists st3. split; [assumption|].
      rewrite (altered_lookup _ _ _ _ _ Ha3' Hwin).
      unfold clientOf, g. cbn. now rewrite Hwd. }
    exists st', v. split; [exact H1|]. split; [|auto].
    exists sz', cs'. split; [|split; assumption].
    eapply altered_ext_at; [eassumption| |exact Ha].
    unfold g, relayout, withSizes, ClientPosition. reflexivity.
Qed.

Lemma SetBorderRight_relaidOut :
  exists st',
    SetBorderRight fuel w v st = Some st' /\
    relaidOut w win st st' (borderBottom win) (borderLeft win) v (borderTop win)
              (X (ClientPosition win)) (Y (ClientPosition win)).
Proof.
  destruct (sizeInv_client_eq win Hb Hs Hi) as [Hh Hwd].
  unfold SetBorderRight, Handle. cbn [load store IntKind chainHead veqb].
  rewrite Hwin.
  destruct (Z.eqb_spec (borderRight win) v) as [Heq|Hne].
  - exists st. split; [reflexivity|]. subst v. now apply relaidOut_same.
  - set (g := fun x : Window =>
                withBorders (borderBottom x) (borderLeft x) v (borderTop x) x).
    destruct (border_bracket fuel st w win g
                (onSetBorderRightHandler fuel w (Some w) None (LBorderRight w) v))
      as (st' & sz' & cs' & H1 & Ha & Hi' & Hfit); try assumption.
    { intros x. reflexivity. }
    { destruct Hb as (? & ? & ? & ?). unfold smallBorders, g. simpl. auto. }
    { destruct Hi; lia. }
    { destruct Hi as (_ & ? & _); lia. }
    { reflexivity. }
    { intros st1 Hf1. unfold onSetBorderRightHandler, panicIfPrev.
      cbn [store IntKind].
      destruct (altered_updWindow (fun x => x)
                  (fun x => withBorders (borderBottom x) (borderLeft x) v (borderTop x) x)
                  w st st1 win) as (st2 & -> & Ha2);
        [now apply shape_altered_id|assumption|].
      assert (Ha2' : altered g w st st2)
        by (eapply altered_ext; [|exact Ha2]; intros x; reflexivity).
      exists st2. split; [assumption|].
      rewrite (altered_lookup _ _ _ _ _ Ha2' Hwin).
      unfold clientOf, g. cbn. now rewrite Hh. }
    exists st'. split; [exact H1|].
    exists sz', cs'. split; [|split; assumption].
    eapply altered_ext_at; [eassumption| |exact Ha].
    unfold g, relayout, withSizes, ClientPosition.
    now destruct win as [? ? ? ? ? [[? ?] ?]].
Qed.

Lemma SetBorderBottom_relaidOut :
  exists st',
    SetBorderBottom fuel w v st = Some st' /\
    relaidOut w win st st' v (borderLeft win) (borderRight win) (borderTop win)
              (X (ClientPosition win)) (Y (ClientPosition win)).
Proof.
  destruct (sizeInv_client_eq win Hb Hs Hi) as [Hh Hwd].
  unfold SetBorderBottom, Handle. cbn [load store IntKind chainHead veqb].
  rewrite Hwin.
  destruct (Z.eqb_spec (borderBottom win) v) as [Heq|Hne].
  - exists st. split; [reflexivity|]. subst v. now apply relaidOut_same.
  - set (g := fun x : Window =>
                withBorders v (borderLeft x) (borderRight x) (borderTop x) x).
    destruct (border_bracket fuel st w win g
                (onSetBorderBottomHandler fuel w (Some w) None (LBorderBottom w) v))
      as (st' & sz' & cs' & H1 & Ha & Hi' & Hfit); try assumption.
    { intros x. reflexivity. }
    { destruct Hb as (? & ? & ? & ?). unfold smallBorders, g. simpl. auto. }
    { destruct Hi; lia. }
    { destruct Hi as (_ & ? & _); lia. }
    { reflexivity. }
    { intros st1 Hf1. unfold onSetBorderBottomHandler, panicIfPrev.
      cbn [store IntKind].
      destruct (altered_updWindow (fun x => x)
                  (fun x => withBorders v (borderLeft x) (borderRight x) (borderTop x) x)
                  w st st1 win) as (st2 & -> & Ha2);
        [now apply shape_altered_id|assumption|].
      assert (Ha2' : altered g w st st2)
        by (eapply altered_ext; [|exact Ha2]; intros x; reflexivity).
      exists st2. split; [assumption|].
      rewrite (altered_lookup _ _ _ _ _ Ha2' Hwin).
      unfold clientOf, g. cbn. now rewrite Hwd. }
    exists st'. split; [exact H1|].
    exists sz', cs'. split; [|split; assumption].
    eapply altered_ext_at; [eassumption| |exact Ha].
    unfold g, relayout, withSizes, ClientPosition.
    now destruct win as [? ? ? ? ? [[? ?] ?]].
Qed.

End BorderSetters.

(** The layout of a window is consistent: its size and client size are
    related, and its client area starts right after the left and the top
    border. *)
Definition layoutInv (win : Window) : Prop :=
  sizeInv win (size win) (ClientSize win) /\
  ClientPosition win = mkPosition (borderLeft win) (borderTop win).

(** State [st'] differs from [st] in the layout of window [w] only, which
    now has borders [b], [l], [r], [t]. *)
Definition borderSet (w : WinId) (win : Window) (st st' : State)
           (b l r t : Z) : Prop :=
  exists win',
    windows st' !! w = Some win' /\
    (forall x, x <> w -> windows st' !! x = windows st !! x) /\
    wf st' = true /\
    borderBottom win' = b /\ borderLeft win' = l /\
    borderRight win' = r /\ borderTop win' = t /\
    sizeInv win' (size win') (ClientSize win') /\
    (ClientPosition win = mkPosition (borderLeft win) (borderTop win) ->
     ClientPosition win' = mkPosition l t) /\
    (l + r <= Width (size win) -> t + b <= Height (size win) ->
     size win' = size win) /\
    treeOf win' = treeOf win /\
    position win' = position win /\ view win' = view win /\
    title win' = title win /\ closeButton win' = closeButton win.

Lemma relaidOut_borderSet w win st st' b l r t x y :
  wf st = true -> windows st !! w = Some win ->
  relaidOut w win st st' b l r t x y ->
  (ClientPosition win = mkPosition (borderLeft win) (borderTop win) ->
   mkPosition x y = mkPosition l t) ->
  borderSet w win st st' b l r t.
Proof.
  intros Hwf Hwin (sz' & cs' & Ha & Hi & Hfit) Hpos.
  exists (relayout b l r t (mkRectangle (mkPosition x y) cs') sz' win).
  split; [eapply altered_lookup; eauto|].
  split; [intros z Hz; eapply altered_others; eauto|].
  split; [now rewrite (altered_wf _ _ _ _ (keepsTree_relayout _ _ _ _ _ _) Ha)|].
  repeat (split; [reflexivity|]).
  split; [exact Hi|].
  split; [exact Hpos|].
  split; [exact Hfit|].
  repeat (split; [reflexivity|]). reflexivity.
Qed.

(** X9: the four border setters return, store the border width, and keep
    the layout of the window consistent: afterwards the size and the
    client size of the window are again related through the new borders,
    and the client area starts at (left border, top border) if it did
    before.  The window keeps its size when the new borders fit in it
    (otherwise a window with a parent grows to hold them); its place in
    the tree, position, viewport, title and close button and all other
    windows are untouched. *)
Theorem border_setters_keep_layout :
  forall (fuel : nat) (st : State) (w : WinId) (win : Window) (v : Z),
    wf st = true ->
    windows st !! w = Some win ->
    (2 * length (windows st) + 4 <= fuel)%nat ->
    smallBorders win -> small v -> smallSize (size win) ->
    sizeInv win (size win) (ClientSize win) ->
    (exists st', SetBorderTop fuel w v st = Some st' /\
                 borderSet w win st st' (borderBottom win) (borderLeft win)
                           (borderRight win) v) /\
    (exists st', SetBorderLeft fuel w v st = Some st' /\
                 borderSet w win st st' (borderBottom win) v
                           (borderRight win) (borderTop win)) /\
    (exists st', SetBorderRight fuel w v st = Some st' /\
                 borderSet w win st st' (borderBottom win) (borderLeft win)
                           v (borderTop win)) /\
    (exists st', SetBorderBottom fuel w v st = Some st' /\
                 borderSet w win st st' v (borderLeft win)
                           (borderRight win) (borderTop win)).
Proof.
  intros fuel st w win v Hwf Hwin Hfuel Hb Hv Hs Hi.
  split; [|split; [|split]].
  - destruct (SetBorderTop_relaidOut fuel st w win v Hwf Hwin Hfuel Hb Hv Hs Hi)
      as (st' & y & H & Hr & Hy).
    exists st'. split; [exact H|].
    eapply relaidOut_borderSet; eauto.
    intros Hp. rewrite Hp in *. simpl in *.
    destruct Hy as [->|[-> <-]]; reflexivity.
  - destruct (SetBorderLeft_relaidOut fuel st w win v Hwf Hwin Hfuel Hb Hv Hs Hi)
      as (st' & x & H & Hr & Hx).
    exists st'. split; [exact H|].
    eapply relaidOut_borderSet; eauto.
    intros Hp. rewrite Hp in *. simpl in *.
    destruct Hx as [->|[-> <-]]; reflexivity.
  - destruct (SetBorderRight_relaidOut fuel st w win v Hwf Hwin Hfuel Hb Hv Hs Hi)
      as (st' & H & Hr).
    exists st'. split; [exact H|].
    eapply relaidOut_borderSet; eauto.
    intros Hp. now rewrite Hp.
  - destruct (SetBorderBottom_relaidOut fuel st w win v Hwf Hwin Hfuel Hb Hv Hs Hi)
      as (st' & H & Hr).
    exists st'. split; [exact H|].
    eapply relaidOut_borderSet; eauto.
    intros Hp. now rewrite Hp.
Qed.

Lemma border_setters_keep_layout_witness :
  exists st' win',
    SetBorderLeft 10 1 3 nestedWindows = Some st' /\
    windows st' !! 1%nat = Some win' /\
    borderLeft win' = 3 /\
    ClientPosition win' = mkPosition 3 1 /\
    sizeInv win' (size win') (ClientSize win').
Proof.
  destruct (lookup_valid (windows nestedWindows) 1 ltac:(simpl; lia)) as [win Hwin].
  assert (Hwin' := Hwin). vm_compute in Hwin'. injection Hwin' as Hwin'.
  destruct (border_setters_keep_layout 10 nestedWindows 1%nat win 3)
    as (_ & (st' & H1 & win' & H2 & _ & _ & _ & H3 & _ & _ & H4 & H5 & _) & _).
  - reflexivity.
  - exact Hwin.
  - simpl. lia.
  - subst win. unfold smallBorders, small. simpl. lia.
  - unfold small. lia.
  - subst win. unfold smallSize, small. simpl. lia.
  - subst win. unfold sizeInv. simpl. lia.
  - exists st', win'. split; [exact H1|]. split; [exact H2|].
    split; [exact H3|]. split; [|exact H4].
    rewrite H5; subst win; reflexivity.
Defined.

(** ** The sizes [SetSize] and [SetClientSize] leave *)

Lemma clampSize_id s : 0 <= Width s -> 0 <= Height s -> clampSize s = s.
Proof.
  intros Hw Hh. destruct s as [a b]. unfold clampSize. simpl in *.
  rewrite !Max_spec. f_equal; lia.
Qed.

Lemma Size_eqb_false_intro a b : a <> b -> Size_eqb a b = false.
Proof.
  intros H. destruct (Size_eqb a b) eqn:E; [|reflexivity].
  apply Size_eqb_eq in E. contradiction.
Qed.

Lemma Size_ext (a b : Size) :
  Width a = Width b -> Height a = Height b -> a = b.
Proof. destruct a, b. simpl. congruence. Qed.

(** A size that the borders fit in: [setSize] stores it as it is, with
    the client size that remains. *)
Lemma sizeAfter_exact win s sz cs :
  smallBorders win -> smallSize s ->
  0 <= borderLeft win + borderRight win <= Width s ->
  0 <= borderTop win + borderBottom win <= Height s ->
  sizeInv win sz cs ->
  sizeAfter 4 win s sz cs =
  Some (s, mkSize (Width s - borderLeft win - borderRight win)
                  (Height s - borderTop win - borderBottom win)).
Proof.
  intros Hb Hs Hw Hh Hi.
  assert (Hc : clampSize s = s) by (apply clampSize_id; lia).
  assert (Hco : clientOf win s =
                mkSize (Width s - borderLeft win - borderRight win)
                       (Height s - borderTop win - borderBottom win)).
  { apply Size_ext; simpl; size_arith. }
  cbn [sizeAfter clientSizeAfter]. rewrite Hc, Hco.
  destruct (Size_eqb sz s) eqn:E1.
  { apply Size_eqb_eq in E1. subst sz. f_equal. f_equal.
    apply Size_ext; simpl; clear Hc Hco; size_arith. }
  set (c := mkSize _ _).
  assert (Hcc : clampSize c = c) by (apply clampSize_id; unfold c; simpl; lia).
  destruct (Size_eqb cs c) eqn:E2.
  { apply Size_eqb_eq in E2. now subst cs. }
  rewrite Hcc. destruct (parent win); [|reflexivity].
  rewrite Size_eqb_true_intro; [reflexivity| |];
    unfold c; clear E1 E2 Hc Hco Hcc; size_arith.
Qed.

(** A client size other than the current one: [SetClientSize] stores it,
    clamped, and a window that has a parent gets the size that holds it
    and the borders. *)
Lemma clientSizeAfter_exact win c sz cs :
  smallBorders win -> smallSize c ->
  0 <= borderLeft win -> 0 <= borderRight win ->
  0 <= borderTop win -> 0 <= borderBottom win ->
  cs <> c ->
  clientSizeAfter 4 win c sz cs =
  Some (match parent win with
        | Some _ => windowOf win (clampSize c)
        | None => sz
        end, clampSize c).
Proof.
  intros Hb Hc Hl Hr Ht Hbt Hne.
  cbn [sizeAfter clientSizeAfter].
  rewrite (Size_eqb_false_intro _ _ Hne).
  destruct (parent win); [|reflexivity].
  destruct (Size_eqb sz _) eqn:E1.
  { apply Size_eqb_eq in E1. now subst sz. }
  assert (Hw : clampSize (windowOf win (clampSize c)) = windowOf win (clampSize c)).
  { apply clampSize_id; clear E1; size_arith. }
  rewrite Hw. rewrite Size_eqb_true_intro; [reflexivity| |]; clear E1 Hw; size_arith.
Qed.

Lemma fuel_split (fuel n : nat) :
  (n + 4 <= fuel)%nat -> fuel = (n + (4 + (fuel - n - 4)))%nat.
Proof. lia. Qed.

(** X10: on a window whose size and client size are related before the
    call (the client size is what the borders leave of the size, as it
    is when the window is created), [setSize(s)] with a size that the
    borders fit in returns and stores exactly [s], and the client size
    becomes what the borders leave of [s]; on a window with a parent
    [SetSize(s)] does the same.  Without the relation the call can
    leave the client size alone: on a root window whose client size was
    set by [SetClientSize], [setSize] with the size the window has
    returns at once. *)
Theorem SetSize_exact :
  forall (fuel : nat) (st : State) (w : WinId) (win : Window) (s : Size),
    wf st = true ->
    windows st !! w = Some win ->
    (2 * length (windows st) + 4 <= fuel)%nat ->
    smallBorders win -> smallSize s ->
    0 <= borderLeft win + borderRight win <= Width s ->
    0 <= borderTop win + borderBottom win <= Height s ->
    sizeInv win (size win) (ClientSize win) ->
    let win' := withSizes s (mkSize (Width s - borderLeft win - borderRight win)
                                    (Height s - borderTop win - borderBottom win))
                          win in
    (exists st', setSize fuel w s st = Some st' /\
                 windows st' = <[w := win']> (windows st) /\ wf st' = true) /\
    (parent win <> None ->
     exists st', SetSize fuel w s st = Some st' /\
                 windows st' = <[w := win']> (windows st) /\ wf st' = true).
Proof.
  intros fuel st w win s Hwf Hwin Hfuel Hb Hs Hw Hh Hi win'.
  assert (Hset : exists st', setSize fuel w s st = Some st' /\
                             windows st' = <[w := win']> (windows st) /\
                             wf st' = true).
  { pose proof (sizeAfter_exact win s _ _ Hb Hs Hw Hh Hi) as Hp.
    apply (sizeAfter_more win (fuel - 2 * length (windows st) - 4)) in Hp.
    destruct (resize_from st w win (fun x => x) st
                          (4 + (fuel - 2 * length (windows st) - 4))
                          Hwf Hwin keepsTree_id (altered_id w st)) as [_ Hr].
    destruct (Hr _ _ _ Hp) as (st' & H & Ha).
    rewrite <- fuel_split in H by assumption.
    exists st'. split; [assumption|].
    split; [eapply altered_insert; eauto|].
    rewrite (altered_wf _ _ _ _ (keepsTree_withSizes _ _) Ha). assumption. }
  split; [exact Hset|].
  intros Hpar. unfold SetSize, ifHasParent. rewrite Hwin.
  destruct (parent win); [exact Hset|congruence].
Qed.

Lemma SetSize_exact_witness :
  exists st' win',
    SetSize 10 1 (mkSize 30 12) nestedWindows = Some st' /\
    windows st' !! 1%nat = Some win' /\
    size win' = mkSize 30 12 /\ ClientSize win' = mkSize 28 10.
Proof.
  destruct (lookup_valid (windows nestedWindows) 1 ltac:(simpl; lia)) as [win Hwin].
  assert (Hwin' := Hwin). vm_compute in Hwin'. injection Hwin' as Hwin'.
  destruct (SetSize_exact 10 nestedWindows 1%nat win (mkSize 30 12)) as [_ H].
  - reflexivity.
  - exact Hwin.
  - simpl. lia.
  - subst win. unfold smallBorders, small. simpl. lia.
  - unfold smallSize, small. simpl. lia.
  - subst win. simpl. lia.
  - subst win. simpl. lia.
  - subst win. unfold sizeInv. simpl. lia.
  - destruct H as (st' & H1 & H2 & _); [subst win; discriminate|].
    eexists st', _. split; [exact H1|].
    split; [rewrite H2; apply list_lookup_insert_eq; simpl; lia|].
    subst win. split; reflexivity.
Defined.

(** X11: [SetClientSize(c)] with a client size other than the current
    one returns and stores [c] with negative components replaced by 0.
    A window with a parent gets the size that holds the new client area
    and the borders; a root window keeps its size, whatever the new
    client size is. *)
Theorem SetClientSize_exact :
  forall (fuel : nat) (st : State) (w : WinId) (win : Window) (c : Size),
    wf st = true ->
    windows st !! w = Some win ->
    (2 * length (windows st) + 4 <= fuel)%nat ->
    smallBorders win -> smallSize c ->
    0 <= borderLeft win -> 0 <= borderRight win ->
    0 <= borderTop win -> 0 <= borderBottom win ->
    ClientSize win <> c ->
    exists st',
      SetClientSize fuel w c st = Some st' /\
      windows st' =
      <[w := withSizes
               (match parent win with
                | Some _ =>
                  mkSize (borderLeft win + Z.max 0 (Width c) + borderRight win)
                         (borderTop win + Z.max 0 (Height c) + borderBottom win)
                | None => size win
                end)
               (mkSize (Z.max 0 (Width c)) (Z.max 0 (Height c))) win]>
        (windows st) /\
      wf st' = true.
Proof.
  intros fuel st w win c Hwf Hwin Hfuel Hb Hc Hl Hr Ht Hbt Hne.
  pose proof (clientSizeAfter_exact win c (size win) _ Hb Hc Hl Hr Ht Hbt Hne) as Hp.
  apply (clientSizeAfter_more win (fuel - 2 * length (windows st) - 4)) in Hp.
  destruct (resize_from st w win (fun x => x) st
                        (4 + (fuel - 2 * length (windows st) - 4))
                        Hwf Hwin keepsTree_id (altered_id w st)) as [Hq _].
  destruct (Hq _ _ _ Hp) as (st' & H & Ha).
  rewrite <- fuel_split in H by assumption.
  exists st'. split; [assumption|].
  split.
  - rewrite (altered_insert _ _ _ _ _ Ha Hwin). f_equal.
    assert (E1 : clampSize c = mkSize (Z.max 0 (Width c)) (Z.max 0 (Height c))).
    { unfold clampSize. now rewrite !Max_spec. }
    rewrite E1. f_equal.
    destruct (parent win); [|reflexivity].
    apply Size_ext; simpl; size_arith.
  - rewrite (altered_wf _ _ _ _ (keepsTree_withSizes _ _) Ha). assumption.
Qed.

Lemma SetClientSize_exact_witness :
  exists st' win',
    SetClientSize 10 1 (mkSize 5 (-2)) nestedWindows = Some st' /\
    windows st' !! 1%nat = Some win' /\
    size win' = mkSize 7 2 /\ ClientSize win' = mkSize 5 0.
Proof.
  destruct (lookup_valid (windows nestedWindows) 1 ltac:(simpl; lia)) as [win Hwin].
  assert (Hwin' := Hwin). vm_compute in Hwin'. injection Hwin' as Hwin'.
  destruct (SetClientSize_exact 10 nestedWindows 1%nat win (mkSize 5 (-2)))
    as (st' & H1 & H2 & _).
  - reflexivity.
  - exact Hwin.
  - simpl. lia.
  - subst win. unfold smallBorders, small. simpl. lia.
  - unfold smallSize, small. simpl. lia.
  - subst win. simpl. lia.
  - subst win. simpl. lia.
  - subst win. simpl. lia.
  - subst win. simpl. lia.
  - subst win. discriminate.
  - eexists st', _. split; [exact H1|].
    split; [rewrite H2; apply list_lookup_insert_eq; simpl; lia|].
    subst win. split; reflexivity.
Defined.

(** * Further properties of invalidation and painting *)

Lemma isub_iadd_cancel a b : in_int a -> isub (iadd a b) b = a.
Proof.
  intros Ha. unfold isub, iadd.
  replace (wrap (a + b) - b) with (- b + wrap (a + b)) by lia.
  rewrite wrap_add_r. replace (- b + (a + b)) with a by lia.
  now apply wrap_small.
Qed.

Lemma iadd_one_eq_one a : in_int a -> (iadd a 1 =? 1) = (a =? 0).
Proof.
  intros Ha. destruct (Z.eqb_spec a 0) as [->|Hne]; [reflexivity|].
  apply Z.eqb_neq. intros H.
  apply Hne. rewrite <- (isub_iadd_cancel a 1 Ha), H. reflexivity.
Qed.

Lemma setDesk_levels d inv st dsk :
  desktops st !! d = Some dsk ->
  map updateLevel (desktops (setDesk d inv (updateLevel dsk) st)) =
  map updateLevel (desktops st).
Proof.
  intros Hd. unfold setDesk. simpl. apply list_eq. intros i.
  change (map updateLevel ?l) with (updateLevel <$> l).
  rewrite !list_lookup_fmap, list_lookup_alter.
  destruct (decide (d = i)) as [<-|]; [|reflexivity].
  now rewrite Hd.
Qed.

(** [paint] on a window of a desktop that is not shown does nothing. *)
Lemma paint_hidden fuel st w win area :
  windows st !! w = Some win ->
  app_desktop st <> Some (desktop win) ->
  paint (S fuel) w area st = Some st.
Proof.
  intros Hwin Hd. cbn [paint]. rewrite Hwin.
  destruct (IsZero (Sz area)); [reflexivity|].
  destruct (Clip area _) as [a ok]. destruct ok; [|reflexivity]. cbn [negb].
  destruct (app_desktop st) as [d|]; [|reflexivity].
  destruct (Nat.eqb_spec d (desktop win)) as [->|Hne]; [congruence|reflexivity].
Qed.

(** The common tail of [Invalidate] and [InvalidateClientArea] on a
    hidden desktop. *)
Lemma update_hidden fuel st w win dsk area :
  windows st !! w = Some win ->
  desktops st !! desktop win = Some dsk ->
  app_desktop st <> Some (desktop win) ->
  in_int (updateLevel dsk) ->
  (do st1 <- BeginUpdate (Some w) st;
   do st2 <- paint (S fuel) w area st1;
   EndUpdate (S fuel) (Some w) st2) =
  Some (setDesk (desktop win)
                (if updateLevel dsk =? 0 then zeroRectangle else invalidated dsk)
                (updateLevel dsk) st).
Proof.
  intros Hwin Hd Hhid Hlvl.
  rewrite <- (setDesk_id _ _ _ Hd) at 1.
  erewrite BeginUpdate_setDesk by (try eassumption; reflexivity).
  rewrite (paint_hidden fuel _ w win) by assumption.
  erewrite EndUpdate_setDesk by (try eassumption; reflexivity).
  rewrite isub_iadd_cancel, iadd_one_eq_one by assumption.
  destruct (Z.eqb_spec (updateLevel dsk) 0) as [Hz|Hz]; reflexivity.
Qed.

(** X12: invalidating a window of a desktop that is not the one shown
    paints nothing and flushes nothing: [Invalidate] and
    [InvalidateClientArea] return with the log, the window tree and all
    update levels as they were, whatever the area. *)
Theorem invalidate_hidden_desktop :
  forall (fuel : nat) (st : State) (w : WinId) (win : Window) (dsk : Desktop)
         (area : Rectangle),
    windows st !! w = Some win ->
    desktops st !! desktop win = Some dsk ->
    app_desktop st <> Some (desktop win) ->
    in_int (updateLevel dsk) ->
    (1 <= fuel)%nat ->
    let quiet st' :=
        log st' = log st /\ windows st' = windows st /\
        map updateLevel (desktops st') = map updateLevel (desktops st) /\
        app_updateLevel st' = app_updateLevel st /\
        app_desktop st' = app_desktop st in
    (exists st', Invalidate fuel w area st = Some st' /\ quiet st') /\
    (exists st', InvalidateClientArea fuel w area st = Some st' /\ quiet st').
Proof.
  intros fuel st w win dsk area Hwin Hd Hhid Hlvl Hfuel quiet.
  destruct fuel as [|fuel]; [lia|].
  assert (Hq : quiet st) by (unfold quiet; auto).
  assert (Hq' : forall inv, quiet (setDesk (desktop win) inv (updateLevel dsk) st)).
  { intros inv. unfold quiet. repeat (split; [reflexivity|]).
    split; [now apply setDesk_levels|]. split; reflexivity. }
  split.
  - unfold Invalidate. rewrite Hwin.
    destruct (Clip area _) as [a ok]. destruct ok; cbn [negb]; [|eauto].
    erewrite update_hidden by eassumption. eauto.
  - unfold InvalidateClientArea. rewrite Hwin.
    destruct (Clip _ (clientArea win)) as [a ok]. destruct ok; cbn [negb]; [|eauto].
    erewrite update_hidden by eassumption. eauto.
Qed.

(** A second desktop with a root window, created while the first one is
    shown. *)
Definition twoDesktops : State :=
  Eval vm_compute in
    match newDesktop 12 nestedWindows with
    | Some (_, st) => st
    | None => nestedWindows
    end.

Lemma invalidate_hidden_desktop_witness :
  exists st',
    Invalidate 1 3 (rect 0 0 80 25) twoDesktops = Some st' /\
    log st' = log twoDesktops.
Proof.
  assert (Hwin : exists win, windows twoDesktops !! 3%nat = Some win /\
                             desktop win = 1%nat)
    by (eexists; split; reflexivity).
  destruct Hwin as (win & Hwin & Hdesk).
  assert (Hd : exists dsk, desktops twoDesktops !! 1%nat = Some dsk /\
                           updateLevel dsk = 0)
    by (eexists; split; reflexivity).
  destruct Hd as (dsk & Hd & Hlvl).
  destruct (invalidate_hidden_desktop 1 twoDesktops 3%nat win dsk (rect 0 0 80 25))
    as [(st' & H1 & H2 & _) _].
  - exact Hwin.
  - rewrite Hdesk. exact Hd.
  - rewrite Hdesk. discriminate.
  - rewrite Hlvl. unfold in_int, int_min, int_max. lia.
  - lia.
  - exists st'. split; [exact H1|exact H2].
Defined.

(** ** Hit testing and the coordinates of painting *)

(** Every window listed as a child names the window that lists it as its
    parent. *)
Fixpoint linkedFrom (all ws : list Window) (i : nat) : bool :=
  match ws with
  | [] => true
  | win :: ws =>
    forallb (fun c => match all !! c with
                      | Some cw => optionNat_eqb (parent cw) (Some i)
                      | None => false
                      end) (children win) &&
    linkedFrom all ws (S i)
  end.

Definition linked (st : State) : bool :=
  linkedFrom (windows st) (windows st) 0.

Lemma linkedFrom_lookup all : forall ws i w win c cw,
  linkedFrom all ws i = true -> ws !! w = Some win ->
  List.In c (children win) -> all !! c = Some cw ->
  parent cw = Some (i + w)%nat.
Proof.
  induction ws as [|x ws IH]; intros i w win c cw Hl Hw Hc Hcw; [discriminate|].
  cbn [linkedFrom] in Hl. apply andb_true_iff in Hl as [Hx Hrest].
  destruct w as [|w]; simpl in Hw.
  - injection Hw as <-. rewrite forallb_forall in Hx.
    specialize (Hx c Hc). rewrite Hcw in Hx.
    destruct (parent cw) as [q|]; [|discriminate]. simpl in Hx.
    apply Nat.eqb_eq in Hx. subst q. f_equal. lia.
  - replace (i + S w)%nat with (S i + w)%nat by lia. eapply IH; eauto.
Qed.

Lemma linked_child st w win c cw :
  linked st = true -> windows st !! w = Some win ->
  List.In c (children win) -> windows st !! c = Some cw ->
  parent cw = Some w.
Proof.
  intros Hl Hw Hc Hcw.
  exact (linkedFrom_lookup _ _ 0%nat w win c cw Hl Hw Hc Hcw).
Qed.

(** The one cell at position [p]. *)
Definition cell (p : Position) : Rectangle := mkRectangle p (mkSize 1 1).

Definition inRange (p : Position) : Prop := in_int (X p) /\ in_int (Y p).

Lemma add_inRange p q : inRange (add p q).
Proof. split; apply wrap_range. Qed.

Lemma sub_inRange p q : inRange (sub p q).
Proof. split; apply wrap_range. Qed.

(** Clipping the cell of a position by a rectangle that has the position
    leaves the cell. *)
Lemma Clip_cell p r :
  inRange p -> In p r = true -> Clip (cell p) r = (cell p, true).
Proof.
  intros [Hx Hy] Hin. unfold In in Hin. apply Has_spec in Hin as [H1 H2].
  pose proof (right_range r) as Hr. pose proof (bottom_range r) as Hb.
  unfold in_int, int_min, int_max in *.
  assert (Hcr : right (cell p) = X p + 1).
  { unfold right, cell, iadd. simpl. apply wrap_small'. lia. }
  assert (Hcb : bottom (cell p) = Y p + 1).
  { unfold bottom, cell, iadd. simpl. apply wrap_small'. lia. }
  apply Clip_true. rewrite Hcr, Hcb. simpl.
  split; [lia|]. split; [lia|].
  unfold cell, rect. destruct p as [x y]. simpl in *.
  rewrite (Z.max_l x) by lia. rewrite (Z.max_l y) by lia.
  rewrite (Z.min_l (x + 1)) by lia. rewrite (Z.min_l (y + 1)) by lia.
  unfold isub. rewrite !wrap_small' by lia.
  repeat f_equal; lia.
Qed.

Lemma wrap_mod z : exists k, wrap z = z + k * 2 ^ 64.
Proof.
  unfold wrap. exists (- ((z + 2 ^ 63) / 2 ^ 64)).
  pose proof (Z.div_mod (z + 2 ^ 63) (2 ^ 64) ltac:(lia)). lia.
Qed.

(** Replace every [wrap e] by [e] plus a multiple of 2^64, innermost
    first, keeping the bounds of the wrapped value. *)
Ltac wrap_lin :=
  repeat match goal with
         | |- context [wrap ?e] =>
           lazymatch e with
           | context [wrap _] => fail
           | _ =>
             let k := fresh "k" in
             let H := fresh "H" in
             let R := fresh "R" in
             pose proof (wrap_range e) as R;
             destruct (wrap_mod e) as [k H];
             rewrite H in R |- *
           end
         end.

(** The translation of hit testing into a child undone by the
    translation of painting out of it. *)
Lemma up_down_child p v c q :
  inRange p -> add (add (sub (sub (add p v) c) q) q) (sub c v) = p.
Proof.
  intros [Hx Hy]. destruct p as [x y]. unfold add, sub, iadd, isub. simpl in *.
  unfold in_int, int_min, int_max in *.
  f_equal; wrap_lin; unfold int_min, int_max in *; lia.
Qed.

(** The same for the client coordinates of a window. *)
Lemma up_down_client p v c :
  inRange p -> sub (add (sub (add p v) c) c) v = p.
Proof.
  intros [Hx Hy]. destruct p as [x y]. unfold add, sub, iadd, isub. simpl in *.
  unfold in_int, int_min, int_max in *.
  f_equal; wrap_lin; unfold int_min, int_max in *; lia.
Qed.

(** The cell, in the window coordinates of the target, that stands for
    the position hit testing hands to the handler: the position itself
    for the border handler, and for the client area handler the position
    carried out of client coordinates as [InvalidateClientArea] does. *)
Definition targetCell (twin : Window) (q : Position) (tg : Target) : Rectangle :=
  match tg with
  | borderHandler => cell q
  | clientAreaHandler => cell (sub (add q (ClientPosition twin)) (Origin twin))
  end.

Lemma hit_toRoot st :
  wf st = true -> linked st = true ->
  forall w p r, hit st w p r -> inRange p ->
    exists twin n,
      windows st !! (fst (fst r)) = Some twin /\
      (n + w <= fst (fst r))%nat /\
      (snd r = clientAreaHandler ->
       Clip (targetCell twin (snd (fst r)) (snd r)) (clientArea twin) =
       (targetCell twin (snd (fst r)) (snd r), true)) /\
      forall k,
        toRoot (n + k) (windows st) (fst (fst r))
               (targetCell twin (snd (fst r)) (snd r)) =
        toRoot k (windows st) w (cell p).
Proof.
  intros Hwf Hlk w p r Hhit.
  induction Hhit as [w win p Hw Hin|w win p Hw Hin Hall
                     |w win p front ch back cw r Hw Hin Hsplit Hfront Hch Hq Hhit IH];
    intros Hp.
  - exists win, 0%nat. simpl. split; [assumption|]. split; [lia|].
    split; [discriminate|reflexivity].
  - exists win, 0%nat. simpl. split; [assumption|]. split; [lia|].
    unfold ClientPosition, Origin, ClientArea. rewrite up_down_client by assumption.
    split; [intros _; now apply Clip_cell|reflexivity].
  - destruct (IH (sub_inRange _ _)) as (twin & n & Ht & Hn & Hc & Hup).
    assert (Hcin : List.In ch (children win)).
    { apply in_rev. rewrite Hsplit. apply in_or_app. right. now left. }
    pose proof (wf_children _ _ _ _ Hwf Hw Hcin) as Hlt.
    pose proof (linked_child _ _ _ _ _ Hlk Hw Hcin Hch) as Hpar.
    exists twin, (S n). split; [assumption|]. split; [lia|]. split; [assumption|].
    intros k. replace (S n + k)%nat with (n + S k)%nat by lia.
    rewrite Hup. cbn [toRoot]. rewrite Hch, Hpar, Hw.
    unfold cell. cbn [Pos Sz].
    unfold ClientPosition, Origin, ClientArea in *.
    rewrite up_down_child by assumption.
    change (mkRectangle p (mkSize 1 1)) with (cell p).
    rewrite Clip_cell by assumption. reflexivity.
Qed.

(** X13: hit testing and painting agree on coordinates, wrap-around
    included.  If hit testing from a root window at position [p] ends in
    window [t] with position [q], then the cell that [q] stands for in [t]
    is carried by the loop of [paint] (the one that runs while the
    desktop is being updated) through every ancestor, clipped by none,
    back to exactly the cell [p] of the root, which is joined into the
    invalidated rectangle. *)
Theorem hit_inverts_paint_translation :
  forall (st : State) (d : DeskId) (dsk : Desktop) (w : WinId) (win : Window)
         (p : Position) (t : WinId) (q : Position) (tg : Target) (fuel fuel' : nat),
    wf st = true -> linked st = true ->
    desktops st !! d = Some dsk ->
    windows st !! w = Some win -> parent win = None ->
    inRange p ->
    (length (windows st) <= fuel + w)%nat ->
    findEventTarget fuel st w p = Some (t, q, tg) ->
    (t < fuel')%nat ->
    exists twin,
      windows st !! t = Some twin /\
      (tg = clientAreaHandler ->
       Clip (targetCell twin q tg) (clientArea twin) = (targetCell twin q tg, true)) /\
      forall inv lvl,
        paintDeferred fuel' d t (targetCell twin q tg) (setDesk d inv lvl st) =
        Some (setDesk d (join inv (cell p)) lvl st).
Proof.
  intros st d dsk w win p t q tg fuel fuel' Hwf Hlk Hd Hw Hpar Hp Hfuel Hfind Ht.
  assert (Hwlt : (w < length (windows st))%nat) by (eapply lookup_lt_Some; eauto).
  destruct (findEventTarget_hit st Hwf fuel w p Hwlt Hfuel) as (r & Hr & Hhit).
  rewrite Hfind in Hr. injection Hr as <-.
  destruct (hit_toRoot st Hwf Hlk w p _ Hhit Hp) as (twin & n & Htw & Hn & Hc & Hup).
  simpl in *. exists twin. split; [assumption|]. split; [assumption|].
  intros inv lvl. erewrite paintDeferred_toRoot by eassumption.
  replace fuel' with (n + S (fuel' - n - 1))%nat by lia.
  rewrite Hup. cbn [toRoot]. rewrite Hw, Hpar. reflexivity.
Qed.

Lemma hit_inverts_paint_translation_witness :
  exists twin,
    windows nestedWindows !! 2%nat = Some twin /\
    paintDeferred 3 0 2 (targetCell twin (mkPosition 2 0) clientAreaHandler)
                  (setDesk 0 zeroRectangle 1 nestedWindows) =
    Some (setDesk 0 (cell (mkPosition 13 8)) 1 nestedWindows).
Proof.
  assert (Hd : exists dsk, desktops nestedWindows !! 0%nat = Some dsk)
    by (eexists; reflexivity).
  destruct Hd as (dsk & Hd).
  assert (Hw : exists win, windows nestedWindows !! 0%nat = Some win /\
                           parent win = None)
    by (eexists; split; reflexivity).
  destruct Hw as (win & Hw & Hpar).
  destruct (hit_inverts_paint_translation
              nestedWindows 0%nat dsk 0%nat win (mkPosition 13 8)
              2%nat (mkPosition 2 0) clientAreaHandler 3 3)
    as (twin & H1 & _ & H2).
  - reflexivity.
  - reflexivity.
  - exact Hd.
  - exact Hw.
  - exact Hpar.
  - unfold inRange, in_int, int_min, int_max. simpl. lia.
  - simpl. lia.
  - reflexivity.
  - lia.
  - exists twin. split; [exact H1|]. apply (H2 zeroRectangle 1).
Defined.

(** * Creating windows *)

(** Well-formedness and linkage, window by window. *)
Lemma wfWindows_intro nw nd : forall ws i,
  (forall k win, ws !! k = Some win -> wfWindow nw nd (i + k) win = true) ->
  wfWindows nw nd i ws = true.
Proof.
  induction ws as [|x ws IH]; intros i H; [reflexivity|].
  cbn [wfWindows]. apply andb_true_iff. split.
  - specialize (H 0%nat x eq_refl). now rewrite Nat.add_0_r in H.
  - apply IH. intros k win Hk.
    replace (S i + k)%nat with (i + S k)%nat by lia. now apply H.
Qed.

Lemma wf_intro st :
  (forall k win, windows st !! k = Some win ->
                 wfWindow (length (windows st)) (length (desktops st)) k win = true) ->
  (forall d dsk, desktops st !! d = Some dsk ->
                 (root dsk < length (windows st))%nat) ->
  (forall d, app_desktop st = Some d -> (d < length (desktops st))%nat) ->
  wf st = true.
Proof.
  intros Hw Hd Ha. unfold wf. rewrite !andb_true_iff. split; [split|].
  - apply wfWindows_intro. intros k win Hk. now apply Hw.
  - apply forallb_forall. intros dsk Hin.
    apply list_elem_of_In, list_elem_of_lookup in Hin as [d Hd'].
    apply Nat.ltb_lt. eauto.
  - destruct (app_desktop st) as [d|]; [|reflexivity].
    apply Nat.ltb_lt. now apply Ha.
Qed.

Lemma wfWindow_mono nw nw' nd i win :
  (nw <= nw')%nat -> wfWindow nw nd i win = true -> wfWindow nw' nd i win = true.
Proof.
  intros Hle. unfold wfWindow. rewrite !andb_true_iff.
  intros [[[H1 H2] H3] H4]. repeat split; try assumption.
  rewrite forallb_forall in *. intros c Hc. specialize (H3 c Hc).
  rewrite andb_true_iff, !Nat.ltb_lt in *. lia.
Qed.

Lemma linkedFrom_intro all : forall ws i,
  (forall k win c, ws !! k = Some win -> List.In c (children win) ->
                   exists cw, all !! c = Some cw /\ parent cw = Some (i + k)%nat) ->
  linkedFrom all ws i = true.
Proof.
  induction ws as [|x ws IH]; intros i H; [reflexivity|].
  cbn [linkedFrom]. apply andb_true_iff. split.
  - apply forallb_forall. intros c Hc.
    destruct (H 0%nat x c eq_refl Hc) as (cw & -> & ->).
    simpl. rewrite Nat.add_0_r. apply Nat.eqb_refl.
  - apply IH. intros k win c Hk Hc.
    replace (S i + k)%nat with (i + S k)%nat by lia. now apply (H (S k) win c).
Qed.

Lemma linkedFrom_child all : forall ws i w win c,
  linkedFrom all ws i = true -> ws !! w = Some win ->
  List.In c (children win) -> exists cw, all !! c = Some cw.
Proof.
  induction ws as [|x ws IH]; intros i w win c Hl Hw Hc; [discriminate|].
  cbn [linkedFrom] in Hl. apply andb_true_iff in Hl as [Hx Hrest].
  destruct w as [|w]; simpl in Hw.
  - injection Hw as <-. rewrite forallb_forall in Hx. specialize (Hx c Hc).
    destruct (all !! c); [eauto|discriminate].
  - eapply IH; eauto.
Qed.

Lemma linked_intro st :
  (forall w win c, windows st !! w = Some win -> List.In c (children win) ->
                   exists cw, windows st !! c = Some cw /\ parent cw = Some w) ->
  linked st = true.
Proof. intros H. apply linkedFrom_intro. exact H. Qed.

Lemma linked_elim st w win c :
  linked st = true -> windows st !! w = Some win -> List.In c (children win) ->
  exists cw, windows st !! c = Some cw /\ parent cw = Some w.
Proof.
  intros Hl Hw Hc.
  destruct (linkedFrom_child _ _ _ _ _ _ Hl Hw Hc) as [cw Hcw].
  exists cw. split; [assumption|]. eapply linked_child; eauto.
Qed.

(** Linkage only depends on the tree fields of the windows. *)
Lemma linked_treeOf st st' :
  map treeOf (windows st') = map treeOf (windows st) ->
  linked st = true -> linked st' = true.
Proof.
  intros Hm Hl. apply linked_intro. intros w win c Hw Hc.
  assert (Hlook : forall i x, windows st' !! i = Some x ->
                              exists y, windows st !! i = Some y /\ treeOf y = treeOf x).
  { intros i x Hi.
    assert (H : (treeOf <$> windows st') !! i = Some (treeOf x))
      by (rewrite list_lookup_fmap, Hi; reflexivity).
    change (treeOf <$> windows st') with (map treeOf (windows st')) in H.
    rewrite Hm in H. change (map treeOf (windows st)) with (treeOf <$> windows st) in H.
    rewrite list_lookup_fmap in H.
    destruct (windows st !! i) as [y|]; [|discriminate].
    exists y. split; [reflexivity|]. simpl in H. congruence. }
  destruct (Hlook _ _ Hw) as (win0 & Hw0 & Ht0).
  assert (Hc0 : List.In c (children win0)).
  { assert (Hch : children win0 = children win)
      by (unfold treeOf in Ht0; congruence).
    now rewrite Hch. }
  destruct (linked_elim _ _ _ _ Hl Hw0 Hc0) as (cw0 & Hcw0 & Hp0).
  assert (Hlen : length (windows st') = length (windows st)).
  { rewrite <- (length_map treeOf (windows st')), Hm. apply length_map. }
  destruct (lookup_valid (windows st') c) as [cw Hcw].
  { rewrite Hlen. eapply lookup_lt_Some; eauto. }
  exists cw. split; [assumption|].
  destruct (Hlook _ _ Hcw) as (y & Hy & Hty).
  assert (y = cw0) by congruence. subst y.
  unfold treeOf in Hty. congruence.
Qed.

Lemma altered_linked f w st st' :
  keepsTree f -> altered f w st st' -> linked st = true -> linked st' = true.
Proof.
  intros Hf (Hw & _) Hl. eapply linked_treeOf; [|exact Hl].
  rewrite Hw. now apply map_treeOf_alter.
Qed.

Lemma shapeFrame_linked st st' :
  shapeFrame st st' -> linked st' = linked st.
Proof. intros (Hw & _). unfold linked. now rewrite Hw. Qed.

(** The store after [newWindow] for a child of [w] and the append of the
    new window to the children of [w]. *)
Definition withChild (w : WinId) (win : Window) (st : State) : State :=
  setWindows (<[w := withChildren (children win ++ [length (windows st)]) win]>
                (windows st ++ [newWindowRecord (desktop win) (Some w)])) st.

Lemma withChild_lookup w win st k :
  windows st !! w = Some win ->
  windows (withChild w win st) !! k =
  if decide (k = w) then Some (withChildren (children win ++ [length (windows st)]) win)
  else if decide (k = length (windows st))
       then Some (newWindowRecord (desktop win) (Some w))
       else windows st !! k.
Proof.
  intros Hw. pose proof (lookup_lt_Some _ _ _ Hw) as Hlt.
  unfold withChild. simpl.
  destruct (decide (k = w)) as [->|Hne].
  - apply list_lookup_insert_eq. rewrite length_app. simpl. lia.
  - rewrite list_lookup_insert_ne by congruence.
    destruct (decide (k = length (windows st))) as [->|Hne2].
    + rewrite lookup_app_r by lia. now rewrite Nat.sub_diag.
    + destruct (Nat.lt_ge_cases k (length (windows st))).
      * now rewrite lookup_app_l.
      * rewrite lookup_app_r by lia.
        destruct (k - length (windows st))%nat eqn:E; [lia|].
        simpl. symmetry. apply lookup_ge_None. lia.
Qed.

Lemma withChild_length w win st :
  length (windows (withChild w win st)) = S (length (windows st)).
Proof.
  unfold withChild. simpl. rewrite length_insert, length_app. simpl. lia.
Qed.

Lemma withChild_wf w win st :
  wf st = true -> windows st !! w = Some win -> wf (withChild w win st) = true.
Proof.
  intros Hwf Hw. pose proof (lookup_lt_Some _ _ _ Hw) as Hlt.
  apply wf_intro.
  - intros k x Hk. rewrite withChild_length.
    change (desktops (withChild w win st)) with (desktops st).
    rewrite (withChild_lookup _ _ _ _ Hw) in Hk.
    destruct (decide (k = w)) as [->|Hne].
    + injection Hk as <-.
      pose proof (wf_window _ _ _ Hwf Hw) as H. unfold wfWindow in *.
      rewrite !andb_true_iff in *. destruct H as [[[H1 H2] H3] H4].
      cbn [desktop parent children paintHandlers withChildren].
      repeat split; try assumption.
      rewrite forallb_app, andb_true_iff. split.
      * rewrite forallb_forall in *. intros c Hc. specialize (H3 c Hc).
        rewrite andb_true_iff, !Nat.ltb_lt in *. lia.
      * simpl. rewrite andb_true_r, andb_true_iff, !Nat.ltb_lt. lia.
    + destruct (decide (k = length (windows st))) as [->|Hne2].
      * injection Hk as <-. unfold wfWindow, newWindowRecord. simpl.
        rewrite !andb_true_r. apply andb_true_iff.
        split; apply Nat.ltb_lt; [exact (wf_desktop _ _ _ Hwf Hw)|lia].
      * eapply wfWindow_mono; [|eapply wf_window; eauto]. lia.
  - intros d dsk Hd. rewrite withChild_length.
    pose proof (wf_root st d dsk Hwf Hd). lia.
  - intros d Hd. change (desktops (withChild w win st)) with (desktops st).
    apply wf_app_desktop; [assumption|exact Hd].
Qed.

Lemma withChild_linked w win st :
  wf st = true -> linked st = true -> windows st !! w = Some win ->
  linked (withChild w win st) = true.
Proof.
  intros Hwf Hl Hw. pose proof (lookup_lt_Some _ _ _ Hw) as Hlt.
  apply linked_intro. intros k x c Hk Hc.
  rewrite (withChild_lookup _ _ _ _ Hw) in Hk.
  rewrite (withChild_lookup _ _ _ _ Hw).
  destruct (decide (k = w)) as [->|Hne].
  - injection Hk as <-. cbn [children withChildren] in Hc.
    apply in_app_or in Hc as [Hc|[<-|[]]].
    + pose proof (wf_children _ _ _ _ Hwf Hw Hc) as Hcl.
      destruct (linked_elim _ _ _ _ Hl Hw Hc) as (cw & Hcw & Hp).
      rewrite decide_False by lia. rewrite decide_False by lia. eauto.
    + rewrite decide_False by lia. rewrite decide_True by reflexivity.
      eexists. split; reflexivity.
  - destruct (decide (k = length (windows st))) as [->|Hne2].
    + injection Hk as <-. destruct Hc.
    + pose proof (wf_children _ _ _ _ Hwf Hk Hc) as Hcl.
      destruct (linked_elim _ _ _ _ Hl Hk Hc) as (cw & Hcw & Hp).
      destruct (decide (c = w)) as [->|Hcw'].
      * rewrite Hw in Hcw. injection Hcw as <-.
        eexists. split; [reflexivity|]. exact Hp.
      * rewrite decide_False by lia. eauto.
Qed.

(** What the four border handlers store before they ask for a client
    size. *)
Definition topBorderSet (v : Z) (x : Window) : Window :=
  withClientArea (mkRectangle (mkPosition (X (Pos (clientArea x))) v)
                              (Sz (clientArea x)))
                 (withBorders (borderBottom x) (borderLeft x) (borderRight x) v x).
Definition leftBorderSet (v : Z) (x : Window) : Window :=
  withClientArea (mkRectangle (mkPosition v (Y (Pos (clientArea x))))
                              (Sz (clientArea x)))
                 (withBorders (borderBottom x) v (borderRight x) (borderTop x) x).
Definition rightBorderSet (v : Z) (x : Window) : Window :=
  withBorders (borderBottom x) (borderLeft x) v (borderTop x) x.
Definition bottomBorderSet (v : Z) (x : Window) : Window :=
  withBorders v (borderLeft x) (borderRight x) (borderTop x) x.

(** A border handler between BeginUpdate and EndUpdate, when the outcome
    of the resize it asks for is known. *)
Lemma border_bracket_computed fuel st w win g c sz' cs'
      (body : State -> option State) :
  wf st = true -> windows st !! w = Some win ->
  (2 * length (windows st) + 4 <= fuel)%nat ->
  keepsTree g ->
  clientSizeAfter 4 (g win) c (size (g win)) (ClientSize (g win)) = Some (sz', cs') ->
  (forall st1, shapeFrame st st1 ->
               exists st3, altered g w st st3 /\
                           body st1 = SetClientSize fuel w c st3) ->
  exists st',
    (do st1 <- BeginUpdate (Some w) st;
     do st2 <- body st1;
     EndUpdate fuel (Some w) st2) = Some st' /\
    altered (fun x => withSizes sz' cs' (g x)) w st st'.
Proof.
  intros Hwf Hwin Hfuel Hg Hp Hbody.
  assert (Hw : (w < length (windows st))%nat) by (eapply lookup_lt_Some; eauto).
  destruct (BeginUpdate_ok st w Hwf Hw) as (st1 & -> & Hf1).
  destruct (Hbody st1 Hf1) as (st3 & Ha3 & ->).
  apply (clientSizeAfter_more (g win) (fuel - 2 * length (windows st) - 4)) in Hp.
  destruct (resize_from st w win g st3 (4 + (fuel - 2 * length (windows st) - 4))
                        Hwf Hwin Hg Ha3) as [Hc _].
  destruct (Hc _ _ _ Hp) as (st4 & H4 & Ha4).
  rewrite <- fuel_split in H4 by assumption. rewrite H4.
  assert (Hk : keepsTree (fun x => withSizes sz' cs' (g x)))
    by (intros x; rewrite keepsTree_withSizes; apply Hg).
  destruct (altered_good _ _ _ _ Hk Ha4 Hwf) as [Hwf4 Hn4].
  destruct (EndUpdate_ok fuel st4 w Hwf4) as (st5 & -> & Hf5); [lia|lia|].
  exists st5. split; [reflexivity|]. eapply altered_shape; eauto.
Qed.

Section BorderSettersComputed.

Variable fuel : nat.
Variable st : State.
Variable w : WinId.
Variable win : Window.
Variable v : Z.
Variables sz' cs' : Size.
Hypothesis Hwf : wf st = true.
Hypothesis Hwin : windows st !! w = Some win.
Hypothesis Hfuel : (2 * length (windows st) + 4 <= fuel)%nat.

Lemma SetBorderTop_computed :
  borderTop win <> v ->
  clientSizeAfter 4 (topBorderSet v win)
                  (mkSize (Width (Sz (clientArea win)))
                          (Max 0 (isub (Height (size win))
                                       (iadd v (borderBottom win)))))
                  (size win) (ClientSize win) = Some (sz', cs') ->
  exists st', SetBorderTop fuel w v st = Some st' /\
              altered (fun x => withSizes sz' cs' (topBorderSet v x)) w st st'.
Proof.
  intros Hne Hp. unfold SetBorderTop, Handle.
  cbn [load store IntKind chainHead veqb]. rewrite Hwin.
  apply Z.eqb_neq in Hne. rewrite Hne.
  eapply (border_bracket_computed fuel st w win (topBorderSet v));
    try eassumption; [intros x; reflexivity|].
  intros st1 Hf1. unfold onSetBorderTopHandler, panicIfPrev.
  cbn [store IntKind].
  destruct (altered_updWindow (fun x => x)
              (fun x => withBorders (borderBottom x) (borderLeft x) (borderRight x) v x)
              w st st1 win) as (st2 & -> & Ha2);
    [now apply shape_altered_id|assumption|].
  destruct (altered_updWindow _
              (fun x => withClientArea
                          (mkRectangle (mkPosition (X (Pos (clientArea x))) v)
                                       (Sz (clientArea x))) x)
              w st st2 win Ha2 Hwin) as (st3 & -> & Ha3).
  assert (Ha3' : altered (topBorderSet v) w st st3)
    by (eapply altered_ext; [|exact Ha3]; intros x; reflexivity).
  exists st3. split; [assumption|].
  rewrite (altered_lookup _ _ _ _ _ Ha3' Hwin). reflexivity.
Qed.

Lemma SetBorderLeft_computed :
  borderLeft win <> v ->
  clientSizeAfter 4 (leftBorderSet v win)
                  (mkSize (Max 0 (isub (Width (size win))
                                       (iadd v (borderRight win))))
                          (Height (Sz (clientArea win))))
                  (size win) (ClientSize win) = Some (sz', cs') ->
  exists st', SetBorderLeft fuel w v st = Some st' /\
              altered (fun x => withSizes sz' cs' (leftBorderSet v x)) w st st'.
Proof.
  intros Hne Hp. unfold SetBorderLeft, Handle.
  cbn [load store IntKind chainHead veqb]. rewrite Hwin.
  apply Z.eqb_neq in Hne. rewrite Hne.
  eapply (border_bracket_computed fuel st w win (leftBorderSet v));
    try eassumption; [intros x; reflexivity|].
  intros st1 Hf1. unfold onSetBorderLeftHandler, panicIfPrev.
  cbn [store IntKind].
  destruct (altered_updWindow (fun x => x)
              (fun x => withBorders (borderBottom x) v (borderRight x) (borderTop x) x)
              w st st1 win) as (st2 & -> & Ha2);
    [now apply shape_altered_id|assumption|].
  destruct (altered_updWindow _
              (fun x => withClientArea
                          (mkRectangle (mkPosition v (Y (Pos (clientArea x))))
                                       (Sz (clientArea x))) x)
              w st st2 win Ha2 Hwin) as (st3 & -> & Ha3).
  assert (Ha3' : altered (leftBorderSet v) w st st3)
    by (eapply altered_ext; [|exact Ha3]; intros x; reflexivity).
  exists st3. split; [assumption|].
  rewrite (altered_lookup _ _ _ _ _ Ha3' Hwin). reflexivity.
Qed.

Lemma SetBorderRight_computed :
  borderRight win <> v ->
  clientSizeAfter 4 (rightBorderSet v win)
                  (mkSize (Max 0 (isub (Width (size win))
                                       (iadd (borderLeft win) v)))
                          (Height (Sz (clientArea win))))
                  (size win) (ClientSize win) = Some (sz', cs') ->
  exists st', SetBorderRight fuel w v st = Some st' /\
              altered (fun x => withSizes sz' cs' (rightBorderSet v x)) w st st'.
Proof.
  intros Hne Hp. unfold SetBorderRight, Handle.
  cbn [load store IntKind chainHead veqb]. rewrite Hwin.
  apply Z.eqb_neq in Hne. rewrite Hne.
  eapply (border_bracket_computed fuel st w win (rightBorderSet v));
    try eassumption; [intros x; reflexivity|].
  intros st1 Hf1. unfold onSetBorderRightHandler, panicIfPrev.
  cbn [store IntKind].
  destruct (altered_updWindow (fun x => x)
              (fun x => withBorders (borderBottom x) (borderLeft x) v (borderTop x) x)
              w st st1 win) as (st2 & -> & Ha2);
    [now apply shape_altered_id|assumption|].
  assert (Ha2' : altered (rightBorderSet v) w st st2)
    by (eapply altered_ext; [|exact Ha2]; intros x; reflexivity).
  exists st2. split; [assumption|].
  rewrite (altered_lookup _ _ _ _ _ Ha2' Hwin). reflexivity.
Qed.

Lemma SetBorderBottom_computed :
  borderBottom win <> v ->
  clientSizeAfter 4 (bottomBorderSet v win)
                  (mkSize (Width (Sz (clientArea win)))
                          (Max 0 (isub (Height (size win))
                                       (iadd (borderTop win) v))))
                  (size win) (ClientSize win) = Some (sz', cs') ->
  exists st', SetBorderBottom fuel w v st = Some st' /\
              altered (fun x => withSizes sz' cs' (bottomBorderSet v x)) w st st'.
Proof.
  intros Hne Hp. unfold SetBorderBottom, Handle.
  cbn [load store IntKind chainHead veqb]. rewrite Hwin.
  apply Z.eqb_neq in Hne. rewrite Hne.
  eapply (border_bracket_computed fuel st w win (bottomBorderSet v));
    try eassumption; [intros x; reflexivity|].
  intros st1 Hf1. unfold onSetBorderBottomHandler, panicIfPrev.
  cbn [store IntKind].
  destruct (altered_updWindow (fun x => x)
              (fun x => withBorders v (borderLeft x) (borderRight x) (borderTop x) x)
              w st st1 win) as (st2 & -> & Ha2);
    [now apply shape_altered_id|assumption|].
  assert (Ha2' : altered (bottomBorderSet v) w st st2)
    by (eapply altered_ext; [|exact Ha2]; intros x; reflexivity).
  exists st2. split; [assumption|].
  rewrite (altered_lookup _ _ _ _ _ Ha2' Hwin). reflexivity.
Qed.

End BorderSettersComputed.

Lemma newChild_store w win st :
  windows st !! w = Some win ->
  (let '(c, st2) := newWindow (desktop win) (Some w) st in
   do st3 <- updWindow w (fun x => withChildren (children x ++ [c]) x) st2;
   Some (c, st3)) =
  Some (length (windows st), withChild w win st).
Proof.
  intros Hw. unfold newWindow, updWindow. cbn [windows setWindows].
  rewrite lookup_app_l by (eapply lookup_lt_Some; eauto).
  rewrite Hw. reflexivity.
Qed.

(** The window [NewChild] makes, before it is given its position and
    size: one cell of border on every side around an empty client area. *)
Definition borderedChild (d : DeskId) (w : WinId) : Window :=
  relayout 1 1 1 1 (mkRectangle (mkPosition 1 1) zeroSize) zeroSize
           (newWindowRecord d (Some w)).

(** The four border calls of [NewChild] on the new window [c] of the
    store [B]. *)
Lemma NewChild_borders fuel B c d w :
  wf B = true -> windows B !! c = Some (newWindowRecord d (Some w)) ->
  (2 * length (windows B) + 4 <= fuel)%nat ->
  exists st',
    (do st <- SetBorderTop fuel c 1 B;
     do st <- SetBorderLeft fuel c 1 st;
     do st <- SetBorderRight fuel c 1 st;
     SetBorderBottom fuel c 1 st) = Some st' /\
    altered (relayout 1 1 1 1 (mkRectangle (mkPosition 1 1) zeroSize) zeroSize)
            c B st'.
Proof.
  intros Hwf Hc Hfuel.
  set (rec0 := newWindowRecord d (Some w)) in *.
  set (f1 := fun x => withSizes zeroSize zeroSize (topBorderSet 1 x)).
  set (f2 := fun x => withSizes zeroSize zeroSize (leftBorderSet 1 x)).
  set (f3 := fun x => withSizes zeroSize zeroSize (rightBorderSet 1 x)).
  set (f4 := fun x => withSizes zeroSize zeroSize (bottomBorderSet 1 x)).
  assert (K1 : keepsTree f1) by (intros x; reflexivity).
  assert (K2 : keepsTree (fun x => f2 (f1 x))) by (intros x; reflexivity).
  assert (K3 : keepsTree (fun x => f3 (f2 (f1 x)))) by (intros x; reflexivity).
  destruct (SetBorderTop_computed fuel B c rec0 1 zeroSize zeroSize Hwf Hc Hfuel)
    as (s1 & -> & A1); [discriminate|reflexivity|].
  fold f1 in A1.
  destruct (altered_good _ _ _ _ K1 A1 Hwf) as [W1 L1].
  pose proof (altered_lookup _ _ _ _ _ A1 Hc) as C1.
  destruct (SetBorderLeft_computed fuel s1 c (f1 rec0) 1 zeroSize zeroSize W1 C1)
    as (s2 & -> & A2'); [lia|discriminate|reflexivity|].
  fold f2 in A2'. pose proof (altered_compose _ _ _ _ _ _ A1 A2') as A2.
  destruct (altered_good _ _ _ _ K2 A2 Hwf) as [W2 L2].
  pose proof (altered_lookup _ _ _ _ _ A2 Hc) as C2.
  destruct (SetBorderRight_computed fuel s2 c (f2 (f1 rec0)) 1 zeroSize zeroSize W2 C2)
    as (s3 & -> & A3'); [lia|discriminate|reflexivity|].
  fold f3 in A3'. pose proof (altered_compose _ _ _ _ _ _ A2 A3') as A3.
  destruct (altered_good _ _ _ _ K3 A3 Hwf) as [W3 L3].
  pose proof (altered_lookup _ _ _ _ _ A3 Hc) as C3.
  destruct (SetBorderBottom_computed fuel s3 c (f3 (f2 (f1 rec0))) 1 zeroSize zeroSize
                                     W3 C3)
    as (s4 & -> & A4'); [lia|discriminate|reflexivity|].
  fold f4 in A4'. pose proof (altered_compose _ _ _ _ _ _ A3 A4') as A4.
  exists s4. split; [reflexivity|].
  eapply altered_ext_at; [exact Hc| |exact A4]. reflexivity.
Qed.

(** X14: [w.NewChild(area)] returns a new window, the next free index of
    the store.  The store stays well formed and linked; the new window is
    the last, hence front-most, child of [w], has [w] as its parent and
    the desktop of [w], sits at the position of [area], has one cell of
    border on every side with its client area starting at (1,1), and its
    size and client size are related.  When [area] is at least 2x2 the
    window has exactly the size of [area] and the client area is [area]
    shrunk by the borders.  No other window changes. *)
Theorem NewChild_creates :
  forall (fuel : nat) (st : State) (w : WinId) (win : Window) (area : Rectangle),
    wf st = true -> linked st = true ->
    windows st !! w = Some win ->
    smallSize (Sz area) ->
    (2 * S (length (windows st)) + 4 <= fuel)%nat ->
    exists st' sz' cs',
      NewChild fuel w area st = Some (length (windows st), st') /\
      wf st' = true /\ linked st' = true /\
      app_desktop st' = app_desktop st /\
      length (windows st') = S (length (windows st)) /\
      windows st' !! w =
      Some (withChildren (children win ++ [length (windows st)]) win) /\
      (forall x, x <> w -> (x < length (windows st))%nat ->
                 windows st' !! x = windows st !! x) /\
      windows st' !! length (windows st) =
      Some (relayout 1 1 1 1 (mkRectangle (mkPosition 1 1) cs') sz'
                     (withPosition (Pos area)
                                   (newWindowRecord (desktop win) (Some w)))) /\
      sizeInv (borderedChild (desktop win) w) sz' cs' /\
      (2 <= Width (Sz area) -> 2 <= Height (Sz area) ->
       sz' = Sz area /\
       cs' = mkSize (Width (Sz area) - 2) (Height (Sz area) - 2)).
Proof.
  intros fuel st w win area Hwf Hlk Hw Hs Hfuel.
  pose proof (lookup_lt_Some _ _ _ Hw) as Hwlt.
  set (n := length (windows st)) in *.
  destruct (BeginUpdate_ok st w Hwf Hwlt) as (st1 & HB & Hf1).
  destruct (shapeFrame_good _ _ _ Hf1 Hwf eq_refl) as [Hwf1 Hn1].
  pose proof Hf1 as (Hws1 & Had1 & _ & _).
  assert (Hw1 : windows st1 !! w = Some win) by (rewrite Hws1; exact Hw).
  set (B := withChild w win st1).
  assert (HwfB : wf B = true) by (now apply withChild_wf).
  assert (HlkB : linked B = true).
  { apply withChild_linked; try assumption.
    now rewrite (shapeFrame_linked _ _ Hf1). }
  assert (HlenB : length (windows B) = S n)
    by (unfold B; rewrite withChild_length; fold n in Hn1; lia).
  set (rec0 := newWindowRecord (desktop win) (Some w)).
  assert (HBc : windows B !! n = Some rec0).
  { unfold B. rewrite (withChild_lookup _ _ _ _ Hw1), Hn1. fold n.
    rewrite decide_False by lia. now rewrite decide_True. }
  assert (HBw : windows B !! w =
                Some (withChildren (children win ++ [n]) win)).
  { unfold B. rewrite (withChild_lookup _ _ _ _ Hw1), Hn1. fold n.
    now rewrite decide_True. }
  assert (HBx : forall x, x <> w -> (x < n)%nat -> windows B !! x = windows st !! x).
  { intros x Hx Hxn. unfold B. rewrite (withChild_lookup _ _ _ _ Hw1), Hn1. fold n.
    rewrite decide_False by assumption. rewrite decide_False by lia.
    now rewrite Hws1. }
  (* borders *)
  destruct (NewChild_borders fuel B n (desktop win) w HwfB HBc)
    as (s4 & Hborders & A4); [lia|].
  set (f4 := relayout 1 1 1 1 (mkRectangle (mkPosition 1 1) zeroSize) zeroSize) in *.
  assert (K4 : keepsTree f4) by (intros x; reflexivity).
  destruct (altered_good _ _ _ _ K4 A4 HwfB) as [W4 L4].
  pose proof (altered_lookup _ _ _ _ _ A4 HBc) as C4.
  (* position *)
  destruct (SetPosition_altered fuel s4 n (Pos area) (f4 rec0) W4 C4)
    as (s5 & Hpos & A5'); [lia|].
  cbn [parent f4 relayout withSize withClientArea withBorders rec0 newWindowRecord]
    in A5'.
  pose proof (altered_compose _ _ _ _ _ _ A4 A5') as A5.
  set (f5 := fun x => withPosition (Pos area) (f4 x)) in *.
  assert (K5 : keepsTree f5) by (intros x; reflexivity).
  destruct (altered_good _ _ _ _ K5 A5 HwfB) as [W5 L5].
  pose proof (altered_lookup _ _ _ _ _ A5 HBc) as C5.
  (* size *)
  assert (Hb5 : smallBorders (f5 rec0)).
  { unfold smallBorders, small. simpl. lia. }
  assert (Hi5 : sizeInv (f5 rec0) (size (f5 rec0)) (ClientSize (f5 rec0))).
  { unfold sizeInv. simpl. lia. }
  destruct (sizeAfter_inv (f5 rec0) (Sz area) _ _ Hb5 Hs Hi5)
    as (sz' & cs' & Hp & Hi').
  assert (Hexact : 2 <= Width (Sz area) -> 2 <= Height (Sz area) ->
                   sz' = Sz area /\
                   cs' = mkSize (Width (Sz area) - 2) (Height (Sz area) - 2)).
  { intros H1 H2.
    pose proof (sizeAfter_exact (f5 rec0) (Sz area) _ _ Hb5 Hs
                                ltac:(simpl; lia) ltac:(simpl; lia) Hi5) as Hp'.
    rewrite Hp in Hp'. injection Hp' as -> ->. simpl.
    split; [reflexivity|]. f_equal; lia. }
  pose proof Hp as Hp4.
  apply (sizeAfter_more (f5 rec0) (fuel - 2 * length (windows s5) - 4)) in Hp4.
  destruct (resize_from s5 n (f5 rec0) (fun x => x) s5
                        (4 + (fuel - 2 * length (windows s5) - 4))
                        W5 C5 keepsTree_id (altered_id n s5)) as [_ Hr].
  destruct (Hr _ _ _ Hp4) as (s6 & Hsize & A6').
  rewrite <- fuel_split in Hsize by lia.
  pose proof (altered_compose _ _ _ _ _ _ A5 A6') as A6.
  set (f6 := fun x => withSizes sz' cs' (f5 x)) in *.
  assert (K6 : keepsTree f6) by (intros x; reflexivity).
  destruct (altered_good _ _ _ _ K6 A6 HwfB) as [W6 L6].
  pose proof (altered_lookup _ _ _ _ _ A6 HBc) as C6.
  (* end of the update *)
  destruct (EndUpdate_ok fuel s6 w W6) as (s7 & Hend & Hf7); [lia|lia|].
  pose proof (altered_shape _ _ _ _ _ A6 Hf7) as A7.
  destruct (altered_good _ _ _ _ K6 A7 HwfB) as [W7 L7].
  exists s7, sz', cs'.
  split.
  { unfold NewChild. rewrite HB. cbv beta iota. rewrite Hw1.
    pose proof (newChild_store w win st1 Hw1) as Hst.
    destruct (newWindow (desktop win) (Some w) st1) as [c st2].
    destruct (updWindow w _ st2) as [st3|]; [|discriminate].
    injection Hst as -> ->. rewrite Hn1. fold n. fold B.
    destruct (SetBorderTop fuel n 1 B) as [t1|]; [|discriminate].
    destruct (SetBorderLeft fuel n 1 t1) as [t2|]; [|discriminate].
    destruct (SetBorderRight fuel n 1 t2) as [t3|]; [|discriminate].
    rewrite Hborders, Hpos.
    unfold SetSize, ifHasParent. rewrite C5.
    cbn [parent f5 f4 relayout withPosition withSize withClientArea withBorders
                rec0 newWindowRecord].
    rewrite Hsize, Hend. reflexivity. }
  split; [assumption|].
  split.
  { rewrite (shapeFrame_linked _ _ Hf7).
    eapply altered_linked; [exact K6|exact A6|exact HlkB]. }
  split.
  { destruct A7 as (_ & Ha & _). rewrite Ha. exact Had1. }
  split; [lia|].
  split.
  { rewrite (altered_others _ _ _ _ w A7) by lia. exact HBw. }
  split.
  { intros x Hx Hxn. rewrite (altered_others _ _ _ _ x A7) by lia. now apply HBx. }
  split.
  { rewrite (altered_lookup _ _ _ _ _ A7 HBc). reflexivity. }
  split; [exact Hi'|exact Hexact].
Qed.

Lemma NewChild_creates_witness :
  exists st' cwin,
    NewChild 14 1 (rect 2 3 6 4) nestedWindows = Some (3%nat, st') /\
    wf st' = true /\ linked st' = true /\
    windows st' !! 3%nat = Some cwin /\
    size cwin = mkSize 6 4 /\ clientArea cwin = rect 1 1 4 2 /\
    position cwin = mkPosition 2 3 /\ parent cwin = Some 1%nat.
Proof.
  assert (Hw : exists win, windows nestedWindows !! 1%nat = Some win /\
                           desktop win = 0%nat)
    by (eexists; split; reflexivity).
  destruct Hw as (win & Hw & Hd).
  destruct (NewChild_creates 14 nestedWindows 1%nat win (rect 2 3 6 4))
    as (st' & sz' & cs' & H1 & H2 & H3 & _ & _ & _ & _ & H4 & _ & H5).
  - reflexivity.
  - reflexivity.
  - exact Hw.
  - unfold smallSize, small. simpl. lia.
  - simpl. lia.
  - destruct H5 as [-> ->]; [simpl; lia|simpl; lia|].
    eexists st', _. split; [exact H1|]. split; [exact H2|]. split; [exact H3|].
    split; [exact H4|]. rewrite Hd. repeat split; reflexivity.
Defined.

(** * Border areas and dragging *)

Definition closeButtonWidth : Z := 3.

(** [func (w *Window) closeButtonArea() (r Rectangle)] *)
Definition closeButtonArea (w : Window) : Rectangle :=
  if borderTop w >? 0
  then rect (isub (Width (size w)) closeButtonOffset) 0 closeButtonWidth 1
  else zeroRectangle.

(** [func (w *Window) topBorderDragMoveArea() (r Rectangle)] *)
Definition topBorderDragMoveArea (w : Window) : Rectangle :=
  let r := BorderTopArea w in
  if negb (IsZero (Sz r))
  then rect (iadd (X (Pos r)) 1) (Y (Pos r)) (isub (Width (Sz r)) 2) 1
  else r.

(** [func (w *Window) leftBorderDragResizeArea() (r Rectangle)] *)
Definition leftBorderDragResizeArea (w : Window) : Rectangle :=
  let r := BorderLeftArea w in
  if negb (IsZero (Sz r))
  then rect (X (Pos r)) (iadd (Y (Pos r)) 1) 1 (isub (Height (Sz r)) 2)
  else r.

(** [func (w *Window) rightBorderDragResizeArea() (r Rectangle)] *)
Definition rightBorderDragResizeArea (w : Window) : Rectangle :=
  let r := BorderRightArea w in
  if negb (IsZero (Sz r))
  then rect (iadd (X (Pos r)) (isub (Width (Sz r)) 1)) (iadd (Y (Pos r)) 1)
            (Width (Sz r)) (isub (Height (Sz r)) 2)
  else r.

(** [func (w *Window) bottomBorderDragResizeArea() (r Rectangle)] *)
Definition bottomBorderDragResizeArea (w : Window) : Rectangle :=
  let r := BorderBottomArea w in
  if negb (IsZero (Sz r))
  then rect (iadd (X (Pos r)) 1) (iadd (Y (Pos r)) (isub (Height (Sz r)) 1))
            (isub (Width (Sz r)) 2) 1
  else r.

(** [func (w *Window) borderLRCArea() (r Rectangle)] *)
Definition borderLRCArea (w : Window) : Rectangle :=
  let r := BorderRightArea w in
  if negb (IsZero (Sz r))
  then rect (iadd (X (Pos r)) (isub (Width (Sz r)) 1))
            (iadd (Y (Pos r)) (isub (Height (Sz r)) 1)) 1 1
  else r.

(** [func (w *Window) borderURCArea() (r Rectangle)] *)
Definition borderURCArea (w : Window) : Rectangle :=
  let r := BorderRightArea w in
  if negb (IsZero (Sz r))
  then rect (iadd (X (Pos r)) (isub (Width (Sz r)) 1)) (Y (Pos r)) 1 1
  else r.

(** [func (w *Window) borderLLCArea() (r Rectangle)] *)
Definition borderLLCArea (w : Window) : Rectangle :=
  let r := BorderBottomArea w in
  if negb (IsZero (Sz r))
  then rect (X (Pos r)) (iadd (Y (Pos r)) (isub (Height (Sz r)) 1)) 1 1
  else r.

(** [func (w *Window) borderULCArea() (r Rectangle)] *)
Definition borderULCArea (w : Window) : Rectangle :=
  let r := BorderTopArea w in
  if negb (IsZero (Sz r))
  then rect (X (Pos r)) (Y (Pos r)) 1 1
  else r.

(** The drag states, in the order of the constants of the source. *)
Inductive DragState :=
| dragPos | dragRightSize | dragLeftSize | dragBottomSize
| dragULC | dragURC | dragLLC | dragLRC.

(** The [switch] of [onDragBorderHandler]: the drag state that a drag
    starting at position [pos] of the border of [w] selects, with button
    1, no modifiers and a window that has a parent; [None] is the
    [default] case, in which the handler returns [false]. *)
Definition borderDragState (w : Window) (pos : Position) : option DragState :=
  if In pos (topBorderDragMoveArea w) then Some dragPos
  else if In pos (rightBorderDragResizeArea w) then Some dragRightSize
  else if In pos (leftBorderDragResizeArea w) then Some dragLeftSize
  else if In pos (bottomBorderDragResizeArea w) then Some dragBottomSize
  else if In pos (borderLRCArea w) then Some dragLRC
  else if In pos (borderURCArea w) then Some dragURC
  else if In pos (borderLLCArea w) then Some dragLLC
  else if In pos (borderULCArea w) then Some dragULC
  else None.

(** A window as [NewChild] lays it out: one cell of border all round
    the client area. *)
Definition framed (w : Window) : Prop :=
  borderTop w = 1 /\ borderLeft w = 1 /\ borderRight w = 1 /\ borderBottom w = 1 /\
  clientArea w = rect 1 1 (Z.max 0 (Width (size w) - 2))
                      (Z.max 0 (Height (size w) - 2)).

Lemma Has_rect_small x y w h p :
  small x -> small y -> small w -> small h ->
  Has (rect x y w h) p = true <->
  x <= X p < x + w /\ y <= Y p < y + h.
Proof.
  intros. apply Has_small. unfold smallRect. simpl. auto.
Qed.

(** X15: on a window with one cell of border on every side, at least
    2x2 cells large, every position of the border is a drag handle and
    no position of the client area is one: the inner cells of the top
    border move the window, the inner cells of the other three borders
    resize along one axis, and the four corners resize along both. *)
Theorem border_drag_handles :
  forall (w : Window) (pos : Position),
    framed w ->
    2 <= Width (size w) -> 2 <= Height (size w) -> smallSize (size w) ->
    In pos (Area w) = true ->
    let x := X pos in
    let y := Y pos in
    let W := Width (size w) in
    let H := Height (size w) in
    borderDragState w pos =
    if In pos (ClientArea w) then None
    else if (y =? 0) && (0 <? x) && (x <? W - 1) then Some dragPos
    else if (x =? W - 1) && (0 <? y) && (y <? H - 1) then Some dragRightSize
    else if (x =? 0) && (0 <? y) && (y <? H - 1) then Some dragLeftSize
    else if (y =? H - 1) && (0 <? x) && (x <? W - 1) then Some dragBottomSize
    else if (x =? W - 1) && (y =? H - 1) then Some dragLRC
    else if (x =? W - 1) && (y =? 0) then Some dragURC
    else if (x =? 0) && (y =? H - 1) then Some dragLLC
    else Some dragULC.
Proof.
  intros w pos (Ht & Hl & Hr & Hb & Hc) HW HH [Hsw Hsh] Hin x y W H.
  subst x y W H.
  unfold In, Area in Hin.
  unfold small in *.
  rewrite Has_small in Hin by (unfold smallRect, small; simpl; lia).
  simpl in Hin.
  unfold borderDragState, topBorderDragMoveArea, rightBorderDragResizeArea,
    leftBorderDragResizeArea, bottomBorderDragResizeArea, borderLRCArea,
    borderURCArea, borderLLCArea, borderULCArea,
    BorderTopArea, BorderRightArea, BorderLeftArea, BorderBottomArea,
    ClientArea, In, IsZero.
  rewrite Hc, Ht, Hl, Hr, Hb. cbn [Pos Sz X Y Width Height rect].
  assert (E1 : (Width (size w) <=? 0) = false) by (apply Z.leb_gt; lia).
  assert (E2 : (Height (size w) <=? 0) = false) by (apply Z.leb_gt; lia).
  assert (E3 : (1 <=? 0) = false) by reflexivity.
  rewrite E1, E2, E3. cbn [orb negb].
  unfold iadd, isub. rewrite !wrap_small' by (rewrite ?wrap_small' by lia; lia).
  change (mkRectangle (mkPosition ?a ?b) (mkSize ?c ?d)) with (rect a b c d).
  repeat match goal with
         | |- context [Has (rect ?a ?b ?c ?d) pos] =>
           let E := fresh "E" in
           destruct (Has (rect a b c d) pos) eqn:E;
           [rewrite Has_rect_small in E by (unfold small; lia)
           |assert (~ (a <= X pos < a + c /\ b <= Y pos < b + d))
              by (rewrite <- Has_rect_small by (unfold small; lia); congruence);
            clear E]
         end;
  repeat match goal with
         | |- context [if ?c then _ else _] =>
           let E := fresh "E" in
           destruct c eqn:E;
           rewrite ?andb_true_iff, ?andb_false_iff, ?Z.eqb_eq, ?Z.eqb_neq,
             ?Z.ltb_lt, ?Z.ltb_ge in E
         end;
  try reflexivity; exfalso; lia.
Qed.

Lemma border_drag_handles_witness :
  borderDragState (relayout 1 1 1 1 (rect 1 1 4 2) (mkSize 6 4)
                            (newWindowRecord 0 (Some 0%nat)))
                  (mkPosition 5 3) = Some dragLRC.
Proof.
  apply (border_drag_handles
           (relayout 1 1 1 1 (rect 1 1 4 2) (mkSize 6 4)
                     (newWindowRecord 0 (Some 0%nat)))
           (mkPosition 5 3)).
  - unfold framed. simpl. repeat split; reflexivity.
  - simpl. lia.
  - simpl. lia.
  - unfold smallSize, small. simpl. lia.
  - reflexivity.
Defined.

Lemma Has_rect_wide x y w h p :
  - 2 ^ 61 <= x <= 2 ^ 61 -> - 2 ^ 61 <= y <= 2 ^ 61 ->
  - 2 ^ 61 <= w <= 2 ^ 61 -> - 2 ^ 61 <= h <= 2 ^ 61 ->
  Has (rect x y w h) p = true <->
  x <= X p < x + w /\ y <= Y p < y + h.
Proof.
  intros. rewrite Has_spec. unfold right, bottom, iadd, rect. simpl.
  rewrite !wrap_small' by lia. reflexivity.
Qed.

(** X16: the close button.  On a window with a top border, without
    overflow, the close button occupies the three cells of the first row
    that end one cell before the right edge; the title, when the window
    shows a close button, never reaches into them; and the cells of the
    close button that are inside the window are cells of the top
    border. *)
Theorem close_button_geometry :
  forall (w : Window) (p : Position),
    0 < borderTop w -> small (borderTop w) -> smallSize (size w) ->
    (In p (closeButtonArea w) = true <->
     Y p = 0 /\ Width (size w) - 4 <= X p < Width (size w) - 1) /\
    (closeButton w = true -> In p (titleArea w) = true ->
     In p (closeButtonArea w) = false) /\
    (In p (closeButtonArea w) = true -> 0 <= X p ->
     In p (BorderTopArea w) = true).
Proof.
  intros w p Ht Hst [Hsw Hsh]. unfold small in *.
  assert (Hcb : In p (closeButtonArea w) = true <->
                Y p = 0 /\ Width (size w) - 4 <= X p < Width (size w) - 1).
  { unfold In, closeButtonArea, closeButtonOffset, closeButtonWidth.
    assert (E : (borderTop w >? 0) = true) by (apply Z.gtb_lt; lia).
    rewrite E. unfold isub. rewrite wrap_small' by lia.
    rewrite Has_rect_wide by lia. lia. }
  split; [exact Hcb|]. split.
  - intros Hc Hti. destruct (In p (closeButtonArea w)) eqn:E; [|reflexivity].
    destruct Hcb as [Hcb _]. specialize (Hcb eq_refl). exfalso.
    unfold In, titleArea, BorderTopArea, closeButtonOffset in Hti.
    rewrite Hc in Hti. cbn [Pos Sz X Y Width Height rect] in Hti.
    unfold iadd, isub in Hti.
    rewrite !wrap_small' in Hti by (rewrite ?wrap_small' by lia; lia).
    change (mkRectangle (mkPosition ?a ?b) (mkSize ?c ?d)) with (rect a b c d) in Hti.
    rewrite Has_rect_wide in Hti by lia. lia.
  - intros Hin Hx. apply Hcb in Hin.
    unfold In, BorderTopArea. rewrite Has_rect_wide by lia. lia.
Qed.

Lemma close_button_geometry_witness :
  In (mkPosition 3 0)
     (closeButtonArea (relayout 1 1 1 1 (rect 1 1 4 2) (mkSize 6 4)
                                (newWindowRecord 0 (Some 0%nat)))) = true.
Proof.
  destruct (close_button_geometry
              (relayout 1 1 1 1 (rect 1 1 4 2) (mkSize 6 4)
                        (newWindowRecord 0 (Some 0%nat)))
              (mkPosition 3 0)) as [[_ H] _].
  - simpl. lia.
  - unfold small. simpl. lia.
  - unfold smallSize, small. simpl. lia.
  - apply H. simpl. lia.
Defined.

(** The [switch ds] that [mouseMove] and [drop] share: for a focused
    window whose drag started in state [ds] at screen position
    [screenPos0], with the window at [winPos0] and of size [winSize0],
    and the mouse now at [screenPos], the argument of the [SetPosition]
    call and the argument of the [SetSize] call that follows it ([None]
    where the case makes no such call). *)
Definition dragRequest (ds : DragState) (screenPos0 winPos0 : Position)
           (winSize0 : Size) (screenPos : Position)
  : option Position * option Size :=
  let dx := isub (X screenPos) (X screenPos0) in
  let dy := isub (Y screenPos) (Y screenPos0) in
  match ds with
  | dragPos =>
    (Some (mkPosition (iadd (X winPos0) dx) (iadd (Y winPos0) dy)), None)
  | dragRightSize =>
    (None, Some (mkSize (Max 1 (iadd (Width winSize0) dx)) (Height winSize0)))
  | dragLeftSize =>
    let dx := if dx >? Width winSize0 then isub (Width winSize0) 1 else dx in
    (Some (mkPosition (iadd (X winPos0) dx) (Y winPos0)),
     Some (mkSize (Max 1 (isub (Width winSize0) dx)) (Height winSize0)))
  | dragBottomSize =>
    (None, Some (mkSize (Width winSize0) (Max 1 (iadd (Height winSize0) dy))))
  | dragLRC =>
    (None, Some (mkSize (Max 1 (iadd (Width winSize0) dx))
                        (Max 1 (iadd (Height winSize0) dy))))
  | dragURC =>
    let dy := if dy >? Height winSize0 then isub (Height winSize0) 1 else dy in
    (Some (mkPosition (X winPos0) (iadd (Y winPos0) dy)),
     Some (mkSize (Max 1 (iadd (Width winSize0) dx))
                  (Max 1 (isub (Height winSize0) dy))))
  | dragLLC =>
    let dx := if dx >? Width winSize0 then isub (Width winSize0) 1 else dx in
    (Some (mkPosition (iadd (X winPos0) dx) (Y winPos0)),
     Some (mkSize (Max 1 (isub (Width winSize0) dx))
                  (Max 1 (iadd (Height winSize0) dy))))
  | dragULC =>
    let dx := if dx >? Width winSize0 then isub (Width winSize0) 1 else dx in
    let dy := if dy >? Height winSize0 then isub (Height winSize0) 1 else dy in
    (Some (mkPosition (iadd (X winPos0) dx) (iadd (Y winPos0) dy)),
     Some (mkSize (Max 1 (isub (Width winSize0) dx))
                  (Max 1 (isub (Height winSize0) dy))))
  end.

(** The calls themselves, on the focused window [fw]. *)
Definition dragApply (fuel : nat) (fw : WinId) (ds : DragState)
           (screenPos0 winPos0 : Position) (winSize0 : Size)
           (screenPos : Position) (st : State) : option State :=
  let '(p, s) := dragRequest ds screenPos0 winPos0 winSize0 screenPos in
  do st <- match p with
           | Some p => SetPosition fuel fw p st
           | None => Some st
           end;
  match s with
  | Some s => SetSize fuel fw s st
  | None => Some st
  end.

Definition movesLeftEdge (ds : DragState) : bool :=
  match ds with
  | dragLeftSize | dragLLC | dragULC => true
  | _ => false
  end.

Definition movesTopEdge (ds : DragState) : bool :=
  match ds with
  | dragURC | dragULC => true
  | _ => false
  end.

Definition smallPos (p : Position) : Prop := small (X p) /\ small (Y p).

Ltac drag_arith :=
  unfold iadd, isub;
  repeat match goal with
         | |- context [?a >? ?b] =>
           let E := fresh "E" in
           destruct (Z.gtb_spec a b) as [E|E];
           rewrite ?wrap_small' in E by lia
         | |- context [wrap ?e] =>
           lazymatch e with
           | context [wrap _] => fail
           | context [if _ then _ else _] => fail
           | _ => rewrite (wrap_small' e) by lia
           end
         end.

(** X17: resizing by dragging.  Without overflow, for a drag that
    started on a window at least one cell large: a requested size is
    never smaller than one cell on either axis; a drag of the right or
    bottom border or the lower right corner never asks to move the
    window.  A drag that moves the left edge by [dx] leaves the right
    edge where it was, and one that moves the top edge by [dy] leaves the
    bottom edge where it was, except when [dx] is exactly the width
    (resp. [dy] the height) at the start of the drag: the edge then moves
    by one cell. *)
Theorem drag_requests :
  forall (ds : DragState) (screenPos0 winPos0 : Position) (winSize0 : Size)
         (screenPos : Position),
    smallPos screenPos0 -> smallPos winPos0 -> smallSize winSize0 ->
    smallPos screenPos ->
    1 <= Width winSize0 -> 1 <= Height winSize0 ->
    let dx := X screenPos - X screenPos0 in
    let dy := Y screenPos - Y screenPos0 in
    let r := dragRequest ds screenPos0 winPos0 winSize0 screenPos in
    (forall s, snd r = Some s -> 1 <= Width s /\ 1 <= Height s) /\
    (match ds with
     | dragRightSize | dragBottomSize | dragLRC => fst r = None
     | dragPos =>
       r = (Some (mkPosition (X winPos0 + dx) (Y winPos0 + dy)), None)
     | _ => True
     end) /\
    (movesLeftEdge ds = true ->
     exists p s, r = (Some p, Some s) /\
                 X p + Width s =
                 X winPos0 + Width winSize0 +
                 (if dx =? Width winSize0 then 1 else 0)) /\
    (movesTopEdge ds = true ->
     exists p s, r = (Some p, Some s) /\
                 Y p + Height s =
                 Y winPos0 + Height winSize0 +
                 (if dy =? Height winSize0 then 1 else 0)).
Proof.
  intros ds sp0 wp0 ws0 sp [H1 H2] [H3 H4] [H5 H6] [H7 H8] HW HH dx dy r.
  subst dx dy r. unfold small in *.
  split; [|split; [|split]].
  - intros s Hs. destruct ds; cbn [dragRequest snd] in Hs; try discriminate;
      injection Hs as <-; cbn [Width Height]; rewrite ?Max_spec; lia.
  - destruct ds; try exact I; cbn [dragRequest fst]; try reflexivity.
    unfold iadd, isub. rewrite !wrap_small' by (rewrite ?wrap_small' by lia; lia).
    reflexivity.
  - intros Hm. destruct ds; try discriminate; cbn [dragRequest];
      eexists _, _; (split; [reflexivity|]); cbn [X Y Width Height];
      rewrite !Max_spec; drag_arith;
      destruct (Z.eqb_spec (X sp - X sp0) (Width ws0)); lia.
  - intros Hm. destruct ds; try discriminate; cbn [dragRequest];
      eexists _, _; (split; [reflexivity|]); cbn [X Y Width Height];
      rewrite !Max_spec; drag_arith;
      destruct (Z.eqb_spec (Y sp - Y sp0) (Height ws0)); lia.
Qed.

Lemma drag_requests_witness :
  dragRequest dragLeftSize (mkPosition 10 5) (mkPosition 10 5) (mkSize 20 10)
              (mkPosition 30 5) =
  (Some (mkPosition 30 5), Some (mkSize 1 10)) /\
  dragRequest dragLeftSize (mkPosition 10 5) (mkPosition 10 5) (mkSize 20 10)
              (mkPosition 31 5) =
  (Some (mkPosition 29 5), Some (mkSize 1 10)).
Proof.
  destruct (drag_requests dragLeftSize (mkPosition 10 5) (mkPosition 10 5)
                          (mkSize 20 10) (mkPosition 30 5))
    as (_ & _ & H & _); try (unfold smallPos, smallSize, small; simpl; lia).
  destruct (H eq_refl) as (p & s & Hr & _).
  split; [rewrite Hr; vm_compute in Hr; injection Hr as <- <-; reflexivity|].
  reflexivity.
Defined.

Definition tiny (z : Z) : Prop := - 2 ^ 58 <= z <= 2 ^ 58.
Definition tinyPos (p : Position) : Prop := tiny (X p) /\ tiny (Y p).

Lemma dragRequest_small ds sp0 wp0 ws0 sp s :
  tinyPos sp0 -> tinyPos wp0 -> tiny (Width ws0) -> tiny (Height ws0) ->
  tinyPos sp ->
  snd (dragRequest ds sp0 wp0 ws0 sp) = Some s -> smallSize s.
Proof.
  intros [H1 H2] [H3 H4] H5 H6 [H7 H8] Hs. unfold tiny, smallSize, small in *.
  destruct ds; cbn [dragRequest snd] in Hs; try discriminate;
    injection Hs as <-; cbn [Width Height]; rewrite ?Max_spec;
    drag_arith; lia.
Qed.

(** [SetSize] on a window with a parent that a previous step altered
    by [g]. *)
Lemma SetSize_from st w win g st1 fuel s :
  wf st = true -> windows st !! w = Some win -> parent win <> None ->
  (2 * length (windows st) + 4 <= fuel)%nat ->
  keepsTree g -> altered g w st st1 ->
  smallBorders (g win) -> smallSize s ->
  sizeInv (g win) (size (g win)) (ClientSize (g win)) ->
  exists st2 sz' cs',
    SetSize fuel w s st1 = Some st2 /\
    altered (fun x => withSizes sz' cs' (g x)) w st st2 /\
    sizeInv (g win) sz' cs' /\
    (0 <= borderLeft (g win) + borderRight (g win) <= Width s ->
     0 <= borderTop (g win) + borderBottom (g win) <= Height s ->
     sz' = s).
Proof.
  intros Hwf Hwin Hpar0 Hfuel Hg Ha Hb Hs Hi.
  pose proof (altered_lookup _ _ _ _ _ Ha Hwin) as Hl1.
  assert (Hpar : parent (g win) = parent win).
  { pose proof (Hg win) as Ht. unfold treeOf in Ht. congruence. }
  destruct (sizeAfter_inv (g win) s _ _ Hb Hs Hi) as (sz' & cs' & Hp & Hi').
  assert (Hex : 0 <= borderLeft (g win) + borderRight (g win) <= Width s ->
                0 <= borderTop (g win) + borderBottom (g win) <= Height s ->
                sz' = s).
  { intros Hw Hh. pose proof (sizeAfter_exact (g win) s _ _ Hb Hs Hw Hh Hi) as Hp'.
    rewrite Hp in Hp'. now injection Hp' as -> _. }
  unfold SetSize, ifHasParent. rewrite Hl1, Hpar.
  destruct (parent win) as [q|]; [|congruence].
  apply (sizeAfter_more (g win) (fuel - 2 * length (windows st) - 4)) in Hp.
  destruct (resize_from st w win g st1 (4 + (fuel - 2 * length (windows st) - 4))
                        Hwf Hwin Hg Ha) as [_ Hr].
  destruct (Hr _ _ _ Hp) as (st2 & H2 & Ha2).
  rewrite <- fuel_split in H2 by assumption.
  exists st2, sz', cs'. auto.
Qed.

(** X18: the moves and resizes of a drag are carried out.  On a focused
    window that has a parent and a consistent layout, the calls of the
    drag switch return; the window is then at the requested position (or
    where it was, when none was requested), its size and client size are
    still related, its size is the requested one whenever its borders fit
    in that, and no other window has changed. *)
Theorem drag_applies :
  forall (fuel : nat) (st : State) (fw : WinId) (win : Window) (ds : DragState)
         (screenPos0 winPos0 : Position) (winSize0 : Size) (screenPos : Position),
    wf st = true ->
    windows st !! fw = Some win -> parent win <> None ->
    (2 * length (windows st) + 4 <= fuel)%nat ->
    smallBorders win ->
    sizeInv win (size win) (ClientSize win) ->
    tinyPos screenPos0 -> tinyPos winPos0 ->
    tiny (Width winSize0) -> tiny (Height winSize0) -> tinyPos screenPos ->
    let r := dragRequest ds screenPos0 winPos0 winSize0 screenPos in
    exists st' win',
      dragApply fuel fw ds screenPos0 winPos0 winSize0 screenPos st = Some st' /\
      wf st' = true /\
      windows st' !! fw = Some win' /\
      (forall x, x <> fw -> windows st' !! x = windows st !! x) /\
      position win' = match fst r with Some p => p | None => position win end /\
      sizeInv win' (size win') (ClientSize win') /\
      treeOf win' = treeOf win /\
      (borderBottom win', borderLeft win', borderRight win', borderTop win') =
      (borderBottom win, borderLeft win, borderRight win, borderTop win) /\
      match snd r with
      | Some s =>
        0 <= borderLeft win + borderRight win <= Width s ->
        0 <= borderTop win + borderBottom win <= Height s ->
        size win' = s
      | None => size win' = size win
      end.
Proof.
  intros fuel st fw win ds sp0 wp0 ws0 sp Hwf Hwin Hpar Hfuel Hb Hi
         T1 T2 T3 T4 T5 r.
  pose proof (dragRequest_small ds sp0 wp0 ws0 sp) as Hsmall.
  unfold dragApply. fold r in Hsmall |- *.
  destruct r as [p s]. cbn [fst snd] in *.
  set (f1 := match p with Some p => withPosition p | None => fun x => x end).
  assert (K1 : keepsTree f1) by (unfold f1; destruct p; intros x; reflexivity).
  assert (Hstep1 : exists st1,
             match p with
             | Some p => SetPosition fuel fw p st
             | None => Some st
             end = Some st1 /\ altered f1 fw st st1).
  { unfold f1. destruct p as [p|].
    - destruct (SetPosition_altered fuel st fw p win Hwf Hwin) as (st1 & H1 & A1);
        [lia|].
      destruct (parent win); [eauto|congruence].
    - exists st. split; [reflexivity|apply altered_id]. }
  destruct Hstep1 as (st1 & -> & A1).
  assert (Hpos : position (f1 win) =
                 match p with Some p => p | None => position win end)
    by (unfold f1; destruct p; reflexivity).
  destruct s as [s|].
  - destruct (SetSize_from st fw win f1 st1 fuel s Hwf Hwin Hpar Hfuel K1 A1)
      as (st2 & sz' & cs' & H2 & A2 & Hi2 & Hex).
    { unfold f1. destruct p; exact Hb. }
    { now apply Hsmall. }
    { unfold f1. destruct p; exact Hi. }
    exists st2, (withSizes sz' cs' (f1 win)).
    split; [exact H2|].
    assert (K2 : keepsTree (fun x => withSizes sz' cs' (f1 x)))
      by (intros x; rewrite keepsTree_withSizes; apply K1).
    split; [now rewrite (altered_wf _ _ _ _ K2 A2)|].
    split; [exact (altered_lookup _ _ _ _ _ A2 Hwin)|].
    split; [intros x Hx; eapply altered_others; eauto|].
    split; [exact Hpos|].
    split; [unfold f1 in *; destruct p; exact Hi2|].
    split; [rewrite keepsTree_withSizes; apply K1|].
    split; [unfold f1; destruct p; reflexivity|].
    intros Hw Hh. apply Hex; unfold f1; destruct p; assumption.
  - exists st1, (f1 win).
    split; [reflexivity|].
    split; [now rewrite (altered_wf _ _ _ _ K1 A1)|].
    split; [exact (altered_lookup _ _ _ _ _ A1 Hwin)|].
    split; [intros x Hx; eapply altered_others; eauto|].
    split; [exact Hpos|].
    split; [unfold f1; destruct p; exact Hi|].
    split; [apply K1|].
    split; unfold f1; destruct p; reflexivity.
Qed.

Lemma drag_applies_witness :
  exists st' win',
    dragApply 10 1 dragLeftSize (mkPosition 10 5) (mkPosition 10 5) (mkSize 20 10)
              (mkPosition 14 5) nestedWindows = Some st' /\
    windows st' !! 1%nat = Some win' /\
    position win' = mkPosition 14 5 /\ size win' = mkSize 16 10.
Proof.
  destruct (lookup_valid (windows nestedWindows) 1 ltac:(simpl; lia)) as [win Hwin].
  assert (Hwin' := Hwin). vm_compute in Hwin'. injection Hwin' as Hwin'.
  destruct (drag_applies 10 nestedWindows 1%nat win dragLeftSize
                         (mkPosition 10 5) (mkPosition 10 5) (mkSize 20 10)
                         (mkPosition 14 5))
    as (st' & win' & H1 & _ & H2 & _ & H3 & _ & _ & _ & H4).
  - reflexivity.
  - exact Hwin.
  - subst win. discriminate.
  - simpl. lia.
  - subst win. unfold smallBorders, small. simpl. lia.
  - subst win. unfold sizeInv. simpl. lia.
  - unfold tinyPos, tiny. simpl. lia.
  - unfold tinyPos, tiny. simpl. lia.
  - unfold tiny. simpl. lia.
  - unfold tiny. simpl. lia.
  - unfold tinyPos, tiny. simpl. lia.
  - exists st', win'. split; [exact H1|]. split; [exact H2|].
    split; [exact H3|]. subst win. vm_compute in H4.
    apply H4; split; discriminate.
Defined.

(** * Application updates *)

(** State [st] with the application update level and the log
    replaced. *)
Definition leveled (lvl : Z) (l : list Event) (st : State) : State :=
  mkState (windows st) (desktops st) (app_desktop st) (app_size st) lvl l.

(** What [paintSelection] logs: the selection of the desktop shown, when
    there is one. *)
Definition selectionOf (st : State) : list Event :=
  match app_desktop st with
  | None => []
  | Some d =>
    match desktops st !! d with
    | None => []
    | Some dsk =>
      match windows st !! root dsk with
      | None => []
      | Some r => if IsZero (Sz (selection r)) then []
                  else [EvSelection (selection r)]
      end
    end
  end.

Lemma paintSelection_leveled st lvl l :
  wf st = true ->
  paintSelection (leveled lvl l st) = Some (leveled lvl (l ++ selectionOf st) st).
Proof.
  intros Hwf. unfold paintSelection, selectionOf, leveled. simpl.
  destruct (app_desktop st) as [d|] eqn:Hd; [|now rewrite app_nil_r].
  destruct (lookup_valid _ _ (wf_app_desktop _ _ Hwf Hd)) as [dsk Hdsk].
  rewrite Hdsk.
  destruct (lookup_valid _ _ (wf_root _ _ _ Hwf Hdsk)) as [r Hr]. rewrite Hr.
  destruct (IsZero _); [now rewrite app_nil_r|]. reflexivity.
Qed.

Lemma wrap32_small z : - 2 ^ 31 <= z <= 2 ^ 31 - 1 -> wrap32 z = z.
Proof. intros H. unfold wrap32. rewrite Z.mod_small by lia. lia. Qed.

Lemma Application_beginUpdate_leveled st lvl l :
  wf st = true -> 0 <= lvl < 2 ^ 31 - 1 ->
  Application_beginUpdate (leveled lvl l st) =
  Some (leveled (lvl + 1) (if lvl =? 0 then l ++ selectionOf st else l) st).
Proof.
  intros Hwf Hl. unfold Application_beginUpdate.
  change (app_updateLevel (leveled lvl l st)) with lvl.
  rewrite wrap32_small by lia.
  change (setAppUpdateLevel (lvl + 1) (leveled lvl l st)) with (leveled (lvl + 1) l st).
  destruct (Z.eqb_spec lvl 0) as [->|Hne].
  - simpl. now apply paintSelection_leveled.
  - destruct (Z.eqb_spec (lvl + 1) 1); [lia|reflexivity].
Qed.

Lemma Application_endUpdate_leveled st lvl l :
  wf st = true -> 1 <= lvl <= 2 ^ 31 - 1 ->
  Application_endUpdate (leveled lvl l st) =
  Some (leveled (lvl - 1)
                (if lvl =? 1 then l ++ selectionOf st ++ [EvShow] else l) st).
Proof.
  intros Hwf Hl. unfold Application_endUpdate.
  change (app_updateLevel (leveled lvl l st)) with lvl.
  rewrite wrap32_small by lia.
  change (setAppUpdateLevel (lvl - 1) (leveled lvl l st)) with (leveled (lvl - 1) l st).
  destruct (Z.eqb_spec lvl 1) as [->|Hne].
  - simpl. rewrite paintSelection_leveled by assumption.
    unfold logEvent, leveled. simpl. now rewrite app_assoc.
  - destruct (Z.eqb_spec (lvl - 1) 0); [lia|reflexivity].
Qed.

Lemma repeat_app_beginUpdate st l : wf st = true -> forall n lvl,
  1 <= lvl -> lvl + Z.of_nat n <= 2 ^ 31 - 1 ->
  repeatM n (BeginUpdate None) (leveled lvl l st) =
  Some (leveled (lvl + Z.of_nat n) l st).
Proof.
  intros Hwf. induction n as [|n IH]; intros lvl H1 H2.
  - cbn [repeatM]. now rewrite Z.add_0_r.
  - cbn [repeatM BeginUpdate].
    rewrite Application_beginUpdate_leveled by (try assumption; lia).
    destruct (Z.eqb_spec lvl 0); [lia|].
    rewrite IH by lia. f_equal. f_equal. lia.
Qed.

Lemma repeat_app_endUpdate st l fuel : wf st = true -> forall n lvl,
  Z.of_nat n < lvl <= 2 ^ 31 - 1 ->
  repeatM n (EndUpdate fuel None) (leveled lvl l st) =
  Some (leveled (lvl - Z.of_nat n) l st).
Proof.
  intros Hwf. induction n as [|n IH]; intros lvl H1.
  - cbn [repeatM]. now rewrite Z.sub_0_r.
  - cbn [repeatM EndUpdate].
    rewrite Application_endUpdate_leveled by (try assumption; lia).
    destruct (Z.eqb_spec lvl 1); [lia|].
    rewrite IH by lia. f_equal. f_equal. lia.
Qed.

Lemma leveled_id st : leveled (app_updateLevel st) (log st) st = st.
Proof. now destruct st. Qed.

(** X19: application updates nest.  From update level 0, [N >= 1]
    calls of [BeginUpdate] on a nil window bring the level to [N]; only
    the first one touches the screen, removing the selection.  The first
    [N-1] calls of [EndUpdate] only lower the level and log nothing; the
    [N]-th brings it to 0, shows the selection again and flushes the
    screen, once. *)
Theorem application_update_nesting :
  forall (N : nat) (st : State) (fuel : nat),
    wf st = true ->
    app_updateLevel st = 0 ->
    (1 <= N)%nat -> Z.of_nat N <= 2 ^ 31 - 1 ->
    let l := log st ++ selectionOf st in
    repeatM N (BeginUpdate None) st = Some (leveled (Z.of_nat N) l st) /\
    (forall k, (k < N)%nat ->
               repeatM k (EndUpdate fuel None) (leveled (Z.of_nat N) l st) =
               Some (leveled (Z.of_nat N - Z.of_nat k) l st)) /\
    EndUpdate fuel None (leveled 1 l st) =
    Some (leveled 0 (l ++ selectionOf st ++ [EvShow]) st) /\
    (selectionOf st = [] \/ exists area, selectionOf st = [EvSelection area]).
Proof.
  intros N st fuel Hwf Hlvl HN Hmax l. split; [|split; [|split]].
  - destruct N as [|n]; [lia|]. cbn [repeatM BeginUpdate].
    rewrite <- (leveled_id st) at 1. rewrite Hlvl.
    rewrite Application_beginUpdate_leveled by (try assumption; lia).
    cbn [Z.eqb]. fold l.
    rewrite repeat_app_beginUpdate by (try assumption; lia).
    f_equal. f_equal. lia.
  - intros k Hk. apply repeat_app_endUpdate; [assumption|lia].
  - cbn [EndUpdate]. rewrite Application_endUpdate_leveled by (try assumption; lia).
    reflexivity.
  - unfold selectionOf. destruct (app_desktop st); [|auto].
    destruct (desktops st !! _); [|auto].
    destruct (windows st !! _); [|auto].
    destruct (IsZero _); eauto.
Qed.

Lemma application_update_nesting_witness :
  repeatM 3 (BeginUpdate None) nestedWindows = Some (leveled 3 [] nestedWindows) /\
  EndUpdate 0 None (leveled 1 [] nestedWindows) =
  Some (leveled 0 [EvShow] nestedWindows).
Proof.
  destruct (application_update_nesting 3 nestedWindows 0) as (H1 & _ & H2 & _).
  - reflexivity.
  - reflexivity.
  - lia.
  - lia.
  - split; [exact H1|exact H2].
Defined.

(** * Desktops *)

(** [setSize] on a window that a previous step altered by [g]; the size
    is stored as it is when the borders fit in it. *)
Lemma setSize_from st w win g st1 fuel s :
  wf st = true -> windows st !! w = Some win ->
  (2 * length (windows st) + 4 <= fuel)%nat ->
  keepsTree g -> altered g w st st1 ->
  smallBorders (g win) -> smallSize s ->
  sizeInv (g win) (size (g win)) (ClientSize (g win)) ->
  exists st2 sz' cs',
    setSize fuel w s st1 = Some st2 /\
    altered (fun x => withSizes sz' cs' (g x)) w st st2 /\
    sizeInv (g win) sz' cs' /\
    (0 <= borderLeft (g win) + borderRight (g win) <= Width s ->
     0 <= borderTop (g win) + borderBottom (g win) <= Height s ->
     sz' = s /\
     cs' = mkSize (Width s - borderLeft (g win) - borderRight (g win))
                  (Height s - borderTop (g win) - borderBottom (g win))).
Proof.
  intros Hwf Hwin Hfuel Hg Ha Hb Hs Hi.
  destruct (sizeAfter_inv (g win) s _ _ Hb Hs Hi) as (sz' & cs' & Hp & Hi').
  assert (Hex : 0 <= borderLeft (g win) + borderRight (g win) <= Width s ->
                0 <= borderTop (g win) + borderBottom (g win) <= Height s ->
                sz' = s /\
                cs' = mkSize (Width s - borderLeft (g win) - borderRight (g win))
                             (Height s - borderTop (g win) - borderBottom (g win))).
  { intros Hw Hh. pose proof (sizeAfter_exact (g win) s _ _ Hb Hs Hw Hh Hi) as Hp'.
    rewrite Hp in Hp'. injection Hp' as -> ->. auto. }
  apply (sizeAfter_more (g win) (fuel - 2 * length (windows st) - 4)) in Hp.
  destruct (resize_from st w win g st1 (4 + (fuel - 2 * length (windows st) - 4))
                        Hwf Hwin Hg Ha) as [_ Hr].
  destruct (Hr _ _ _ Hp) as (st2 & H2 & Ha2).
  rewrite <- fuel_split in H2 by assumption.
  exists st2, sz', cs'. auto.
Qed.

Lemma wfWindow_mono2 nw nw' nd nd' i win :
  (nw <= nw')%nat -> (nd <= nd')%nat ->
  wfWindow nw nd i win = true -> wfWindow nw' nd' i win = true.
Proof.
  intros Hle Hle2 H. apply (wfWindow_mono nw nw'); [assumption|].
  unfold wfWindow in *. rewrite !andb_true_iff in *.
  destruct H as [[[H1 H2] H3] H4]. repeat split; try assumption.
  apply Nat.ltb_lt in H1. apply Nat.ltb_lt. lia.
Qed.

(** The store after [newDesktop] has made the desktop and its root
    window, before the root is given its size. *)
Definition withDesktop (st : State) : State :=
  mkState (windows st ++ [newWindowRecord (length (desktops st)) None])
          (desktops st ++ [mkDesktop zeroRectangle (length (windows st)) 0])
          (app_desktop st) (app_size st) (app_updateLevel st) (log st).

Lemma newDesktop_store fuel st :
  newDesktop fuel st =
  do st' <- setSize fuel (length (windows st)) (app_size st) (withDesktop st);
  Some (length (desktops st), st').
Proof.
  unfold newDesktop, newWindow, updDesktop. cbn [desktops setDesktops setWindows windows].
  rewrite lookup_app_r by lia. rewrite Nat.sub_diag. cbn [lookup list_lookup].
  cbn [invalidated updateLevel].
  assert (E : <[length (desktops st) := mkDesktop zeroRectangle (length (windows st)) 0]>
                (desktops st ++ [mkDesktop zeroRectangle 0%nat 0]) =
              desktops st ++ [mkDesktop zeroRectangle (length (windows st)) 0]).
  { replace (length (desktops st)) with (length (desktops st) + 0)%nat at 1 by lia.
    rewrite insert_app_r. reflexivity. }
  rewrite E. reflexivity.
Qed.

Lemma lookup_snoc {A} (l : list A) x k :
  (l ++ [x]) !! k =
  if decide (k = length l) then Some x else l !! k.
Proof.
  destruct (decide (k = length l)) as [->|Hne].
  - rewrite lookup_app_r by lia. now rewrite Nat.sub_diag.
  - destruct (Nat.lt_ge_cases k (length l)).
    + now rewrite lookup_app_l.
    + rewrite lookup_app_r by lia.
      destruct (k - length l)%nat eqn:E; [lia|].
      simpl. symmetry. apply lookup_ge_None. lia.
Qed.

Lemma withDesktop_wf st : wf st = true -> wf (withDesktop st) = true.
Proof.
  intros Hwf. apply wf_intro; unfold withDesktop;
    cbn [windows desktops app_desktop]; rewrite ?length_app; cbn [length].
  - intros k x Hk. rewrite lookup_snoc in Hk.
    destruct (decide (k = length (windows st))) as [->|Hne].
    + injection Hk as <-. unfold wfWindow, newWindowRecord. simpl.
      rewrite !andb_true_r. apply Nat.ltb_lt. lia.
    + eapply wfWindow_mono2; [| |eapply wf_window; eauto]; lia.
  - intros d dsk Hd. rewrite lookup_snoc in Hd.
    destruct (decide (d = length (desktops st))) as [->|Hne].
    + injection Hd as <-. simpl. lia.
    + pose proof (wf_root st d dsk Hwf Hd). lia.
  - intros d Hd. pose proof (wf_app_desktop st d Hwf Hd). lia.
Qed.

Lemma withDesktop_linked st :
  wf st = true -> linked st = true -> linked (withDesktop st) = true.
Proof.
  intros Hwf Hl. apply linked_intro. unfold withDesktop. cbn [windows].
  intros k x c Hk Hc. rewrite lookup_snoc in Hk.
  destruct (decide (k = length (windows st))) as [->|Hne].
  - injection Hk as <-. destruct Hc.
  - destruct (linked_elim _ _ _ _ Hl Hk Hc) as (cw & Hcw & Hp).
    exists cw. split; [|assumption].
    rewrite lookup_app_l by (eapply lookup_lt_Some; eauto). assumption.
Qed.

(** X20: [newDesktop] returns a desktop at the next free index with a
    new root window at the next free window index.  The root has no
    parent, no children and no borders, and gets the size of the screen
    as its size and as its client size; the store stays well formed and
    linked, and the desktop shown stays the one it was. *)
Theorem newDesktop_creates :
  forall (fuel : nat) (st : State),
    wf st = true -> linked st = true ->
    smallSize (app_size st) ->
    0 <= Width (app_size st) -> 0 <= Height (app_size st) ->
    (2 * S (length (windows st)) + 4 <= fuel)%nat ->
    exists st',
      newDesktop fuel st = Some (length (desktops st), st') /\
      wf st' = true /\ linked st' = true /\
      windows st' =
      windows st ++ [withSizes (app_size st) (app_size st)
                               (newWindowRecord (length (desktops st)) None)] /\
      map root (desktops st') = map root (desktops st) ++ [length (windows st)] /\
      app_desktop st' = app_desktop st.
Proof.
  intros fuel st Hwf Hlk Hs Hw Hh Hfuel.
  set (B := withDesktop st).
  set (rec0 := newWindowRecord (length (desktops st)) None).
  assert (HwfB : wf B = true) by (now apply withDesktop_wf).
  assert (HlkB : linked B = true) by (now apply withDesktop_linked).
  assert (HBn : windows B !! length (windows st) = Some rec0).
  { unfold B, withDesktop. cbn [windows]. rewrite lookup_snoc.
    now rewrite decide_True. }
  assert (HlenB : length (windows B) = S (length (windows st))).
  { unfold B, withDesktop. cbn [windows]. rewrite length_app. simpl. lia. }
  destruct (setSize_from B (length (windows st)) rec0 (fun x => x) B fuel (app_size st)
                         HwfB HBn)
    as (st' & sz' & cs' & H1 & A1 & _ & Hex).
  { lia. }
  { apply keepsTree_id. }
  { apply altered_id. }
  { unfold smallBorders, small. simpl. lia. }
  { exact Hs. }
  { unfold sizeInv. simpl. lia. }
  destruct Hex as [-> ->]; [simpl; lia|simpl; lia|].
  assert (K : keepsTree (fun x => withSizes (app_size st)
                                            (mkSize (Width (app_size st) - 0 - 0)
                                                    (Height (app_size st) - 0 - 0)) x))
    by (intros x; reflexivity).
  cbn [borderLeft borderRight borderTop borderBottom rec0 newWindowRecord] in A1, K.
  exists st'. split; [rewrite newDesktop_store; fold B; now rewrite H1|].
  split; [now rewrite (altered_wf _ _ _ _ K A1)|].
  split; [eapply altered_linked; eauto|].
  destruct A1 as (Hws & Had & Hroot).
  split.
  { rewrite Hws. unfold B, withDesktop. cbn [windows].
    apply list_eq. intros i. rewrite list_lookup_alter, !lookup_snoc.
    destruct (decide (length (windows st) = i)) as [<-|Hne].
    - rewrite !decide_True by reflexivity. simpl. f_equal. f_equal.
      destruct (app_size st) as [a b]. simpl. f_equal; lia.
    - rewrite !decide_False by congruence. reflexivity. }
  split.
  { rewrite Hroot. unfold B, withDesktop. cbn [desktops].
    now rewrite map_app. }
  exact Had.
Qed.

Lemma newDesktop_creates_witness :
  exists st' r,
    newDesktop 12 nestedWindows = Some (1%nat, st') /\
    windows st' !! 3%nat = Some r /\
    size r = mkSize 80 25 /\ parent r = None /\ desktop r = 1%nat.
Proof.
  destruct (newDesktop_creates 12 nestedWindows) as (st' & H1 & _ & _ & H2 & _).
  - reflexivity.
  - reflexivity.
  - unfold smallSize, small. simpl. lia.
  - simpl. lia.
  - simpl. lia.
  - simpl. lia.
  - eexists st', _. split; [exact H1|].
    split; [rewrite H2; reflexivity|]. repeat split; reflexivity.
Defined.

Lemma optionNat_eqb_false a d : a <> Some d -> optionNat_eqb a (Some d) = false.
Proof.
  intros H. destruct a as [x|]; [|reflexivity]. simpl.
  apply Nat.eqb_neq. congruence.
Qed.

Lemma optionNat_eqb_refl a : optionNat_eqb a a = true.
Proof. destruct a; simpl; [apply Nat.eqb_refl|reflexivity]. Qed.

Lemma wf_setAppDesktop st d :
  wf st = true -> (d < length (desktops st))%nat ->
  wf (setAppDesktop (Some d) st) = true.
Proof.
  intros Hwf Hd. apply wf_intro; unfold setAppDesktop;
    cbn [windows desktops app_desktop].
  - intros k x Hk. eapply wf_window; eauto.
  - intros k x Hk. eapply wf_root; eauto.
  - intros k Hk. congruence.
Qed.

(** X21: [Show] on the desktop that is already shown does nothing.  On
    any other desktop, whose root window has its size and client size
    related before the call (the client size is what the borders leave
    of the size, as it is when the desktop is created) and borders that
    fit in the screen, it makes that desktop the shown one and gives
    the root window the size of the screen, the client size being what
    the borders of the root leave of it; no other window changes. *)
Theorem Show_activates :
  forall (fuel : nat) (st : State) (d : DeskId) (dsk : Desktop) (rw : Window),
    wf st = true ->
    desktops st !! d = Some dsk ->
    windows st !! root dsk = Some rw ->
    (2 * length (windows st) + 4 <= fuel)%nat ->
    smallBorders rw -> smallSize (app_size st) ->
    0 <= borderLeft rw + borderRight rw <= Width (app_size st) ->
    0 <= borderTop rw + borderBottom rw <= Height (app_size st) ->
    sizeInv rw (size rw) (ClientSize rw) ->
    (app_desktop st = Some d -> Show fuel d st = Some st) /\
    (app_desktop st <> Some d ->
     exists st',
       Show fuel d st = Some st' /\
       app_desktop st' = Some d /\
       windows st' =
       <[root dsk :=
           withSizes (app_size st)
                     (mkSize (Width (app_size st) - borderLeft rw - borderRight rw)
                             (Height (app_size st) - borderTop rw - borderBottom rw))
                     rw]> (windows st) /\
       map root (desktops st') = map root (desktops st) /\
       wf st' = true).
Proof.
  intros fuel st d dsk rw Hwf Hd Hrw Hfuel Hb Hs Hw Hh Hi.
  unfold Show, SetDesktop, Handle. cbn [load store veqb DesktopKind].
  split.
  { intros ->. now rewrite optionNat_eqb_refl. }
  intros Hne. rewrite (optionNat_eqb_false _ _ Hne).
  cbn [chainHead BeginUpdate EndUpdate].
  destruct (Application_beginUpdate_ok st Hwf) as (sb & l & Hbeg & Hsb).
  rewrite Hbeg.
  unfold Application_onSetDesktopHandler. cbn [store DesktopKind].
  set (s1 := setAppDesktop (Some d) sb).
  assert (Hwfb : wf sb = true).
  { subst sb. rewrite <- Hwf. destruct st; reflexivity. }
  assert (Hdl : (d < length (desktops st))%nat) by (eapply lookup_lt_Some; eauto).
  assert (Hwf1 : wf s1 = true).
  { apply wf_setAppDesktop; [assumption|]. subst sb. exact Hdl. }
  assert (Hw1 : windows s1 = windows st) by (subst s1 sb; reflexivity).
  assert (Hd1 : desktops s1 = desktops st) by (subst s1 sb; reflexivity).
  assert (Hs1 : app_size s1 = app_size st) by (subst s1 sb; reflexivity).
  assert (Ha1 : app_desktop s1 = Some d) by reflexivity.
  rewrite Ha1. rewrite Hd1, Hd.
  rewrite Hs1.
  destruct (setSize_from s1 (root dsk) rw (fun x => x) s1 fuel (app_size st))
    as (s2 & sz' & cs' & H2 & A2 & _ & Hex); try assumption.
  { now rewrite Hw1. }
  { now rewrite Hw1. }
  { apply keepsTree_id. }
  { apply altered_id. }
  destruct (Hex Hw Hh) as [-> ->]. clear Hex.
  rewrite H2.
  set (F := fun x : Window =>
              withSizes (app_size st)
                        (mkSize (Width (app_size st) - borderLeft rw - borderRight rw)
                                (Height (app_size st) - borderTop rw - borderBottom rw))
                        x) in *.
  assert (K : keepsTree F) by (intros x; reflexivity).
  assert (Hwf2 : wf s2 = true) by (now rewrite (altered_wf _ _ _ _ K A2)).
  assert (Hrw1 : windows s1 !! root dsk = Some rw) by (now rewrite Hw1).
  rewrite (altered_lookup _ _ _ _ _ A2 Hrw1).
  assert (Hlen2 : length (windows s2) = length (windows st)).
  { rewrite (altered_length _ _ _ _ A2). now rewrite Hw1. }
  destruct (Invalidate_ok fuel s2 (root dsk) (Area (F rw)) Hwf2) as (s3 & H3 & S3).
  { rewrite Hlen2. eapply lookup_lt_Some; eauto. }
  { lia. }
  rewrite H3.
  assert (Hwf3 : wf s3 = true) by (now rewrite (shapeFrame_wf _ _ S3)).
  destruct (Application_endUpdate_ok s3 Hwf3) as (s4 & l4 & H4 & Hs4 & _).
  exists s4. split; [exact H4|].
  destruct S3 as (W3 & D3 & _ & R3). destruct A2 as (W2 & D2 & R2).
  subst s4. cbn [app_desktop windows desktops].
  split; [congruence|].
  split.
  { rewrite W3, W2, Hw1.
    apply list_eq. intros i. rewrite list_lookup_alter.
    destruct (decide (root dsk = i)) as [<-|Hn].
    - rewrite list_lookup_insert_eq by (eapply lookup_lt_Some; eauto).
      now rewrite Hrw.
    - now rewrite list_lookup_insert_ne. }
  split; [rewrite R3, R2, Hd1; reflexivity|].
  rewrite <- Hwf3. destruct s3; reflexivity.
Qed.

Lemma Show_activates_witness :
  exists st' r,
    Show 12 1 (setAppSize (mkSize 100 30) twoDesktops) = Some st' /\
    app_desktop st' = Some 1%nat /\
    windows st' !! 3%nat = Some r /\
    size r = mkSize 100 30 /\ ClientSize r = mkSize 100 30.
Proof.
  set (st := setAppSize (mkSize 100 30) twoDesktops).
  destruct (lookup_valid (desktops st) 1 ltac:(simpl; lia)) as [dsk Hdsk].
  assert (Hdsk' := Hdsk). vm_compute in Hdsk'. injection Hdsk' as Hdsk'.
  destruct (lookup_valid (windows st) 3 ltac:(simpl; lia)) as [rw Hrw].
  assert (Hrw' := Hrw). vm_compute in Hrw'. injection Hrw' as Hrw'.
  assert (Hroot : root dsk = 3%nat) by (subst dsk; reflexivity).
  destruct (Show_activates 12 st 1%nat dsk rw) as [_ H].
  - reflexivity.
  - exact Hdsk.
  - rewrite Hroot. exact Hrw.
  - simpl. lia.
  - subst rw. unfold smallBorders, small. simpl. lia.
  - unfold smallSize, small. simpl. lia.
  - subst rw. simpl. lia.
  - subst rw. simpl. lia.
  - subst rw. unfold sizeInv. simpl. lia.
  - destruct H as (st' & H1 & H2 & H3 & _); [discriminate|].
    eexists st', _. split; [exact H1|]. split; [exact H2|].
    split; [rewrite H3, Hroot; apply list_lookup_insert_eq; simpl; lia|].
    subst rw. split; reflexivity.
Defined.

(** * Z-order *)

(** Index of the first element equal to [c], as the loop
    [for i, v := range w.children { if v == c ... }] finds it. *)
Fixpoint indexOf (c : WinId) (l : list WinId) : option nat :=
  match l with
  | [] => None
  | v :: l => if Nat.eqb v c then Some 0%nat else option_map S (indexOf c l)
  end.

(** [copy(s[i:], s[i+1:]); s[len(s)-1] = c] *)
Definition moveToEnd (i : nat) (c : WinId) (l : list WinId) : list WinId :=
  take i l ++ drop (S i) l ++ [c].

(** [func (w *Window) bringChildWindowToFront(c *Window)]; the receiver
    may be nil.  [depth] bounds the calls on the parents. *)
Fixpoint bringChildWindowToFront (depth fuel : nat) (w : option WinId)
         (c : WinId) (st : State) : option State :=
  match w with
  | None => Some st
  | Some w =>
    match depth with
    | O => None
    | S depth =>
      do win <- windows st !! w;
      do st <- match parent win with
               | Some p => bringChildWindowToFront depth fuel (Some p) w st
               | None => Some st
               end;
      do win <- windows st !! w;
      let invalidate st :=
          do cw <- windows st !! c;
          InvalidateClientArea fuel w (mkRectangle (position cw) (size cw)) st in
      match indexOf c (children win) with
      | Some i =>
        if (i =? length (children win) - 1)%nat then Some st
        else do st <- updWindow w (withChildren (moveToEnd i c (children win))) st;
             invalidate st
      | None => invalidate st
      end
    end
  end.

(** [func (w *Window) BringToFront()] *)
Definition BringToFront (depth fuel : nat) (w : WinId) (st : State)
  : option State :=
  do win <- windows st !! w;
  bringChildWindowToFront depth fuel (parent win) w st.

(** [k] is [w] or one of the windows above it in the tree. *)
Inductive ancestorOrSelf (ws : list Window) : WinId -> WinId -> Prop :=
| aos_self w : ancestorOrSelf ws w w
| aos_parent k w win p :
    ws !! w = Some win -> parent win = Some p ->
    ancestorOrSelf ws k p -> ancestorOrSelf ws k w.

(** If [c] is among the children of [p], it is the last of them. *)
Definition frontAt (ws : list Window) (p c : WinId) : Prop :=
  forall pw, ws !! p = Some pw -> List.In c (children pw) ->
             last (children pw) = Some c.

Definition frontOf (ws : list Window) (a : WinId) : Prop :=
  forall win g, ws !! a = Some win -> parent win = Some g -> frontAt ws g a.

(** The windows of both states differ in the order of their children
    at most. *)
Definition reordered (st st' : State) : Prop :=
  length (windows st') = length (windows st) /\
  (forall k x, windows st !! k = Some x ->
               exists cs, windows st' !! k = Some (withChildren cs x) /\
                          Permutation (children x) cs) /\
  app_desktop st' = app_desktop st /\
  map root (desktops st') = map root (desktops st).

Lemma withChildren_same x : withChildren (children x) x = x.
Proof. now destruct x. Qed.

Lemma reordered_refl st : reordered st st.
Proof.
  unfold reordered. repeat split; try reflexivity.
  intros k x Hk. exists (children x). now rewrite withChildren_same.
Qed.

Lemma reordered_trans a b c : reordered a b -> reordered b c -> reordered a c.
Proof.
  intros (L1 & W1 & A1 & R1) (L2 & W2 & A2 & R2). unfold reordered.
  split; [congruence|]. split; [|split; congruence].
  intros k x Hk. destruct (W1 _ _ Hk) as (cs & Hb & P1).
  destruct (W2 _ _ Hb) as (cs' & Hc & P2).
  exists cs'. split; [exact Hc|]. etransitivity; eauto.
Qed.

Lemma shapeFrame_reordered st st' : shapeFrame st st' -> reordered st st'.
Proof.
  intros (W & A & _ & R). unfold reordered. rewrite W.
  repeat split; try assumption.
  intros k x Hk. exists (children x). now rewrite withChildren_same.
Qed.

Lemma reordered_lookup st st' k x' :
  reordered st st' -> windows st' !! k = Some x' ->
  exists x, windows st !! k = Some x /\ x' = withChildren (children x') x /\
            Permutation (children x) (children x').
Proof.
  intros (L & W & _) Hk.
  destruct (lookup_valid (windows st) k) as [x Hx].
  { rewrite <- L. eapply lookup_lt_Some; eauto. }
  destruct (W _ _ Hx) as (cs & Hk' & P).
  rewrite Hk in Hk'. injection Hk' as ->.
  exists x. split; [assumption|]. split; [reflexivity|exact P].
Qed.

Lemma reordered_wf st st' : reordered st st' -> wf st = true -> wf st' = true.
Proof.
  intros Hr Hwf. pose proof Hr as (L & W & A & R).
  assert (Hlen : length (desktops st') = length (desktops st)).
  { rewrite <- (length_map root (desktops st')), R. apply length_map. }
  apply wf_intro.
  - intros k x' Hk. destruct (reordered_lookup _ _ _ _ Hr Hk) as (x & Hx & -> & P).
    rewrite L, Hlen. pose proof (wf_window _ _ _ Hwf Hx) as Hw.
    unfold wfWindow in *. rewrite !andb_true_iff in *.
    destruct Hw as [[[H1 H2] H3] H4]. repeat split; try assumption.
    cbn [children withChildren]. rewrite forallb_forall in *.
    intros c Hc. apply H3. eapply Permutation_in; [symmetry; exact P|exact Hc].
  - intros d dsk Hd. rewrite L.
    assert (Hd' : (root <$> desktops st') !! d = Some (root dsk))
      by (rewrite list_lookup_fmap, Hd; reflexivity).
    change (root <$> desktops st') with (map root (desktops st')) in Hd'.
    rewrite R in Hd'. change (map root (desktops st)) with (root <$> desktops st) in Hd'.
    rewrite list_lookup_fmap in Hd'.
    destruct (desktops st !! d) as [dsk0|] eqn:E; [|discriminate].
    simpl in Hd'. injection Hd' as Hd'. rewrite <- Hd'.
    eapply wf_root; eauto.
  - intros d Hd. rewrite Hlen. rewrite A in Hd. now apply wf_app_desktop.
Qed.

Lemma reordered_linked st st' :
  reordered st st' -> linked st = true -> linked st' = true.
Proof.
  intros Hr Hl. apply linked_intro. intros w x' c Hw Hc.
  destruct (reordered_lookup _ _ _ _ Hr Hw) as (x & Hx & _ & P).
  assert (Hc' : List.In c (children x))
    by (eapply Permutation_in; [symmetry; exact P|exact Hc]).
  destruct (linked_elim _ _ _ _ Hl Hx Hc') as (cw & Hcw & Hp).
  destruct Hr as (_ & W & _). destruct (W _ _ Hcw) as (cs & Hcw' & _).
  exists (withChildren cs cw). split; [assumption|exact Hp].
Qed.

Lemma indexOf_Some c : forall l i,
  indexOf c l = Some i -> l !! i = Some c.
Proof.
  induction l as [|v l IH]; intros i H; [discriminate|].
  cbn [indexOf] in H. destruct (Nat.eqb_spec v c) as [->|Hne].
  - injection H as <-. reflexivity.
  - destruct (indexOf c l) as [j|]; [|discriminate].
    injection H as <-. simpl. now apply IH.
Qed.

Lemma indexOf_None c : forall l, indexOf c l = None -> ~ List.In c l.
Proof.
  induction l as [|v l IH]; intros H; [intros []|].
  cbn [indexOf] in H. destruct (Nat.eqb_spec v c) as [->|Hne]; [discriminate|].
  destruct (indexOf c l) as [j|]; [discriminate|].
  intros [E|E]; [congruence|]. now apply IH.
Qed.

Lemma moveToEnd_perm i c l : l !! i = Some c -> Permutation l (moveToEnd i c l).
Proof.
  intros H. unfold moveToEnd.
  rewrite <- (take_drop_middle l i c H) at 1.
  apply Permutation_app_head. apply Permutation_cons_append.
Qed.

Lemma moveToEnd_last i c l : last (moveToEnd i c l) = Some c.
Proof. unfold moveToEnd. rewrite app_assoc. apply last_snoc. Qed.

Lemma aos_le st k w :
  wf st = true -> ancestorOrSelf (windows st) k w -> (k <= w)%nat.
Proof.
  intros Hwf H. induction H as [|k w win p Hw Hp _ IH]; [lia|].
  pose proof (wf_window _ _ _ Hwf Hw) as Hwin.
  unfold wfWindow in Hwin. rewrite !andb_true_iff in Hwin.
  destruct Hwin as [[[_ H2] _] _]. rewrite Hp in H2. apply Nat.ltb_lt in H2. lia.
Qed.

Lemma wf_parent_lt st w win p :
  wf st = true -> windows st !! w = Some win -> parent win = Some p -> (p < w)%nat.
Proof.
  intros Hwf Hw Hp. pose proof (wf_window _ _ _ Hwf Hw) as Hwin.
  unfold wfWindow in Hwin. rewrite !andb_true_iff in Hwin.
  destruct Hwin as [[[_ H2] _] _]. rewrite Hp in H2. now apply Nat.ltb_lt in H2.
Qed.

Lemma last_of_index (l : list WinId) i c :
  l !! i = Some c -> i = (length l - 1)%nat -> last l = Some c.
Proof.
  intros H ->. rewrite last_lookup. rewrite <- H. f_equal. lia.
Qed.

(** The call on a window [p] for one of its children [c]. *)
Lemma bringChildWindowToFront_ok fuel : forall depth p c st,
  wf st = true ->
  (p < depth)%nat -> (p < length (windows st))%nat ->
  (c < length (windows st))%nat ->
  (2 * length (windows st) <= fuel)%nat ->
  exists st',
    bringChildWindowToFront depth fuel (Some p) c st = Some st' /\
    reordered st st' /\
    (forall k, ~ ancestorOrSelf (windows st) k p ->
               windows st' !! k = windows st !! k) /\
    (forall a, ancestorOrSelf (windows st) a p -> frontOf (windows st') a) /\
    frontAt (windows st') p c.
Proof.
  induction depth as [|depth IH]; intros p c st Hwf Hd Hp Hc Hfuel; [lia|].
  cbn [bringChildWindowToFront].
  destruct (lookup_valid _ _ Hp) as [win Hwin]. rewrite Hwin.
  (* the call on the parent *)
  assert (Hup : exists st1,
             match parent win with
             | Some g => bringChildWindowToFront depth fuel (Some g) p st
             | None => Some st
             end = Some st1 /\
             reordered st st1 /\
             (forall k, k = p \/ ~ ancestorOrSelf (windows st) k p ->
                        windows st1 !! k = windows st !! k) /\
             (forall a, ancestorOrSelf (windows st) a p -> frontOf (windows st1) a)).
  { destruct (parent win) as [g|] eqn:Hg.
    - pose proof (wf_parent_lt _ _ _ _ Hwf Hwin Hg) as Hlt.
      destruct (IH g p st Hwf) as (st1 & H1 & R1 & U1 & F1 & FA1); try lia.
      exists st1. split; [exact H1|]. split; [exact R1|]. split.
      + intros k Hk. apply U1. intros Ha. destruct Hk as [->|Hk].
        * pose proof (aos_le _ _ _ Hwf Ha). lia.
        * apply Hk. eapply aos_parent; eauto.
      + intros a Ha. inversion Ha as [|k w win0 p0 Hw0 Hp0 Hrest]; subst.
        * intros x g' Hx Hg'.
          destruct (reordered_lookup _ _ _ _ R1 Hx) as (x0 & Hx0 & Ex & _).
          rewrite Hwin in Hx0. injection Hx0 as <-.
          rewrite Ex in Hg'. cbn [parent withChildren] in Hg'.
          rewrite Hg in Hg'. injection Hg' as <-. exact FA1.
        * rewrite Hwin in Hw0. injection Hw0 as <-.
          rewrite Hg in Hp0. injection Hp0 as <-. now apply F1.
    - exists st. split; [reflexivity|]. split; [apply reordered_refl|].
      split; [reflexivity|].
      intros a Ha. inversion Ha as [|k w win0 p0 Hw0 Hp0 Hrest]; subst.
      + intros x g' Hx Hg'. rewrite Hwin in Hx. injection Hx as <-. congruence.
      + rewrite Hwin in Hw0. injection Hw0 as <-. congruence. }
  destruct Hup as (st1 & -> & R1 & U1 & F1).
  pose proof (reordered_wf _ _ R1 Hwf) as Hwf1.
  pose proof R1 as (L1 & W1 & _).
  destruct (W1 _ _ Hwin) as (cs1 & Hwin1 & P1). rewrite Hwin1.
  set (win1 := withChildren cs1 win) in *.
  (* the invalidation that ends the call *)
  assert (Hinv : forall s, reordered st1 s -> wf s = true ->
             exists st',
               (do cw <- windows s !! c;
                InvalidateClientArea fuel p (mkRectangle (position cw) (size cw)) s)
               = Some st' /\ shapeFrame s st').
  { intros s (Ls & _) Hwfs.
    destruct (lookup_valid (windows s) c) as [cw ->]; [lia|].
    apply InvalidateClientArea_ok; [assumption|lia|lia]. }
  (* windows above [p] are as the parent's call left them *)
  assert (Hfront : forall s,
             reordered st1 s ->
             (forall k, k <> p -> windows s !! k = windows st1 !! k) ->
             forall a, ancestorOrSelf (windows st) a p -> frontOf (windows s) a).
  { intros s Rs Us a Ha x g Hx Hg pw Hpw Hin.
    pose proof (aos_le _ _ _ Hwf Ha) as Hle.
    destruct (reordered_lookup _ _ _ _ Rs Hx) as (x1 & Hx1 & Ex & _).
    assert (Hg1 : parent x1 = Some g).
    { rewrite Ex in Hg. exact Hg. }
    pose proof (wf_parent_lt _ _ _ _ Hwf1 Hx1 Hg1) as Hlt.
    rewrite Us in Hpw by lia.
    exact (F1 a Ha x1 g Hx1 Hg1 pw Hpw Hin). }
  destruct (indexOf c (children win1)) as [i|] eqn:Hi.
  - pose proof (indexOf_Some _ _ _ Hi) as Hci.
    destruct (Nat.eqb_spec i (length (children win1) - 1)) as [Hlast|Hnl].
    + exists st1. split; [reflexivity|]. split; [exact R1|].
      split; [intros k Hk; apply U1; now right|].
      split; [exact F1|].
      intros pw Hpw _. rewrite Hwin1 in Hpw. injection Hpw as <-.
      eapply last_of_index; eauto.
    + unfold updWindow. rewrite Hwin1.
      set (win2 := withChildren (moveToEnd i c (children win1)) win1).
      set (st2 := setWindows (<[p := win2]> (windows st1)) st1).
      assert (Hp1 : (p < length (windows st1))%nat) by lia.
      assert (R2 : reordered st1 st2).
      { unfold reordered, st2. cbn [windows setWindows app_desktop desktops].
        rewrite length_insert. repeat split; try reflexivity.
        intros k x Hk. destruct (decide (k = p)) as [->|Hne].
        - rewrite list_lookup_insert_eq by assumption.
          rewrite Hwin1 in Hk. injection Hk as <-.
          exists (moveToEnd i c (children win1)). split; [reflexivity|].
          now apply moveToEnd_perm.
        - rewrite list_lookup_insert_ne by congruence.
          exists (children x). now rewrite withChildren_same. }
      pose proof (reordered_wf _ _ R2 Hwf1) as Hwf2.
      destruct (Hinv st2 R2 Hwf2) as (st3 & H3 & S3). rewrite H3.
      pose proof (shapeFrame_reordered _ _ S3) as R3.
      assert (W3 : windows st3 = <[p := win2]> (windows st1)).
      { destruct S3 as (W3 & _). exact W3. }
      exists st3. split; [reflexivity|].
      split; [eapply reordered_trans; [exact R1|eapply reordered_trans; eauto]|].
      split.
      { intros k Hk. rewrite W3.
        rewrite list_lookup_insert_ne.
        - apply U1. now right.
        - intros ->. apply Hk. apply aos_self. }
      split.
      { apply Hfront; [eapply reordered_trans; eauto|].
        intros k Hk. rewrite W3. now rewrite list_lookup_insert_ne by congruence. }
      intros pw Hpw _. rewrite W3, list_lookup_insert_eq in Hpw by assumption.
      injection Hpw as <-. apply moveToEnd_last.
  - destruct (Hinv st1 (reordered_refl st1) Hwf1) as (st3 & H3 & S3). rewrite H3.
    pose proof (shapeFrame_reordered _ _ S3) as R3.
    assert (W3 : windows st3 = windows st1) by (destruct S3 as (W3 & _); exact W3).
    exists st3. split; [reflexivity|].
    split; [eapply reordered_trans; eauto|].
    split; [intros k Hk; rewrite W3; apply U1; now right|].
    split.
    { apply Hfront; [exact R3|]. intros k _. now rewrite W3. }
    intros pw Hpw Hin. rewrite W3, Hwin1 in Hpw. injection Hpw as <-.
    exfalso. exact (indexOf_None _ _ Hi Hin).
Qed.

(** [nestedWindows] with a second child of the root, at (40,5) of size
    10x5: the root has the children 1 and 3, window 1 has the child 2. *)
Definition siblingWindows : State :=
  Eval vm_compute in
    match NewChild 14 0 (rect 40 5 10 5) nestedWindows with
    | Some (_, st) => st
    | None => nestedWindows
    end.

(** X22: [BringToFront] returns on every window of a well-formed store.
    Afterwards the window and each of the windows above it is the last,
    front-most, child of its parent, provided it is among the children
    of its parent at all.  Every window keeps all of its fields except
    the order of its children, and only windows above [w] can have their
    children reordered; well-formedness and the parent/child links are
    kept. *)
Theorem BringToFront_raises :
  forall (depth fuel : nat) (st : State) (w : WinId) (win : Window),
    wf st = true ->
    windows st !! w = Some win ->
    (w <= depth)%nat ->
    (2 * length (windows st) <= fuel)%nat ->
    exists st',
      BringToFront depth fuel w st = Some st' /\
      wf st' = true /\
      (linked st = true -> linked st' = true) /\
      (forall k x, windows st !! k = Some x ->
                   exists cs, windows st' !! k = Some (withChildren cs x) /\
                              Permutation (children x) cs) /\
      (forall k, k = w \/ ~ ancestorOrSelf (windows st) k w ->
                 windows st' !! k = windows st !! k) /\
      (forall a, ancestorOrSelf (windows st) a w -> frontOf (windows st') a).
Proof.
  intros depth fuel st w win Hwf Hwin Hd Hfuel.
  unfold BringToFront. rewrite Hwin.
  pose proof (lookup_lt_Some _ _ _ Hwin) as Hlt.
  destruct (parent win) as [p|] eqn:Hp.
  - pose proof (wf_parent_lt _ _ _ _ Hwf Hwin Hp) as Hpw.
    destruct (bringChildWindowToFront_ok fuel depth p w st Hwf)
      as (st' & H & R & U & F & FA); try lia.
    exists st'. split; [exact H|].
    split; [eapply reordered_wf; eauto|].
    split; [intros Hl; eapply reordered_linked; eauto|].
    split; [destruct R as (_ & W & _); exact W|].
    split.
    + intros k Hk. apply U. intros Ha. destruct Hk as [->|Hk].
      * pose proof (aos_le _ _ _ Hwf Ha). lia.
      * apply Hk. eapply aos_parent; eauto.
    + intros a Ha. inversion Ha as [|k w0 win0 p0 Hw0 Hp0 Hrest]; subst.
      * intros x g Hx Hg.
        destruct (reordered_lookup _ _ _ _ R Hx) as (x0 & Hx0 & Ex & _).
        rewrite Hwin in Hx0. injection Hx0 as <-.
        rewrite Ex in Hg. cbn [parent withChildren] in Hg.
        rewrite Hp in Hg. injection Hg as <-. exact FA.
      * rewrite Hwin in Hw0. injection Hw0 as <-.
        rewrite Hp in Hp0. injection Hp0 as <-. now apply F.
  - exists st. split; [destruct depth; reflexivity|].
    split; [exact Hwf|]. split; [auto|].
    split; [apply reordered_refl|]. split; [reflexivity|].
    intros a Ha. inversion Ha as [|k w0 win0 p0 Hw0 Hp0 Hrest]; subst.
    + intros x g Hx Hg. rewrite Hwin in Hx. injection Hx as <-. congruence.
    + rewrite Hwin in Hw0. injection Hw0 as <-. congruence.
Qed.

Lemma BringToFront_raises_witness :
  exists st' r,
    BringToFront 2 8 2 siblingWindows = Some st' /\
    windows st' !! 0%nat = Some r /\
    Permutation [1%nat; 3%nat] (children r) /\
    last (children r) = Some 1%nat.
Proof.
  destruct (lookup_valid (windows siblingWindows) 0 ltac:(simpl; lia)) as [x0 H0].
  assert (H0' := H0). vm_compute in H0'. injection H0' as H0'.
  destruct (lookup_valid (windows siblingWindows) 1 ltac:(simpl; lia)) as [x1 H1].
  assert (H1' := H1). vm_compute in H1'. injection H1' as H1'.
  destruct (lookup_valid (windows siblingWindows) 2 ltac:(simpl; lia)) as [x2 H2].
  assert (H2' := H2). vm_compute in H2'. injection H2' as H2'.
  destruct (BringToFront_raises 2 8 siblingWindows 2%nat x2)
    as (st' & H & _ & _ & W & _ & F).
  - reflexivity.
  - exact H2.
  - lia.
  - simpl. lia.
  - destruct (W _ _ H0) as (cs0 & G0 & P0).
    destruct (W _ _ H1) as (cs1 & G1 & _).
    assert (Hc0 : children x0 = [1%nat; 3%nat]) by (subst x0; reflexivity).
    rewrite Hc0 in P0.
    exists st', (withChildren cs0 x0). split; [exact H|]. split; [exact G0|].
    split; [exact P0|].
    assert (Ha : ancestorOrSelf (windows siblingWindows) 1%nat 2%nat).
    { apply (aos_parent _ 1%nat 2%nat x2 1%nat H2); [subst x2; reflexivity|].
      apply aos_self. }
    apply (F 1%nat Ha (withChildren cs1 x1) 0%nat G1); [subst x1; reflexivity|exact G0|].
    cbn [children withChildren].
    eapply Permutation_in; [exact P0|]. simpl. auto.
Defined.

(** * Mouse buttons in [handleEvents] *)

(** tcell's [Button1 .. Button8] are [1 << 0 .. 1 << 7]. *)
Definition Button1 : Z := 1.
Definition Button8 : Z := Z.shiftl Button1 7.

(** [anyButton = tcell.Button8<<1 - 1] *)
Definition anyButton : Z := Z.shiftl Button8 1 - 1.

(** The masks [newApplication] gives to [mouseButtonFSMs[0..7]]:
    [mask := tcell.Button1; for i := range ... { ...; mask <<= 1 }]. *)
Definition fsmMask (i : nat) : Z := Z.shiftl Button1 (Z.of_nat i).

(** [x := 0; for diff != 0 { a.mouseButtonFSMs[x].post(e); diff >>= 1; x++ }]:
    the indices posted to, in order.  The array has 8 elements; an index
    beyond them panics. *)
Fixpoint postLoop (fuel : nat) (diff : Z) (x : nat) : option (list nat) :=
  if diff =? 0 then Some []
  else match fuel with
       | O => None
       | S fuel =>
         if (8 <=? x)%nat then None
         else do l <- postLoop fuel (Z.shiftr diff 1) (S x); Some (x :: l)
       end.

(** The button part of [case *tcell.EventMouse] of [handleEvents]: the
    new [a.mouseButtonsState] and the machines the event is posted to. *)
Definition postButtons (fuel : nat) (mouseButtonsState : Z) (e : Mouse.EventMouse)
  : option (Z * list nat) :=
  let b := Z.land (Mouse.Buttons e) anyButton in
  if negb (b =? mouseButtonsState) then
    let diff := Z.lxor b mouseButtonsState in
    do l <- postLoop fuel diff 0;
    Some (b, l)
  else Some (mouseButtonsState, []).

Lemma postLoop_spec : forall (k fuel : nat) (diff : Z) (x : nat),
  0 <= diff < 2 ^ Z.of_nat k -> (k <= fuel)%nat -> (x + k <= 8)%nat ->
  exists n,
    (n <= k)%nat /\
    postLoop fuel diff x = Some (seq x n) /\
    (forall i, (i < n)%nat <->
               exists j, (i <= j)%nat /\ Z.testbit diff (Z.of_nat j) = true).
Proof.
  induction k as [|k IH]; intros fuel diff x Hd Hf Hx.
  - assert (diff = 0) by (simpl in Hd; lia). subst diff.
    exists 0%nat. split; [lia|]. split; [destruct fuel; reflexivity|].
    intros i. split; [lia|]. intros (j & _ & Hj). now rewrite Z.testbit_0_l in Hj.
  - destruct (Z.eqb_spec diff 0) as [->|Hnz].
    + exists 0%nat. split; [lia|]. split; [destruct fuel; reflexivity|].
      intros i. split; [lia|]. intros (j & _ & Hj). now rewrite Z.testbit_0_l in Hj.
    + destruct fuel as [|fuel]; [lia|].
      cbn [postLoop]. destruct (Z.eqb_spec diff 0) as [|_]; [contradiction|].
      destruct (Nat.leb_spec 8 x) as [|_]; [lia|].
      destruct (IH fuel (Z.shiftr diff 1) (S x)) as (n & Hn & Hl & Hbits).
      * rewrite Z.shiftr_div_pow2 by lia. change (2 ^ 1) with 2.
        rewrite Nat2Z.inj_succ, Z.pow_succ_r in Hd by lia.
        split; [apply Z.div_pos; lia|].
        apply Z.div_lt_upper_bound; lia.
      * lia.
      * lia.
      * exists (S n). split; [lia|]. rewrite Hl. split; [reflexivity|].
        intros i. destruct i as [|i].
        { split; [|lia]. intros _.
          exists (Z.to_nat (Z.log2 diff)). split; [lia|].
          rewrite Z2Nat.id by apply Z.log2_nonneg.
          apply Z.bit_log2. lia. }
        { rewrite <- Nat.succ_lt_mono, Hbits. split.
          - intros (j & Hj & Hb). exists (S j). split; [lia|].
            rewrite Z.shiftr_spec in Hb by lia.
            now rewrite Nat2Z.inj_succ, <- Z.add_1_r.
          - intros (j & Hj & Hb). destruct j as [|j]; [lia|].
            exists j. split; [lia|].
            rewrite Z.shiftr_spec by lia.
            now rewrite Nat2Z.inj_succ, <- Z.add_1_r in Hb. }
Qed.

Lemma anyButton_land z : Z.land z anyButton = z mod 2 ^ 8.
Proof. change anyButton with (Z.ones 8). apply Z.land_ones. lia. Qed.

Lemma lxor_byte a b : 0 <= a < 2 ^ 8 -> 0 <= b < 2 ^ 8 -> 0 <= Z.lxor a b < 2 ^ 8.
Proof.
  intros Ha Hb.
  assert (Hn : 0 <= Z.lxor a b) by (apply Z.lxor_nonneg; lia).
  split; [exact Hn|].
  destruct (Z.eq_dec (Z.lxor a b) 0) as [->|Hnz]; [lia|].
  apply Z.log2_lt_pow2; [lia|].
  pose proof (Z.log2_lxor a b ltac:(lia) ltac:(lia)) as Hl.
  assert (Z.log2 a < 8).
  { destruct (Z.eq_dec a 0) as [->|]; [simpl; lia|]. apply Z.log2_lt_pow2; lia. }
  assert (Z.log2 b < 8).
  { destruct (Z.eq_dec b 0) as [->|]; [simpl; lia|]. apply Z.log2_lt_pow2; lia. }
  lia.
Qed.

Lemma fsmMask_pressed z x :
  Z.testbit z (Z.of_nat x) = true -> Z.land z (fsmMask x) <> 0.
Proof.
  intros Hb Hz. unfold fsmMask, Button1 in Hz. rewrite Z.shiftl_1_l in Hz.
  assert (Ht : Z.testbit (Z.land z (2 ^ Z.of_nat x)) (Z.of_nat x) = true).
  { rewrite Z.land_spec, Hb, Z.pow2_bits_true by lia. reflexivity. }
  rewrite Hz, Z.testbit_0_l in Ht. discriminate.
Qed.

(** X23: the button part of [handleEvents], for a button state that is
    a byte as the code keeps it.  When the masked buttons of the event
    equal the state nothing is posted.  Otherwise the state becomes the
    masked buttons, again a byte, the loop ends without running over the
    eight machines, and the event is posted once to each of the machines
    0 .. n-1 in this order, where machine [i] is among them exactly when
    a button of index [i] or higher changed: machines of buttons that
    did not change receive the event too.  Such a machine, when its
    button is still held and it is in state down or drag, goes back to
    idle and posts nothing: the click or the drop of that button is
    lost. *)
Theorem handleEvents_posts_buttons :
  forall (fuel : nat) (mouseButtonsState : Z) (e : Mouse.EventMouse),
    0 <= mouseButtonsState < 2 ^ 8 ->
    (8 <= fuel)%nat ->
    let b := Z.land (Mouse.Buttons e) anyButton in
    0 <= b < 2 ^ 8 /\
    (b = mouseButtonsState ->
     postButtons fuel mouseButtonsState e = Some (mouseButtonsState, [])) /\
    (b <> mouseButtonsState ->
     exists n,
       (1 <= n <= 8)%nat /\
       postButtons fuel mouseButtonsState e = Some (b, seq 0 n) /\
       (forall i, List.In i (seq 0 n) <->
                  exists j, (i <= j)%nat /\
                            Z.testbit b (Z.of_nat j) <>
                            Z.testbit mouseButtonsState (Z.of_nat j)) /\
       (forall i m click doubleClick,
           List.In i (seq 0 n) ->
           Mouse.button m = fsmMask i ->
           Z.testbit b (Z.of_nat i) = true ->
           Mouse.state m = Mouse.mbsDown \/ Mouse.state m = Mouse.mbsDrag ->
           Mouse.step click doubleClick m (Mouse.InMouse e) =
           Mouse.Next (Mouse.with_state m Mouse.mbsIdle (Mouse.timeout m)) [])).
Proof.
  intros fuel s e Hs Hfuel b.
  assert (Hb : 0 <= b < 2 ^ 8).
  { unfold b. rewrite anyButton_land. apply Z.mod_pos_bound. lia. }
  split; [exact Hb|]. unfold postButtons. fold b. split.
  { intros ->. now rewrite Z.eqb_refl. }
  intros Hne. destruct (Z.eqb_spec b s) as [|_]; [contradiction|]. cbn [negb].
  destruct (postLoop_spec 8 fuel (Z.lxor b s) 0) as (n & Hn & Hl & Hbits).
  { now apply lxor_byte. }
  { exact Hfuel. }
  { lia. }
  assert (Hx : forall j, Z.testbit (Z.lxor b s) (Z.of_nat j) = true <->
                         Z.testbit b (Z.of_nat j) <> Z.testbit s (Z.of_nat j)).
  { intros j. rewrite Z.lxor_spec.
    destruct (Z.testbit b (Z.of_nat j)), (Z.testbit s (Z.of_nat j)); simpl;
      split; congruence. }
  assert (Hmem : forall i, List.In i (seq 0 n) <->
                           exists j, (i <= j)%nat /\
                                     Z.testbit b (Z.of_nat j) <>
                                     Z.testbit s (Z.of_nat j)).
  { intros i. rewrite in_seq. split.
    - intros Hi. destruct (proj1 (Hbits i) ltac:(lia)) as (j & Hj & Hbit).
      exists j. split; [assumption|]. now apply Hx.
    - intros (j & Hj & Hbit). apply Hx in Hbit.
      pose proof (proj2 (Hbits i) (ex_intro _ j (conj Hj Hbit))). lia. }
  exists n. split.
  { split; [|lia]. destruct n as [|n]; [|lia]. exfalso.
    assert (Hz : Z.lxor b s <> 0) by (rewrite Z.lxor_eq_0_iff; exact Hne).
    assert (Hpos : 0 < Z.lxor b s).
    { pose proof (lxor_byte b s Hb Hs). lia. }
    assert (Htop : Z.testbit (Z.lxor b s)
                             (Z.of_nat (Z.to_nat (Z.log2 (Z.lxor b s)))) = true).
    { rewrite Z2Nat.id by apply Z.log2_nonneg. apply Z.bit_log2. exact Hpos. }
    pose proof (proj2 (Hbits 0%nat)
                      (ex_intro _ (Z.to_nat (Z.log2 (Z.lxor b s)))
                                (conj (Nat.le_0_l _) Htop))).
    lia. }
  rewrite Hl. split; [reflexivity|]. split; [exact Hmem|].
  intros i m click doubleClick _ Hm Hbit Hst.
  assert (Hdown : (Z.land (Mouse.Buttons e) (Mouse.button m) =? 0) = false).
  { apply Z.eqb_neq. rewrite Hm. apply fsmMask_pressed.
    unfold b in Hbit. rewrite Z.land_spec in Hbit.
    now apply andb_true_iff in Hbit as [Hbit _]. }
  unfold Mouse.step. rewrite Hdown.
  destruct Hst as [-> | ->]; reflexivity.
Qed.

Lemma handleEvents_posts_buttons_witness :
  exists n,
    postButtons 8 1 (Mouse.mkEventMouse 3 0 5 5) = Some (3, seq 0 n) /\
    List.In 0%nat (seq 0 n) /\
    Mouse.step 10 20
               (Mouse.mkFSM 1 0 (mkPosition 2 2) Mouse.mbsDrag Mouse.chanDrained)
               (Mouse.InMouse (Mouse.mkEventMouse 3 0 5 5)) =
    Mouse.Next (Mouse.mkFSM 1 0 (mkPosition 2 2) Mouse.mbsIdle Mouse.chanDrained) [].
Proof.
  destruct (handleEvents_posts_buttons 8 1 (Mouse.mkEventMouse 3 0 5 5)) as (_ & _ & H).
  - lia.
  - lia.
  - destruct H as (n & _ & Hp & Hmem & Hstep); [discriminate|].
    assert (Hin : List.In 0%nat (seq 0 n)).
    { apply Hmem. exists 1%nat. split; [lia|]. discriminate. }
    exists n. split; [exact Hp|]. split; [exact Hin|].
    apply (Hstep 0%nat (Mouse.mkFSM 1 0 (mkPosition 2 2) Mouse.mbsDrag Mouse.chanDrained)
                 10 20 Hin); [reflexivity|reflexivity|now right].
Defined.

(** * Focus *)

(** The focus fields of the windows, kept beside the window store:
    [w.focus], [w.focusedWindow] (used on root windows only) and the
    reverse-video bit of [w.style.Border.Attr]. *)
Record Focus := mkFocus
  { focus : WinId -> bool;
    focusedWindow : WinId -> option WinId;
    borderReverse : WinId -> bool }.

Definition setAt {A : Type} (f : WinId -> A) (w : WinId) (v : A) : WinId -> A :=
  fun k => if Nat.eqb k w then v else f k.

(** [if u.Parent() != nil { u.Invalidate(u.Area()) }] *)
Definition invalidateChild (fuel : nat) (u : WinId) (st : State) : option State :=
  do uw <- windows st !! u;
  match parent uw with
  | Some _ => Invalidate fuel u (Area uw) st
  | None => Some st
  end.

(** [func (w *Window) onSetFocusedWindowHandler], installed on the root
    window by [newDesktop]; [SetFocus] is the method it calls on the old
    and on the new focused window. *)
Definition onSetFocusedWindowHandler
           (SetFocus : WinId -> bool -> State * Focus -> option (State * Focus))
           (fuel : nat) (w : WinId) (src : option WinId) (fs : State * Focus)
  : option (State * Focus) :=
  let '(st, fo) := fs in
  do win <- windows st !! w;
  do dsk <- desktops st !! desktop win;
  if negb (Nat.eqb w (root dsk)) then None      (* panic("internal error") *)
  else
    let old := focusedWindow fo w in
    let fs := (st, mkFocus (focus fo) (setAt (focusedWindow fo) w src)
                           (borderReverse fo)) in
    do fs <- match old with
             | Some old =>
               do fs <- SetFocus old false fs;
               do st <- invalidateChild fuel old (fst fs);
               Some (st, snd fs)
             | None => Some fs
             end;
    match src with
    | Some src =>
      do fs <- SetFocus src true fs;
      do st <- invalidateChild fuel src (fst fs);
      Some (st, snd fs)
    | None => Some fs
    end.

(** [func (w *Window) setFocusedWindow(u *Window)]: the [handle] method
    of the handler list of a root window. *)
Definition setFocusedWindow
           (SetFocus : WinId -> bool -> State * Focus -> option (State * Focus))
           (fuel : nat) (w : WinId) (u : option WinId) (fs : State * Focus)
  : option (State * Focus) :=
  let '(st, fo) := fs in
  do _ <- windows st !! w;
  if optionNat_eqb (focusedWindow fo w) u then Some fs
  else
    do st <- BeginUpdate (Some w) st;
    do fs <- onSetFocusedWindowHandler SetFocus fuel w u (st, fo);
    do st <- EndUpdate fuel (Some w) (fst fs);
    Some (st, snd fs).

(** [func (d *Desktop) SetFocusedWindow(w *Window)] *)
Definition Desktop_SetFocusedWindow
           (SetFocus : WinId -> bool -> State * Focus -> option (State * Focus))
           (fuel : nat) (d : DeskId) (u : option WinId) (fs : State * Focus)
  : option (State * Focus) :=
  do dsk <- desktops (fst fs) !! d;
  setFocusedWindow SetFocus fuel (root dsk) u fs.

(** [func (w *Window) SetFocus(v bool)] with [onSetFocusHandler]; [n]
    bounds the nesting of the calls.  The [Handle] method of the handler
    list is written out, as the lists of the other properties have it:
    it returns when the value is the stored one, and else calls the
    handler between [BeginUpdate] and [EndUpdate]. *)
Fixpoint SetFocus (n fuel : nat) (w : WinId) (v : bool) (fs : State * Focus)
  : option (State * Focus) :=
  match n with
  | O => None
  | S n =>
    let '(st, fo) := fs in
    do _ <- windows st !! w;
    if Bool.eqb (focus fo w) v then Some fs
    else
      do st <- BeginUpdate (Some w) st;
      let fo := mkFocus (setAt (focus fo) w v) (focusedWindow fo)
                        (setAt (borderReverse fo) w (negb (borderReverse fo w))) in
      do win <- windows st !! w;
      do fs <- Desktop_SetFocusedWindow (SetFocus n fuel) fuel (desktop win)
                                        (if v then Some w else None) (st, fo);
      do st <- EndUpdate fuel (Some w) (fst fs);
      Some (st, snd fs)
  end.

(** [func (d *Desktop) FocusedWindow() *Window] *)
Definition FocusedWindow (d : DeskId) (fs : State * Focus) : option WinId :=
  match desktops (fst fs) !! d with
  | Some dsk => focusedWindow (snd fs) (root dsk)
  | None => None
  end.

(** What the lemmas below need of the store: it is well formed, [r] is
    the root of desktop [d] and belongs to it, and the fuel suffices
    for painting. *)
Definition focusCtx (fuel : nat) (st : State) (d : DeskId) (r : WinId) : Prop :=
  wf st = true /\
  (2 * length (windows st) <= fuel)%nat /\
  (exists dsk, desktops st !! d = Some dsk /\ root dsk = r) /\
  (exists rw, windows st !! r = Some rw /\ desktop rw = d).

Definition inDesk (st : State) (x : WinId) (d : DeskId) : Prop :=
  exists xw, windows st !! x = Some xw /\ desktop xw = d.

Definition focusIs (fo : Focus) (f : WinId -> bool) (g : WinId -> option WinId)
           (h : WinId -> bool) : Prop :=
  (forall k, focus fo k = f k) /\
  (forall k, focusedWindow fo k = g k) /\
  (forall k, borderReverse fo k = h k).

Lemma shapeFrame_desktop st st' d dsk :
  shapeFrame st st' -> desktops st !! d = Some dsk ->
  exists dsk', desktops st' !! d = Some dsk' /\ root dsk' = root dsk.
Proof.
  intros (_ & _ & _ & R) Hd.
  assert (H : (root <$> desktops st') !! d = Some (root dsk)).
  { change (root <$> desktops st') with (map root (desktops st')). rewrite R.
    change (map root (desktops st)) with (root <$> desktops st).
    now rewrite list_lookup_fmap, Hd. }
  rewrite list_lookup_fmap in H.
  destruct (desktops st' !! d) as [dsk'|]; [|discriminate].
  exists dsk'. split; [reflexivity|]. simpl in H. congruence.
Qed.

Lemma focusCtx_shape fuel st st' d r :
  shapeFrame st st' -> focusCtx fuel st d r -> focusCtx fuel st' d r.
Proof.
  intros S (Hwf & Hf & (dsk & Hd & Hr) & Hrw).
  pose proof S as (W & _).
  split; [now rewrite (shapeFrame_wf _ _ S)|].
  split; [now rewrite W|].
  split; [|now rewrite W].
  destruct (shapeFrame_desktop _ _ _ _ S Hd) as (dsk' & Hd' & Hr').
  exists dsk'. split; [assumption|congruence].
Qed.

Lemma inDesk_shape st st' x d :
  shapeFrame st st' -> inDesk st x d -> inDesk st' x d.
Proof. intros (W & _) H. unfold inDesk. now rewrite W. Qed.

Lemma inDesk_lt st x d : inDesk st x d -> (x < length (windows st))%nat.
Proof. intros (xw & H & _). eapply lookup_lt_Some; eauto. Qed.

Lemma invalidateChild_ok fuel st d r u :
  focusCtx fuel st d r -> inDesk st u d ->
  exists st', invalidateChild fuel u st = Some st' /\ shapeFrame st st'.
Proof.
  intros (Hwf & Hf & _) Hu. pose proof (inDesk_lt _ _ _ Hu) as Hlt.
  destruct Hu as (uw & Hu & _). unfold invalidateChild. rewrite Hu.
  destruct (parent uw).
  - now apply Invalidate_ok.
  - exists st. split; [reflexivity|apply shapeFrame_refl].
Qed.

Lemma SetFocus_same n fuel st fo w v d :
  inDesk st w d -> focus fo w = v ->
  SetFocus (S n) fuel w v (st, fo) = Some (st, fo).
Proof.
  intros (ww & Hw & _) <-. cbn [SetFocus]. rewrite Hw.
  now rewrite Bool.eqb_reflx.
Qed.

Lemma eqb_negb_false a v : a = negb v -> Bool.eqb a v = false.
Proof. intros ->. now destruct v. Qed.

(** [SetFocus] on a window whose desktop already records the focus the
    call asks for: only the window changes. *)
Lemma SetFocus_leaf n fuel st fo w v d r :
  focusCtx fuel st d r -> inDesk st w d ->
  focus fo w = negb v ->
  focusedWindow fo r = (if v then Some w else None) ->
  exists st' fo',
    SetFocus (S n) fuel w v (st, fo) = Some (st', fo') /\
    shapeFrame st st' /\
    focusIs fo' (setAt (focus fo) w v) (focusedWindow fo)
            (setAt (borderReverse fo) w (negb (borderReverse fo w))).
Proof.
  intros C Hw Hfo Hfw.
  pose proof C as (Hwf & Hf & _). pose proof (inDesk_lt _ _ _ Hw) as Hlt.
  cbn [SetFocus]. destruct Hw as (ww & Hw & Hdw). rewrite Hw.
  rewrite (eqb_negb_false _ _ Hfo).
  destruct (BeginUpdate_ok st w Hwf Hlt) as (st1 & -> & S1).
  pose proof (focusCtx_shape _ _ _ _ _ S1 C) as C1.
  pose proof S1 as (W1 & _).
  rewrite W1, Hw. unfold Desktop_SetFocusedWindow. cbn [fst snd].
  rewrite Hdw.
  destruct C1 as (Hwf1 & Hf1 & (dsk1 & -> & Hr1) & (rw & Hrw & _)).
  cbv beta iota.
  unfold setFocusedWindow. rewrite Hr1, Hrw.
  cbn [focusedWindow]. rewrite Hfw, optionNat_eqb_refl. cbn [fst snd].
  destruct (EndUpdate_ok fuel st1 w Hwf1) as (st2 & -> & S2); [now rewrite W1|assumption|].
  eexists st2, _. split; [reflexivity|].
  split; [eapply shapeFrame_trans; eauto|].
  repeat split.
Qed.

Lemma optionNat_eqb_neq a b : a <> b -> optionNat_eqb a b = false.
Proof.
  destruct a as [x|], b as [y|]; simpl; intros H; try reflexivity.
  - apply Nat.eqb_neq. congruence.
  - congruence.
Qed.

(** The handler on the root [r] of [d], once its checks have passed. *)
Lemma onSetFocusedWindowHandler_eq f fuel st fo d r src :
  focusCtx fuel st d r ->
  onSetFocusedWindowHandler f fuel r src (st, fo) =
  let fs := (st, mkFocus (focus fo) (setAt (focusedWindow fo) r src)
                         (borderReverse fo)) in
  do fs <- match focusedWindow fo r with
           | Some old =>
             do fs <- f old false fs;
             do st <- invalidateChild fuel old (fst fs);
             Some (st, snd fs)
           | None => Some fs
           end;
  match src with
  | Some src =>
    do fs <- f src true fs;
    do st <- invalidateChild fuel src (fst fs);
    Some (st, snd fs)
  | None => Some fs
  end.
Proof.
  intros (_ & _ & (dsk & Hd & Hr) & (rw & Hrw & Hdr)).
  unfold onSetFocusedWindowHandler. rewrite Hrw, Hdr, Hd, Hr, Nat.eqb_refl.
  reflexivity.
Qed.

(** [SetFocus] when the desktop records another focused window than the
    call asks for: the handler of the root runs inside the update
    brackets of the window and of the root. *)
Lemma SetFocus_bracket (P : Focus -> Prop) n fuel st fo w v d r :
  focusCtx fuel st d r -> inDesk st w d ->
  focus fo w = negb v ->
  focusedWindow fo r <> (if v then Some w else None) ->
  (forall st2,
      shapeFrame st st2 ->
      exists st3 fo3,
        onSetFocusedWindowHandler
          (SetFocus n fuel) fuel r (if v then Some w else None)
          (st2, mkFocus (setAt (focus fo) w v) (focusedWindow fo)
                        (setAt (borderReverse fo) w (negb (borderReverse fo w))))
        = Some (st3, fo3) /\
        shapeFrame st2 st3 /\ P fo3) ->
  exists st' fo',
    SetFocus (S n) fuel w v (st, fo) = Some (st', fo') /\
    shapeFrame st st' /\ P fo'.
Proof.
  intros C Hw Hfo Hfw Hh.
  pose proof C as (Hwf & Hf & _). pose proof (inDesk_lt _ _ _ Hw) as Hlt.
  cbn [SetFocus]. destruct Hw as (ww & Hw & Hdw). rewrite Hw.
  rewrite (eqb_negb_false _ _ Hfo).
  destruct (BeginUpdate_ok st w Hwf Hlt) as (st1 & -> & S1).
  pose proof (focusCtx_shape _ _ _ _ _ S1 C) as C1.
  pose proof S1 as (W1 & _).
  rewrite W1, Hw. unfold Desktop_SetFocusedWindow. cbn [fst snd].
  rewrite Hdw.
  pose proof C1 as (Hwf1 & Hf1 & (dsk1 & -> & Hr1) & (rw & Hrw & _)).
  cbv beta iota.
  unfold setFocusedWindow. rewrite Hr1, Hrw.
  cbn [focusedWindow]. rewrite (optionNat_eqb_neq _ _ Hfw).
  destruct (BeginUpdate_ok st1 r Hwf1) as (st2 & -> & S2);
    [eapply lookup_lt_Some; eauto|].
  destruct (Hh st2 (shapeFrame_trans _ _ _ S1 S2)) as (st3 & fo3 & -> & S3 & HP).
  cbn [fst snd].
  pose proof (focusCtx_shape _ _ _ _ _ S2 C1) as C2.
  pose proof (focusCtx_shape _ _ _ _ _ S3 C2) as C3.
  pose proof C3 as (Hwf3 & Hf3 & _ & (rw3 & Hrw3 & _)).
  destruct (EndUpdate_ok fuel st3 r Hwf3) as (st4 & -> & S4);
    [eapply lookup_lt_Some; eauto|assumption|].
  cbv beta iota. cbn [fst snd].
  pose proof (focusCtx_shape _ _ _ _ _ S4 C3) as C4.
  pose proof C4 as (Hwf4 & Hf4 & _).
  destruct (EndUpdate_ok fuel st4 w Hwf4) as (st5 & -> & S5).
  { destruct S4 as (W4 & _). destruct S3 as (W3 & _). destruct S2 as (W2 & _).
    rewrite W4, W3, W2, W1. exact Hlt. }
  { assumption. }
  exists st5, fo3. split; [reflexivity|]. split; [|exact HP].
  repeat (eapply shapeFrame_trans; [eassumption|]). apply shapeFrame_refl.
Qed.

(** One phase of the handler: [u.SetFocus(v)] that changes nothing,
    followed by the invalidation. *)
Lemma refocus_same n fuel st fo u v d r :
  focusCtx fuel st d r -> inDesk st u d -> focus fo u = v ->
  exists st',
    (do fs <- SetFocus (S n) fuel u v (st, fo);
     do st <- invalidateChild fuel u (fst fs);
     Some (st, snd fs)) = Some (st', fo) /\
    shapeFrame st st'.
Proof.
  intros C Hu Hf. rewrite (SetFocus_same _ _ _ _ _ _ _ Hu Hf). cbn [fst snd].
  destruct (invalidateChild_ok _ _ _ _ _ C Hu) as (st' & -> & S).
  exists st'. split; [reflexivity|exact S].
Qed.

(** [SetFocus(true)] when no window of the desktop is recorded as
    focused. *)
Lemma SetFocus_take n fuel st fo w d r :
  focusCtx fuel st d r -> inDesk st w d ->
  focus fo w = false -> focusedWindow fo r = None ->
  exists st' fo',
    SetFocus (S (S n)) fuel w true (st, fo) = Some (st', fo') /\
    shapeFrame st st' /\
    focusIs fo' (setAt (focus fo) w true)
            (setAt (focusedWindow fo) r (Some w))
            (setAt (borderReverse fo) w (negb (borderReverse fo w))).
Proof.
  intros C Hw Hfo Hfw.
  apply (SetFocus_bracket _ (S n) fuel st fo w true d r C Hw Hfo);
    [rewrite Hfw; discriminate|].
  intros st2 S2. pose proof (focusCtx_shape _ _ _ _ _ S2 C) as C2.
  rewrite (onSetFocusedWindowHandler_eq _ _ _ _ _ _ _ C2).
  cbn [focusedWindow focus borderReverse]. rewrite Hfw. cbv beta iota zeta.
  destruct (refocus_same n fuel st2
              (mkFocus (setAt (focus fo) w true) (setAt (focusedWindow fo) r (Some w))
                       (setAt (borderReverse fo) w (negb (borderReverse fo w))))
              w true d r C2 (inDesk_shape _ _ _ _ S2 Hw)) as (st3 & -> & S3).
  { cbn [focus]. unfold setAt. now rewrite Nat.eqb_refl. }
  eexists st3, _. split; [reflexivity|]. split; [exact S3|]. repeat split.
Qed.

(** [SetFocus(false)] on the window recorded as focused. *)
Lemma SetFocus_drop_self n fuel st fo o d r :
  focusCtx fuel st d r -> inDesk st o d ->
  focus fo o = true -> focusedWindow fo r = Some o ->
  exists st' fo',
    SetFocus (S (S n)) fuel o false (st, fo) = Some (st', fo') /\
    shapeFrame st st' /\
    focusIs fo' (setAt (focus fo) o false)
            (setAt (focusedWindow fo) r None)
            (setAt (borderReverse fo) o (negb (borderReverse fo o))).
Proof.
  intros C Ho Hfo Hfw.
  apply (SetFocus_bracket _ (S n) fuel st fo o false d r C Ho Hfo);
    [rewrite Hfw; discriminate|].
  intros st2 S2. pose proof (focusCtx_shape _ _ _ _ _ S2 C) as C2.
  rewrite (onSetFocusedWindowHandler_eq _ _ _ _ _ _ _ C2).
  cbn [focusedWindow focus borderReverse]. rewrite Hfw. cbv beta iota zeta.
  destruct (refocus_same n fuel st2
              (mkFocus (setAt (focus fo) o false) (setAt (focusedWindow fo) r None)
                       (setAt (borderReverse fo) o (negb (borderReverse fo o))))
              o false d r C2 (inDesk_shape _ _ _ _ S2 Ho)) as (st3 & -> & S3).
  { cbn [focus]. unfold setAt. now rewrite Nat.eqb_refl. }
  eexists st3, _. split; [reflexivity|]. split; [exact S3|]. repeat split.
Qed.

(** [SetFocus(false)] on a focused window [o] while the desktop records
    another focused window [x]: both lose the focus. *)
Lemma SetFocus_drop_other n fuel st fo o x d r :
  focusCtx fuel st d r -> inDesk st o d -> inDesk st x d ->
  x <> o ->
  focus fo o = true -> focus fo x = true -> focusedWindow fo r = Some x ->
  exists st' fo',
    SetFocus (S (S n)) fuel o false (st, fo) = Some (st', fo') /\
    shapeFrame st st' /\
    focusIs fo' (setAt (setAt (focus fo) o false) x false)
            (setAt (focusedWindow fo) r None)
            (setAt (setAt (borderReverse fo) o (negb (borderReverse fo o)))
                   x (negb (borderReverse fo x))).
Proof.
  intros C Ho Hx Hne Hfo Hfx Hfw.
  apply (SetFocus_bracket _ (S n) fuel st fo o false d r C Ho Hfo);
    [rewrite Hfw; discriminate|].
  intros st2 S2. pose proof (focusCtx_shape _ _ _ _ _ S2 C) as C2.
  rewrite (onSetFocusedWindowHandler_eq _ _ _ _ _ _ _ C2).
  cbn [focusedWindow focus borderReverse]. rewrite Hfw. cbv beta iota zeta.
  assert (Hxo : Nat.eqb x o = false) by (now apply Nat.eqb_neq).
  destruct (SetFocus_leaf n fuel st2
              (mkFocus (setAt (focus fo) o false) (setAt (focusedWindow fo) r None)
                       (setAt (borderReverse fo) o (negb (borderReverse fo o))))
              x false d r C2 (inDesk_shape _ _ _ _ S2 Hx))
    as (st3 & fo3 & -> & S3 & F3 & G3 & H3).
  { cbn [focus]. unfold setAt. now rewrite Hxo. }
  { cbn [focusedWindow]. unfold setAt. now rewrite Nat.eqb_refl. }
  cbn [fst snd].
  pose proof (focusCtx_shape _ _ _ _ _ S3 C2) as C3.
  destruct (invalidateChild_ok _ _ _ _ x C3) as (st4 & -> & S4).
  { eapply inDesk_shape; [exact S3|]. eapply inDesk_shape; eauto. }
  exists st4, fo3. split; [reflexivity|].
  split; [eapply shapeFrame_trans; eauto|].
  cbn [focus focusedWindow borderReverse] in F3, G3, H3.
  split; [exact F3|]. split; [exact G3|].
  intros k. rewrite H3. unfold setAt. rewrite Hxo. reflexivity.
Qed.

(** [SetFocus(true)] on a window without focus while the desktop
    records another, focused, window [o]. *)
Lemma SetFocus_move n fuel st fo w o d r :
  focusCtx fuel st d r -> inDesk st w d -> inDesk st o d ->
  o <> w ->
  focus fo w = false -> focus fo o = true -> focusedWindow fo r = Some o ->
  exists st' fo',
    SetFocus (S (S (S n))) fuel w true (st, fo) = Some (st', fo') /\
    shapeFrame st st' /\
    focusIs fo' (setAt (setAt (focus fo) o false) w true)
            (setAt (focusedWindow fo) r (Some w))
            (setAt (setAt (borderReverse fo) o (negb (borderReverse fo o)))
                   w (negb (borderReverse fo w))).
Proof.
  intros C Hw Ho Hne Hfw Hfo Hr.
  apply (SetFocus_bracket _ (S (S n)) fuel st fo w true d r C Hw Hfw);
    [rewrite Hr; congruence|].
  intros st2 S2. pose proof (focusCtx_shape _ _ _ _ _ S2 C) as C2.
  rewrite (onSetFocusedWindowHandler_eq _ _ _ _ _ _ _ C2).
  cbn [focusedWindow focus borderReverse]. rewrite Hr. cbv beta iota zeta.
  assert (How : Nat.eqb o w = false) by (now apply Nat.eqb_neq).
  assert (Hwo : Nat.eqb w o = false) by (apply Nat.eqb_neq; congruence).
  (* the old window loses the focus, and takes it from [w] too *)
  destruct (SetFocus_drop_other n fuel st2
              (mkFocus (setAt (focus fo) w true) (setAt (focusedWindow fo) r (Some w))
                       (setAt (borderReverse fo) w (negb (borderReverse fo w))))
              o w d r C2 (inDesk_shape _ _ _ _ S2 Ho) (inDesk_shape _ _ _ _ S2 Hw))
    as (st3 & fo3 & -> & S3 & F3 & G3 & H3).
  { congruence. }
  { cbn [focus]. unfold setAt. now rewrite How. }
  { cbn [focus]. unfold setAt. now rewrite Nat.eqb_refl. }
  { cbn [focusedWindow]. unfold setAt. now rewrite Nat.eqb_refl. }
  cbn [fst snd]. cbn [focus focusedWindow borderReverse] in F3, G3, H3.
  pose proof (focusCtx_shape _ _ _ _ _ S3 C2) as C3.
  assert (Ho3 : inDesk st3 o d)
    by (eapply inDesk_shape; [exact S3|]; eapply inDesk_shape; eauto).
  assert (Hw3 : inDesk st3 w d)
    by (eapply inDesk_shape; [exact S3|]; eapply inDesk_shape; eauto).
  destruct (invalidateChild_ok _ _ _ _ o C3 Ho3) as (st4 & -> & S4).
  cbn [fst snd].
  pose proof (focusCtx_shape _ _ _ _ _ S4 C3) as C4.
  (* [w] takes the focus again *)
  destruct (SetFocus_take n fuel st4 fo3 w d r C4 (inDesk_shape _ _ _ _ S4 Hw3))
    as (st5 & fo5 & -> & S5 & F5 & G5 & H5).
  { rewrite F3. unfold setAt. now rewrite Nat.eqb_refl. }
  { rewrite G3. unfold setAt. now rewrite Nat.eqb_refl. }
  cbn [fst snd].
  pose proof (focusCtx_shape _ _ _ _ _ S5 C4) as C5.
  destruct (invalidateChild_ok _ _ _ _ w C5) as (st6 & -> & S6).
  { eapply inDesk_shape; [exact S5|]. eapply inDesk_shape; eauto. }
  exists st6, fo5. split; [reflexivity|].
  split; [repeat (eapply shapeFrame_trans; [eassumption|]); apply shapeFrame_refl|].
  split; [|split]; intros k.
  - rewrite F5. unfold setAt. rewrite F3. unfold setAt.
    destruct (Nat.eqb k w); [reflexivity|].
    destruct (Nat.eqb k o); reflexivity.
  - rewrite G5. unfold setAt. rewrite G3. unfold setAt.
    destruct (Nat.eqb k r); reflexivity.
  - rewrite H5. unfold setAt. rewrite !H3. unfold setAt.
    rewrite !Nat.eqb_refl, ?Hwo, ?How.
    destruct (Nat.eqb k w); [now rewrite Bool.negb_involutive|].
    destruct (Nat.eqb k o); reflexivity.
Qed.

Lemma focusCtx_intro fuel st w win dsk rw :
  wf st = true -> (2 * length (windows st) <= fuel)%nat ->
  windows st !! w = Some win ->
  desktops st !! desktop win = Some dsk ->
  windows st !! root dsk = Some rw -> desktop rw = desktop win ->
  focusCtx fuel st (desktop win) (root dsk) /\ inDesk st w (desktop win).
Proof.
  intros Hwf Hf Hw Hd Hr Hrd. split.
  - split; [assumption|]. split; [assumption|]. split; eauto.
  - exists win. auto.
Qed.

Lemma optionNat_eqb_Some a x : optionNat_eqb a (Some x) = true <-> a = Some x.
Proof.
  destruct a as [y|]; simpl; [|split; discriminate].
  rewrite Nat.eqb_eq. split; congruence.
Qed.

(** The focus fields after a [SetFocus(v)] that changes the focus state
    of [w], when the window recorded as focused is focused. *)
Lemma SetFocus_result n fuel st fo w v d r :
  focusCtx fuel st d r -> inDesk st w d ->
  (forall x, focusedWindow fo r = Some x -> x <> w ->
             focus fo x = true /\ inDesk st x d) ->
  focus fo w = negb v ->
  exists st' fo',
    SetFocus (S (S (S n))) fuel w v (st, fo) = Some (st', fo') /\
    shapeFrame st st' /\
    (forall x, focus fo' x =
               if Nat.eqb x w then v
               else if optionNat_eqb (focusedWindow fo r) (Some x)
                    then false else focus fo x) /\
    (forall k, focusedWindow fo' k =
               if Nat.eqb k r then (if v then Some w else None)
               else focusedWindow fo k) /\
    (forall x, borderReverse fo' x =
               if Nat.eqb x w then negb (borderReverse fo w)
               else if optionNat_eqb (focusedWindow fo r) (Some x)
                    then negb (borderReverse fo x) else borderReverse fo x).
Proof.
  intros C Hin Hold Hv.
  destruct (focusedWindow fo r) as [o|] eqn:Hfw.
  - destruct (Nat.eq_dec o w) as [->|Hne].
    + (* the window is recorded as focused *)
      destruct v.
      * destruct (SetFocus_leaf (S (S n)) fuel st fo w true _ _ C Hin Hv Hfw)
          as (st' & fo' & H & S & F & G & R).
        exists st', fo'. split; [exact H|]. split; [exact S|].
        split; [|split]; intros k.
        { rewrite F. unfold setAt. destruct (Nat.eqb_spec k w) as [->|Hk]; [reflexivity|].
          simpl. destruct (Nat.eqb_spec w k); [congruence|reflexivity]. }
        { rewrite G. destruct (Nat.eqb_spec k r) as [->|]; [exact Hfw|reflexivity]. }
        { rewrite R. unfold setAt. destruct (Nat.eqb_spec k w) as [->|Hk]; [reflexivity|].
          simpl. destruct (Nat.eqb_spec w k); [congruence|reflexivity]. }
      * destruct (SetFocus_drop_self (S n) fuel st fo w _ _ C Hin Hv Hfw)
          as (st' & fo' & H & S & F & G & R).
        exists st', fo'. split; [exact H|]. split; [exact S|].
        split; [|split]; intros k.
        { rewrite F. unfold setAt. destruct (Nat.eqb_spec k w) as [->|Hk]; [reflexivity|].
          simpl. destruct (Nat.eqb_spec w k); [congruence|reflexivity]. }
        { rewrite G. unfold setAt. reflexivity. }
        { rewrite R. unfold setAt. destruct (Nat.eqb_spec k w) as [->|Hk]; [reflexivity|].
          simpl. destruct (Nat.eqb_spec w k); [congruence|reflexivity]. }
    + (* another window is recorded as focused *)
      destruct (Hold o eq_refl Hne) as (Hfo & Ho).
      assert (Hwo : Nat.eqb w o = false) by (apply Nat.eqb_neq; congruence).
      destruct v.
      * destruct (SetFocus_move n fuel st fo w o _ _ C Hin Ho Hne Hv Hfo Hfw)
          as (st' & fo' & H & S & F & G & R).
        exists st', fo'. split; [exact H|]. split; [exact S|].
        split; [|split]; intros k.
        { rewrite F. unfold setAt. destruct (Nat.eqb_spec k w) as [->|Hk]; [reflexivity|].
          simpl. rewrite (Nat.eqb_sym o k). reflexivity. }
        { rewrite G. unfold setAt. reflexivity. }
        { rewrite R. unfold setAt. destruct (Nat.eqb_spec k w) as [->|Hk]; [reflexivity|].
          simpl. rewrite (Nat.eqb_sym o k).
          destruct (Nat.eqb_spec k o) as [->|]; reflexivity. }
      * destruct (SetFocus_drop_other (S n) fuel st fo w o _ _ C Hin Ho Hne Hv Hfo Hfw)
          as (st' & fo' & H & S & F & G & R).
        exists st', fo'. split; [exact H|]. split; [exact S|].
        split; [|split]; intros k.
        { rewrite F. unfold setAt. simpl. rewrite (Nat.eqb_sym o k).
          destruct (Nat.eqb_spec k o) as [->|Hk].
          - now rewrite Nat.eqb_sym, Hwo.
          - reflexivity. }
        { rewrite G. unfold setAt. reflexivity. }
        { rewrite R. unfold setAt. simpl. rewrite (Nat.eqb_sym o k).
          destruct (Nat.eqb_spec k o) as [->|Hk].
          - now rewrite Nat.eqb_sym, Hwo.
          - reflexivity. }
  - (* no window is recorded as focused *)
    destruct v.
    + destruct (SetFocus_take (S n) fuel st fo w _ _ C Hin Hv Hfw)
        as (st' & fo' & H & S & F & G & R).
      exists st', fo'. split; [exact H|]. split; [exact S|].
      split; [|split]; intros k.
      { rewrite F. unfold setAt. destruct (Nat.eqb k w); reflexivity. }
      { rewrite G. unfold setAt. reflexivity. }
      { rewrite R. unfold setAt. destruct (Nat.eqb k w); reflexivity. }
    + destruct (SetFocus_leaf (S (S n)) fuel st fo w false _ _ C Hin Hv Hfw)
        as (st' & fo' & H & S & F & G & R).
      exists st', fo'. split; [exact H|]. split; [exact S|].
      split; [|split]; intros k.
      { rewrite F. unfold setAt. destruct (Nat.eqb k w); reflexivity. }
      { rewrite G. destruct (Nat.eqb_spec k r) as [->|]; [exact Hfw|reflexivity]. }
      { rewrite R. unfold setAt. destruct (Nat.eqb k w); reflexivity. }
Qed.

(** X24: [SetFocus(v)] on a window that has the focus state [v] already
    does nothing.  Otherwise, when the window the desktop records as
    focused really is focused, the call returns; the window then has the
    focus state [v], the desktop records it as the focused window for
    [v = true] and no window for [v = false], the window recorded before
    has lost the focus, no other window and no other desktop is touched,
    the window tree is as before, and the reverse-video bit of the
    border of every window has flipped exactly when its focus state
    changed.  So if at most the recorded window was focused before, at
    most [w] is afterwards. *)
Theorem SetFocus_exclusive :
  forall (n fuel : nat) (st : State) (fo : Focus) (w : WinId) (v : bool)
         (win : Window) (dsk : Desktop) (rw : Window),
    wf st = true ->
    (2 * length (windows st) <= fuel)%nat ->
    (3 <= n)%nat ->
    windows st !! w = Some win ->
    desktops st !! desktop win = Some dsk ->
    windows st !! root dsk = Some rw ->
    desktop rw = desktop win ->
    (forall x, focusedWindow fo (root dsk) = Some x -> x <> w ->
               focus fo x = true /\
               exists xw, windows st !! x = Some xw /\ desktop xw = desktop win) ->
    (focus fo w = v -> SetFocus n fuel w v (st, fo) = Some (st, fo)) /\
    (focus fo w = negb v ->
     exists st' fo',
       SetFocus n fuel w v (st, fo) = Some (st', fo') /\
       windows st' = windows st /\
       focus fo' w = v /\
       FocusedWindow (desktop win) (st', fo') = (if v then Some w else None) /\
       (forall x, x <> w ->
                  focus fo' x =
                  if optionNat_eqb (focusedWindow fo (root dsk)) (Some x)
                  then false else focus fo x) /\
       (forall r, r <> root dsk -> focusedWindow fo' r = focusedWindow fo r) /\
       (forall x, xorb (borderReverse fo' x) (focus fo' x) =
                  xorb (borderReverse fo x) (focus fo x)) /\
       (forall x, (focus fo x = true -> focusedWindow fo (root dsk) = Some x) ->
                  focus fo' x = true -> x = w /\ v = true)).
Proof.
  intros n fuel st fo w v win dsk rw Hwf Hfuel Hn Hw Hd Hr Hrd Hold.
  destruct (focusCtx_intro _ _ _ _ _ _ Hwf Hfuel Hw Hd Hr Hrd) as [C Hin].
  destruct n as [|[|[|n]]]; try lia.
  split; [intros Hv; eapply SetFocus_same; eauto|].
  intros Hv.
  destruct (SetFocus_result n fuel st fo w v _ _ C Hin Hold Hv)
    as (st' & fo' & H & S & F & G & R).
  exists st', fo'. split; [exact H|].
  split; [destruct S as (W & _); exact W|].
  split; [rewrite F; now rewrite Nat.eqb_refl|].
  split.
  { unfold FocusedWindow. cbn [fst snd].
    destruct (shapeFrame_desktop _ _ _ _ S Hd) as (dsk' & -> & ->).
    rewrite G. now rewrite Nat.eqb_refl. }
  split.
  { intros x Hx. rewrite F. apply Nat.eqb_neq in Hx. now rewrite Hx. }
  split.
  { intros r Hne. rewrite G. apply Nat.eqb_neq in Hne. now rewrite Hne. }
  split.
  { intros x. rewrite F, R.
    destruct (Nat.eqb_spec x w) as [->|Hx].
    - rewrite Hv. destruct v, (borderReverse fo w); reflexivity.
    - destruct (optionNat_eqb (focusedWindow fo (root dsk)) (Some x)) eqn:E;
        [|reflexivity].
      apply optionNat_eqb_Some in E.
      destruct (Hold x E Hx) as (-> & _).
      destruct (borderReverse fo x); reflexivity. }
  intros x Hx Hfx. rewrite F in Hfx.
  destruct (Nat.eqb_spec x w) as [->|Hne]; [auto|].
  destruct (optionNat_eqb (focusedWindow fo (root dsk)) (Some x)) eqn:E;
    [discriminate|].
  apply Hx, optionNat_eqb_Some in Hfx. congruence.
Qed.

(** Window 1 of [siblingWindows] has the focus. *)
Definition focusOnOne : Focus :=
  mkFocus (fun k => Nat.eqb k 1)
          (fun r => if Nat.eqb r 0 then Some 1%nat else None)
          (fun k => Nat.eqb k 1).

Lemma SetFocus_exclusive_witness :
  exists st' fo',
    SetFocus 3 8 3 true (siblingWindows, focusOnOne) = Some (st', fo') /\
    focus fo' 3%nat = true /\ focus fo' 1%nat = false /\
    FocusedWindow 0 (st', fo') = Some 3%nat /\
    borderReverse fo' 3%nat = true /\ borderReverse fo' 1%nat = false.
Proof.
  destruct (lookup_valid (windows siblingWindows) 3 ltac:(simpl; lia)) as [win Hwin].
  assert (Hwin' := Hwin). vm_compute in Hwin'. injection Hwin' as Hwin'.
  destruct (lookup_valid (windows siblingWindows) 1 ltac:(simpl; lia)) as [w1 Hw1].
  assert (Hw1' := Hw1). vm_compute in Hw1'. injection Hw1' as Hw1'.
  destruct (lookup_valid (windows siblingWindows) 0 ltac:(simpl; lia)) as [rw Hrw].
  assert (Hrw' := Hrw). vm_compute in Hrw'. injection Hrw' as Hrw'.
  destruct (lookup_valid (desktops siblingWindows) 0 ltac:(simpl; lia)) as [dsk Hdsk].
  assert (Hdsk' := Hdsk). vm_compute in Hdsk'. injection Hdsk' as Hdsk'.
  assert (Hdw : desktop win = 0%nat) by (subst win; reflexivity).
  assert (Hroot : root dsk = 0%nat) by (subst dsk; reflexivity).
  destruct (SetFocus_exclusive 3 8 siblingWindows focusOnOne 3%nat true win dsk rw)
    as [_ H].
  - reflexivity.
  - simpl. lia.
  - lia.
  - exact Hwin.
  - rewrite Hdw. exact Hdsk.
  - rewrite Hroot. exact Hrw.
  - rewrite Hdw. subst rw. reflexivity.
  - intros x Hx _. rewrite Hroot in Hx. simpl in Hx. injection Hx as <-.
    split; [reflexivity|]. exists w1. split; [exact Hw1|].
    rewrite Hdw. subst w1. reflexivity.
  - destruct H as (st' & fo' & H1 & _ & H2 & H3 & H4 & _ & H5 & _); [reflexivity|].
    exists st', fo'. split; [exact H1|]. split; [exact H2|].
    split; [rewrite H4 by lia; rewrite Hroot; reflexivity|].
    split; [rewrite <- H3, Hdw; reflexivity|].
    pose proof (H5 3%nat) as P3. pose proof (H5 1%nat) as P1.
    rewrite H2 in P3. rewrite (H4 1%nat ltac:(lia)), Hroot in P1.
    simpl in P3, P1.
    split.
    + destruct (borderReverse fo' 3%nat); [reflexivity|discriminate].
    + destruct (borderReverse fo' 1%nat); [discriminate|reflexivity].
Defined.

(** * Clicks on the border *)

Lemma roots_lookup (ds ds' : list Desktop) d dsk :
  map root ds' = map root ds -> ds !! d = Some dsk ->
  exists dsk', ds' !! d = Some dsk' /\ root dsk' = root dsk.
Proof.
  intros R Hd.
  assert (H : (root <$> ds') !! d = Some (root dsk)).
  { change (root <$> ds') with (map root ds'). rewrite R.
    change (map root ds) with (root <$> ds).
    now rewrite list_lookup_fmap, Hd. }
  rewrite list_lookup_fmap in H.
  destruct (ds' !! d) as [dsk'|]; [|discriminate].
  exists dsk'. split; [reflexivity|]. simpl in H. congruence.
Qed.

(** [func (w *Window) onClickBorderHandler]; [Close] is the method of
    that name, whose body is outside this development.  The result is
    the value the handler returns. *)
Definition onClickBorderHandler
           (Close : WinId -> State * Focus -> option (State * Focus))
           (depth n fuel : nat) (w : WinId) (button mods : Z) (pos : Position)
           (fs : State * Focus) : option (bool * (State * Focus)) :=
  if negb (button =? Button1) || negb (mods =? 0) then Some (false, fs)
  else
    do st <- BringToFront depth fuel w (fst fs);
    do fs <- SetFocus n fuel w true (st, snd fs);
    do win <- windows (fst fs) !! w;
    if closeButton win && In pos (closeButtonArea win) then
      do fs <- Close w fs;
      Some (true, fs)
    else Some (false, fs).

(** X25: a click on the border of a window.  With another button than
    the first, or with a modifier, the handler does nothing and returns
    false.  Otherwise the window is brought to the front and gets the
    focus: it is the last child of its parent, it is the focused window
    of its desktop, and the window focused before has lost the focus;
    the windows keep everything but the order of children.  [Close] is
    then called, and true returned, exactly when the window shows a
    close button and the click is on it; in every other case the handler
    returns false. *)
Theorem click_on_border_raises_and_focuses :
  forall (Close : WinId -> State * Focus -> option (State * Focus))
         (depth n fuel : nat) (st : State) (fo : Focus) (w : WinId)
         (button mods : Z) (pos : Position)
         (win : Window) (dsk : Desktop) (rw : Window),
    wf st = true ->
    (2 * length (windows st) <= fuel)%nat ->
    (w <= depth)%nat -> (3 <= n)%nat ->
    windows st !! w = Some win ->
    desktops st !! desktop win = Some dsk ->
    windows st !! root dsk = Some rw ->
    desktop rw = desktop win ->
    (forall x, focusedWindow fo (root dsk) = Some x -> x <> w ->
               focus fo x = true /\
               exists xw, windows st !! x = Some xw /\ desktop xw = desktop win) ->
    (focus fo w = true -> focusedWindow fo (root dsk) = Some w) ->
    (button <> Button1 \/ mods <> 0 ->
     onClickBorderHandler Close depth n fuel w button mods pos (st, fo) =
     Some (false, (st, fo))) /\
    (button = Button1 -> mods = 0 ->
     exists st' fo',
       onClickBorderHandler Close depth n fuel w button mods pos (st, fo) =
       (if closeButton win && In pos (closeButtonArea win)
        then do fs <- Close w (st', fo'); Some (true, fs)
        else Some (false, (st', fo'))) /\
       focus fo' w = true /\
       FocusedWindow (desktop win) (st', fo') = Some w /\
       (forall x, x <> w -> focusedWindow fo (root dsk) = Some x ->
                  focus fo' x = false) /\
       frontOf (windows st') w /\
       (forall k x, windows st !! k = Some x ->
                    exists cs, windows st' !! k = Some (withChildren cs x) /\
                               Permutation (children x) cs)).
Proof.
  intros Close depth n fuel st fo w button mods pos win dsk rw
         Hwf Hfuel Hdepth Hn Hw Hd Hr Hrd Hold Hcons.
  unfold onClickBorderHandler. split.
  { intros [Hb|Hm].
    - destruct (Z.eqb_spec button Button1); [contradiction|reflexivity].
    - destruct (Z.eqb_spec mods 0); [contradiction|].
      now rewrite orb_true_r. }
  intros -> ->. rewrite !Z.eqb_refl. cbn [negb orb fst snd].
  (* BringToFront *)
  assert (Hb : exists st1,
             BringToFront depth fuel w st = Some st1 /\
             reordered st st1 /\ frontOf (windows st1) w).
  { unfold BringToFront. rewrite Hw.
    pose proof (lookup_lt_Some _ _ _ Hw) as Hlt.
    destruct (parent win) as [p|] eqn:Hp.
    - pose proof (wf_parent_lt _ _ _ _ Hwf Hw Hp) as Hpw.
      destruct (bringChildWindowToFront_ok fuel depth p w st Hwf)
        as (st1 & H & R & _ & _ & FA); try lia.
      exists st1. split; [exact H|]. split; [exact R|].
      intros x g Hx Hg.
      destruct (reordered_lookup _ _ _ _ R Hx) as (x0 & Hx0 & Ex & _).
      rewrite Hw in Hx0. injection Hx0 as <-.
      rewrite Ex in Hg. cbn [parent withChildren] in Hg.
      rewrite Hp in Hg. injection Hg as <-. exact FA.
    - exists st. split; [destruct depth; reflexivity|].
      split; [apply reordered_refl|].
      intros x g Hx Hg. rewrite Hw in Hx. injection Hx as <-. congruence. }
  destruct Hb as (st1 & -> & R1 & Hfront).
  pose proof (reordered_wf _ _ R1 Hwf) as Hwf1.
  pose proof R1 as (L1 & W1 & _ & Rt1).
  destruct (W1 _ _ Hw) as (cs & Hw1 & _).
  destruct (W1 _ _ Hr) as (csr & Hr1 & _).
  destruct (roots_lookup _ _ _ _ Rt1 Hd) as (dsk1 & Hd1 & Hroot1).
  assert (C1 : focusCtx fuel st1 (desktop win) (root dsk)).
  { split; [assumption|]. split; [lia|]. split; [eauto|].
    exists (withChildren csr rw). split; [assumption|exact Hrd]. }
  assert (Hin1 : inDesk st1 w (desktop win)).
  { exists (withChildren cs win). split; [assumption|reflexivity]. }
  assert (Hold1 : forall x, focusedWindow fo (root dsk) = Some x -> x <> w ->
                            focus fo x = true /\ inDesk st1 x (desktop win)).
  { intros x Hx Hne. destruct (Hold x Hx Hne) as (Hf & xw & Hxw & Hdx).
    split; [exact Hf|]. destruct (W1 _ _ Hxw) as (csx & Hx1 & _).
    exists (withChildren csx xw). split; [assumption|exact Hdx]. }
  (* SetFocus(true) *)
  assert (Hs : exists st2 fo2,
             SetFocus n fuel w true (st1, fo) = Some (st2, fo2) /\
             shapeFrame st1 st2 /\
             focus fo2 w = true /\
             focusedWindow fo2 (root dsk) = Some w /\
             (forall x, x <> w -> focusedWindow fo (root dsk) = Some x ->
                        focus fo2 x = false)).
  { destruct n as [|[|[|n]]]; try lia.
    destruct (focus fo w) eqn:Hfw.
    - (* the window has the focus already *)
      rewrite (SetFocus_same _ _ _ _ _ _ _ Hin1 Hfw).
      exists st1, fo. split; [reflexivity|]. split; [apply shapeFrame_refl|].
      split; [exact Hfw|].
      split; [now apply Hcons|].
      intros x Hne Hx. rewrite (Hcons eq_refl) in Hx. congruence.
    - destruct (SetFocus_result n fuel st1 fo w true _ _ C1 Hin1 Hold1 Hfw)
        as (st2 & fo2 & H & S & F & G & _).
      exists st2, fo2. split; [exact H|]. split; [exact S|].
      split; [rewrite F; now rewrite Nat.eqb_refl|].
      split; [rewrite G; now rewrite Nat.eqb_refl|].
      intros x Hne Hx. rewrite F. apply Nat.eqb_neq in Hne. rewrite Hne, Hx.
      simpl. now rewrite Nat.eqb_refl. }
  destruct Hs as (st2 & fo2 & -> & S2 & Hf2 & Hfw2 & Hoth).
  cbn [fst snd]. pose proof S2 as (W2 & _ & _ & Rt2).
  rewrite W2, Hw1.
  change (closeButton (withChildren cs win)) with (closeButton win).
  change (closeButtonArea (withChildren cs win)) with (closeButtonArea win).
  exists st2, fo2. split; [reflexivity|].
  split; [exact Hf2|]. split.
  { unfold FocusedWindow. cbn [fst snd].
    destruct (roots_lookup _ _ _ _ Rt2 Hd1) as (dsk2 & -> & ->).
    now rewrite Hroot1. }
  split; [exact Hoth|].
  split; [now rewrite W2|].
  intros k x Hk. rewrite W2. now apply W1.
Qed.

(** No window has the focus. *)
Definition noFocus : Focus :=
  mkFocus (fun _ => false) (fun _ => None) (fun _ => false).

Lemma click_on_border_raises_and_focuses_witness :
  exists st' fo' r,
    onClickBorderHandler (fun _ _ => None) 1 3 8 1 Button1 0 (mkPosition 0 0)
                         (siblingWindows, noFocus) = Some (false, (st', fo')) /\
    focus fo' 1%nat = true /\
    FocusedWindow 0 (st', fo') = Some 1%nat /\
    windows st' !! 0%nat = Some r /\
    last (children r) = Some 1%nat.
Proof.
  destruct (lookup_valid (windows siblingWindows) 1 ltac:(simpl; lia)) as [win Hwin].
  assert (Hwin' := Hwin). vm_compute in Hwin'. injection Hwin' as Hwin'.
  destruct (lookup_valid (windows siblingWindows) 0 ltac:(simpl; lia)) as [rw Hrw].
  assert (Hrw' := Hrw). vm_compute in Hrw'. injection Hrw' as Hrw'.
  destruct (lookup_valid (desktops siblingWindows) 0 ltac:(simpl; lia)) as [dsk Hdsk].
  assert (Hdsk' := Hdsk). vm_compute in Hdsk'. injection Hdsk' as Hdsk'.
  assert (Hdw : desktop win = 0%nat) by (subst win; reflexivity).
  assert (Hroot : root dsk = 0%nat) by (subst dsk; reflexivity).
  assert (Hcb : closeButton win = false) by (subst win; reflexivity).
  assert (Hpar : parent win = Some 0%nat) by (subst win; reflexivity).
  assert (Hch : children rw = [1%nat; 3%nat]) by (subst rw; reflexivity).
  destruct (click_on_border_raises_and_focuses
              (fun _ _ => None) 1 3 8 siblingWindows noFocus 1%nat Button1 0
              (mkPosition 0 0) win dsk rw) as [_ H].
  - reflexivity.
  - simpl. lia.
  - lia.
  - lia.
  - exact Hwin.
  - rewrite Hdw. exact Hdsk.
  - rewrite Hroot. exact Hrw.
  - rewrite Hdw. subst rw. reflexivity.
  - intros x Hx. discriminate Hx.
  - intros Hf. discriminate Hf.
  - destruct (H eq_refl eq_refl) as (st' & fo' & H1 & H2 & H3 & _ & H4 & H5).
    rewrite Hcb in H1. cbn [andb] in H1.
    destruct (H5 _ _ Hrw) as (cs0 & G0 & P0).
    destruct (H5 _ _ Hwin) as (cs1 & G1 & _).
    exists st', fo', (withChildren cs0 rw).
    split; [exact H1|]. split; [exact H2|].
    split; [rewrite <- H3, Hdw; reflexivity|].
    split; [exact G0|].
    apply (H4 (withChildren cs1 win) 0%nat G1 Hpar (withChildren cs0 rw) G0).
    cbn [children withChildren].
    eapply Permutation_in; [exact P0|]. rewrite Hch. simpl. auto.
Defined.

(** * Selection *)

Definition withSelection (r : Rectangle) (w : Window) : Window :=
  mkWindow (borderBottom w) (borderLeft w) (borderRight w) (borderTop w)
           (children w) (clientArea w) (closeButton w) (desktop w)
           (paintHandlers w) (parent w) (position w) r
           (size w) (title w) (view w).

(** [func (w *Window) onSetSelectionHandler], installed on the root
    window by [newDesktop]:
    [App.BeginUpdate(); *dst = src; App.EndUpdate()]. *)
Definition onSetSelectionHandler (w : WinId) (src : Rectangle) (st : State)
  : option State :=
  do st <- Application_beginUpdate st;
  do st <- updWindow w (withSelection src) st;
  Application_endUpdate st.

(** [func (d *Desktop) SetSelection(area Rectangle)] with the [handle]
    method of the handler list of the root window. *)
Definition SetSelection (fuel : nat) (d : DeskId) (area : Rectangle) (st : State)
  : option State :=
  do dsk <- desktops st !! d;
  let r := root dsk in
  do rw <- windows st !! r;
  if Rectangle_eqb (selection rw) area then Some st
  else
    do st <- BeginUpdate (Some r) st;
    do st <- onSetSelectionHandler r area st;
    EndUpdate fuel (Some r) st.

Lemma Rectangle_eqb_eq r s : Rectangle_eqb r s = true <-> r = s.
Proof.
  unfold Rectangle_eqb. rewrite andb_true_iff, Position_eqb_eq, Size_eqb_eq.
  destruct r, s; simpl. split; [intros [-> ->]; reflexivity|].
  intros H. injection H as -> ->. auto.
Qed.

Lemma keepsTree_withSelection r : keepsTree (withSelection r).
Proof. intros w. reflexivity. Qed.

(** X26: [SetSelection] with the selection the desktop has does
    nothing.  Otherwise, outside of an application update, it returns
    and stores the area in the root window; the screen gets, in this
    order, the toggle of the selection shown before, the toggle of the
    selection shown afterwards and one flush, and nothing is painted;
    the update levels of the application and of the desktops are as
    before.  When the desktop is the one shown, the selection toggled
    last is the new area, unless it is empty. *)
Theorem SetSelection_toggles :
  forall (fuel : nat) (st : State) (d : DeskId) (dsk : Desktop) (rw : Window)
         (area : Rectangle),
    wf st = true ->
    app_updateLevel st = 0 ->
    desktops st !! d = Some dsk ->
    windows st !! root dsk = Some rw ->
    (forall dw, desktops st !! desktop rw = Some dw -> in_int (updateLevel dw)) ->
    (selection rw = area -> SetSelection fuel d area st = Some st) /\
    (selection rw <> area ->
     exists st',
       SetSelection fuel d area st = Some st' /\
       windows st' = <[root dsk := withSelection area rw]> (windows st) /\
       log st' = log st ++ selectionOf st ++ selectionOf st' ++ [EvShow] /\
       app_updateLevel st' = 0 /\
       app_desktop st' = app_desktop st /\
       map root (desktops st') = map root (desktops st) /\
       map updateLevel (desktops st') = map updateLevel (desktops st) /\
       (app_desktop st = Some d ->
        selectionOf st' = if IsZero (Sz area) then [] else [EvSelection area])).
Proof.
  intros fuel st d dsk rw area Hwf Hlvl Hd Hrw Hint.
  unfold SetSelection. rewrite Hd. cbv zeta. rewrite Hrw. split.
  { intros ->. now rewrite (proj2 (Rectangle_eqb_eq area area) eq_refl). }
  intros Hne.
  destruct (Rectangle_eqb (selection rw) area) eqn:E;
    [apply Rectangle_eqb_eq in E; contradiction|].
  pose proof (lookup_lt_Some _ _ _ Hrw) as Hrlt.
  destruct (lookup_valid _ _ (wf_desktop _ _ _ Hwf Hrw)) as [dw Hdw].
  specialize (Hint dw Hdw).
  (* BeginUpdate on the root *)
  unfold BeginUpdate. rewrite Hrw.
  erewrite updDesktop_setDesk by (try eassumption; reflexivity).
  cbn [invalidated updateLevel].
  rewrite (iadd_one_eq_one _ Hint).
  set (inv1 := if updateLevel dw =? 0 then zeroRectangle else invalidated dw).
  set (s1 := setDesk (desktop rw) inv1 (iadd (updateLevel dw) 1) st).
  assert (Hwf1 : wf s1 = true) by (unfold s1; rewrite setDesk_wf; assumption).
  (* the handler *)
  unfold onSetSelectionHandler.
  assert (Es1 : s1 = leveled 0 (log st) s1).
  { unfold leveled, s1, setDesk, setDesktops. cbn. now rewrite Hlvl. }
  replace (Application_beginUpdate s1)
    with (Application_beginUpdate (leveled 0 (log st) s1)) by (now rewrite <- Es1).
  rewrite Application_beginUpdate_leveled by (try assumption; lia).
  change (0 + 1) with 1. change (0 =? 0) with true. cbv iota.
  set (s2 := leveled 1 (log st ++ selectionOf s1) s1).
  assert (Hr2 : windows s2 !! root dsk = Some rw) by exact Hrw.
  unfold updWindow. rewrite Hr2.
  set (s3 := setWindows (<[root dsk := withSelection area rw]> (windows s2)) s2).
  assert (A3 : altered (withSelection area) (root dsk) s1 s3).
  { unfold altered, s3, s2. cbn [windows setWindows leveled app_desktop desktops].
    split; [|split; reflexivity].
    apply list_eq. intros i. rewrite list_lookup_alter.
    destruct (decide (root dsk = i)) as [<-|Hn].
    - rewrite list_lookup_insert_eq by exact Hrlt.
      change (windows s1) with (windows st). now rewrite Hrw.
    - now rewrite list_lookup_insert_ne. }
  assert (Hwf3 : wf s3 = true).
  { rewrite (altered_wf _ _ _ _ (keepsTree_withSelection area) A3). exact Hwf1. }
  change (Application_endUpdate s3)
    with (Application_endUpdate (leveled 1 (log st ++ selectionOf s1) s3)).
  rewrite Application_endUpdate_leveled by (try assumption; lia).
  change (1 - 1) with 0. change (1 =? 1) with true. cbv iota.
  set (s4 := leveled 0 ((log st ++ selectionOf s1) ++ selectionOf s3 ++ [EvShow]) s3).
  (* EndUpdate on the root *)
  unfold EndUpdate.
  assert (Hr4 : windows s4 !! root dsk = Some (withSelection area rw)).
  { unfold s4, s3. cbn [windows leveled setWindows].
    now rewrite list_lookup_insert_eq by exact Hrlt. }
  rewrite Hr4. change (desktop (withSelection area rw)) with (desktop rw).
  assert (Hd4 : desktops s4 !! desktop rw =
                Some (mkDesktop inv1 (root dw) (iadd (updateLevel dw) 1))).
  { change (desktops s4) with (desktops s1). unfold s1. now apply setDesk_lookup. }
  erewrite updDesktop_setDesk by (try eassumption; reflexivity).
  cbn [invalidated updateLevel root].
  rewrite (isub_iadd_cancel _ _ Hint).
  erewrite setDesk_lookup by eassumption. cbn [invalidated updateLevel].
  assert (Hnp : ((updateLevel dw =? 0) && negb (IsZero (Sz inv1))) = false).
  { unfold inv1. destruct (updateLevel dw =? 0); reflexivity. }
  rewrite Hnp.
  eexists. split; [reflexivity|].
  assert (Hsel1 : selectionOf s1 = selectionOf st).
  { unfold selectionOf. change (app_desktop s1) with (app_desktop st).
    change (windows s1) with (windows st).
    destruct (app_desktop st) as [a|]; [|reflexivity].
    unfold s1, setDesk. cbn [desktops setDesktops].
    rewrite list_lookup_alter.
    destruct (decide (desktop rw = a)) as [<-|Hn]; [|reflexivity].
    destruct (desktops st !! desktop rw); reflexivity. }
  assert (HselF : forall inv lvl, selectionOf (setDesk (desktop rw) inv lvl s4) =
                                  selectionOf s3).
  { intros inv lvl. unfold selectionOf.
    change (app_desktop (setDesk (desktop rw) inv lvl s4)) with (app_desktop st).
    change (app_desktop s3) with (app_desktop st).
    change (windows (setDesk (desktop rw) inv lvl s4)) with (windows s3).
    destruct (app_desktop st) as [a|]; [|reflexivity].
    unfold setDesk. cbn [desktops setDesktops].
    rewrite list_lookup_alter.
    change (desktops s4) with (desktops s3).
    destruct (decide (desktop rw = a)) as [<-|Hn]; [|reflexivity].
    destruct (desktops s3 !! desktop rw); reflexivity. }
  split; [reflexivity|].
  split.
  { rewrite HselF. cbn [log setDesk setDesktops]. unfold s4. cbn [log leveled].
    now rewrite Hsel1, <- app_assoc. }
  split; [reflexivity|]. split; [reflexivity|].
  split.
  { unfold setDesk. cbn [desktops setDesktops].
    change (desktops s4) with (desktops s1). unfold s1, setDesk.
    cbn [desktops setDesktops].
    apply list_eq. intros i.
    change (map root ?l) with (root <$> l).
    rewrite !list_lookup_fmap, !list_lookup_alter.
    destruct (decide (desktop rw = i)) as [<-|Hn]; [|reflexivity].
    rewrite decide_True by reflexivity. rewrite Hdw. reflexivity. }
  split.
  { unfold setDesk. cbn [desktops setDesktops].
    change (desktops s4) with (desktops s1). unfold s1, setDesk.
    cbn [desktops setDesktops].
    apply list_eq. intros i.
    change (map updateLevel ?l) with (updateLevel <$> l).
    rewrite !list_lookup_fmap, !list_lookup_alter.
    destruct (decide (desktop rw = i)) as [<-|Hn]; [|reflexivity].
    rewrite decide_True by reflexivity. rewrite Hdw. reflexivity. }
  intros Ha. rewrite HselF. unfold selectionOf.
  change (app_desktop s3) with (app_desktop st). rewrite Ha.
  destruct (shapeFrame_desktop st s1 d dsk) as (dsk1 & Hd1 & Hr1).
  { unfold s1. apply setDesk_shape. }
  { exact Hd. }
  change (desktops s3) with (desktops s1). rewrite Hd1, Hr1.
  change (windows s3) with (<[root dsk := withSelection area rw]> (windows st)).
  rewrite list_lookup_insert_eq by exact Hrlt. reflexivity.
Qed.

Lemma SetSelection_toggles_witness :
  exists st',
    SetSelection 8 0 (rect 1 1 5 2) nestedWindows = Some st' /\
    log st' = [EvSelection (rect 1 1 5 2); EvShow].
Proof.
  destruct (lookup_valid (desktops nestedWindows) 0 ltac:(simpl; lia)) as [dsk Hdsk].
  assert (Hdsk' := Hdsk). vm_compute in Hdsk'. injection Hdsk' as Hdsk'.
  destruct (lookup_valid (windows nestedWindows) 0 ltac:(simpl; lia)) as [rw Hrw].
  assert (Hrw' := Hrw). vm_compute in Hrw'. injection Hrw' as Hrw'.
  assert (Hroot : root dsk = 0%nat) by (subst dsk; reflexivity).
  assert (Hdr : desktop rw = 0%nat) by (subst rw; reflexivity).
  destruct (SetSelection_toggles 8 nestedWindows 0%nat dsk rw (rect 1 1 5 2)) as [_ H].
  - reflexivity.
  - reflexivity.
  - exact Hdsk.
  - rewrite Hroot. exact Hrw.
  - intros dw Hdw. rewrite Hdr, Hdsk in Hdw. injection Hdw as <-.
    subst dsk. unfold in_int, int_min, int_max. simpl. lia.
  - destruct H as (st' & H1 & _ & H3 & _ & _ & _ & _ & H8).
    { subst rw. discriminate. }
    exists st'. split; [exact H1|].
    rewrite H3, (H8 eq_refl). reflexivity.
Defined.

(** * Closing a window *)

(** [func (w *Window) removeChild(ch *Window)]: the first occurrence of
    [ch] is cut out of the children. *)
Fixpoint removeFirst (ch : WinId) (l : list WinId) : list WinId :=
  match l with
  | [] => []
  | v :: l => if Nat.eqb v ch then l else v :: removeFirst ch l
  end.

Definition removeChild (w ch : WinId) (st : State) : option State :=
  updWindow w (fun win => withChildren (removeFirst ch (children win)) win) st.

(** [for w.Children() != 0 { if c := w.Child(0); c != nil { c.Close() } }];
    [k] bounds the number of iterations. *)
Fixpoint closeChildren (Close : WinId -> State * Focus -> option (State * Focus))
         (k : nat) (w : WinId) (fs : State * Focus) : option (State * Focus) :=
  do win <- windows (fst fs) !! w;
  match children win with
  | [] => Some fs
  | c :: _ =>
    match k with
    | O => None
    | S k => do fs <- Close c fs; closeChildren Close k w fs
    end
  end.

(** [func (w *Window) Close()].  [newWindow] installs no close handler,
    so [w.onClose.handle(w)] does nothing, and the [Clear] calls at the
    end only run finalizers, of which the handlers of [newWindow] have
    none.  [depth] bounds the nesting of the calls on the children. *)
Fixpoint Close (depth k n fuel : nat) (w : WinId) (fs : State * Focus)
  : option (State * Focus) :=
  match depth with
  | O => None
  | S depth =>
    do fs <- SetFocus n fuel w false fs;
    do fs <- closeChildren (Close depth k n fuel) k w fs;
    do win <- windows (fst fs) !! w;
    match parent win with
    | Some p =>
      do st <- removeChild p w (fst fs);
      do pw <- windows st !! p;
      do st <- InvalidateClientArea fuel p (ClientArea pw) st;
      Some (st, snd fs)
    | None => Some fs
    end
  end.

(** The rectangle that [p.InvalidateClientArea(p.ClientArea())] clips
    and hands to [paint]. *)
Definition clientAreaInvalidated (pw : Window) : Rectangle * bool :=
  Clip (mkRectangle (sub (add (Pos (ClientArea pw)) (ClientPosition pw)) (Origin pw))
                    (Sz (ClientArea pw)))
       (clientArea pw).

Lemma removeFirst_In ch : forall l c, List.In c (removeFirst ch l) -> List.In c l.
Proof.
  induction l as [|v l IH]; intros c H; [exact H|].
  cbn [removeFirst] in H. destruct (Nat.eqb v ch).
  - now right.
  - destruct H as [->|H]; [now left|right; now apply IH].
Qed.

Lemma removeFirst_NoDup ch : forall l, NoDup l -> ~ List.In ch (removeFirst ch l).
Proof.
  induction l as [|v l IH]; intros Hnd H; [exact H|].
  apply NoDup_cons in Hnd as [Hv Hnd].
  cbn [removeFirst] in H. destruct (Nat.eqb_spec v ch) as [->|Hne].
  - apply Hv. now apply list_elem_of_In.
  - destruct H as [E|H]; [congruence|]. now apply IH.
Qed.

Lemma removeFirst_length ch : forall l,
  (length (removeFirst ch l) <= length l)%nat.
Proof.
  induction l as [|v l IH]; [reflexivity|].
  cbn [removeFirst]. destruct (Nat.eqb v ch); simpl; lia.
Qed.

(** The windows of both states differ at most in that children have
    been removed. *)
Definition pruned (st st' : State) : Prop :=
  length (windows st') = length (windows st) /\
  (forall k x', windows st' !! k = Some x' ->
                exists x, windows st !! k = Some x /\
                          x' = withChildren (children x') x /\
                          (forall c, List.In c (children x') -> List.In c (children x)) /\
                          (length (children x') <= length (children x))%nat) /\
  app_desktop st' = app_desktop st /\
  map root (desktops st') = map root (desktops st).

Lemma pruned_wf st st' : pruned st st' -> wf st = true -> wf st' = true.
Proof.
  intros (L & W & A & R) Hwf.
  assert (Hlen : length (desktops st') = length (desktops st)).
  { rewrite <- (length_map root (desktops st')), R. apply length_map. }
  apply wf_intro.
  - intros k x' Hk. destruct (W _ _ Hk) as (x & Hx & -> & P & _).
    rewrite L, Hlen. pose proof (wf_window _ _ _ Hwf Hx) as Hw.
    unfold wfWindow in *. rewrite !andb_true_iff in *.
    destruct Hw as [[[H1 H2] H3] H4]. repeat split; try assumption.
    cbn [children withChildren]. rewrite forallb_forall in *.
    intros c Hc. apply H3. now apply P.
  - intros d dsk Hd. rewrite L.
    destruct (roots_lookup _ _ _ _ (eq_sym R) Hd) as (dsk0 & Hd0 & <-).
    eapply wf_root; eauto.
  - intros d Hd. rewrite Hlen. rewrite A in Hd. now apply wf_app_desktop.
Qed.

Lemma pruned_linked st st' :
  pruned st st' -> linked st = true -> linked st' = true.
Proof.
  intros (L & W & _) Hl. apply linked_intro. intros w x' c Hw Hc.
  destruct (W _ _ Hw) as (x & Hx & _ & P & _).
  destruct (linked_elim _ _ _ _ Hl Hx (P _ Hc)) as (cw & Hcw & Hp).
  destruct (lookup_valid (windows st') c) as [cw' Hcw'].
  { rewrite L. eapply lookup_lt_Some; eauto. }
  exists cw'. split; [assumption|].
  destruct (W _ _ Hcw') as (cw0 & Hcw0 & -> & _).
  rewrite Hcw in Hcw0. injection Hcw0 as <-. exact Hp.
Qed.

Lemma removeChild_pruned st p pw ch :
  windows st !! p = Some pw ->
  exists st',
    removeChild p ch st = Some st' /\
    windows st' = <[p := withChildren (removeFirst ch (children pw)) pw]> (windows st) /\
    pruned st st'.
Proof.
  intros Hp. unfold removeChild, updWindow. rewrite Hp.
  eexists. split; [reflexivity|]. split; [reflexivity|].
  pose proof (lookup_lt_Some _ _ _ Hp) as Hlt.
  unfold pruned. cbn [windows setWindows app_desktop desktops].
  rewrite length_insert. repeat split; try reflexivity.
  intros k x' Hk. destruct (decide (k = p)) as [->|Hne].
  - rewrite list_lookup_insert_eq in Hk by assumption. injection Hk as <-.
    exists pw. split; [assumption|]. split; [reflexivity|].
    split; [intros c Hc; eapply removeFirst_In; exact Hc|apply removeFirst_length].
  - rewrite list_lookup_insert_ne in Hk by congruence.
    exists x'. split; [assumption|]. split; [now rewrite withChildren_same|auto].
Qed.

Lemma Clip_Has r s a q :
  Clip r s = (a, true) ->
  (Has a q = true <-> Has r q = true /\ Has s q = true).
Proof.
  intros Hc.
  pose proof (right_range r) as Hr. pose proof (right_range s) as Hs.
  pose proof (bottom_range r) as Hbr. pose proof (bottom_range s) as Hbs.
  unfold in_int in *.
  apply Clip_true in Hc as (Hx & Hy & ->).
  set (xa := Z.max (X (Pos r)) (X (Pos s))) in *.
  set (ya := Z.max (Y (Pos r)) (Y (Pos s))) in *.
  set (xb := Z.min (right r) (right s)) in *.
  set (yb := Z.min (bottom r) (bottom s)) in *.
  assert (Hrx : right (rect xa ya (isub xb xa) (isub yb ya)) = xb).
  { unfold right. simpl. apply iadd_isub_cancel. unfold in_int. lia. }
  assert (Hry : bottom (rect xa ya (isub xb xa) (isub yb ya)) = yb).
  { unfold bottom. simpl. apply iadd_isub_cancel. unfold in_int. lia. }
  rewrite !Has_spec, Hrx, Hry. simpl. lia.
Qed.

Lemma InvalidateClientArea_ClientArea fuel p pw s :
  windows s !! p = Some pw ->
  InvalidateClientArea fuel p (ClientArea pw) s =
  (let '(a, ok) := clientAreaInvalidated pw in
   if negb ok then Some s
   else do s <- BeginUpdate (Some p) s;
        do s <- paint fuel p a s;
        EndUpdate fuel (Some p) s).
Proof. intros H. unfold InvalidateClientArea, clientAreaInvalidated. now rewrite H. Qed.

(** X27: closing a window without children that has a parent.  The
    call returns; the window has lost the focus and is not the focused
    window of its desktop, no window has gained the focus, and the first
    occurrence of the window is gone from the children of its parent,
    which is the only change in the window tree.  The parent is then
    asked to repaint [p.ClientArea()] as an area of its client area: the
    rectangle that reaches [paint] is the client area moved by the
    client position less the origin and clipped by the client area, so
    with a left or top border and origin (0,0) the first columns and
    rows of the client area are not repainted. *)
Theorem Close_leaf :
  forall (depth k n fuel : nat) (st : State) (fo : Focus) (w p : WinId)
         (win pw : Window) (dsk : Desktop) (rw : Window),
    wf st = true ->
    (2 * length (windows st) <= fuel)%nat ->
    (1 <= depth)%nat -> (3 <= n)%nat ->
    windows st !! w = Some win ->
    children win = [] ->
    parent win = Some p ->
    windows st !! p = Some pw ->
    desktops st !! desktop win = Some dsk ->
    windows st !! root dsk = Some rw ->
    desktop rw = desktop win ->
    (forall x, focusedWindow fo (root dsk) = Some x -> x <> w ->
               focus fo x = true /\
               exists xw, windows st !! x = Some xw /\ desktop xw = desktop win) ->
    (focusedWindow fo (root dsk) = Some w -> focus fo w = true) ->
    let pw' := withChildren (removeFirst w (children pw)) pw in
    exists st' fo' st2,
      Close depth k n fuel w (st, fo) = Some (st', fo') /\
      windows st' = <[p := pw']> (windows st) /\
      wf st' = true /\
      (linked st = true -> linked st' = true) /\
      (NoDup (children pw) -> ~ List.In w (children pw')) /\
      focus fo' w = false /\
      FocusedWindow (desktop win) (st', fo') <> Some w /\
      (forall x, focus fo' x = true -> focus fo x = true) /\
      windows st2 = <[p := pw']> (windows st) /\
      InvalidateClientArea fuel p (ClientArea pw') st2 = Some st' /\
      (forall s, windows s !! p = Some pw' ->
                 InvalidateClientArea fuel p (ClientArea pw') s =
                 (let '(a, ok) := clientAreaInvalidated pw' in
                  if negb ok then Some s
                  else do s <- BeginUpdate (Some p) s;
                       do s <- paint fuel p a s;
                       EndUpdate fuel (Some p) s)) /\
      (forall a q,
          small (X (ClientPosition pw)) -> small (Y (ClientPosition pw)) ->
          small (X (Origin pw)) -> small (Y (Origin pw)) ->
          clientAreaInvalidated pw' = (a, true) -> Has a q = true ->
          Has (clientArea pw) q = true /\
          X (ClientPosition pw) + (X (ClientPosition pw) - X (Origin pw)) <= X q /\
          Y (ClientPosition pw) + (Y (ClientPosition pw) - Y (Origin pw)) <= Y q).
Proof.
  intros depth k n fuel st fo w p win pw dsk rw
         Hwf Hfuel Hdepth Hn Hw Hch Hpar Hp Hd Hr Hrd Hold Hrec pw'.
  destruct (focusCtx_intro _ _ _ _ _ _ Hwf Hfuel Hw Hd Hr Hrd) as [C Hin].
  destruct depth as [|depth]; [lia|]. cbn [Close].
  (* SetFocus(false) *)
  assert (Hs : exists st1 fo1,
             SetFocus n fuel w false (st, fo) = Some (st1, fo1) /\
             shapeFrame st st1 /\
             focus fo1 w = false /\
             focusedWindow fo1 (root dsk) <> Some w /\
             (forall x, focus fo1 x = true -> focus fo x = true)).
  { destruct n as [|[|[|n]]]; try lia.
    destruct (focus fo w) eqn:Hfw.
    - destruct (SetFocus_result n fuel st fo w false _ _ C Hin Hold Hfw)
        as (st1 & fo1 & H & S & F & G & _).
      exists st1, fo1. split; [exact H|]. split; [exact S|].
      split; [rewrite F; now rewrite Nat.eqb_refl|].
      split; [rewrite G; now rewrite Nat.eqb_refl|].
      intros x. rewrite F. destruct (Nat.eqb x w); [discriminate|].
      destruct (optionNat_eqb _ _); [discriminate|auto].
    - rewrite (SetFocus_same _ _ _ _ _ _ _ Hin Hfw).
      exists st, fo. split; [reflexivity|]. split; [apply shapeFrame_refl|].
      split; [exact Hfw|]. split; [|auto].
      intros E. apply Hrec in E. congruence. }
  destruct Hs as (st1 & fo1 & -> & S1 & Hf1 & Hfw1 & Hmono).
  pose proof S1 as (W1 & A1 & _ & R1).
  (* no children to close *)
  assert (Hloop : closeChildren (Close depth k n fuel) k w (st1, fo1) = Some (st1, fo1)).
  { destruct k; cbn [closeChildren fst]; rewrite W1, Hw, Hch; reflexivity. }
  rewrite Hloop. cbn [fst snd]. rewrite W1, Hw, Hpar.
  (* removeChild *)
  assert (Hp1 : windows st1 !! p = Some pw) by (now rewrite W1).
  destruct (removeChild_pruned st1 p pw w Hp1) as (st2 & -> & W2 & P2).
  pose proof (lookup_lt_Some _ _ _ Hp) as Hplt.
  assert (Hp2 : windows st2 !! p = Some pw').
  { rewrite W2, W1. now rewrite list_lookup_insert_eq by exact Hplt. }
  rewrite Hp2.
  assert (Hwf1 : wf st1 = true) by (now rewrite (shapeFrame_wf _ _ S1)).
  pose proof (pruned_wf _ _ P2 Hwf1) as Hwf2.
  destruct (InvalidateClientArea_ok fuel st2 p (ClientArea pw') Hwf2) as (st3 & H3 & S3).
  { eapply lookup_lt_Some; eauto. }
  { destruct P2 as (L2 & _). rewrite L2, W1. exact Hfuel. }
  rewrite H3. pose proof S3 as (W3 & A3 & _ & R3).
  exists st3, fo1, st2. split; [reflexivity|].
  split; [now rewrite W3, W2, W1|].
  split; [now rewrite (shapeFrame_wf _ _ S3)|].
  split.
  { intros Hl. rewrite (shapeFrame_linked _ _ S3).
    eapply pruned_linked; [exact P2|]. now rewrite (shapeFrame_linked _ _ S1). }
  split; [intros Hnd; now apply removeFirst_NoDup|].
  split; [exact Hf1|].
  split.
  { unfold FocusedWindow. cbn [fst snd].
    destruct (roots_lookup _ _ _ _ R1 Hd) as (d1 & Hd1 & Hr1).
    destruct P2 as (_ & _ & _ & R2).
    destruct (roots_lookup _ _ _ _ R2 Hd1) as (d2 & Hd2 & Hr2).
    destruct (roots_lookup _ _ _ _ R3 Hd2) as (d3 & -> & Hr3).
    rewrite Hr3, Hr2, Hr1. exact Hfw1. }
  split; [exact Hmono|].
  split; [now rewrite W2, W1|].
  split; [exact H3|].
  split; [intros s Hs; now apply InvalidateClientArea_ClientArea|].
  intros a q Hx Hy Hox Hoy Hc Hq.
  unfold clientAreaInvalidated in Hc.
  apply (Clip_Has _ _ _ q) in Hc. apply Hc in Hq as [Hq1 Hq2].
  split; [exact Hq2|].
  apply Has_spec in Hq1 as [[Hq1 _] [Hq3 _]].
  unfold ClientArea, ClientPosition, Origin in *.
  subst pw'. cbn [Pos Sz X Y clientArea view withChildren] in Hq1, Hq3.
  unfold add, sub in Hq1, Hq3. cbn [X Y] in Hq1, Hq3.
  unfold iadd, isub, small in *.
  rewrite !wrap_small' in Hq1 by (rewrite ?wrap_small' by lia; lia).
  rewrite !wrap_small' in Hq3 by (rewrite ?wrap_small' by lia; lia).
  lia.
Qed.

Lemma Close_leaf_witness :
  exists st' fo' r,
    Close 1 0 3 6 2 (nestedWindows, noFocus) = Some (st', fo') /\
    windows st' !! 1%nat = Some r /\
    children r = [] /\
    focus fo' 2%nat = false.
Proof.
  destruct (lookup_valid (windows nestedWindows) 2 ltac:(simpl; lia)) as [win Hwin].
  assert (Hwin' := Hwin). vm_compute in Hwin'. injection Hwin' as Hwin'.
  destruct (lookup_valid (windows nestedWindows) 1 ltac:(simpl; lia)) as [pw Hpw].
  assert (Hpw' := Hpw). vm_compute in Hpw'. injection Hpw' as Hpw'.
  destruct (lookup_valid (windows nestedWindows) 0 ltac:(simpl; lia)) as [rw Hrw].
  assert (Hrw' := Hrw). vm_compute in Hrw'. injection Hrw' as Hrw'.
  destruct (lookup_valid (desktops nestedWindows) 0 ltac:(simpl; lia)) as [dsk Hdsk].
  assert (Hdsk' := Hdsk). vm_compute in Hdsk'. injection Hdsk' as Hdsk'.
  assert (Hdw : desktop win = 0%nat) by (subst win; reflexivity).
  assert (Hroot : root dsk = 0%nat) by (subst dsk; reflexivity).
  assert (Hcp : children pw = [2%nat]) by (subst pw; reflexivity).
  destruct (Close_leaf 1 0 3 6 nestedWindows noFocus 2%nat 1%nat win pw dsk rw)
    as (st' & fo' & st2 & H1 & H2 & _ & _ & _ & H6 & _).
  - reflexivity.
  - simpl. lia.
  - lia.
  - lia.
  - exact Hwin.
  - subst win. reflexivity.
  - subst win. reflexivity.
  - exact Hpw.
  - rewrite Hdw. exact Hdsk.
  - rewrite Hroot. exact Hrw.
  - rewrite Hdw. subst rw. reflexivity.
  - intros x Hx. discriminate Hx.
  - intros Hx. discriminate Hx.
  - eexists st', fo', _. split; [exact H1|].
    split; [rewrite H2; apply list_lookup_insert_eq; simpl; lia|].
    split; [|exact H6].
    cbn [children withChildren]. rewrite Hcp. reflexivity.
Defined.

(** ** Closing a window with its children *)

Lemma pruned_refl st : pruned st st.
Proof.
  unfold pruned. repeat split; try reflexivity.
  intros k x Hk. exists x. split; [assumption|].
  split; [now rewrite withChildren_same|]. split; [auto|lia].
Qed.

Lemma pruned_trans a b c : pruned a b -> pruned b c -> pruned a c.
Proof.
  intros (L1 & W1 & A1 & R1) (L2 & W2 & A2 & R2). unfold pruned.
  split; [congruence|]. split; [|split; congruence].
  intros k x'' Hk. destruct (W2 _ _ Hk) as (x' & Hx' & E2 & P2 & N2).
  destruct (W1 _ _ Hx') as (x & Hx & E1 & P1 & N1).
  exists x. split; [assumption|]. split; [|split; [auto|lia]].
  rewrite E2, E1. reflexivity.
Qed.

Lemma shapeFrame_pruned st st' : shapeFrame st st' -> pruned st st'.
Proof.
  intros (W & A & _ & R). unfold pruned. rewrite W.
  repeat split; try assumption.
  intros k x Hk. exists x. split; [assumption|].
  split; [now rewrite withChildren_same|]. split; [auto|lia].
Qed.

Lemma pruned_fwd st st' k x :
  pruned st st' -> windows st !! k = Some x ->
  exists cs, windows st' !! k = Some (withChildren cs x) /\
             (forall c, List.In c cs -> List.In c (children x)) /\
             (length cs <= length (children x))%nat.
Proof.
  intros (L & W & _) Hk.
  destruct (lookup_valid (windows st') k) as [x' Hx'].
  { rewrite L. eapply lookup_lt_Some; eauto. }
  destruct (W _ _ Hx') as (x0 & Hx0 & E & P & N).
  rewrite Hk in Hx0. injection Hx0 as <-.
  exists (children x'). rewrite <- E. auto.
Qed.

Lemma pruned_inDesk st st' x d : pruned st st' -> inDesk st x d -> inDesk st' x d.
Proof.
  intros P (xw & Hx & Hd). destruct (pruned_fwd _ _ _ _ P Hx) as (cs & Hx' & _).
  exists (withChildren cs xw). split; [assumption|exact Hd].
Qed.

Lemma pruned_focusCtx fuel st st' d r :
  pruned st st' -> focusCtx fuel st d r -> focusCtx fuel st' d r.
Proof.
  intros P (Hwf & Hf & (dsk & Hd & Hr) & Hrw).
  pose proof P as (L & _ & _ & R).
  split; [eapply pruned_wf; eauto|]. split; [now rewrite L|]. split.
  - destruct (roots_lookup _ _ _ _ R Hd) as (dsk' & Hd' & Hr').
    exists dsk'. split; [assumption|congruence].
  - exact (pruned_inDesk _ _ _ _ P Hrw).
Qed.

(** Every child is on the desktop of its parent, as [NewChild] makes
    it. *)
Definition sameDesk (st : State) : bool :=
  forallb (fun win =>
             forallb (fun c => match windows st !! c with
                               | Some cw => Nat.eqb (desktop cw) (desktop win)
                               | None => false
                               end) (children win))
          (windows st).

(** No window has more than [k] children. *)
Definition fewChildren (k : nat) (st : State) : bool :=
  forallb (fun win => (length (children win) <=? k)%nat) (windows st).

Lemma sameDesk_elim st w win c :
  sameDesk st = true -> windows st !! w = Some win -> List.In c (children win) ->
  exists cw, windows st !! c = Some cw /\ desktop cw = desktop win.
Proof.
  unfold sameDesk. rewrite forallb_forall. intros H Hw Hc.
  assert (Hin : List.In win (windows st)).
  { apply list_elem_of_In. eapply list_elem_of_lookup_2; eauto. }
  specialize (H _ Hin). rewrite forallb_forall in H. specialize (H _ Hc).
  destruct (windows st !! c) as [cw|]; [|discriminate].
  exists cw. split; [reflexivity|]. now apply Nat.eqb_eq.
Qed.

Lemma sameDesk_intro st :
  (forall w win c, windows st !! w = Some win -> List.In c (children win) ->
                   exists cw, windows st !! c = Some cw /\ desktop cw = desktop win) ->
  sameDesk st = true.
Proof.
  intros H. unfold sameDesk. apply forallb_forall. intros win Hin.
  apply list_elem_of_In, list_elem_of_lookup in Hin as [w Hw].
  apply forallb_forall. intros c Hc.
  destruct (H _ _ _ Hw Hc) as (cw & -> & ->). apply Nat.eqb_refl.
Qed.

Lemma pruned_sameDesk st st' : pruned st st' -> sameDesk st = true -> sameDesk st' = true.
Proof.
  intros P Hs. apply sameDesk_intro. intros w x' c Hw Hc.
  pose proof P as (_ & W & _).
  destruct (W _ _ Hw) as (x & Hx & E & Pc & _).
  destruct (sameDesk_elim _ _ _ _ Hs Hx (Pc _ Hc)) as (cw & Hcw & Hd).
  destruct (pruned_fwd _ _ _ _ P Hcw) as (cs & Hcw' & _).
  exists (withChildren cs cw). split; [assumption|].
  rewrite E. exact Hd.
Qed.

Lemma fewChildren_elim k st w win :
  fewChildren k st = true -> windows st !! w = Some win ->
  (length (children win) <= k)%nat.
Proof.
  unfold fewChildren. rewrite forallb_forall. intros H Hw.
  apply Nat.leb_le, H. apply list_elem_of_In. eapply list_elem_of_lookup_2; eauto.
Qed.

Lemma pruned_fewChildren k st st' :
  pruned st st' -> fewChildren k st = true -> fewChildren k st' = true.
Proof.
  intros (_ & W & _) H. unfold fewChildren. apply forallb_forall. intros x' Hin.
  apply list_elem_of_In, list_elem_of_lookup in Hin as [w Hw].
  destruct (W _ _ Hw) as (x & Hx & _ & _ & N).
  pose proof (fewChildren_elim _ _ _ _ H Hx). apply Nat.leb_le. lia.
Qed.

(** What [Close] needs of the store and of the focus fields: the store
    is well formed with consistent links, children are on the desktop
    of their parent, and the window recorded as focused is focused. *)
Definition closable (fuel k : nat) (st : State) (fo : Focus)
           (d : DeskId) (r : WinId) : Prop :=
  focusCtx fuel st d r /\
  linked st = true /\ sameDesk st = true /\ fewChildren k st = true /\
  (forall y, focusedWindow fo r = Some y -> focus fo y = true /\ inDesk st y d).

Lemma closable_pruned fuel k st st' fo d r :
  pruned st st' -> closable fuel k st fo d r -> closable fuel k st' fo d r.
Proof.
  intros P (C & Hl & Hs & Hf & Hr).
  split; [eapply pruned_focusCtx; eauto|].
  split; [eapply pruned_linked; eauto|].
  split; [eapply pruned_sameDesk; eauto|].
  split; [eapply pruned_fewChildren; eauto|].
  intros y Hy. destruct (Hr y Hy) as [H1 H2].
  split; [exact H1|eapply pruned_inDesk; eauto].
Qed.

Lemma SetFocus_false_ok n fuel st fo w d r :
  (3 <= n)%nat ->
  focusCtx fuel st d r -> inDesk st w d ->
  (forall y, focusedWindow fo r = Some y -> focus fo y = true /\ inDesk st y d) ->
  exists st1 fo1,
    SetFocus n fuel w false (st, fo) = Some (st1, fo1) /\
    shapeFrame st st1 /\
    focus fo1 w = false /\
    (forall x, focus fo1 x = true -> focus fo x = true) /\
    (forall y, focusedWindow fo1 r = Some y ->
               focus fo1 y = true /\ inDesk st y d).
Proof.
  intros Hn C Hin Hrec. destruct n as [|[|[|n]]]; try lia.
  destruct (focus fo w) eqn:Hfw.
  - destruct (SetFocus_result n fuel st fo w false _ _ C Hin) as
        (st1 & fo1 & H & S & F & G & _).
    { intros x Hx _. now apply Hrec. }
    { exact Hfw. }
    exists st1, fo1. split; [exact H|]. split; [exact S|].
    split; [rewrite F; now rewrite Nat.eqb_refl|].
    split.
    + intros x. rewrite F. destruct (Nat.eqb x w); [discriminate|].
      destruct (optionNat_eqb _ _); [discriminate|auto].
    + intros y Hy. rewrite G, Nat.eqb_refl in Hy. discriminate.
  - rewrite (SetFocus_same _ _ _ _ _ _ _ Hin Hfw).
    exists st, fo. split; [reflexivity|]. split; [apply shapeFrame_refl|].
    split; [exact Hfw|]. split; [auto|exact Hrec].
Qed.

Lemma Close_ok fuel k n d r (Hn : (3 <= n)%nat) : forall depth w st fo,
  closable fuel k st fo d r -> inDesk st w d ->
  (length (windows st) <= w + depth)%nat ->
  exists st' fo',
    Close depth k n fuel w (st, fo) = Some (st', fo') /\
    closable fuel k st' fo' d r /\
    pruned st st' /\
    (forall j, (j < w)%nat ->
               (forall win, windows st !! w = Some win -> parent win <> Some j) ->
               windows st' !! j = windows st !! j) /\
    (forall win p pw,
        windows st !! w = Some win -> parent win = Some p ->
        windows st !! p = Some pw ->
        windows st' !! p = Some (withChildren (removeFirst w (children pw)) pw)) /\
    (forall win, windows st !! w = Some win ->
                 windows st' !! w = Some (withChildren [] win)) /\
    focus fo' w = false /\
    (forall x, focus fo' x = true -> focus fo x = true).
Proof.
  induction depth as [|depth IH]; intros w st fo Hc Hin Hlen.
  { pose proof (inDesk_lt _ _ _ Hin). lia. }
  cbn [Close].
  pose proof Hc as (C & Hl & Hsd & Hfc & Hrc).
  pose proof C as (Hwf & Hfuel & _).
  destruct Hin as (win & Hw & Hdw).
  assert (Hin : inDesk st w d) by (exists win; auto).
  (* SetFocus(false) *)
  destruct (SetFocus_false_ok n fuel st fo w d r Hn C Hin Hrc)
    as (st1 & fo1 & -> & S1 & Hf1 & Hm1 & Hrc1).
  pose proof (shapeFrame_pruned _ _ S1) as P1.
  pose proof S1 as (W1 & _).
  assert (Hc1 : closable fuel k st1 fo1 d r).
  { destruct (closable_pruned _ _ _ _ fo _ _ P1 Hc) as (C1 & Hl1 & Hsd1 & Hfc1 & _).
    split; [exact C1|]. split; [exact Hl1|]. split; [exact Hsd1|].
    split; [exact Hfc1|].
    intros y Hy. destruct (Hrc1 y Hy) as [H1 H2].
    split; [exact H1|eapply pruned_inDesk; eauto]. }
  (* the loop over the children *)
  assert (Hloop : forall m k' s f x,
             closable fuel k s f d r ->
             windows s !! w = Some x -> desktop x = d ->
             length (children x) = m -> (m <= k')%nat ->
             length (windows s) = length (windows st) ->
             exists s' f',
               closeChildren (Close depth k n fuel) k' w (s, f) = Some (s', f') /\
               closable fuel k s' f' d r /\
               pruned s s' /\
               (forall j, (j < w)%nat -> windows s' !! j = windows s !! j) /\
               windows s' !! w = Some (withChildren [] x) /\
               (forall y, focus f' y = true -> focus f y = true)).
  { induction m as [|m IHm]; intros k' s f x Hcs Hx Hdx Hm Hk Hls.
    - assert (Hnil : children x = []) by (now destruct (children x)).
      exists s, f. split.
      { destruct k'; cbn [closeChildren fst]; rewrite Hx, Hnil; reflexivity. }
      split; [exact Hcs|]. split; [apply pruned_refl|]. split; [auto|].
      split; [|auto]. rewrite <- Hnil, withChildren_same. exact Hx.
    - destruct (children x) as [|c rest] eqn:Hch; [discriminate|].
      destruct k' as [|k']; [lia|].
      cbn [closeChildren fst]. rewrite Hx, Hch.
      pose proof Hcs as (Cs & Hls' & Hsds & Hfcs & Hrcs).
      pose proof Cs as (Hwfs & _).
      assert (Hcin : List.In c (children x)) by (rewrite Hch; now left).
      destruct (linked_elim _ _ _ _ Hls' Hx Hcin) as (cw & Hcw & Hpc).
      destruct (sameDesk_elim _ _ _ _ Hsds Hx Hcin) as (cw' & Hcw' & Hdc).
      rewrite Hcw in Hcw'. injection Hcw' as <-.
      pose proof (wf_parent_lt _ _ _ _ Hwfs Hcw Hpc) as Hwc.
      destruct (IH c s f Hcs) as (s1 & f1 & -> & Hcs1 & Ps1 & Fr1 & Par1 & _ & _ & Hmo1).
      { exists cw. split; [assumption|congruence]. }
      { lia. }
      specialize (Par1 cw w x Hcw Hpc Hx).
      rewrite Hch in Par1. cbn [removeFirst] in Par1.
      rewrite Nat.eqb_refl in Par1.
      destruct (IHm k' s1 f1 (withChildren rest x) Hcs1 Par1 Hdx)
        as (s' & f' & -> & Hcs' & Ps' & Fr' & Hw' & Hmo').
      { simpl in Hm. cbn [children withChildren]. lia. }
      { lia. }
      { destruct Ps1 as (L & _). congruence. }
      exists s', f'. split; [reflexivity|]. split; [exact Hcs'|].
      split; [eapply pruned_trans; eauto|].
      split.
      { intros j Hj. rewrite Fr' by exact Hj. apply Fr1; [lia|].
        intros cw0 Hcw0. rewrite Hcw in Hcw0. injection Hcw0 as <-.
        rewrite Hpc. intros E. injection E as E. lia. }
      split; [exact Hw'|].
      intros y Hy. apply Hmo1, Hmo', Hy. }
  assert (Hw1 : windows st1 !! w = Some win) by (now rewrite W1).
  destruct (Hloop (length (children win)) k st1 fo1 win Hc1 Hw1 Hdw eq_refl)
    as (s2 & f2 & -> & Hc2 & P2 & Fr2 & Hw2 & Hm2).
  { eapply fewChildren_elim; eauto. }
  { now rewrite W1. }
  cbn [fst snd]. rewrite Hw2.
  change (parent (withChildren [] win)) with (parent win).
  assert (Hf2 : focus f2 w = false).
  { destruct (focus f2 w) eqn:E; [|reflexivity]. apply Hm2 in E. congruence. }
  assert (Hmono : forall x, focus f2 x = true -> focus fo x = true).
  { intros x Hx. now apply Hm1, Hm2. }
  destruct (parent win) as [p|] eqn:Hp.
  - pose proof (wf_parent_lt _ _ _ _ Hwf Hw Hp) as Hpw.
    destruct (lookup_valid (windows st) p) as [pw Hpwin].
    { pose proof (lookup_lt_Some _ _ _ Hw). lia. }
    assert (Hp2 : windows s2 !! p = Some pw).
    { rewrite Fr2 by exact Hpw. now rewrite W1. }
    destruct (removeChild_pruned s2 p pw w Hp2) as (s3 & -> & W3 & P3).
    pose proof (lookup_lt_Some _ _ _ Hp2) as Hplt.
    assert (Hp3 : windows s3 !! p =
                  Some (withChildren (removeFirst w (children pw)) pw)).
    { rewrite W3. now rewrite list_lookup_insert_eq by exact Hplt. }
    rewrite Hp3.
    pose proof (closable_pruned _ _ _ _ _ _ _ P3 Hc2) as Hc3.
    pose proof Hc3 as ((Hwf3 & Hfuel3 & _) & _).
    destruct (InvalidateClientArea_ok fuel s3 p
                (ClientArea (withChildren (removeFirst w (children pw)) pw)) Hwf3)
      as (s4 & -> & S4).
    { eapply lookup_lt_Some; eauto. }
    { exact Hfuel3. }
    pose proof (shapeFrame_pruned _ _ S4) as P4. pose proof S4 as (W4 & _).
    exists s4, f2. split; [reflexivity|].
    split; [eapply closable_pruned; eauto|].
    split.
    { eapply pruned_trans; [exact P1|]. eapply pruned_trans; [exact P2|].
      eapply pruned_trans; eauto. }
    split.
    { intros j Hj Hnp. rewrite W4, W3.
      rewrite list_lookup_insert_ne.
      - rewrite Fr2 by exact Hj. now rewrite W1.
      - intros ->. apply (Hnp win Hw). exact Hp. }
    split.
    { intros win0 p0 pw0 Hw0 Hp0 Hpw0.
      rewrite Hw in Hw0. injection Hw0 as <-.
      rewrite Hp in Hp0. injection Hp0 as <-.
      rewrite Hpwin in Hpw0. injection Hpw0 as <-.
      rewrite W4. exact Hp3. }
    split.
    { intros win0 Hw0. rewrite Hw in Hw0. injection Hw0 as <-.
      rewrite W4, W3. rewrite list_lookup_insert_ne by lia. exact Hw2. }
    split; [exact Hf2|exact Hmono].
  - exists s2, f2. split; [reflexivity|]. split; [exact Hc2|].
    split; [eapply pruned_trans; eauto|].
    split.
    { intros j Hj _. rewrite Fr2 by exact Hj. now rewrite W1. }
    split.
    { intros win0 p0 pw0 Hw0 Hp0. rewrite Hw in Hw0. injection Hw0 as <-. congruence. }
    split.
    { intros win0 Hw0. rewrite Hw in Hw0. injection Hw0 as <-. exact Hw2. }
    split; [exact Hf2|exact Hmono].
Qed.

(** X28: [Close] returns on every window of a well-formed store with
    consistent links, whatever the number of windows below it.  The
    window ends without children and without focus, and is not the
    focused window of its desktop; the first occurrence of the window is
    gone from the children of its parent; every window keeps all fields
    except that children may have been removed, and windows created
    before [w], its parent apart, are untouched; no window has gained
    the focus; the store stays well formed with consistent links. *)
Theorem Close_returns :
  forall (depth k n fuel : nat) (st : State) (fo : Focus) (w : WinId)
         (win : Window) (dsk : Desktop) (rw : Window),
    wf st = true -> linked st = true ->
    sameDesk st = true -> fewChildren k st = true ->
    (2 * length (windows st) <= fuel)%nat ->
    (3 <= n)%nat ->
    (length (windows st) <= w + depth)%nat ->
    windows st !! w = Some win ->
    desktops st !! desktop win = Some dsk ->
    windows st !! root dsk = Some rw ->
    desktop rw = desktop win ->
    (forall y, focusedWindow fo (root dsk) = Some y ->
               focus fo y = true /\
               exists yw, windows st !! y = Some yw /\ desktop yw = desktop win) ->
    exists st' fo',
      Close depth k n fuel w (st, fo) = Some (st', fo') /\
      wf st' = true /\ linked st' = true /\
      windows st' !! w = Some (withChildren [] win) /\
      (forall p pw, parent win = Some p -> windows st !! p = Some pw ->
                    windows st' !! p =
                    Some (withChildren (removeFirst w (children pw)) pw)) /\
      (forall j, (j < w)%nat -> parent win <> Some j ->
                 windows st' !! j = windows st !! j) /\
      (forall j x, windows st !! j = Some x ->
                   exists cs, windows st' !! j = Some (withChildren cs x) /\
                              forall c, List.In c cs -> List.In c (children x)) /\
      focus fo' w = false /\
      FocusedWindow (desktop win) (st', fo') <> Some w /\
      (forall x, focus fo' x = true -> focus fo x = true).
Proof.
  intros depth k n fuel st fo w win dsk rw
         Hwf Hl Hsd Hfc Hfuel Hn Hdepth Hw Hd Hr Hrd Hrec.
  destruct (focusCtx_intro _ _ _ _ _ _ Hwf Hfuel Hw Hd Hr Hrd) as [C Hin].
  assert (Hc : closable fuel k st fo (desktop win) (root dsk)).
  { split; [exact C|]. repeat (split; [assumption|]). exact Hrec. }
  destruct (Close_ok fuel k n _ _ Hn depth w st fo Hc Hin Hdepth)
    as (st' & fo' & H & Hc' & P & Fr & Par & Hw' & Hf & Hm).
  exists st', fo'. split; [exact H|].
  destruct Hc' as ((Hwf' & _ & (dsk' & Hd' & Hr') & _) & Hl' & _ & _ & Hrec').
  split; [exact Hwf'|]. split; [exact Hl'|].
  split; [now apply Hw'|].
  split; [intros p pw Hp Hpw; eapply Par; eauto|].
  split.
  { intros j Hj Hnp. apply Fr; [exact Hj|].
    intros win0 Hw0. rewrite Hw in Hw0. injection Hw0 as <-. exact Hnp. }
  split.
  { intros j x Hx. destruct (pruned_fwd _ _ _ _ P Hx) as (cs & H1 & H2 & _).
    exists cs. auto. }
  split; [exact Hf|].
  split; [|exact Hm].
  unfold FocusedWindow. cbn [fst snd]. rewrite Hd', Hr'.
  intros E. destruct (Hrec' w E) as [E' _]. congruence.
Qed.

Lemma Close_returns_witness :
  exists st' fo' r0 r1 r2,
    Close 3 2 3 8 1 (siblingWindows, focusOnOne) = Some (st', fo') /\
    windows st' !! 0%nat = Some r0 /\ children r0 = [3%nat] /\
    windows st' !! 1%nat = Some r1 /\ children r1 = [] /\
    windows st' !! 2%nat = Some r2 /\ parent r2 = Some 1%nat /\
    focus fo' 1%nat = false /\
    FocusedWindow 0 (st', fo') <> Some 1%nat.
Proof.
  destruct (lookup_valid (windows siblingWindows) 1 ltac:(simpl; lia)) as [win Hwin].
  assert (Hwin' := Hwin). vm_compute in Hwin'. injection Hwin' as Hwin'.
  destruct (lookup_valid (windows siblingWindows) 2 ltac:(simpl; lia)) as [w2 Hw2].
  assert (Hw2' := Hw2). vm_compute in Hw2'. injection Hw2' as Hw2'.
  destruct (lookup_valid (windows siblingWindows) 0 ltac:(simpl; lia)) as [rw Hrw].
  assert (Hrw' := Hrw). vm_compute in Hrw'. injection Hrw' as Hrw'.
  destruct (lookup_valid (desktops siblingWindows) 0 ltac:(simpl; lia)) as [dsk Hdsk].
  assert (Hdsk' := Hdsk). vm_compute in Hdsk'. injection Hdsk' as Hdsk'.
  assert (Hdw : desktop win = 0%nat) by (subst win; reflexivity).
  assert (Hroot : root dsk = 0%nat) by (subst dsk; reflexivity).
  assert (Hpar : parent win = Some 0%nat) by (subst win; reflexivity).
  assert (Hch : children rw = [1%nat; 3%nat]) by (subst rw; reflexivity).
  destruct (Close_returns 3 2 3 8 siblingWindows focusOnOne 1%nat win dsk rw)
    as (st' & fo' & H1 & _ & _ & H4 & H5 & _ & H7 & H8 & H9 & _).
  - reflexivity.
  - reflexivity.
  - reflexivity.
  - reflexivity.
  - simpl. lia.
  - lia.
  - simpl. lia.
  - exact Hwin.
  - rewrite Hdw. exact Hdsk.
  - rewrite Hroot. exact Hrw.
  - rewrite Hdw. subst rw. reflexivity.
  - intros y Hy. rewrite Hroot in Hy. simpl in Hy. injection Hy as <-.
    split; [reflexivity|]. exists win. split; [exact Hwin|reflexivity].
  - destruct (H7 _ _ Hw2) as (cs2 & G2 & _).
    eexists st', fo', _, _, _. split; [exact H1|].
    split; [exact (H5 _ _ Hpar Hrw)|].
    split; [cbn [children withChildren]; rewrite Hch; reflexivity|].
    split; [exact H4|]. split; [reflexivity|].
    split; [exact G2|]. split; [subst w2; reflexivity|].
    split; [exact H8|]. rewrite Hdw in H9. exact H9.
Defined.

(** * Resizing the screen *)

(** [func (a *Application) onSetSizeHandler] *)
Definition Application_onSetSizeHandler (fuel : nat) : Handler Size SizeLoc :=
  fun _ prev dst src st =>
    do st <- match prev with
             | Some prev => prev None dst src st
             | None => store dst src st
             end;
    match app_desktop st with
    | None => Some st
    | Some d =>
      do dsk <- desktops st !! d;
      setSize fuel (root dsk) (app_size st) st
    end.

(** [func (a *Application) setSize(s Size)], called by [handleEvents]
    on a [tcell.EventResize]. *)
Definition Application_setSize (fuel : nat) (s : Size) (st : State)
  : option State :=
  Handle fuel [Application_onSetSizeHandler fuel] None LAppSize s st.

(** [altered], and the screen size is the same in both states. *)
Definition alteredA (f : Window -> Window) (w : WinId) (st st' : State) : Prop :=
  altered f w st st' /\ app_size st' = app_size st.

Lemma alteredA_shape f w st st1 st2 :
  alteredA f w st st1 -> shapeFrame st1 st2 -> alteredA f w st st2.
Proof.
  intros [Ha Hs] S. split; [eapply altered_shape; eauto|].
  destruct S as (_ & _ & A & _). congruence.
Qed.

Lemma updWindow_app_size w f st st' :
  updWindow w f st = Some st' -> app_size st' = app_size st.
Proof.
  unfold updWindow. destruct (windows st !! w); [|discriminate].
  intros H. injection H as <-. reflexivity.
Qed.

Section ScreenResize.

Variables (st0 : State) (w : WinId) (win : Window).
Hypothesis Hwf0 : wf st0 = true.
Hypothesis Hwin0 : windows st0 !! w = Some win.

Let m := (2 * length (windows st0))%nat.

Lemma sizedA_Invalidate sz cs st fuel area :
  alteredA (withSizes sz cs) w st0 st -> (m <= fuel)%nat ->
  exists st', Invalidate fuel w area st = Some st' /\
              alteredA (withSizes sz cs) w st0 st'.
Proof.
  intros Ha Hfuel.
  destruct (sized_good _ _ _ Hwf0 Hwin0 _ _ _ (proj1 Ha)) as (H1 & H2 & H3 & H4).
  destruct (Invalidate_ok fuel st w area H1) as (st' & Hi & Hf);
    [lia|unfold m in Hfuel; lia|].
  exists st'. split; [assumption|]. eapply alteredA_shape; eauto.
Qed.

Lemma sizedA_InvalidateClientArea sz cs st fuel area :
  alteredA (withSizes sz cs) w st0 st -> (m <= fuel)%nat ->
  exists st', InvalidateClientArea fuel w area st = Some st' /\
              alteredA (withSizes sz cs) w st0 st'.
Proof.
  intros Ha Hfuel.
  destruct (sized_good _ _ _ Hwf0 Hwin0 _ _ _ (proj1 Ha)) as (H1 & H2 & H3 & H4).
  destruct (InvalidateClientArea_ok fuel st w area H1) as (st' & Hi & Hf);
    [lia|unfold m in Hfuel; lia|].
  exists st'. split; [assumption|]. eapply alteredA_shape; eauto.
Qed.

Lemma sizedA_store_size sz cs s st :
  alteredA (withSizes sz cs) w st0 st ->
  exists st', store (LSize w) s st = Some st' /\
              alteredA (withSizes s cs) w st0 st'.
Proof.
  intros [Ha Hs].
  destruct (sized_store_size _ _ _ Hwin0 _ _ s _ Ha) as (st' & H1 & H2).
  exists st'. split; [assumption|]. split; [assumption|].
  cbn [store SizeKind] in H1. rewrite (updWindow_app_size _ _ _ _ H1). exact Hs.
Qed.

Lemma sizedA_store_clientSize sz cs c st :
  alteredA (withSizes sz cs) w st0 st ->
  exists st', store (LClientSize w) c st = Some st' /\
              alteredA (withSizes sz c) w st0 st'.
Proof.
  intros [Ha Hs].
  destruct (sized_store_clientSize _ _ _ Hwin0 _ _ c _ Ha) as (st' & H1 & H2).
  exists st'. split; [assumption|]. split; [assumption|].
  cbn [store SizeKind] in H1. rewrite (updWindow_app_size _ _ _ _ H1). exact Hs.
Qed.

Lemma bracketA sz cs sz' cs' fuel st (body : State -> option State) :
  alteredA (withSizes sz cs) w st0 st -> (m <= fuel)%nat ->
  (forall st1, alteredA (withSizes sz cs) w st0 st1 ->
               exists st2, body st1 = Some st2 /\
                           alteredA (withSizes sz' cs') w st0 st2) ->
  exists st',
    (do st1 <- BeginUpdate (Some w) st;
     do st2 <- body st1;
     EndUpdate fuel (Some w) st2) = Some st' /\
    alteredA (withSizes sz' cs') w st0 st'.
Proof.
  intros Ha Hfuel Hbody.
  destruct (sized_good _ _ _ Hwf0 Hwin0 _ _ _ (proj1 Ha)) as (H1 & H2 & H3 & H4).
  destruct (BeginUpdate_ok st w H1 ltac:(lia)) as (st1 & -> & Hf1).
  destruct (Hbody st1 (alteredA_shape _ _ _ _ _ Ha Hf1)) as (st2 & -> & Ha2).
  destruct (sized_good _ _ _ Hwf0 Hwin0 _ _ _ (proj1 Ha2)) as (G1 & G2 & G3 & G4).
  destruct (EndUpdate_ok fuel st2 w G1) as (st3 & -> & Hf3);
    [lia|unfold m in Hfuel; lia|].
  exists st3. split; [reflexivity|]. eapply alteredA_shape; eauto.
Qed.

(** [setSize] and [SetClientSize] leave the screen size alone. *)
Lemma setSize_keeps_screen : forall k st sz cs,
  alteredA (withSizes sz cs) w st0 st ->
  (forall s sz' cs',
      sizeAfter k win s sz cs = Some (sz', cs') ->
      exists st', setSize (m + k) w s st = Some st' /\
                  alteredA (withSizes sz' cs') w st0 st') /\
  (forall c sz' cs',
      clientSizeAfter k win c sz cs = Some (sz', cs') ->
      exists st', SetClientSize (m + k) w c st = Some st' /\
                  alteredA (withSizes sz' cs') w st0 st').
Proof.
  induction k as [|k IH]; intros st sz cs Ha; [split; intros; discriminate|].
  destruct (sized_good _ _ _ Hwf0 Hwin0 _ _ _ (proj1 Ha)) as (Hwf & Hlen & Hl & Hw).
  replace (m + S k)%nat with (S (m + k)) by lia.
  split.
  - intros s sz' cs' Hp. cbn [sizeAfter] in Hp. cbn [setSize].
    unfold Handle. cbn [load SizeKind chainHead veqb]. rewrite Hl.
    change (size (withSizes sz cs win)) with sz.
    destruct (Size_eqb sz s).
    { injection Hp as <- <-. eauto. }
    apply (bracketA sz cs); [assumption|lia|].
    intros st1 Ha1.
    unfold onSetSizeHandler, panicIfPrev.
    destruct (sized_good _ _ _ Hwf0 Hwin0 _ _ _ (proj1 Ha1)) as (_ & _ & Hl1 & _).
    rewrite Hl1.
    destruct (sizedA_Invalidate _ _ _ (m + k)
                (Area (withSizes sz cs win)) Ha1 ltac:(lia))
      as (st2 & -> & Ha2).
    destruct (sizedA_store_size _ _ (clampSize s) _ Ha2) as (st3 & Hs3 & Ha3).
    unfold clampSize in Hs3. rewrite Hs3.
    destruct (sized_good _ _ _ Hwf0 Hwin0 _ _ _ (proj1 Ha3)) as (_ & _ & Hl3 & _).
    rewrite Hl3.
    destruct (IH st3 _ _ Ha3) as [_ IHc].
    destruct (IHc _ _ _ Hp) as (st4 & Hs4 & Ha4).
    unfold clientOf, clampSize in Hs4. cbn [Width Height] in Hs4.
    change (borderLeft (withSizes (clampSize s) cs win)) with (borderLeft win).
    change (borderRight (withSizes (clampSize s) cs win)) with (borderRight win).
    change (borderTop (withSizes (clampSize s) cs win)) with (borderTop win).
    change (borderBottom (withSizes (clampSize s) cs win)) with (borderBottom win).
    cbn [Width Height]. rewrite Hs4.
    destruct (sized_good _ _ _ Hwf0 Hwin0 _ _ _ (proj1 Ha4)) as (_ & _ & Hl4 & _).
    rewrite Hl4.
    apply sizedA_Invalidate; [assumption|lia].
  - intros c sz' cs' Hp. cbn [clientSizeAfter] in Hp. cbn [SetClientSize].
    unfold Handle. cbn [load SizeKind chainHead veqb]. rewrite Hl.
    change (Sz (clientArea (withSizes sz cs win))) with cs.
    destruct (Size_eqb cs c).
    { injection Hp as <- <-. eauto. }
    apply (bracketA sz cs); [assumption|lia|].
    intros st1 Ha1.
    unfold onSetClientSizeHandler, panicIfPrev.
    destruct (sized_good _ _ _ Hwf0 Hwin0 _ _ _ (proj1 Ha1)) as (_ & _ & Hl1 & _).
    rewrite Hl1.
    destruct (sizedA_Invalidate _ _ _ (m + k)
                (Area (withSizes sz cs win)) Ha1 ltac:(lia))
      as (st2 & -> & Ha2).
    destruct (sizedA_store_clientSize _ _ (clampSize c) _ Ha2) as (st3 & Hs3 & Ha3).
    unfold clampSize in Hs3. rewrite Hs3.
    destruct (sized_good _ _ _ Hwf0 Hwin0 _ _ _ (proj1 Ha3)) as (_ & _ & Hl3 & _).
    rewrite Hl3.
    change (parent (withSizes sz (clampSize c) win)) with (parent win).
    unfold ifHasParent. rewrite Hl3.
    change (parent (withSizes sz (clampSize c) win)) with (parent win).
    destruct (parent win) as [p|] eqn:Hpar.
    + destruct (IH st3 _ _ Ha3) as [IHs _].
      destruct (IHs _ _ _ Hp) as (st4 & Hs4 & Ha4).
      unfold windowOf, clampSize in Hs4. cbn [Width Height] in Hs4.
      change (borderLeft (withSizes sz (clampSize c) win)) with (borderLeft win).
      change (borderRight (withSizes sz (clampSize c) win)) with (borderRight win).
      change (borderTop (withSizes sz (clampSize c) win)) with (borderTop win).
      change (borderBottom (withSizes sz (clampSize c) win)) with (borderBottom win).
      cbn [Width Height]. rewrite Hs4.
      destruct (sized_good _ _ _ Hwf0 Hwin0 _ _ _ (proj1 Ha4)) as (_ & _ & Hl4 & _).
      rewrite Hl4.
      apply sizedA_Invalidate; [assumption|lia].
    + injection Hp as <- <-. rewrite Hl3.
      apply sizedA_InvalidateClientArea; [assumption|lia].
Qed.

End ScreenResize.

(** X29: [Application.setSize(s)], the reaction to a resize of the
    terminal.  With the size the application has it does nothing.
    Otherwise it returns and the application has the size [s]; with no
    desktop shown nothing else changes; with a desktop shown, whose
    root has borders that fit in [s], the root window gets exactly the
    size [s] and the client size the borders leave, and no other window
    changes. *)
Theorem Application_setSize_resizes :
  forall (fuel : nat) (st : State) (s : Size),
    wf st = true ->
    (2 * length (windows st) + 4 <= fuel)%nat ->
    (app_size st = s -> Application_setSize fuel s st = Some st) /\
    (app_size st <> s ->
     (app_desktop st = None ->
      exists st',
        Application_setSize fuel s st = Some st' /\
        app_size st' = s /\ windows st' = windows st /\
        desktops st' = desktops st /\ app_desktop st' = None) /\
     (forall d dsk rw,
         app_desktop st = Some d ->
         desktops st !! d = Some dsk ->
         windows st !! root dsk = Some rw ->
         smallBorders rw -> smallSize s ->
         0 <= borderLeft rw + borderRight rw <= Width s ->
         0 <= borderTop rw + borderBottom rw <= Height s ->
         sizeInv rw (size rw) (ClientSize rw) ->
         exists st',
           Application_setSize fuel s st = Some st' /\
           app_size st' = s /\
           windows st' =
           <[root dsk :=
               withSizes s (mkSize (Width s - borderLeft rw - borderRight rw)
                                   (Height s - borderTop rw - borderBottom rw))
                         rw]> (windows st) /\
           app_desktop st' = Some d /\
           map root (desktops st') = map root (desktops st) /\
           wf st' = true)).
Proof.
  intros fuel st s Hwf Hfuel.
  unfold Application_setSize, Handle. cbn [load store veqb SizeKind chainHead].
  split.
  { intros ->. now rewrite Size_eqb_refl. }
  intros Hne.
  assert (E : Size_eqb (app_size st) s = false).
  { destruct (Size_eqb (app_size st) s) eqn:E; [|reflexivity].
    apply Size_eqb_eq in E. contradiction. }
  rewrite E. cbn [BeginUpdate EndUpdate].
  destruct (Application_beginUpdate_ok st Hwf) as (sb & l & -> & Hsb).
  unfold Application_onSetSizeHandler. cbn [store SizeKind].
  set (s1 := setAppSize s sb).
  assert (Hw1 : windows s1 = windows st) by (subst s1 sb; reflexivity).
  assert (Hd1 : desktops s1 = desktops st) by (subst s1 sb; reflexivity).
  assert (Ha1 : app_desktop s1 = app_desktop st) by (subst s1 sb; reflexivity).
  assert (Hs1 : app_size s1 = s) by reflexivity.
  assert (Hwf1 : wf s1 = true).
  { rewrite <- Hwf. subst s1 sb. destruct st; reflexivity. }
  rewrite Ha1. split.
  - intros Hnone. rewrite Hnone.
    destruct (Application_endUpdate_ok s1 Hwf1) as (s2 & l2 & -> & -> & _).
    eexists. split; [reflexivity|]. cbn [app_size windows desktops app_desktop].
    rewrite Hw1, Hd1, Ha1, Hnone. auto.
  - intros d dsk rw Had Hd Hrw Hb Hs Hfw Hfh Hi. rewrite Had, Hd1, Hd.
    rewrite Hs1.
    assert (Hrw1 : windows s1 !! root dsk = Some rw) by (now rewrite Hw1).
    pose proof (sizeAfter_exact rw s _ _ Hb Hs Hfw Hfh Hi) as Hp.
    apply (sizeAfter_more rw (fuel - 2 * length (windows st) - 4)) in Hp.
    destruct (setSize_keeps_screen s1 (root dsk) rw Hwf1 Hrw1
                (4 + (fuel - 2 * length (windows st) - 4)) s1
                (size rw) (ClientSize rw)) as [Hset _].
    { split; [|reflexivity]. eapply altered_same; [exact Hrw1|].
      apply withSizes_same. }
    destruct (Hset _ _ _ Hp) as (s2 & H2 & A2 & As2).
    rewrite Hw1 in H2. rewrite <- fuel_split in H2 by assumption.
    rewrite H2.
    assert (K : keepsTree (withSizes s (mkSize (Width s - borderLeft rw - borderRight rw)
                                              (Height s - borderTop rw - borderBottom rw))))
      by apply keepsTree_withSizes.
    assert (Hwf2 : wf s2 = true) by (now rewrite (altered_wf _ _ _ _ K A2)).
    destruct (Application_endUpdate_ok s2 Hwf2) as (s3 & l3 & -> & -> & _).
    eexists. split; [reflexivity|]. cbn [app_size windows desktops app_desktop].
    split; [congruence|].
    split.
    { rewrite <- Hw1. eapply altered_insert; eauto. }
    destruct A2 as (_ & Ad & Ar).
    split; [congruence|]. split; [now rewrite Ar, Hd1|].
    rewrite <- Hwf2. destruct s2; reflexivity.
Qed.

Lemma Application_setSize_resizes_witness :
  exists st' r,
    Application_setSize 10 (mkSize 100 30) nestedWindows = Some st' /\
    app_size st' = mkSize 100 30 /\
    windows st' !! 0%nat = Some r /\
    size r = mkSize 100 30 /\ ClientSize r = mkSize 100 30.
Proof.
  destruct (lookup_valid (desktops nestedWindows) 0 ltac:(simpl; lia)) as [dsk Hdsk].
  assert (Hdsk' := Hdsk). vm_compute in Hdsk'. injection Hdsk' as Hdsk'.
  destruct (lookup_valid (windows nestedWindows) 0 ltac:(simpl; lia)) as [rw Hrw].
  assert (Hrw' := Hrw). vm_compute in Hrw'. injection Hrw' as Hrw'.
  assert (Hroot : root dsk = 0%nat) by (subst dsk; reflexivity).
  destruct (Application_setSize_resizes 10 nestedWindows (mkSize 100 30)) as [_ H].
  - reflexivity.
  - simpl. lia.
  - destruct H as [_ H]; [discriminate|].
    destruct (H 0%nat dsk rw) as (st' & H1 & H2 & H3 & _).
    + reflexivity.
    + exact Hdsk.
    + rewrite Hroot. exact Hrw.
    + subst rw. unfold smallBorders, small. simpl. lia.
    + unfold smallSize, small. simpl. lia.
    + subst rw. simpl. lia.
    + subst rw. simpl. lia.
    + subst rw. unfold sizeInv. simpl. lia.
    + eexists st', _. split; [exact H1|]. split; [exact H2|].
      split; [rewrite H3, Hroot; apply list_lookup_insert_eq; simpl; lia|].
      subst rw. split; reflexivity.
Defined.
